(* ===== verification/_CoqProject ===== *)
-Q . S2P
Prelude.v
C2lib.v
Forest.v
ReactorHandles.v
ReactorTimers.v
Reactor.v
WaitQueue.v
Locks.v
Mutex.v
Rwlock.v
Prog.v
Cstring.v
Environ.v
CgiEscape.v
Stack.v
Threads.v
Context.v
Exceptions.v
Blocking.v
Listener.v
Descriptors.v
Server.v
ServerSpec.v
Programs.v
Iolib.v
IolibSpec.v
IolibStreams.v
Popen.v
IoThreads.v
IoWorld.v
IoKeeps.v
IoClose.v
Http.v
HttpSpec.v
HttpResponses.v
Cgi.v
Eg1Echo.v
EchoReactor.v
Eg2Server.v
Eg2Spec.v
Eg2Examples.v
Ftpc.v
FtpcSpec.v
Regex.v
DbiTime.v
DbiQuery.v
Dbi.v
DbiSpec.v
DbiOps.v
DbiReach.v
DbiFetch.v
DbiExamples.v
