(* ===== verification/Prelude.v ===== *)
(** * Verification of pthrlib

    pthrlib is a C library of cooperative threads ("pseudothreads") for network
    servers.  One process runs a reactor, a loop around [poll] that calls event
    handlers and timers; each thread runs on its own stack until it would block,
    registers with the reactor and switches back to it.  On the threads are built
    wait queues, mutexes, readers/writers locks and buffered I/O; on the I/O
    library the HTTP server side, CGI parameters and an FTP client; beside them an
    interface to PostgreSQL, and the start-up code and the listener thread of
    servers, with two example servers.  All paths below are relative to the
    directory [src] of the repository, those of the examples to its root.

    ** Parts, files and their correspondence to the code

    - [Prelude.v], [Prog.v]: machine integers with their wrap-around, bytes, and
      the ways a function of the library ends (returns, [pth_die], [pth_exit],
      [abort] or an invalid access, out of fuel).
    - [C2lib.v], [Cstring.v]: pthrlib is built on c2lib, which is not part of
      the repository.  Its pools, vectors, hashes and string functions are the
      classes [Pools], [Vector], [Shash] and [Pstring]; their laws are its
      documented behaviour and each class has an executable instance.
      [Cstring.v] also has the C library's character and number functions.
      [Forest.v] gives the effect of pool operations on the trees of pools that
      the locks use.
    - [pthr_reactor.c]: [ReactorHandles.v] (the arrays [handles] and
      [poll_array]; [reactor_register], [reactor_unregister], with what [memcpy]
      does to overlapping cells as the class [Memcpy]),
      [ReactorTimers.v] (the doubly linked delta queue in memory), [Reactor.v]
      (whole state; timers, prepoll handlers, [reactor_invoke],
      [reactor_init], [reactor_stop]).
    - [pthr_wait_queue.c]: [WaitQueue.v]; [pthr_mutex.c]: [Mutex.v];
      [pthr_rwlock.c]: [Rwlock.v].  [Locks.v] has the interface [Lock] both
      locks implement, and the machine of threads, wake-ups, alarms and exits in
      which they are used, as a step function with its reachable states.
    - [pthr_stack.c]: [Stack.v].
    - [pthr_pseudothread.c]: [Threads.v] (table of threads), [Exceptions.v]
      ([pth_catch], [_pth_die], [pth_exit]; [setjmp] saves a control stack),
      [Blocking.v] (every blocking call, [_sleep], [_poll], [pth_select],
      alarms, LANGUAGE and TZ), [Environ.v] (the replacement of [setenv] by
      [putenv]), [Context.v] (the switches between threads and their callers on
      the contexts of [pthr_context.c]: a machine with registers and a memory of
      words, in which [setjmp] and [longjmp] save and restore registers).
    - [pthr_iolib.c]: [Iolib.v], with proofs in [IolibSpec.v] and
      [IolibStreams.v]; the interface to the layer below is the class
      [Sockets].  [IoThreads.v] discharges that interface with the calls of
      [Blocking.v].  [IoWorld.v] carries the results to larger states;
      [IoKeeps.v] has what operations on handles leave alone, [IoClose.v] the
      closing of handles.  [Popen.v] has [io_popen] and [io_pclose] on the tables
      of descriptors of [Descriptors.v].
    - [pthr_http.c]: [Http.v], proofs in [HttpSpec.v] (requests) and
      [HttpResponses.v]; [pthr_cgi.c]: [CgiEscape.v] and [Cgi.v].
    - [pthr_ftpc.c]: [Ftpc.v], proofs in [FtpcSpec.v]; sockets, names and local
      files are the class [Net].
    - [pthr_dbi.c]: [Regex.v] (backtracking matching of the patterns the code
      uses), [DbiTime.v] (timestamps and intervals), [DbiQuery.v] (the text of
      queries and the escaping of strings; the scanner of the server is the class
      [SqlLexer]), [Dbi.v] (connections, statements,
      transactions, results); proofs in [DbiSpec.v], [DbiOps.v], [DbiReach.v]
      (states reachable by sequences of calls) and [DbiFetch.v] (rows);
      [DbiExamples.v] runs them against a scripted server.  libpq is the class
      [Libpq]; which queries begin and end transactions is the class [TxCommands].
    - [pthr_server.c]: [Server.v], proofs in [ServerSpec.v]; the answers of the
      operating system are the class [System].  [pthr_listener.c]: [Listener.v],
      on [pth_accept] of [Blocking.v].  [Programs.v] has the functions that create
      the threads of the listener and of the examples ([new_listener],
      [new_eg1_echo_processor], [new_eg2_server_processor]) and the main programs
      of the examples.
    - [examples/pthr_eg1_echo.c]: [Eg1Echo.v], and [EchoReactor.v] for the same
      thread over the blocking calls and the reactor; [examples/pthr_eg2_server.c]:
      [Eg2Server.v], proofs in [Eg2Spec.v], a session in [Eg2Examples.v]; the file
      system is the classes [Disk] and [Files].

    Records keep the fields of the C structures, pointers are addresses in
    finite maps, and global variables are fields of the state.  Code that
    crosses a context switch is split at the switch (wait queues, locks) or takes
    what the others do meanwhile as the parameter [switch] (blocking calls).
    System calls, handlers of clients and c2lib are parameters.

    ** What the theorems show

    - Reactor: the arrays implement a finite map under any sequence of calls, as
      long as [memcpy] copies overlapping cells to lower addresses as [memmove] does
      ([CopiesForward]) or no more than one cell follows the one removed; the
      theorems about blocking calls, sessions and the listener take [CopiesForward]
      as a hypothesis.  The array given to [poll] is exact; the delta queue
      implements a schedule of absolute times; one turn of the loop, also with
      handlers that use the reactor themselves, calls timers, prepoll handlers and
      handles as documented, under the restrictions that the theorem names; no due
      timer is left; when shut-down completes.
    - Locks: in every reachable state of the machine, mutual exclusion, no lost
      wake-up for mutexes and for writers, release at thread exit, and exactly
      which misuse aborts the program.  For the readers/writers lock the states are
      those reached without a thread entering for reading a lock it is inside.
    - Threads: the table lists each live thread once on a stack of its own;
      stacks are unmapped once and not while in use; exceptions behave as nested
      handlers; blocking calls return the first answer that is not that they would
      block and leave nothing registered; the sets computed by [pth_select]; the
      contexts implement coroutines, with the stacks of threads and of those who
      started or resumed them put back, and a thread begins in [thread_trampoline]
      with itself as the argument; setting variables with [putenv] is the same as
      with [setenv], up to the size of the buffers.
    - I/O: a handle refines a pair of streams however the kernel splits reads
      and writes, also over the blocking calls and the reactor; copying and the
      bound of [io_fgets]; a program started by [io_popen] is connected by
      exactly one pipe.
    - HTTP, CGI, FTP: requests and parameters read back what a client wrote;
      every input ends in one of the documented ways; the text of responses and
      chunks; commands and replies of an FTP session; ports in PASV and PORT.
    - Database: no sequence of calls uses a result or handle that was freed, and
      which calls abort; queries are sent within transactions and the flag of a
      handle says when one is open; the server reads the arguments of a statement
      as constants whatever they contain, where the placeholders are between
      tokens; every row is fetched once, with the values the server printed,
      fractions of seconds with fewer than six digits excepted; bound variables
      keep their types.
    - Servers: the socket, the descriptors and the user a server starts with;
      every connection is handed on once; the two example servers, from the
      requests on a connection to the bytes sent back on it, as compositions of
      the libraries above, the echo server down to the system calls.
    - Deviations: several theorems prove behaviour that is at odds with the
      comments or with the intent of the code (a skipped prepoll handler, events
      of a former owner, a copy of overlapping cells, a forgotten reader, a reader
      that enters twice, a null set in [pth_select], a byte
      0xFF taken for the end of file, a store after a buffer in the CGI code, a
      socket left open by the FTP client, descriptors left open by the file
      server, a listening socket closed with the terminal, rows of an earlier
      query after a failed one, a placeholder in a comment, buffers of [do_setenv] that are never reused, a
      user looked for below the new root directory, ...).

    ** Bounds and fuel

    Integers are kept at their width where they can overflow.  Loops over data
    recurse on it.  Loops whose length depends on the outside take fuel: a
    blocking call needs more than the number of times the socket makes it wait,
    the copying loop one more than the bytes to be read, the FTP client one more
    than the lines of a reply; the theorems state the amount and that it is
    enough.  [NoFuel] is a result of its own and never counts as an answer.

    ** Not modelled

    - The variant of [pthr_context.c] with [getcontext] and [makecontext], which
      only calls the C library, and the layout of jump buffers on the various
      systems ([SET_PC], [SET_SP]).
    - [catch_sigsegv] of the server (a stack trace on the standard error output)
      and the signal handlers of the file server's main program.
    - The test programs, which only call the library.
    - Messages to the system log and the standard error output; the memory of
      pools, except where clean-up functions have effects. *)

From stdpp Require Import base list gmap strings.
From Stdlib Require Import Strings.Byte.

(** ** Automation *)

Create HintDb pthr.
#[export] Hint Constants Opaque : pthr.

(** ** Notations *)

Declare Scope pthr_scope.
Delimit Scope pthr_scope with pthr.

(** ** Machine integers

    The library is written for 32-bit [int], 16-bit [short], 64-bit
    [unsigned long long] and signed 8-bit [char] (i386).  Values are [Z];
    every conversion to a narrower type is one of the wraps below. *)

Open Scope Z_scope.

Definition wrapu (w : Z) (z : Z) : Z := z mod 2 ^ w.

Definition wraps (w : Z) (z : Z) : Z :=
  (z + 2 ^ (w - 1)) mod 2 ^ w - 2 ^ (w - 1).

Abbreviation to_u64 := (wrapu 64).
Abbreviation to_u32 := (wrapu 32).
Abbreviation to_int := (wraps 32).
Abbreviation to_short := (wraps 16).
Abbreviation to_char := (wraps 8).

Definition INT_MAX : Z := 2147483647.
Definition INT_MIN : Z := -2147483648.

Lemma wrapu_small w z : 0 <= z < 2 ^ w -> wrapu w z = z.
Proof. intros. unfold wrapu. by apply Z.mod_small. Qed.

Lemma wrapu_range w z : 0 <= w -> 0 <= wrapu w z < 2 ^ w.
Proof. intros. unfold wrapu. apply Z.mod_pos_bound. lia. Qed.

Lemma wrapu_idemp w z : wrapu w (wrapu w z) = wrapu w z.
Proof. unfold wrapu. by rewrite Zmod_mod. Qed.

Lemma wrapu_add_l w a b : wrapu w (wrapu w a + b) = wrapu w (a + b).
Proof. unfold wrapu. by rewrite Zplus_mod_idemp_l. Qed.

Lemma wrapu_add_r w a b : wrapu w (a + wrapu w b) = wrapu w (a + b).
Proof. unfold wrapu. by rewrite Zplus_mod_idemp_r. Qed.

Lemma wrapu_sub_l w a b : wrapu w (wrapu w a - b) = wrapu w (a - b).
Proof. unfold wrapu. by rewrite Zminus_mod_idemp_l. Qed.

Lemma wrapu_sub_r w a b : wrapu w (a - wrapu w b) = wrapu w (a - b).
Proof. unfold wrapu. by rewrite Zminus_mod_idemp_r. Qed.

Lemma wraps_small w z :
  0 < w -> - 2 ^ (w - 1) <= z < 2 ^ (w - 1) -> wraps w z = z.
Proof.
  intros Hw Hz. unfold wraps.
  assert (2 ^ w = 2 * 2 ^ (w - 1)) as Hp.
  { rewrite <- Z.pow_succ_r by lia. f_equal. lia. }
  rewrite Z.mod_small; lia.
Qed.

Lemma wraps_range w z : 0 < w -> - 2 ^ (w - 1) <= wraps w z < 2 ^ (w - 1).
Proof.
  intros Hw. unfold wraps.
  assert (2 ^ w = 2 * 2 ^ (w - 1)) as Hp.
  { rewrite <- Z.pow_succ_r by lia. f_equal. lia. }
  assert (0 < 2 ^ (w - 1)) by (apply Z.pow_pos_nonneg; lia).
  pose proof (Z.mod_pos_bound (z + 2 ^ (w - 1)) (2 ^ w) ltac:(lia)). lia.
Qed.

Create Rewrite HintDb wrap.
#[export] Hint Rewrite wrapu_idemp wrapu_add_l wrapu_add_r wrapu_sub_l
  wrapu_sub_r : wrap.

(** ** Generic lemmas on lists *)

Section lists.
Context {A : Type}.
Implicit Types l : list A.

(** The array left by copying [n] elements from [src] down to [dst]
    ([dst < src]); cells outside the target range keep their value. *)
Definition copy_down (dst src n : nat) (l : list A) : list A :=
  take dst l ++ take n (drop src l) ++ drop (dst + n) l.

Lemma copy_down_length dst src n l :
  (dst <= src)%nat -> (src + n <= length l)%nat ->
  length (copy_down dst src n l) = length l.
Proof.
  intros. unfold copy_down.
  rewrite !length_app, !length_take, !length_drop. lia.
Qed.

Lemma copy_down_lookup_lt dst src n l i :
  (i < dst)%nat -> (dst <= length l)%nat -> copy_down dst src n l !! i = l !! i.
Proof.
  intros. unfold copy_down.
  rewrite lookup_app_l by (rewrite length_take; lia).
  by rewrite lookup_take_lt by lia.
Qed.

Lemma copy_down_lookup_in dst src n l i :
  (dst <= i < dst + n)%nat -> (src + n <= length l)%nat -> (dst <= src)%nat ->
  copy_down dst src n l !! i = l !! (i + (src - dst))%nat.
Proof.
  intros. unfold copy_down.
  rewrite lookup_app_r by (rewrite length_take; lia).
  rewrite length_take, lookup_app_l
    by (rewrite length_take, length_drop; lia).
  rewrite lookup_take_lt by lia. rewrite lookup_drop. f_equal. lia.
Qed.

(** The contents of a block grown by [realloc] to [n] cells: the old
    cells, then unspecified ones. *)
Definition realloc (junk : nat -> A) (l : list A) (n : nat) : list A :=
  l ++ (junk <$> seq (length l) (n - length l)).

Lemma realloc_length junk l n :
  (length l <= n)%nat -> length (realloc junk l n) = n.
Proof. intros. unfold realloc. rewrite length_app, length_fmap, length_seq. lia. Qed.

Lemma realloc_lookup_lt junk l n i :
  (i < length l)%nat -> realloc junk l n !! i = l !! i.
Proof. intros. unfold realloc. by rewrite lookup_app_l. Qed.

Lemma list_find_None_forall (P : A -> Prop) `{!forall x, Decision (P x)} l :
  list_find P l = None <-> forall i x, l !! i = Some x -> ~ P x.
Proof.
  rewrite list_find_None, Forall_lookup. done.
Qed.
End lists.

(** Running a list of actions that may fail, in order. *)
Fixpoint run_all {A W : Type} (run : A -> W -> option W) (l : list A) (w : W)
  : option W :=
  match l with
  | [] => Some w
  | a :: l => w' ← run a w; run_all run l w'
  end.
