(* ===== verification/C2lib.v ===== *)
(** * Interface of c2lib

    pthrlib is built on c2lib ([pool.h], [vector.h], [hash.h],
    [pstring.h]), which is not part of the repository.  Its operations
    are class methods here, its documented behaviour the laws of the
    classes.  Each class has an executable instance, used to run the model
    on concrete inputs. *)

From stdpp Require Import base list gmap.
From S2P Require Import Prelude.

(** ** [vector.h] *)

Class Vector (vec : Type -> Type) := {
  elems : forall {A}, vec A -> list A;
  new_vector : forall {A}, vec A;
  vector_size : forall {A}, vec A -> nat;
  vector_get : forall {A}, vec A -> nat -> option A;
  vector_replace : forall {A}, vec A -> nat -> A -> vec A;
  vector_push_back : forall {A}, vec A -> A -> vec A;
  vector_pop_back : forall {A}, vec A -> option (A * vec A);
  vector_pop_front : forall {A}, vec A -> option (A * vec A);
  vector_erase : forall {A}, vec A -> nat -> vec A;
  vector_clear : forall {A}, vec A -> vec A;
  copy_vector : forall {A}, vec A -> vec A;
  vector_fill : forall {A}, vec A -> A -> nat -> vec A;
  elems_new : forall A, elems (@new_vector A) = [];
  size_elems : forall A (v : vec A), vector_size v = length (elems v);
  get_elems : forall A (v : vec A) i,
    (i < length (elems v))%nat -> vector_get v i = elems v !! i;
  elems_replace : forall A (v : vec A) i x,
    (i < length (elems v))%nat -> elems (vector_replace v i x) = <[i := x]> (elems v);
  elems_push_back : forall A (v : vec A) x,
    elems (vector_push_back v x) = elems v ++ [x];
  pop_back_elems : forall A (v : vec A) l x,
    elems v = l ++ [x] ->
    exists v', vector_pop_back v = Some (x, v') /\ elems v' = l;
  pop_front_elems : forall A (v : vec A) x l,
    elems v = x :: l ->
    exists v', vector_pop_front v = Some (x, v') /\ elems v' = l;
  elems_erase : forall A (v : vec A) i,
    (i < length (elems v))%nat -> elems (vector_erase v i) = delete i (elems v);
  elems_clear : forall A (v : vec A), elems (vector_clear v) = [];
  elems_copy : forall A (v : vec A), elems (copy_vector v) = elems v;
  elems_fill : forall A (v : vec A) x n, elems (vector_fill v x n) = elems v ++ replicate n x
}.

Create Rewrite HintDb vec.
#[export] Hint Rewrite @elems_new @size_elems @elems_push_back @elems_clear
  @elems_copy @elems_fill : vec.

(** Vectors as lists. *)
Definition list_pop_back {A} (l : list A) : option (A * list A) :=
  match reverse l with [] => None | x :: r => Some (x, reverse r) end.

Definition list_pop_front {A} (l : list A) : option (A * list A) :=
  match l with [] => None | x :: r => Some (x, r) end.

Lemma list_pop_back_spec A (v l : list A) x :
  v = l ++ [x] -> exists v', list_pop_back v = Some (x, v') /\ v' = l.
Proof.
  intros ->. unfold list_pop_back. rewrite reverse_snoc. eexists. split; [done|].
  by rewrite reverse_involutive.
Qed.

Lemma list_pop_front_spec A (v : list A) x l :
  v = x :: l -> exists v', list_pop_front v = Some (x, v') /\ v' = l.
Proof. intros ->. by eexists. Qed.

#[export] Instance list_vector : Vector list := {|
  elems A l := l;
  new_vector A := [];
  vector_size A l := length l;
  vector_get A l i := l !! i;
  vector_replace A l i x := <[i := x]> l;
  vector_push_back A l x := l ++ [x];
  vector_pop_back A := list_pop_back;
  vector_pop_front A := list_pop_front;
  vector_erase A l i := delete i l;
  vector_clear A l := [];
  copy_vector A l := l;
  vector_fill A l x n := l ++ replicate n x;
  elems_new A := eq_refl;
  size_elems A v := eq_refl;
  get_elems A v i _ := eq_refl;
  elems_replace A v i x _ := eq_refl;
  elems_push_back A v x := eq_refl;
  pop_back_elems := list_pop_back_spec;
  pop_front_elems := list_pop_front_spec;
  elems_erase A v i _ := eq_refl;
  elems_clear A v := eq_refl;
  elems_copy A v := eq_refl;
  elems_fill A v x n := eq_refl |}.

(** ** [hash.h]

    Hashes whose keys are addresses. *)

Class Hash (hash : Type -> Type) := {
  entries : forall {V}, hash V -> gmap positive V;
  new_hash : forall {V}, hash V;
  hash_get : forall {V}, hash V -> positive -> option V;
  hash_insert : forall {V}, hash V -> positive -> V -> hash V;
  hash_erase : forall {V}, hash V -> positive -> option (hash V);
  entries_new : forall V, entries (@new_hash V) = ∅;
  get_entries : forall V (h : hash V) k, hash_get h k = entries h !! k;
  entries_insert : forall V (h : hash V) k v, entries (hash_insert h k v) = <[k := v]> (entries h);
  erase_entries : forall V (h : hash V) k,
    match hash_erase h k with
    | Some h' => is_Some (entries h !! k) /\ entries h' = delete k (entries h)
    | None => entries h !! k = None
    end
}.

Definition map_erase {V} (h : gmap positive V) (k : positive) : option (gmap positive V) :=
  if h !! k is Some _ then Some (delete k h) else None.

Lemma map_erase_spec V (h : gmap positive V) k :
  match map_erase h k with
  | Some h' => is_Some (h !! k) /\ h' = delete k h
  | None => h !! k = None
  end.
Proof. unfold map_erase. destruct (h !! k) eqn:E; eauto. Qed.

#[export] Instance map_hash : Hash (gmap positive) := {|
  entries V h := h;
  new_hash V := ∅;
  hash_get V h k := h !! k;
  hash_insert V h k v := <[k := v]> h;
  hash_erase V := map_erase;
  entries_new V := eq_refl;
  get_entries V h k := eq_refl;
  entries_insert V h k v := eq_refl;
  erase_entries := map_erase_spec |}.

(** ** [pool.h]

    Pools form a forest; deleting a pool deletes the pools below it and runs
    every clean-up function registered in any of them, each once, in an order
    the library does not specify.  [cl] is the type of clean-up actions. *)

Class Pools (cl : Type) := {
  pool : Type;
  pools : Type;
  pool_eq_dec :: EqDecision pool;
  within : pools -> pool -> pool -> Prop;
  cleanups : pools -> pool -> list cl;
  init_pools : pools;
  global_pool : pool;
  new_pool : pools -> pool * pools;
  new_subpool : pool -> pools -> pool * pools;
  pool_register_cleanup_fn : pool -> cl -> pools -> pools;
  delete_pool : pool -> pools -> list cl * pools;
  init_global : within init_pools global_pool global_pool;
  new_pool_spec : forall h q h',
    new_pool h = (q, h') ->
    (forall x, ~ within h x q) /\ cleanups h' q = [] /\
    (forall x y, within h' x y <-> within h x y \/ x = q /\ y = q) /\
    (forall x, x <> q -> cleanups h' x = cleanups h x);
  new_subpool_spec : forall p h q h',
    within h p p -> new_subpool p h = (q, h') ->
    (forall x, ~ within h x q) /\ cleanups h' q = [] /\
    (forall x y, within h' x y <->
       within h x y \/ x = q /\ (y = q \/ within h p y)) /\
    (forall x, x <> q -> cleanups h' x = cleanups h x);
  register_spec : forall p c h,
    within h p p ->
    (forall x y, within (pool_register_cleanup_fn p c h) x y <-> within h x y) /\
    cleanups (pool_register_cleanup_fn p c h) p ≡ₚ c :: cleanups h p /\
    (forall x, x <> p ->
       cleanups (pool_register_cleanup_fn p c h) x = cleanups h x);
  delete_spec : forall p h cs h',
    within h p p -> delete_pool p h = (cs, h') ->
    (exists qs, NoDup qs /\ (forall x, x ∈ qs <-> within h x p) /\
       cs ≡ₚ concat (cleanups h <$> qs)) /\
    (forall x y, within h' x y <-> within h x y /\ ~ within h x p) /\
    (forall x, ~ within h x p -> cleanups h' x = cleanups h x)
}.

(** A pool that is alive is within itself. *)
Abbreviation live h p := (within h p p).

(** Pools as a finite map from pool numbers to the chain of enclosing pools
    and the registered clean-up actions. *)
Section map_pools.
Context {cl : Type}.
Abbreviation pmap := (gmap positive (list positive * list cl)).

Definition mp_within (h : pmap) (x y : positive) : Prop :=
  exists e, h !! x = Some e /\ y ∈ e.1.

Definition mp_cleanups (h : pmap) (x : positive) : list cl :=
  default [] (snd <$> h !! x).

(** A number that no pool has or has had. *)
Definition mp_next (h : pmap) : positive :=
  fresh (concat ((fun e => e.1 :: e.2.1) <$> map_to_list h)).

Definition mp_new (h : pmap) : positive * pmap :=
  let q := mp_next h in (q, <[q := ([q], [])]> h).

Definition mp_sub (p : positive) (h : pmap) : positive * pmap :=
  let q := mp_next h in
  (q, <[q := (q :: default [] (fst <$> h !! p), [])]> h).

Definition mp_register (p : positive) (c : cl) (h : pmap) : pmap :=
  alter (fun e => (e.1, c :: e.2)) p h.

Definition mp_delete (p : positive) (h : pmap) : list cl * pmap :=
  (concat ((fun e => e.2.2) <$>
     map_to_list (filter (fun e => p ∈ e.2.1) h)),
   filter (fun e => p ∉ e.2.1) h).

Lemma mp_fresh (h : pmap) x : ~ mp_within h x (mp_next h) /\ h !! mp_next h = None.
Proof.
  pose proof (infinite_is_fresh (concat ((fun e => e.1 :: e.2.1) <$> map_to_list h)))
    as Hf.
  assert (forall y e, h !! y = Some e -> mp_next h ∉ y :: e.1) as Hy.
  { intros y e Hy Hin. apply Hf. apply list_elem_of_In, in_concat.
    exists (y :: e.1). split; [|by apply list_elem_of_In].
    apply list_elem_of_In, list_elem_of_fmap. exists (y, e). split; [done|].
    by apply elem_of_map_to_list. }
  split.
  - intros (e & He & Hin). apply (Hy _ _ He). by right.
  - apply eq_None_not_Some. intros [e He]. apply (Hy _ _ He). by left.
Qed.

Lemma mp_add_spec (h : pmap) q anc :
  (forall x, ~ mp_within h x q) -> h !! q = None ->
  (forall x, ~ mp_within h x q) /\ mp_cleanups (<[q := (q :: anc, [])]> h) q = [] /\
  (forall x y, mp_within (<[q := (q :: anc, [])]> h) x y <->
     mp_within h x y \/ x = q /\ (y = q \/ y ∈ anc)) /\
  (forall x, x <> q ->
     mp_cleanups (<[q := (q :: anc, [])]> h) x = mp_cleanups h x).
Proof.
  intros Hx Hq. split; [done|]. clear Hx.
  unfold mp_within, mp_cleanups. split; [|split].
  - by rewrite lookup_insert_eq.
  - intros x y. destruct (decide (x = q)) as [->|Hne].
    + rewrite lookup_insert_eq, Hq. split.
      * intros (e & [= <-] & Hy). simpl in Hy. apply elem_of_cons in Hy. auto.
      * intros [(e & ? & _)|[_ Hy]]; [done|]. eexists. split; [done|].
        simpl. by apply elem_of_cons.
    + rewrite lookup_insert_ne by done. naive_solver.
  - intros x Hx. by rewrite lookup_insert_ne.
Qed.

Lemma mp_register_spec (p : positive) (c : cl) (h : pmap) :
  mp_within h p p ->
  (forall x y, mp_within (mp_register p c h) x y <-> mp_within h x y) /\
  mp_cleanups (mp_register p c h) p ≡ₚ c :: mp_cleanups h p /\
  (forall x, x <> p -> mp_cleanups (mp_register p c h) x = mp_cleanups h x).
Proof.
  intros ([a l] & He & _). unfold mp_within, mp_cleanups, mp_register.
  split; [|split].
  - intros x y. destruct (decide (x = p)) as [->|Hne].
    + rewrite lookup_alter_eq, He. simpl. naive_solver.
    + by rewrite lookup_alter_ne.
  - rewrite lookup_alter_eq, He. done.
  - intros x Hx. by rewrite lookup_alter_ne.
Qed.

Lemma mp_delete_spec (p : positive) (h : pmap) cs h' :
  mp_delete p h = (cs, h') ->
  (exists qs, NoDup qs /\ (forall x, x ∈ qs <-> mp_within h x p) /\
     cs ≡ₚ concat (mp_cleanups h <$> qs)) /\
  (forall x y, mp_within h' x y <-> mp_within h x y /\ ~ mp_within h x p) /\
  (forall x, ~ mp_within h x p -> mp_cleanups h' x = mp_cleanups h x).
Proof.
  intros [= <- <-]. unfold mp_within, mp_cleanups. split; [|split].
  - exists (map_to_list (filter (fun e => p ∈ e.2.1) h)).*1. split; [|split].
    + apply NoDup_fst_map_to_list.
    + intros x. rewrite list_elem_of_fmap. split.
      * intros ([y e] & -> & Hin%elem_of_map_to_list).
        apply map_lookup_filter_Some in Hin as [??]. eauto.
      * intros (e & He & Hp). exists (x, e). split; [done|].
        apply elem_of_map_to_list, map_lookup_filter_Some. done.
    + rewrite <- list_fmap_compose. apply reflexive_eq. f_equal.
      apply list_fmap_ext. intros i [x e] Hx. simpl.
      apply list_elem_of_lookup_2, elem_of_map_to_list in Hx.
      apply map_lookup_filter_Some in Hx as [-> _]. done.
  - intros x y. setoid_rewrite map_lookup_filter_Some. simpl. naive_solver.
  - intros x Hx. f_equal. f_equal. apply option_eq. intros e.
    rewrite map_lookup_filter_Some. simpl. naive_solver.
Qed.
End map_pools.

Lemma mp_new_spec {cl : Type} (h : gmap positive (list positive * list cl)) q h' :
  mp_new h = (q, h') ->
  (forall x, ~ mp_within h x q) /\ mp_cleanups h' q = [] /\
  (forall x y, mp_within h' x y <-> mp_within h x y \/ x = q /\ y = q) /\
  (forall x, x <> q -> mp_cleanups h' x = mp_cleanups h x).
Proof.
  intros [= <- <-].
  destruct (mp_add_spec h (mp_next h) []) as (H1 & H2 & H3 & H4);
    [intros x; apply mp_fresh|apply (mp_fresh h 1)|].
  split; [done|]. split; [done|]. split; [|done].
  intros x y. rewrite H3, elem_of_nil. tauto.
Qed.

Lemma mp_sub_spec {cl : Type} p (h : gmap positive (list positive * list cl)) q h' :
  mp_within h p p -> mp_sub p h = (q, h') ->
  (forall x, ~ mp_within h x q) /\ mp_cleanups h' q = [] /\
  (forall x y, mp_within h' x y <->
     mp_within h x y \/ x = q /\ (y = q \/ mp_within h p y)) /\
  (forall x, x <> q -> mp_cleanups h' x = mp_cleanups h x).
Proof.
  intros (e & He & _) [= <- <-]. rewrite He. simpl.
  destruct (mp_add_spec h (mp_next h) e.1) as (H1 & H2 & H3 & H4);
    [intros x; apply mp_fresh|apply (mp_fresh h 1)|].
  split; [done|]. split; [done|]. split; [|done].
  intros x y. rewrite H3. unfold mp_within at 3. rewrite He. naive_solver.
Qed.

Definition mp_init (cl : Type) : gmap positive (list positive * list cl) :=
  {[1%positive := ([1%positive], [])]}.

Lemma mp_init_live (cl : Type) : mp_within (mp_init cl) 1 1.
Proof. eexists. split; [apply lookup_singleton_eq|by left]. Qed.

#[export] Instance map_pools (cl : Type) : Pools cl := {|
  pool := positive;
  pools := gmap positive (list positive * list cl);
  within := mp_within;
  cleanups := mp_cleanups;
  init_pools := mp_init cl;
  global_pool := 1%positive;
  new_pool := mp_new;
  new_subpool := mp_sub;
  pool_register_cleanup_fn := mp_register;
  delete_pool := mp_delete;
  init_global := mp_init_live cl;
  new_pool_spec := mp_new_spec;
  new_subpool_spec := mp_sub_spec;
  register_spec := mp_register_spec;
  delete_spec p h cs h' _ := mp_delete_spec p h cs h' |}.
