(* ===== verification/Forest.v ===== *)
(** * Pools as a forest of known trees

    The clients of c2lib use pools in one shape: a root pool (of a thread, or
    of a pending wake-up) with subpools that each hold one clean-up function.
    [forest ps f] says that the map [f], from roots to their children, is what
    the pool state [ps] contains for those roots; the lemmas give the effect of
    each pool operation on [f]. *)

From stdpp Require Import base list gmap.
From S2P Require Import Prelude C2lib.

Section forest.
Context {cl : Type} `{PL : Pools cl}.

(** Children of a root, with the clean-up function each holds. *)
Abbreviation kids := (list (pool * cl)).
Abbreviation trees := (list (pool * kids)).

Definition tree_pools (t : pool * kids) : list pool := t.1 :: t.2.*1.

Definition forest_pools (f : trees) : list pool := concat (tree_pools <$> f).

Record forest (ps : pools) (f : trees) : Prop := {
  forest_distinct : NoDup (forest_pools f);
  forest_within : forall r ks x, (r, ks) ∈ f ->
    within ps x r <-> x ∈ tree_pools (r, ks);
  forest_root : forall r ks, (r, ks) ∈ f -> cleanups ps r = [];
  forest_kid : forall r ks x c, (r, ks) ∈ f -> (x, c) ∈ ks ->
    cleanups ps x = [c] /\ forall y, within ps y x <-> y = x;
  forest_global : live ps global_pool /\
    forall x, x ∈ forest_pools f -> ~ within ps global_pool x
}.

Lemma elem_forest_pools f x :
  x ∈ forest_pools f <-> exists t, t ∈ f /\ x ∈ tree_pools t.
Proof.
  unfold forest_pools. rewrite list_elem_of_In, in_concat.
  split.
  - intros (l & Hl & Hx). apply list_elem_of_In, list_elem_of_fmap in Hl
      as (t & -> & Ht). exists t. split; [done|by apply list_elem_of_In].
  - intros (t & Ht & Hx). exists (tree_pools t).
    split; apply list_elem_of_In; [by apply list_elem_of_fmap_2|done].
Qed.

Lemma forest_live ps f x : forest ps f -> x ∈ forest_pools f -> live ps x.
Proof.
  intros [_ Hw _ Hk _] ([r ks] & Hin & Hx)%elem_forest_pools.
  unfold tree_pools in Hx. apply elem_of_cons in Hx as [->|Hx].
  - apply (Hw r ks); [done|by left].
  - apply list_elem_of_fmap in Hx as ([y c] & -> & Hy).
    by apply (Hk r ks y c).
Qed.

Lemma forest_perm ps f f' : f ≡ₚ f' -> forest ps f -> forest ps f'.
Proof.
  intros Hp [H1 H2 H3 H4 H5]. split.
  - unfold forest_pools in *. by rewrite <- Hp.
  - intros r ks x Hin. apply H2. by rewrite Hp.
  - intros r ks Hin. apply (H3 r ks). by rewrite Hp.
  - intros r ks x c Hin. apply (H4 r ks). by rewrite Hp.
  - split; [apply H5|]. intros x Hx. apply H5.
    unfold forest_pools in *. by rewrite Hp.
Qed.

(** The order of the children is irrelevant. *)
Lemma forest_kids_perm ps r ks ks' f :
  ks ≡ₚ ks' -> forest ps ((r, ks) :: f) -> forest ps ((r, ks') :: f).
Proof.
  intros Hp [H1 H2 H3 H4 H5].
  assert (forest_pools ((r, ks) :: f) ≡ₚ forest_pools ((r, ks') :: f)) as Hfp.
  { unfold forest_pools. simpl. by rewrite Hp. }
  split.
  - by rewrite <- Hfp.
  - intros r' k' x [[= -> ->]|Hin]%elem_of_cons; [|apply H2; by right].
    rewrite (H2 r ks x) by (by left). unfold tree_pools. simpl. by rewrite Hp.
  - intros r' k' [[= -> ->]|Hin]%elem_of_cons;
      [apply (H3 r ks); by left|apply (H3 r' k'); by right].
  - intros r' k' x c [[= -> ->]|Hin]%elem_of_cons Hx;
      [apply (H4 r ks); [by left|by rewrite Hp]|apply (H4 r' k'); [by right|done]].
  - destruct H5 as [? H6]. split; [done|]. intros x. rewrite <- Hfp. apply H6.
Qed.

Lemma forest_init : forest init_pools [].
Proof.
  split.
  - constructor.
  - by intros ? ? ? ?%not_elem_of_nil.
  - by intros ? ? ?%not_elem_of_nil.
  - by intros ? ? ? ? ?%not_elem_of_nil.
  - split; [apply init_global|]. by intros x ?%not_elem_of_nil.
Qed.

(** Pools outside the trees do not matter: an operation that adds a pool [q]
    below [p] keeps the forest when [p] is outside it. *)
Lemma forest_extend ps ps' f q (par : pool -> Prop) :
  forest ps f -> (forall x, ~ within ps x q) ->
  (forall x y, within ps' x y <-> within ps x y \/ x = q /\ (y = q \/ par y)) ->
  (forall x, x <> q -> cleanups ps' x = cleanups ps x) ->
  (forall x, x ∈ forest_pools f -> ~ par x) -> forest ps' f /\ q ∉ forest_pools f.
Proof.
  intros Hf Hq Hw Hc Hpar. pose proof Hf as [H1 H2 H3 H4 [H5 H6]].
  assert (forall x, x ∈ forest_pools f -> x <> q) as Hne.
  { intros x Hx ->. by apply (Hq q), (forest_live ps f). }
  assert (forall r ks, (r, ks) ∈ f -> r ∈ forest_pools f) as Hr.
  { intros r ks Hin. apply elem_forest_pools. exists (r, ks). split; [done|by left]. }
  assert (forall r ks x c, (r, ks) ∈ f -> (x, c) ∈ ks -> x ∈ forest_pools f) as Hk.
  { intros r ks x c Hin Hx. apply elem_forest_pools. exists (r, ks). split; [done|].
    right. by apply (list_elem_of_fmap_2 fst) in Hx. }
  split; [|intros Hin; by apply Hne in Hin].
  split; try done.
  - intros r ks x Hin. rewrite Hw, (H2 r ks x Hin).
    pose proof (Hpar r (Hr _ _ Hin)). pose proof (Hne r (Hr _ _ Hin)). naive_solver.
  - intros r ks Hin. rewrite Hc; eauto.
  - intros r ks x c Hin Hx. destruct (H4 _ _ _ _ Hin Hx) as [Hcx Hwx].
    pose proof (Hk _ _ _ _ Hin Hx) as Hxf. split; [rewrite Hc; eauto|].
    intros y. rewrite Hw, Hwx. pose proof (Hpar x Hxf). pose proof (Hne x Hxf).
    naive_solver.
  - split; [apply Hw; by left|]. intros x Hx. rewrite Hw.
    intros [Hg|[Hg _]]; [by apply (H6 x)|]. apply (Hq q). by rewrite <- Hg.
Qed.

(** A new tree with no children. *)
Lemma forest_add ps' f q :
  forest ps' f -> q ∉ forest_pools f -> (forall x, within ps' x q <-> x = q) ->
  cleanups ps' q = [] -> q <> global_pool -> forest ps' ((q, []) :: f).
Proof.
  intros [H1 H2 H3 H4 [H5 H6]] Hq Hw Hc Hg. split.
  - unfold forest_pools. simpl. constructor; done.
  - intros r ks x [[= -> ->]|Hin]%elem_of_cons; [|by apply H2].
    rewrite Hw. unfold tree_pools. simpl. by rewrite list_elem_of_singleton.
  - intros r ks [[= -> ->]|Hin]%elem_of_cons; [done|by apply (H3 r ks)].
  - intros r ks x c [[= -> ->]|Hin]%elem_of_cons; [by intros ?%not_elem_of_nil|].
    by apply (H4 r ks).
  - split; [done|]. intros x. unfold forest_pools. simpl.
    intros [->|Hx]%elem_of_cons; [by rewrite Hw|by apply H6].
Qed.

Lemma forest_new_pool ps f q ps' :
  forest ps f -> new_pool ps = (q, ps') -> forest ps' ((q, []) :: f).
Proof.
  intros Hf Hn. apply new_pool_spec in Hn as (Hq & Hcq & Hw & Hc).
  destruct (forest_extend ps ps' f q (fun _ => False)) as [Hf' Hni];
    [done..|intros; rewrite Hw; tauto|done|by auto|].
  eapply forest_add; try done.
  - intros x. rewrite Hw. split; [|by auto]. intros [Hx|[-> _]]; [by apply Hq in Hx|done].
  - intros ->. apply (Hq global_pool), Hf.
Qed.

Lemma forest_new_sub_global ps f q ps' :
  forest ps f -> new_subpool global_pool ps = (q, ps') -> forest ps' ((q, []) :: f).
Proof.
  intros Hf Hn. pose proof (forest_global _ _ Hf) as [Hg1 Hg2].
  apply new_subpool_spec in Hn as (Hq & Hcq & Hw & Hc); [|done].
  destruct (forest_extend ps ps' f q (within ps global_pool)) as [Hf' Hni]; [done..|].
  eapply forest_add; try done.
  - intros x. rewrite Hw. split; [|by auto]. intros [Hx|[-> _]]; [by apply Hq in Hx|done].
  - intros ->. by apply (Hq global_pool).
Qed.

(** The pools of the first tree are not those of the others. *)
Lemma forest_other ps r ks f r' ks' x :
  forest ps ((r, ks) :: f) -> (r', ks') ∈ f -> x ∈ tree_pools (r', ks') ->
  x ∈ forest_pools ((r, ks) :: f) /\ x ∉ tree_pools (r, ks).
Proof.
  intros [H1 _ _ _ _] Hin Hx. split.
  - apply elem_forest_pools. exists (r', ks'). split; [by right|done].
  - intros Hx'. unfold forest_pools in H1. simpl in H1.
    apply (NoDup_app (tree_pools (r, ks))) in H1 as (_ & Hd & _).
    apply (Hd x Hx'). apply elem_forest_pools. eauto.
Qed.

(** No pool of the forest other than itself encloses a root. *)
Lemma forest_root_top ps r ks f x :
  forest ps ((r, ks) :: f) -> within ps r x -> x ∈ forest_pools ((r, ks) :: f) -> x = r.
Proof.
  intros Hf Hx ([r' ks'] & Hin & Hxt)%elem_forest_pools. pose proof Hf as [_ H2 _ H4 _].
  apply elem_of_cons in Hin as [[= -> ->]|Hin].
  - apply elem_of_cons in Hxt as [->|Hxt]; [done|].
    apply list_elem_of_fmap in Hxt as ([y c'] & -> & Hy).
    destruct (H4 r ks y c') as [_ Hwy]; [by left|done|]. simpl in *. symmetry. by apply Hwy.
  - exfalso. destruct (forest_other _ _ _ _ r' ks' x Hf Hin Hxt) as [_ Hn'].
    apply elem_of_cons in Hxt as [->|Hxt].
    + apply (H2 r' ks' r) in Hx; [|by right].
      destruct (forest_other _ _ _ _ r' ks' r Hf Hin Hx) as [_ Hn'']. apply Hn''. by left.
    + apply list_elem_of_fmap in Hxt as ([y c'] & -> & Hy).
      destruct (H4 r' ks' y c') as [_ Hwy]; [by right|done|]. simpl in *.
      apply Hn'. rewrite <- (proj1 (Hwy r) Hx). by left.
Qed.

(** A child is not the first root. *)
Lemma forest_kid_not_root ps r ks f r' ks' x c :
  forest ps ((r, ks) :: f) -> (r', ks') ∈ (r, ks) :: f -> (x, c) ∈ ks' ->
  x ∈ forest_pools ((r, ks) :: f) /\ x <> r.
Proof.
  intros Hf Hin Hx. apply (list_elem_of_fmap_2 fst) in Hx. split.
  { apply elem_forest_pools. exists (r', ks'). split; [done|by right]. }
  intros ->. apply elem_of_cons in Hin as [[= -> ->]|Hin].
  - destruct Hf as [H1 _ _ _ _]. unfold forest_pools in H1. simpl in H1.
    apply NoDup_cons in H1 as [H1 _]. apply H1, elem_of_app. by left.
  - destruct (forest_other _ _ _ _ r' ks' r Hf Hin) as [_ Hn']; [by right|]. apply Hn'. by left.
Qed.

(** A child of the root [r], holding the clean-up function [c]. *)
Lemma forest_new_kid ps f r ks q ps' c :
  forest ps ((r, ks) :: f) -> new_subpool r ps = (q, ps') ->
  forest (pool_register_cleanup_fn q c ps') ((r, (q, c) :: ks) :: f) /\
  q ∉ forest_pools ((r, ks) :: f).
Proof.
  intros Hf Hn. pose proof Hf as [H1 H2 H3 H4 [H5 H6]].
  assert (live ps r) as Hr by (eapply H2; [by left|by left]).
  apply new_subpool_spec in Hn as (Hq & Hcq & Hw & Hc); [|done].
  assert (live ps' q) as Hlq by (apply Hw; auto).
  destruct (register_spec q c ps' Hlq) as (Hw2 & Hcq2 & Hc2).
  assert (forall x, x ∈ forest_pools ((r, ks) :: f) -> x <> q) as Hne.
  { intros x Hx ->. by apply (Hq q), (forest_live ps ((r, ks) :: f)). }
  assert (q ∉ forest_pools ((r, ks) :: f)) as Hni by (intros Hin; by apply Hne in Hin).
  assert (r <> q) as Hrq by (apply Hne; by left).
  assert (forall x, within ps r x -> x ∈ forest_pools ((r, ks) :: f) -> x = r) as Hup
    by (intros x; by apply forest_root_top).
  split; [|done]. split.
  - unfold forest_pools in *. simpl in *. apply NoDup_cons in H1 as [Hr1 H1].
    apply not_elem_of_cons in Hni as [_ Hni].
    constructor; [|constructor; done]. rewrite not_elem_of_cons. done.
  - intros r' ks' x [[= -> ->]|Hin]%elem_of_cons.
    + rewrite Hw2, Hw, (H2 r ks x) by (by left). unfold tree_pools. simpl.
      rewrite !elem_of_cons. naive_solver.
    + rewrite Hw2, Hw, (H2 r' ks' x) by (by right).
      destruct (forest_other _ _ _ _ r' ks' r' Hf Hin) as [Hr1 Hr2]; [by left|].
      split; [|by auto]. intros [?|[-> [->|Hu]]]; [done|by apply Hne in Hr1|].
      exfalso. apply Hr2. rewrite (Hup r' Hu Hr1). by left.
  - intros r' ks' [[= -> ->]|Hin]%elem_of_cons.
    + rewrite Hc2, Hc by done. apply (H3 r ks). by left.
    + destruct (forest_other _ _ _ _ r' ks' r' Hf Hin) as [Hr1 _]; [by left|].
      rewrite Hc2, Hc by (by apply Hne). apply (H3 r' ks'). by right.
  - assert (forall r' ks' x c', (r', ks') ∈ (r, ks) :: f -> (x, c') ∈ ks' ->
      cleanups (pool_register_cleanup_fn q c ps') x = [c'] /\
      forall y, within (pool_register_cleanup_fn q c ps') y x <-> y = x) as Hold.
    { intros r' ks' x c' Hin Hx. destruct (H4 _ _ _ _ Hin Hx) as [Hcx Hwx].
      destruct (forest_kid_not_root _ _ _ _ _ _ _ _ Hf Hin Hx) as [Hxf Hxr].
      rewrite Hc2, Hc by (by apply Hne). split; [done|]. intros y.
      rewrite Hw2, Hw, !Hwx. apply Hne in Hxf. naive_solver. }
    intros r' ks' x c' [[= -> ->]|Hin]%elem_of_cons; [|eapply Hold; by right].
    intros [[= -> ->]|Hx]%elem_of_cons; [|eapply Hold; [by left|done]].
    rewrite Hcq in Hcq2. apply Permutation_singleton_r in Hcq2. split; [done|].
    intros y. rewrite Hw2, Hw. split; [|by auto].
    intros [Hy|[-> _]]; [by apply Hq in Hy|done].
  - split; [rewrite Hw2, Hw; by left|]. intros x Hx. rewrite Hw2, Hw. intros [Hg|[Hg _]].
    + apply (H6 x); [|done]. unfold forest_pools in *. simpl in *.
      rewrite !elem_of_cons in *. destruct Hx as [?|[->|?]]; auto. by apply Hq in Hg.
    + apply (Hq q). by rewrite <- Hg.
Qed.

(** Deleting the pool [p] leaves a forest [f'] of the trees of [f] without the
    pools below [p]. *)
Lemma forest_shrink ps ps' f f' p :
  forest ps f -> p ∈ forest_pools f ->
  (forall x y, within ps' x y <-> within ps x y /\ ~ within ps x p) ->
  (forall x, ~ within ps x p -> cleanups ps' x = cleanups ps x) ->
  NoDup (forest_pools f') ->
  (forall r ks', (r, ks') ∈ f' -> exists ks, (r, ks) ∈ f /\ (forall k, k ∈ ks' -> k ∈ ks) /\
     forall x, x ∈ tree_pools (r, ks') <-> x ∈ tree_pools (r, ks) /\ ~ within ps x p) ->
  forest ps' f'.
Proof.
  intros [H1 H2 H3 H4 [H5 H6]] Hp Hw Hc Hnd Hsub. split; [done|..].
  - intros r ks' x Hin. destruct (Hsub r ks' Hin) as (ks & Hks & _ & Hx).
    by rewrite Hw, Hx, (H2 r ks x Hks).
  - intros r ks' Hin. destruct (Hsub r ks' Hin) as (ks & Hks & _ & Hx).
    rewrite Hc; [by apply (H3 r ks)|]. by apply Hx; left.
  - intros r ks' x c Hin Hk. destruct (Hsub r ks' Hin) as (ks & Hks & Hk' & Hx).
    destruct (H4 r ks x c Hks (Hk' _ Hk)) as [Hcx Hwx].
    assert (~ within ps x p) as Hn.
    { apply Hx. right. by apply (list_elem_of_fmap_2 fst) in Hk. }
    rewrite Hc by done. split; [done|]. intros y. rewrite Hw, Hwx. naive_solver.
  - split; [apply Hw; split; [done|by apply H6]|].
    intros x ([r ks'] & Hin & Hx)%elem_forest_pools.
    destruct (Hsub r ks' Hin) as (ks & Hks & _ & Hx').
    rewrite Hw. intros [Hg _]. destruct (proj1 (Hx' x) Hx) as [Hx1 _].
    apply (H6 x); [|done]. apply elem_forest_pools. eauto.
Qed.

Lemma forest_in ps f r ks x :
  forest ps f -> (r, ks) ∈ f -> x ∈ tree_pools (r, ks) -> x ∈ forest_pools f.
Proof. intros _ Hin Hx. apply elem_forest_pools. eauto. Qed.

(** Deleting a child runs its clean-up function and nothing else. *)
Lemma forest_delete_kid ps f r x c ks cs ps' :
  forest ps ((r, (x, c) :: ks) :: f) -> delete_pool x ps = (cs, ps') ->
  cs = [c] /\ forest ps' ((r, ks) :: f).
Proof.
  intros Hf Hd. pose proof Hf as [H1 H2 H3 H4 _].
  destruct (H4 r ((x, c) :: ks) x c) as [Hcx Hwx]; [by left|by left|].
  pose proof (proj2 (Hwx x) eq_refl) as Hlx.
  destruct (delete_spec x ps cs ps' Hlx Hd) as ((qs & Hnd & Hin & Hcs) & Hw & Hc).
  split.
  - assert (qs = [x]) as ->.
    { apply Permutation_singleton_r, NoDup_Permutation; [done|apply NoDup_singleton|].
      intros y. rewrite Hin, Hwx, list_elem_of_singleton. done. }
    simpl in Hcs. rewrite Hcx in Hcs. by apply Permutation_singleton_r in Hcs.
  - unfold forest_pools in H1. simpl in H1.
    apply NoDup_cons in H1 as [Hr1 [Hx1 H1]%NoDup_cons].
    apply not_elem_of_cons in Hr1 as [Hrx Hr1].
    eapply (forest_shrink ps ps' _ _ x); [exact Hf| |done|done| |].
    + eapply (forest_in _ _ r ((x, c) :: ks)); [done|by left|]. right. by left.
    + unfold forest_pools. simpl. by constructor.
    + intros r' ks' [[= -> ->]|Hin']%elem_of_cons.
      * exists ((x, c) :: ks). split; [by left|]. split; [intros; by right|].
        intros y. rewrite Hwx. unfold tree_pools. simpl. rewrite !elem_of_cons.
        split; [|intros [[?|[?|?]] ?]; by auto].
        intros [->|Hy]; [split; [by left|done]|]. split; [by auto|].
        intros ->. apply Hx1, elem_of_app. by left.
      * exists ks'. split; [by right|]. split; [done|]. intros y.
        rewrite Hwx. split; [|by intros [? _]]. intros Hy. split; [done|]. intros ->.
        apply Hx1, elem_of_app. right. apply elem_forest_pools. eauto.
Qed.

(** Deleting a root runs the clean-up functions of all its children. *)
Lemma forest_delete_root ps f r ks cs ps' :
  forest ps ((r, ks) :: f) -> delete_pool r ps = (cs, ps') ->
  cs ≡ₚ ks.*2 /\ forest ps' f.
Proof.
  intros Hf Hd. pose proof Hf as [H1 H2 H3 H4 _].
  pose proof (fun x => H2 r ks x ltac:(by left)) as Hwr.
  assert (live ps r) as Hlr by (apply Hwr; by left).
  destruct (delete_spec r ps cs ps' Hlr Hd) as ((qs & Hnd & Hin & Hcs) & Hw & Hc).
  unfold forest_pools in H1. simpl in H1.
  apply NoDup_cons in H1 as [Hr1 H1].
  apply NoDup_app in H1 as (Hk1 & Hk2 & H1). split.
  - assert (qs ≡ₚ r :: ks.*1) as Hqs.
    { apply NoDup_Permutation; [done| |].
      - constructor; [|done]. intros ?. apply Hr1, elem_of_app. by left.
      - intros x. by rewrite Hin, Hwr. }
    rewrite Hcs, Hqs. simpl. rewrite (H3 r ks) by (by left). simpl.
    apply reflexive_eq. clear Hqs Hk1 Hk2 Hr1.
    assert (forall x c, (x, c) ∈ ks -> cleanups ps x = [c]) as Hks.
    { intros x c Hx. by destruct (H4 r ks x c ltac:(by left) Hx). }
    clear -Hks. induction ks as [|[x c] ks IH]; [done|]. simpl.
    rewrite (Hks x c) by (by left). simpl. f_equal. apply IH.
    intros y d Hy. apply Hks. by right.
  - eapply (forest_shrink ps ps' _ _ r); [exact Hf| |done|done|done|].
    + eapply (forest_in _ _ r ks); [done|by left|by left].
    + intros r' ks' Hin'. exists ks'. split; [by right|]. split; [done|].
      intros y. split; [|by intros [? _]]. intros Hy. split; [done|].
      rewrite Hwr. intros Hy'.
      assert (y ∈ concat (tree_pools <$> f)) as Hyf by (apply elem_forest_pools; eauto).
      apply elem_of_cons in Hy' as [->|Hy'].
      * apply Hr1, elem_of_app. by right.
      * by apply (Hk2 y).
Qed.

(** Clean-up functions of the global pool are none of the forest's. *)
Lemma forest_register_global ps c :
  forest ps [] -> forest (pool_register_cleanup_fn global_pool c ps) [].
Proof.
  intros [_ _ _ _ [Hl _]]. destruct (register_spec global_pool c ps Hl) as (Hw & _ & _).
  split.
  - constructor.
  - by intros ? ? ? ?%not_elem_of_nil.
  - by intros ? ? ?%not_elem_of_nil.
  - by intros ? ? ? ? ?%not_elem_of_nil.
  - split; [by rewrite Hw|]. by intros ? ?%not_elem_of_nil.
Qed.
End forest.
