(* ===== verification/ReactorHandles.v ===== *)
(** * Reactor: event handles and the poll array ([src/pthr_reactor.c])

    [handles] is the array of registered event handlers; [poll_array] is
    the array handed to [poll(2)].  A handle refers to its descriptor by
    the offset of a cell of [poll_array]; several handles may share one
    cell.  The file models [reactor_register] and [reactor_unregister] and
    proves that the pair of arrays implements a finite map from handle
    numbers to registrations.  [reactor_unregister] closes a gap in the poll
    array with [memcpy]; what [memcpy] does when its regions overlap is left
    open, as in the C standard. *)

From stdpp Require Import base list gmap.
From S2P Require Import Prelude.

Record pollfd := Pollfd { fd : Z; events : Z; revents : Z }.

(** ** [memcpy]

    [memcpy_overlap dst src n l]: what is left in the array [l] after [n] cells
    were copied from [src] to [dst] and the two regions overlap, which the C
    standard does not define. *)
Class Memcpy := memcpy_overlap : nat -> nat -> nat -> list pollfd -> list pollfd.

Definition memcpy `{MC : Memcpy} (dst src n : nat) (l : list pollfd) : list pollfd :=
  if decide (dst + n <= src \/ src + n <= dst)%nat then copy_down dst src n l
  else memcpy_overlap dst src n l.

(** A C library whose [memcpy] gets a copy to a lower address right also when
    the regions overlap. *)
Class CopiesForward `{MC : Memcpy} : Prop :=
  copies_forward : forall dst src n l, (dst < src)%nat -> (src + n <= length l)%nat ->
    memcpy_overlap dst src n l = copy_down dst src n l.

(** Cell by cell, from the lowest address or from the highest. *)
Definition copy_cell (dst src : nat) (l : list pollfd) (i : nat) : list pollfd :=
  match l !! (src + i)%nat with Some p => <[(dst + i)%nat := p]> l | None => l end.

Definition copy_lowest_first (dst src n : nat) (l : list pollfd) : list pollfd :=
  foldl (copy_cell dst src) l (seq 0 n).

Definition copy_highest_first (dst src n : nat) (l : list pollfd) : list pollfd :=
  foldl (copy_cell dst src) l (rev (seq 0 n)).

Lemma copy_lowest_first_spec dst src n l :
  (dst < src)%nat -> (src + n <= length l)%nat ->
  copy_lowest_first dst src n l = copy_down dst src n l.
Proof.
  intros Hd. induction n as [|n IH]; intros Hn.
  { unfold copy_down. simpl. by rewrite Nat.add_0_r, take_drop. }
  unfold copy_lowest_first in *. rewrite seq_S, foldl_app, IH by lia. cbn [foldl Nat.add].
  unfold copy_cell. assert (copy_down dst src n l !! (src + n)%nat = l !! (src + n)%nat) as ->.
  { unfold copy_down. rewrite lookup_app_r by (rewrite length_take; lia).
    rewrite lookup_app_r by (rewrite !length_take, length_drop; lia).
    rewrite lookup_drop, !length_take, length_drop. f_equal. lia. }
  destruct (lookup_lt_is_Some_2 l (src + n)%nat) as [p Hp]; [lia|]. rewrite Hp.
  apply list_eq_same_length with (length l);
    rewrite ?length_insert, ?copy_down_length by lia; [done..|].
  intros i x y Hi Hx Hy. destruct (decide (i = dst + n)%nat) as [->|Hne].
  - rewrite list_lookup_insert_eq in Hx by (rewrite copy_down_length; lia).
    rewrite copy_down_lookup_in in Hy by lia. replace (dst + n + (src - dst))%nat with (src + n)%nat in Hy by lia.
    congruence.
  - rewrite list_lookup_insert_ne in Hx by done. destruct (decide (i < dst)%nat) as [Hlt|Hge].
    { rewrite copy_down_lookup_lt in Hx, Hy by lia. congruence. }
    destruct (decide (i < dst + n)%nat) as [Hin|Hout].
    { rewrite copy_down_lookup_in in Hx, Hy by lia. congruence. }
    assert (forall k, (dst + k <= i)%nat -> (src + k <= length l)%nat -> copy_down dst src k l !! i = l !! i) as Hab.
    { intros k Hk Hl. unfold copy_down. rewrite lookup_app_r by (rewrite length_take; lia).
      rewrite lookup_app_r by (rewrite !length_take, length_drop; lia).
      rewrite lookup_drop, !length_take, length_drop. f_equal. lia. }
    rewrite Hab in Hx, Hy by lia. congruence.
Qed.

(** The C library of the examples. *)
#[export] Instance lowest_first : Memcpy := copy_lowest_first.

#[export] Instance lowest_first_forward : CopiesForward.
Proof. intros dst src n l. apply copy_lowest_first_spec. Qed.

Section handles.
(** Handler functions and their data argument. *)
Context {F D : Type} {MC : Memcpy}.

Record reactor_handle := Handle { offset : Z; fn : F; data : D }.

(** [poll_array] is the whole allocated block ([nr_array_allocated] is its
    length, [nr_handles_allocated] the length of [handles]). *)
Record handle_table := HandleTable {
  handles : list reactor_handle;
  poll_array : list pollfd;
  nr_array_used : nat
}.

Definition empty_table : handle_table := HandleTable [] [] 0.

(** Unspecified contents of cells obtained from [realloc]. *)
Context (junk_handle : nat -> reactor_handle) (junk_pollfd : nat -> pollfd).

Definition set_offset (o : Z) (h : reactor_handle) : reactor_handle :=
  Handle o (fn h) (data h).

(** The search for an unused handle, growing the array by 8 cells when
    there is none. *)
Definition find_handle (hs : list reactor_handle)
  : nat * list reactor_handle :=
  match list_find (fun h => offset h = -1) hs with
  | Some (i, _) => (i, hs)
  | None =>
    let h := length hs in
    let hs' := realloc junk_handle hs (h + 8) in
    (h, take h hs' ++ (set_offset (-1) <$> drop h hs'))
  end.

(** The search for a descriptor to share, taking a new cell of the poll
    array when there is none.  Only [fd] and [events] of a new cell are
    written. *)
Definition find_poll_descriptor (pa : list pollfd) (n : nat)
    (socket operations : Z) : nat * list pollfd * nat :=
  match list_find (fun p => fd p = socket /\ events p = operations)
                  (take n pa) with
  | Some (a, _) => (a, pa, n)
  | None =>
    let pa' := if decide (length pa <= n)%nat
               then realloc junk_pollfd pa (length pa + 8)
               else pa in
    (n, alter (fun p => Pollfd socket (to_short operations) (revents p)) n pa',
     S n)
  end.

Definition reactor_register (t : handle_table) (socket operations : Z)
    (f : F) (d : D) : nat * handle_table :=
  let '(h, hs) := find_handle (handles t) in
  let '(a, pa, n) :=
    find_poll_descriptor (poll_array t) (nr_array_used t) socket operations in
  (h, HandleTable (<[h := Handle (Z.of_nat a) f d]> hs) pa n).

(** [None]: the handle number is outside the array, so that the C code
    reads memory it does not own. *)
Definition reactor_unregister (t : handle_table) (handle : nat)
  : option handle_table :=
  h ← handles t !! handle;
  let a := offset h in
  let hs := <[handle := set_offset (-1) h]> (handles t) in
  if decide (Exists (fun h' => offset h' = a) hs)
  then Some (HandleTable hs (poll_array t) (nr_array_used t))
  else
    Some (HandleTable
      ((fun h' => if decide (offset h' > a)
                  then set_offset (offset h' - 1) h' else h') <$> hs)
      (memcpy (Z.to_nat a) (Z.to_nat a + 1)
              (nr_array_used t - Z.to_nat a - 1) (poll_array t))
      (nr_array_used t - 1)).

(** At most one cell follows that of the handle, so that the regions of
    [memcpy] do not overlap. *)
Definition no_overlap (t : handle_table) (handle : nat) : Prop :=
  forall h, handles t !! handle = Some h -> (nr_array_used t <= Z.to_nat (offset h) + 2)%nat.

(** ** Well-formedness *)

Definition in_use (t : handle_table) (h : reactor_handle) : Prop :=
  0 <= offset h < Z.of_nat (nr_array_used t).

Record table_wf (t : handle_table) : Prop := {
  wf_alloc : (nr_array_used t <= length (poll_array t))%nat;
  wf_offset : forall i h, handles t !! i = Some h ->
    offset h = -1 \/ in_use t h;
  wf_owned : forall a, (a < nr_array_used t)%nat ->
    exists i h, handles t !! i = Some h /\ offset h = Z.of_nat a;
  wf_distinct : forall a b p q,
    (a < nr_array_used t)%nat -> (b < nr_array_used t)%nat ->
    poll_array t !! a = Some p -> poll_array t !! b = Some q ->
    fd p = fd q -> events p = events q -> a = b
}.

(** What a registered handle stands for. *)
Record registration := Reg {
  r_fd : Z; r_events : Z; r_fn : F; r_data : D }.

Definition handle_reg (pa : list pollfd) (h : reactor_handle)
  : option registration :=
  if decide (0 <= offset h)
  then p ← pa !! Z.to_nat (offset h);
       Some (Reg (fd p) (events p) (fn h) (data h))
  else None.

Definition lookup_reg (t : handle_table) (i : nat) : option registration :=
  h ← handles t !! i; handle_reg (poll_array t) h.

(** The abstract view: a finite map from handle numbers. *)
Definition models (t : handle_table) (m : gmap nat registration) : Prop :=
  forall i, m !! i = lookup_reg t i.

(** The descriptors handed to [poll]. *)
Definition polled (t : handle_table) : list pollfd :=
  take (nr_array_used t) (poll_array t).

Lemma find_handle_spec hs h hs' :
  find_handle hs = (h, hs') ->
  (h < length hs')%nat /\
  (forall x, hs !! h = Some x -> offset x = -1) /\
  (forall i x, hs !! i = Some x -> hs' !! i = Some x) /\
  (forall i x, hs' !! i = Some x -> hs !! i = None -> offset x = -1).
Proof.
  unfold find_handle. intros Hf.
  destruct (list_find _ hs) as [[i x]|] eqn:E; simplify_eq.
  - apply list_find_Some in E as (Hx & Ho & _).
    split; [by eapply lookup_lt_Some|]. split; [naive_solver|].
    split; [done|]. intros j y Hj Hn. congruence.
  - unfold realloc. rewrite take_app_length, drop_app_length.
    assert (forall i : nat, (length hs <= i)%nat -> hs !! i = None) as Hge
      by (intros; by apply lookup_ge_None).
    split; [|split; [|split]].
    + rewrite length_app, !length_fmap, length_seq. lia.
    + intros x Hx. rewrite Hge in Hx; [done|lia].
    + intros i x Hi. by apply lookup_app_l_Some.
    + intros i x Hi Hn. apply lookup_ge_None in Hn.
      rewrite lookup_app_r in Hi by done.
      apply list_lookup_fmap_Some in Hi as (? & -> & _). done.
Qed.

(** The cell chosen holds the descriptor; the cells in use before keep
    their contents and at most one cell is added. *)
Lemma find_poll_descriptor_spec pa n socket operations a pa' n' :
  (n <= length pa)%nat -> to_short operations = operations ->
  find_poll_descriptor pa n socket operations = (a, pa', n') ->
  (exists p, pa' !! a = Some p /\ fd p = socket /\ events p = operations) /\
  (forall i, (i < n)%nat -> pa' !! i = pa !! i) /\
  (n' <= length pa')%nat /\ (a < n')%nat /\
  (n' = n \/ a = n /\ n' = S n /\
     forall i p, (i < n)%nat -> pa !! i = Some p ->
       ~ (fd p = socket /\ events p = operations)).
Proof.
  unfold find_poll_descriptor. intros Hn Hop Hf.
  destruct (list_find _ _) as [[i x]|] eqn:E; injection Hf as <- <- <-.
  - apply list_find_Some in E as (Hx & [??] & _).
    apply lookup_take_Some in Hx as [Hx ?]. naive_solver lia.
  - set (pa1 := if decide _ then _ else _).
    assert ((n < length pa1)%nat /\ forall i, (i < n)%nat -> pa1 !! i = pa !! i)
      as [Hlt Hold].
    { subst pa1. case_decide.
      - rewrite realloc_length by lia. split; [lia|].
        intros. apply realloc_lookup_lt. lia.
      - split; [lia|done]. }
    destruct (lookup_lt_is_Some_2 pa1 n Hlt) as [p Hp].
    split; [|split; [|split; [|split]]].
    + eexists. rewrite list_lookup_alter_eq, Hp. by rewrite Hop.
    + intros i Hi. rewrite list_lookup_alter_ne by lia. auto.
    + rewrite length_alter. lia.
    + lia.
    + right. do 2 (split; [done|]). intros i q Hi Hq.
      rewrite list_find_None_forall in E. apply (E i).
      by rewrite lookup_take_lt.
Qed.

Lemma handle_reg_ext pa pa' n h :
  (forall i, (i < n)%nat -> pa' !! i = pa !! i) ->
  offset h = -1 \/ 0 <= offset h < Z.of_nat n ->
  handle_reg pa' h = handle_reg pa h.
Proof.
  intros Hpa Ho. unfold handle_reg. case_decide; [|done].
  rewrite Hpa by lia. done.
Qed.

Lemma handle_reg_unused pa h : offset h = -1 -> handle_reg pa h = None.
Proof. intros Ho. unfold handle_reg. by rewrite decide_False by lia. Qed.

Lemma register_lookup t socket operations f d h t' :
  table_wf t -> to_short operations = operations ->
  reactor_register t socket operations f d = (h, t') ->
  lookup_reg t h = None /\
  lookup_reg t' h = Some (Reg socket operations f d) /\
  (forall i, i <> h -> lookup_reg t' i = lookup_reg t i).
Proof.
  intros [Hal Hof _ _] Hop Hr. unfold reactor_register in Hr.
  destruct (find_handle _) as [h0 hs] eqn:Eh.
  destruct (find_poll_descriptor _ _ _ _) as [[a pa] n] eqn:Ep.
  simplify_eq.
  apply find_handle_spec in Eh as (Hlt & Hfree & Hold & Hnew).
  apply find_poll_descriptor_spec in Ep
    as ((p & Hp & <- & <-) & Hpa & Hn & Ha & _); [|done..].
  unfold lookup_reg; simpl. split; [|split].
  - destruct (handles t !! h) eqn:E; [|done]. simpl.
    apply handle_reg_unused. auto.
  - rewrite list_lookup_insert_eq by done. simpl. unfold handle_reg; simpl.
    rewrite decide_True by lia. by rewrite Nat2Z.id, Hp.
  - intros i Hi. rewrite list_lookup_insert_ne by done.
    destruct (handles t !! i) eqn:E.
    + rewrite (Hold _ _ E). simpl.
      apply handle_reg_ext with (nr_array_used t); [done|].
      by apply Hof in E.
    + destruct (hs !! i) eqn:E'; [|done]. simpl.
      apply handle_reg_unused. eauto.
Qed.

Lemma register_wf t socket operations f d h t' :
  table_wf t -> to_short operations = operations ->
  reactor_register t socket operations f d = (h, t') -> table_wf t'.
Proof.
  intros [Hal Hof How Hdis] Hop Hr. unfold reactor_register in Hr.
  destruct (find_handle _) as [h0 hs] eqn:Eh.
  destruct (find_poll_descriptor _ _ _ _) as [[a pa] n] eqn:Ep.
  simplify_eq.
  apply find_handle_spec in Eh as (Hlt & Hfree & Hold & Hnew).
  apply find_poll_descriptor_spec in Ep
    as ((p & Hp & Hfd & Hev) & Hpa & Hn & Ha & Hcase); [|done..].
  split; simpl; [done| | |].
  - intros i x Hx. unfold in_use; simpl.
    apply list_lookup_insert_Some in Hx as [(-> & <- & _)|[_ Hx]];
      [right; simpl; lia|].
    destruct (handles t !! i) eqn:E; [|left; eauto].
    rewrite (Hold _ _ E) in Hx. simplify_eq.
    apply Hof in E as [?|[??]]; [by left|right; lia].
  - intros b Hb. destruct (decide (b = a)) as [->|Hne].
    { exists h. eexists. by rewrite list_lookup_insert_eq. }
    destruct (How b) as (i & x & Hi & Hx); [lia|].
    exists i, x. rewrite list_lookup_insert_ne; [auto|].
    intros ->. apply Hfree in Hi. lia.
  - assert (forall b q, (b < n)%nat -> pa !! b = Some q -> fd q = socket ->
      events q = operations -> b = a) as Hnew_only.
    { intros b q Hb Hq Hfd' Hev'. destruct Hcase as [->|(-> & -> & Hno)].
      - rewrite Hpa in Hp, Hq by lia. eapply Hdis; eauto; congruence.
      - destruct (decide (b = nr_array_used t)) as [|Hne]; [done|].
        exfalso. apply (Hno b q); [lia| |done]. by rewrite <- Hpa by lia. }
    intros b c q r Hb Hc Hq Hr Hf1 He1.
    destruct (decide (b = a)) as [->|Hba]; [|destruct (decide (c = a)) as [->|Hca]].
    + symmetry. apply (Hnew_only c r); congruence.
    + apply (Hnew_only b q); congruence.
    + apply (Hdis b c q r); try done; try (rewrite <- Hpa; [done|]); lia.
Qed.

Lemma unregister_unused t i h :
  handles t !! i = Some h -> offset h = -1 -> reactor_unregister t i = Some t.
Proof.
  intros Hi Ho. unfold reactor_unregister. rewrite Hi. simpl.
  assert (set_offset (-1) h = h) as -> by (destruct h; unfold set_offset; simpl in *; by subst).
  rewrite list_insert_id by done.
  rewrite decide_True; [by destruct t|].
  apply Exists_exists. exists h. split; [by eapply list_elem_of_lookup_2|done].
Qed.

(** Unregistering the last handle on cell [a]: the handles above [a] move
    down with their cells. *)
Definition shift_offset (a : Z) (h : reactor_handle) : reactor_handle :=
  if decide (offset h > a) then set_offset (offset h - 1) h else h.

Lemma handle_reg_shift pa n a h :
  (a < n)%nat -> (n <= length pa)%nat ->
  offset h = -1 \/ 0 <= offset h < Z.of_nat n -> offset h <> Z.of_nat a ->
  handle_reg (copy_down a (a + 1) (n - a - 1) pa) (shift_offset (Z.of_nat a) h)
  = handle_reg pa h.
Proof.
  intros Ha Hn Ho Hne. unfold handle_reg, shift_offset.
  destruct (decide (offset h > Z.of_nat a)) as [Hgt|Hle]; simpl.
  - rewrite !decide_True by lia.
    rewrite copy_down_lookup_in by lia. do 2 f_equal. lia.
  - case_decide; [|done]. rewrite copy_down_lookup_lt by lia. done.
Qed.

(** The call of [memcpy] has a result one can rely on. *)
Definition copy_defined (t : handle_table) (i : nat) : Prop := CopiesForward \/ no_overlap t i.

Lemma gap_closed t i h :
  table_wf t -> handles t !! i = Some h -> 0 <= offset h -> copy_defined t i ->
  let a := Z.to_nat (offset h) in
  memcpy a (a + 1) (nr_array_used t - a - 1) (poll_array t) =
  copy_down a (a + 1) (nr_array_used t - a - 1) (poll_array t).
Proof.
  intros Hwf Hi Ho Hc a. unfold memcpy. destruct (decide _) as [|Hov]; [done|].
  assert (a < nr_array_used t)%nat as Ha.
  { destruct (wf_offset _ Hwf _ _ Hi) as [?|[??]]; unfold a; lia. }
  pose proof (wf_alloc _ Hwf). destruct Hc as [Hf|Hno]; [apply Hf; lia|].
  specialize (Hno h Hi). fold a in Hno. lia.
Qed.

Lemma unregister_eq t i h :
  table_wf t -> copy_defined t i -> handles t !! i = Some h -> 0 <= offset h ->
  let hs := <[i := set_offset (-1) h]> (handles t) in
  (exists j x, hs !! j = Some x /\ offset x = offset h) /\
    reactor_unregister t i
    = Some (HandleTable hs (poll_array t) (nr_array_used t)) \/
  (forall j x, hs !! j = Some x -> offset x <> offset h) /\
    reactor_unregister t i
    = Some (HandleTable (shift_offset (offset h) <$> hs)
        (copy_down (Z.to_nat (offset h)) (Z.to_nat (offset h) + 1)
           (nr_array_used t - Z.to_nat (offset h) - 1) (poll_array t))
        (nr_array_used t - 1)).
Proof.
  intros Hwf Hc Hi Ho hs. unfold reactor_unregister. rewrite Hi. simpl. fold hs.
  rewrite (gap_closed t i h Hwf Hi Ho Hc).
  destruct (decide _) as [Hex|Hno]; [left|right]; (split; [|done]).
  - apply Exists_exists in Hex as (x & Hx & Hox).
    apply list_elem_of_lookup in Hx as [j Hj]. eauto.
  - intros j x Hj Hx. apply Hno, Exists_exists. exists x.
    split; [by eapply list_elem_of_lookup_2|done].
Qed.

(** The entries left after the handle is cleared. *)
Lemma cleared_lookup t i h j x :
  handles t !! i = Some h ->
  <[i := set_offset (-1) h]> (handles t) !! j = Some x ->
  j = i /\ offset x = -1 \/ j <> i /\ handles t !! j = Some x.
Proof.
  intros Hi Hx. apply list_lookup_insert_Some in Hx as [(-> & <- & _)|[??]]; auto.
Qed.

Lemma unregister_lookup t i h t' :
  table_wf t -> copy_defined t i -> handles t !! i = Some h -> reactor_unregister t i = Some t' ->
  lookup_reg t' i = None /\ (forall j, j <> i -> lookup_reg t' j = lookup_reg t j).
Proof.
  intros Hwf Hc Hi Hu. pose proof Hwf as [Hal Hof _ _].
  assert (i < length (handles t))%nat by (by eapply lookup_lt_Some).
  destruct (Hof _ _ Hi) as [Ho|[Ho1 Ho2]].
  { erewrite unregister_unused in Hu by done. simplify_eq. split; [|done].
    unfold lookup_reg. rewrite Hi. simpl. by apply handle_reg_unused. }
  destruct (unregister_eq t i h) as [[_ He]|[Hno He]]; [done..| |];
    rewrite He in Hu; injection Hu as <-; unfold lookup_reg; simpl.
  - rewrite list_lookup_insert_eq by done. simpl.
    split; [by apply handle_reg_unused|].
    intros j Hj. by rewrite list_lookup_insert_ne by done.
  - rewrite list_lookup_fmap, list_lookup_insert_eq by done. simpl.
    split.
    { apply handle_reg_unused. unfold shift_offset; simpl.
      rewrite decide_False by (simpl; lia). done. }
    intros j Hj. rewrite list_lookup_fmap, list_lookup_insert_ne by done.
    destruct (handles t !! j) as [x|] eqn:Hx; [|done]. simpl.
    rewrite <- (Z2Nat.id (offset h)) at 4 by done.
    apply handle_reg_shift; [lia|done|by apply Hof in Hx|].
    rewrite Z2Nat.id by done. apply (Hno j).
    by rewrite list_lookup_insert_ne.
Qed.

Lemma unregister_wf_shared t i h :
  table_wf t -> handles t !! i = Some h -> 0 <= offset h ->
  (exists j x, <[i := set_offset (-1) h]> (handles t) !! j = Some x /\
     offset x = offset h) ->
  table_wf (HandleTable (<[i := set_offset (-1) h]> (handles t))
              (poll_array t) (nr_array_used t)).
Proof.
  intros [Hal Hof How Hdis] Hi Ho (j & x & Hj & Hx). split; simpl; [done| | |done].
  - intros k y Hk. apply (cleared_lookup _ _ _ _ _ Hi) in Hk as [[_ ?]|[_ Hk]];
      [by left|by apply Hof in Hk].
  - intros a Ha. destruct (decide (Z.of_nat a = offset h)) as [He|Hne].
    { exists j, x. split; [done|congruence]. }
    destruct (How a Ha) as (k & y & Hk & Hy). exists k, y.
    split; [|done]. rewrite list_lookup_insert_ne; [done|].
    intros ->. congruence.
Qed.

Lemma unregister_wf_last t i h :
  table_wf t -> handles t !! i = Some h -> 0 <= offset h ->
  (forall j x, <[i := set_offset (-1) h]> (handles t) !! j = Some x ->
     offset x <> offset h) ->
  table_wf (HandleTable
    (shift_offset (offset h) <$> <[i := set_offset (-1) h]> (handles t))
    (copy_down (Z.to_nat (offset h)) (Z.to_nat (offset h) + 1)
       (nr_array_used t - Z.to_nat (offset h) - 1) (poll_array t))
    (nr_array_used t - 1)).
Proof.
  intros [Hal Hof How Hdis] Hi Ho Hno.
  assert (0 <= offset h < Z.of_nat (nr_array_used t)) as Hu
    by (apply Hof in Hi as [?|Hu]; [lia|exact Hu]).
  set (a := Z.to_nat (offset h)) in *. assert (offset h = Z.of_nat a) as Ha by lia.
  split; simpl.
  - rewrite copy_down_length by lia. lia.
  - intros j y Hj. apply list_lookup_fmap_Some in Hj as (x & -> & Hx).
    assert (offset x = -1 \/ 0 <= offset x < Z.of_nat (nr_array_used t)) as Hox.
    { apply (cleared_lookup _ _ _ _ _ Hi) in Hx as [[_ ?]|[_ Hx]];
        [by left|by apply Hof in Hx]. }
    apply Hno in Hx. unfold in_use, shift_offset; simpl.
    case_decide; simpl; lia.
  - intros b Hb.
    destruct (How (if decide (b < a)%nat then b else S b)) as (k & y & Hk & Hy).
    { case_decide; lia. }
    exists k, (shift_offset (offset h) y). split.
    + rewrite list_lookup_fmap, list_lookup_insert_ne, Hk; [done|].
      intros ->. simplify_eq. case_decide; lia.
    + unfold shift_offset. destruct (decide (b < a)%nat);
        destruct (decide (offset y > offset h)); simpl; lia.
  - assert (forall b p, (b < nr_array_used t - 1)%nat ->
      copy_down a (a + 1) (nr_array_used t - a - 1) (poll_array t) !! b = Some p ->
      poll_array t !! (if decide (b < a)%nat then b else S b) = Some p) as Hmv.
    { intros b p Hb Hp. case_decide.
      - by rewrite copy_down_lookup_lt in Hp by lia.
      - rewrite copy_down_lookup_in in Hp by lia. rewrite <- Hp. f_equal. lia. }
    intros b c p q Hb Hc Hp Hq Hf He.
    assert (forall b, (b < nr_array_used t - 1)%nat ->
      ((if decide (b < a) then b else S b) < nr_array_used t)%nat) as Hin
      by (intros; case_decide; lia).
    pose proof (Hdis _ _ p q (Hin _ Hb) (Hin _ Hc)
      (Hmv _ _ Hb Hp) (Hmv _ _ Hc Hq) Hf He).
    repeat case_decide; lia.
Qed.

Lemma unregister_wf t i h t' :
  table_wf t -> copy_defined t i -> handles t !! i = Some h -> reactor_unregister t i = Some t' ->
  table_wf t'.
Proof.
  intros Hwf Hc Hi Hu. destruct (wf_offset _ Hwf _ _ Hi) as [Ho|[Ho _]].
  { erewrite unregister_unused in Hu by done. by simplify_eq. }
  destruct (unregister_eq t i h) as [[Hs He]|[Hno He]]; [done..| |];
    rewrite He in Hu; injection Hu as <-.
  - by apply unregister_wf_shared.
  - by apply unregister_wf_last.
Qed.

Lemma unregister_defined t i :
  (i < length (handles t))%nat -> exists t', reactor_unregister t i = Some t'.
Proof.
  intros [h Hh]%lookup_lt_is_Some_2. unfold reactor_unregister. rewrite Hh.
  simpl. case_decide; eauto.
Qed.

(** The handle is free afterwards, and is used again before the array grows. *)
Lemma unregister_frees t i t' :
  table_wf t -> reactor_unregister t i = Some t' ->
  length (handles t') = length (handles t) /\
  exists h, handles t' !! i = Some h /\ offset h = -1.
Proof.
  intros Hwf. unfold reactor_unregister. destruct (handles t !! i) as [h|] eqn:Hh; [|done]. simpl.
  pose proof (lookup_lt_Some _ _ _ Hh) as Hlt.
  destruct (decide _) as [_|Hno]; intros [= <-]; simpl.
  - rewrite length_insert. split; [done|]. eexists. by rewrite list_lookup_insert_eq.
  - rewrite length_fmap, length_insert. split; [done|]. eexists.
    rewrite list_lookup_fmap, list_lookup_insert_eq by done. split; [done|]. simpl.
    destruct (wf_offset _ Hwf _ _ Hh) as [Ho|[Ho _]]; (rewrite decide_False by (simpl; lia)); done.
Qed.

Lemma register_length t socket operations f d :
  Exists (fun h => offset h = -1) (handles t) ->
  length (handles (reactor_register t socket operations f d).2) = length (handles t).
Proof.
  intros Hex. unfold reactor_register, find_handle.
  destruct (list_find _ _) as [[i h]|] eqn:Hf.
  - destruct (find_poll_descriptor _ _ _ _) as [[a pa] n]. simpl. by rewrite length_insert.
  - apply list_find_None in Hf. apply Exists_exists in Hex as (h & Hin & Ho).
    rewrite Forall_forall in Hf. by destruct (Hf h Hin).
Qed.

(** ** Abstract specification *)

Lemma empty_table_wf : table_wf empty_table.
Proof. split; simpl; intros; try done; lia. Qed.

(** A client's calls, and their effect on the tables and on the map.  A
    handle number is only passed to [reactor_unregister] while it lies in
    the array, and when the copy that closes the gap is defined. *)
Inductive handle_op :=
  | ORegister (socket operations : Z) (f : F) (d : D)
  | OUnregister (h : nat).

Definition op_ok (o : handle_op) (t : handle_table) : Prop :=
  match o with
  | ORegister _ operations _ _ => to_short operations = operations
  | OUnregister h => copy_defined t h
  end.

Definition run_op (o : handle_op) (t : handle_table) : option (nat * handle_table) :=
  match o with
  | ORegister s ops f d => Some (reactor_register t s ops f d)
  | OUnregister h => t' ← reactor_unregister t h; Some (h, t')
  end.

Definition spec_op (o : handle_op) (h : nat) (m : gmap nat registration)
  : gmap nat registration :=
  match o with
  | ORegister s ops f d => <[h := Reg s ops f d]> m
  | OUnregister _ => delete h m
  end.

Inductive run_ops
  : list handle_op -> handle_table -> gmap nat registration ->
    handle_table -> gmap nat registration -> Prop :=
  | run_nil t m : run_ops [] t m t m
  | run_cons o os t m h t1 t2 m2 :
      op_ok o t -> run_op o t = Some (h, t1) ->
      run_ops os t1 (spec_op o h m) t2 m2 -> run_ops (o :: os) t m t2 m2.

Lemma run_op_refines o t m h t' :
  table_wf t -> models t m -> op_ok o t -> run_op o t = Some (h, t') ->
  table_wf t' /\ models t' (spec_op o h m).
Proof.
  intros Hwf Hm Hok Hr. destruct o as [s ops f d|i]; simpl in *.
  - injection Hr as Hr. split; [by eapply register_wf|].
    destruct (register_lookup _ _ _ _ _ _ _ Hwf Hok Hr) as (_ & Hh & Ho).
    intros i. destruct (decide (i = h)) as [->|Hne].
    + by rewrite lookup_insert_eq.
    + rewrite lookup_insert_ne by done. rewrite Ho by done. apply Hm.
  - destruct (reactor_unregister t i) as [t1|] eqn:Hu; simplify_eq/=.
    assert (exists x, handles t !! h = Some x) as [x Hx].
    { unfold reactor_unregister in Hu. destruct (handles t !! h) as [x|]; [by exists x|done]. }
    split; [by eapply unregister_wf|].
    destruct (unregister_lookup _ _ _ _ Hwf Hok Hx Hu) as [Hn Ho].
    intros i. destruct (decide (i = h)) as [->|Hne].
    + by rewrite lookup_delete_eq.
    + rewrite lookup_delete_ne by done. rewrite Ho by done. apply Hm.
Qed.

End handles.

Arguments reactor_handle : clear implicits.
Arguments handle_table : clear implicits.
Arguments registration : clear implicits.
Arguments handle_op : clear implicits.

(** ** Properties *)

(** [reactor_register] hands out a handle number that was not in use and
    installs exactly the registration asked for: the tables stay well formed
    and the finite map they stand for gains one binding. *)
Theorem reactor_register_refines {F D : Type} (jh : nat -> reactor_handle F D)
    (jp : nat -> pollfd) (t : handle_table F D) (m : gmap nat (registration F D))
    socket operations f d h t' :
  table_wf t -> models t m -> to_short operations = operations ->
  reactor_register jh jp t socket operations f d = (h, t') ->
  m !! h = None /\ table_wf t' /\
  models t' (<[h := Reg socket operations f d]> m).
Proof.
  intros Hwf Hm Hop Hr.
  destruct (run_op_refines jh jp (ORegister socket operations f d) t m h t')
    as [??]; simpl; try done; [by rewrite Hr|].
  split; [|done]. rewrite (Hm h).
  by eapply register_lookup in Hr as (? & _).
Qed.

Definition demo_handle (i : nat) : reactor_handle unit Z := Handle 77 tt 0.
Definition demo_pollfd (i : nat) : pollfd := Pollfd 9 9 9.
Definition demo_table : handle_table unit Z :=
  (reactor_register demo_handle demo_pollfd empty_table 4 1 tt 10).2.

Lemma demo_models : exists m, table_wf demo_table /\ models demo_table m /\
  m = {[0%nat := Reg 4 1 tt 10]}.
Proof.
  exists {[0%nat := Reg 4 1 tt 10]}.
  destruct (run_op_refines demo_handle demo_pollfd (ORegister 4 1 tt 10)
    empty_table ∅ 0%nat demo_table) as [??]; try done.
  apply empty_table_wf.
Defined.

Lemma reactor_register_refines_witness :
  exists m, models demo_table m /\
  m !! 1%nat = None /\
  models (reactor_register demo_handle demo_pollfd demo_table 5 4 tt 11).2
    (<[1%nat := Reg 5 4 tt 11]> m).
Proof.
  destruct demo_models as (m & Hwf & Hm & _). exists m. split; [done|].
  destruct (reactor_register_refines demo_handle demo_pollfd demo_table m 5 4 tt 11
    1%nat (reactor_register demo_handle demo_pollfd demo_table 5 4 tt 11).2
    Hwf Hm eq_refl eq_refl) as (H1 & _ & H2).
  exact (conj H1 H2).
Defined.

(** [reactor_unregister] on any number inside the handle array is defined
    (it never reads or writes outside the arrays), keeps the tables well
    formed, removes the binding of that number and changes no other, although
    the cells above the deleted one are moved and renumbered. *)
Theorem reactor_unregister_refines {F D : Type} {MC : Memcpy} (t : handle_table F D)
    (m : gmap nat (registration F D)) (i : nat) :
  table_wf t -> models t m -> (i < length (handles t))%nat -> copy_defined t i ->
  exists t', reactor_unregister t i = Some t' /\ table_wf t' /\
    models t' (delete i m).
Proof.
  intros Hwf Hm Hi Hc. destruct (unregister_defined t i Hi) as [t' Ht'].
  destruct (lookup_lt_is_Some_2 _ _ Hi) as [h Hh].
  exists t'. split; [done|].
  apply (run_op_refines (fun _ => h) demo_pollfd (OUnregister i) t m i t');
    try done. simpl. by rewrite Ht'.
Qed.

Lemma reactor_unregister_refines_witness :
  exists m t', models demo_table m /\
    reactor_unregister demo_table 0 = Some t' /\ models t' (delete 0%nat m).
Proof.
  destruct demo_models as (m & Hwf & Hm & _).
  destruct (reactor_unregister_refines demo_table m 0 Hwf Hm) as (t' & H1 & _ & H2);
    [vm_compute; lia|left; apply _|].
  exists m, t'. exact (conj Hm (conj H1 H2)).
Defined.

(** The array handed to [poll] is exact: a descriptor with an event mask is
    polled if and only if some handle is registered for it, and no pair is
    polled twice (handles for the same pair share a cell). *)
Theorem polled_exact {F D : Type} (t : handle_table F D)
    (m : gmap nat (registration F D)) :
  table_wf t -> models t m ->
  (forall s e, (exists p, p ∈ polled t /\ fd p = s /\ events p = e) <->
               (exists i r, m !! i = Some r /\ r_fd r = s /\ r_events r = e)) /\
  NoDup ((fun p => (fd p, events p)) <$> polled t).
Proof.
  intros [Hal Hof How Hdis] Hm. split.
  - intros s e. split.
    + intros (p & Hp & <- & <-). unfold polled in Hp.
      apply list_elem_of_lookup in Hp as [a Ha].
      apply lookup_take_Some in Ha as [Ha Hlt].
      destruct (How a Hlt) as (i & h & Hi & Ho).
      exists i, (Reg (fd p) (events p) (fn h) (data h)). split; [|done].
      rewrite (Hm i). unfold lookup_reg, handle_reg. rewrite Hi. simpl.
      rewrite decide_True by lia. by rewrite Ho, Nat2Z.id, Ha.
    + intros (i & r & Hi & <- & <-). rewrite (Hm i) in Hi.
      unfold lookup_reg, handle_reg in Hi.
      destruct (handles t !! i) as [h|] eqn:Hh; [|done]. simpl in Hi.
      case_decide; [|done].
      destruct (poll_array t !! _) as [p|] eqn:Hp; simplify_eq/=.
      exists p. split; [|done]. apply list_elem_of_lookup. eexists.
      apply lookup_take_Some. split; [exact Hp|].
      apply Hof in Hh as [?|[??]]; lia.
  - apply NoDup_alt. intros a b x Ha Hb.
    apply list_lookup_fmap_Some in Ha as (p & -> & Ha).
    apply list_lookup_fmap_Some in Hb as (q & Heq & Hb).
    apply lookup_take_Some in Ha as [Ha ?]. apply lookup_take_Some in Hb as [Hb ?].
    injection Heq as ??. by eapply Hdis.
Qed.

Lemma polled_exact_witness :
  (fun p => (fd p, events p)) <$> polled demo_table = [(4, 1)] /\
  NoDup ((fun p => (fd p, events p)) <$> polled demo_table).
Proof.
  split; [reflexivity|].
  destruct demo_models as (m & Hwf & Hm & _).
  exact (proj2 (polled_exact demo_table m Hwf Hm)).
Defined.

(** C1: for every sequence of register and unregister calls made on the empty
    reactor, the tables reached are well formed and stand for exactly the map
    that results from the same inserts and deletes (forward simulation), and
    the call of [memcpy] in [reactor_unregister] is the reason for the only
    proviso: either the C library copies overlapping regions to lower addresses
    as [memmove] does, which the standard does not promise, or at most one cell
    follows the one that is removed. *)
Theorem handles_simulation {F D : Type} {MC : Memcpy} (jh : nat -> reactor_handle F D)
    (jp : nat -> pollfd) os (t : handle_table F D) m :
  run_ops jh jp os empty_table ∅ t m -> table_wf t /\ models t m.
Proof.
  assert (forall os t0 m0 t m, run_ops jh jp os t0 m0 t m ->
    table_wf t0 -> models t0 m0 -> table_wf t /\ models t m) as Hgen.
  { induction 1 as [|o os' t0 m0 h t1 t2 m2 Hok Hr _ IH]; [done|].
    intros Hwf Hm. destruct (run_op_refines jh jp o t0 m0 h t1); auto. }
  intros Hr. eapply Hgen; [exact Hr|apply empty_table_wf|done].
Qed.

(** Registrations of three descriptors, of which the first is removed: the
    regions of [memcpy] overlap. *)
Definition demo_ops : list (handle_op unit Z) :=
  [ORegister 4 1 tt 10; ORegister 4 1 tt 11; ORegister 6 4 tt 12; ORegister 7 1 tt 13;
   OUnregister 0; OUnregister 1].

Lemma handles_simulation_witness :
  exists t m, run_ops demo_handle demo_pollfd demo_ops empty_table ∅ t m /\
    table_wf t /\ models t m /\ polled t = [Pollfd 6 4 9; Pollfd 7 1 9].
Proof.
  assert (exists t m, run_ops demo_handle demo_pollfd demo_ops empty_table ∅ t m /\
    polled t = [Pollfd 6 4 9; Pollfd 7 1 9]) as (t & m & Hr & Hp).
  { eexists _, _. split; cycle 1; [shelve|].
    repeat (eapply run_cons; [reflexivity || (left; apply _)|vm_compute; reflexivity|]).
    apply run_nil. Unshelve. reflexivity. }
  destruct (handles_simulation _ _ _ _ _ Hr) as [H1 H2].
  exists t, m. exact (conj Hr (conj H1 (conj H2 Hp))).
Defined.

(** The proviso is needed: with a [memcpy] that begins at the highest address,
    removing the first of three registrations leaves another handle with the
    descriptor of the last one, and a descriptor that is not polled. *)
Definition three_handles : handle_table unit Z :=
  let reg t s d := (reactor_register demo_handle demo_pollfd t s 1 tt d).2 in
  reg (reg (reg empty_table 4 10) 6 11) 7 12.

Theorem unregister_highest_first_breaks :
  exists t, reactor_unregister (MC := copy_highest_first) three_handles 0 = Some t /\
    lookup_reg three_handles 1 = Some (Reg 6 1 tt 11) /\
    lookup_reg t 1 = Some (Reg 7 1 tt 11) /\ fd <$> polled t = [7; 7].
Proof. eexists. split; [reflexivity|]. vm_compute. auto. Qed.
