(* ===== verification/ReactorTimers.v ===== *)
(** * Reactor: the timer queue ([src/pthr_reactor.c])

    Timers form a doubly linked list in memory, ordered by trigger time and
    stored as differences: the first timer holds its absolute trigger time,
    every other one the distance to its predecessor, in [unsigned long long].
    The file models the list with its pointers ([reactor_set_timer],
    [remove_timer]) and refines it twice: to a list of differences, then to
    a list of absolute trigger times. *)

From stdpp Require Import base list gmap sorting.
From S2P Require Import Prelude.

(** Addresses of timer structures; [None] is the null pointer. *)
Abbreviation loc := positive.

Section timers.
(** Handler functions, their argument, and pools. *)
Context {F D P : Type}.

(** The fields of [struct reactor_timer] other than the links. *)
Record payload := Payload { delta : Z; tfn : F; tdata : D; tpool : P }.

Record reactor_timer := Timer {
  prev : option loc; next : option loc; body : payload }.

Record timer_queue := TimerQueue {
  theap : gmap loc reactor_timer;
  head_timer : option loc
}.

Definition set_prev (p : option loc) (t : reactor_timer) : reactor_timer :=
  Timer p (next t) (body t).
Definition set_next (n : option loc) (t : reactor_timer) : reactor_timer :=
  Timer (prev t) n (body t).
Definition body_delta (d : Z) (b : payload) : payload :=
  Payload d (tfn b) (tdata b) (tpool b).
Definition set_delta (d : Z) (t : reactor_timer) : reactor_timer :=
  Timer (prev t) (next t) (body_delta d (body t)).

(** [q->next = n] for a non-null [q]; [head_timer = n] when there is no
    predecessor. *)
Definition link_from (q : option loc) (n : option loc) (s : timer_queue)
  : timer_queue :=
  match q with
  | Some q => TimerQueue (alter (set_next n) q (theap s)) (head_timer s)
  | None => TimerQueue (theap s) n
  end.

Definition on_heap (f : gmap loc reactor_timer -> gmap loc reactor_timer)
    (s : timer_queue) : timer_queue := TimerQueue (f (theap s)) (head_timer s).

(** The search loop of [reactor_set_timer] from the pointer [p]; [b] holds
    the new timer's function, argument and pool.  [None] stands for a null
    or dangling pointer being followed, or for exhausted fuel. *)
Fixpoint insert_loop (fuel : nat) (timer : loc) (b : payload)
    (trigger_time this_time : Z) (last_p p : option loc) (s : timer_queue)
  : option timer_queue :=
  match p with
  | None =>
    lp ← last_p;
    _ ← theap s !! lp;
    Some (on_heap (insert timer
                     (Timer (Some lp) None
                        (body_delta (to_u64 (trigger_time - this_time)) b)))
            (link_from (Some lp) (Some timer) s))
  | Some l =>
    match fuel with
    | O => None
    | S k =>
      t ← theap s !! l;
      let d := delta (body t) in
      let this_time := to_u64 (this_time + d) in
      if trigger_time <=? this_time then
        let s1 := on_heap (insert timer
                    (Timer (prev t) (Some l)
                       (body_delta (to_u64 (trigger_time - (this_time - d))) b))) s in
        let s2 := link_from (prev t) (Some timer) s1 in
        Some (on_heap (alter (fun t => set_delta (to_u64 (this_time - trigger_time))
                                         (set_prev (Some timer) t)) l) s2)
      else insert_loop k timer b trigger_time this_time (Some l) (next t) s
    end
  end.

(** The list manipulation of [reactor_set_timer]: [timer] is the address
    [pmalloc] returned. *)
Definition insert_timer (timer : loc) (b : payload) (trigger_time : Z)
    (s : timer_queue) : option timer_queue :=
  match head_timer s with
  | None =>
    Some (TimerQueue (<[timer := Timer None None (body_delta trigger_time b)]>
                        (theap s)) (Some timer))
  | Some _ =>
    insert_loop (S (size (theap s))) timer b trigger_time 0 None (head_timer s) s
  end.

Definition remove_timer (timer : loc) (s : timer_queue) : option timer_queue :=
  t ← theap s !! timer;
  let s1 := link_from (prev t) (next t) s in
  Some match next t with
       | None => s1
       | Some n =>
         on_heap (alter (fun u => set_delta
                     (to_u64 (delta (body u) + delta (body t)))
                     (set_prev (prev t) u)) n) s1
       end.

(** ** Lists of differences *)

Abbreviation item := (loc * payload)%type.
Implicit Types xs ys : list item.

Definition add_delta (d : Z) xs : list item :=
  match xs with
  | [] => []
  | (l, b) :: r => (l, body_delta (to_u64 (delta b + d)) b) :: r
  end.

Fixpoint q_insert (timer : loc) (b : payload) (trigger this : Z) xs : list item :=
  match xs with
  | [] => [(timer, body_delta (to_u64 (trigger - this)) b)]
  | (l, c) :: r =>
    let this' := to_u64 (this + delta c) in
    if trigger <=? this'
    then (timer, body_delta (to_u64 (trigger - (this' - delta c))) b)
           :: (l, body_delta (to_u64 (this' - trigger)) c) :: r
    else (l, c) :: q_insert timer b trigger this' r
  end.

(** A doubly linked segment holding [xs]: entered from [p] at [h], its last
    cell is [lst] and points to [tl]. *)
Fixpoint dlseg (hp : gmap loc reactor_timer) (p h lst tl : option loc) xs : Prop :=
  match xs with
  | [] => h = tl /\ p = lst
  | (l, b) :: r =>
    h = Some l /\ exists n, hp !! l = Some (Timer p n b) /\
                            dlseg hp (Some l) n lst tl r
  end.

Definition rep (s : timer_queue) xs : Prop :=
  NoDup xs.*1 /\ (exists lst, dlseg (theap s) None (head_timer s) lst None xs) /\
  (forall l, is_Some (theap s !! l) <-> l ∈ xs.*1).

Lemma dlseg_app hp p h lst tl xs ys :
  dlseg hp p h lst tl (xs ++ ys) <->
  exists m mid, dlseg hp p h mid m xs /\ dlseg hp mid m lst tl ys.
Proof.
  revert p h. induction xs as [|[l b] xs IH]; intros p h; simpl.
  - split; [by intros H; exists h, p|by intros (m & mid & [-> ->] & H)].
  - setoid_rewrite IH. split.
    + intros (-> & n & Hl & m & mid & Hx & Hy). eauto 10.
    + intros (m & mid & (-> & n & Hl & Hx) & Hy). eauto 10.
Qed.

Lemma dlseg_frame hp hp' p h lst tl xs :
  (forall l, l ∈ xs.*1 -> hp' !! l = hp !! l) ->
  dlseg hp p h lst tl xs -> dlseg hp' p h lst tl xs.
Proof.
  revert p h. induction xs as [|[l b] xs IH]; intros p h Hf; simpl; [done|].
  intros (-> & n & Hl & Hr). split; [done|]. exists n.
  rewrite Hf by set_solver. split; [done|]. apply IH; set_solver.
Qed.

Lemma dlseg_lookup hp p h lst tl xs l b :
  dlseg hp p h lst tl xs -> (l, b) ∈ xs -> exists p' n, hp !! l = Some (Timer p' n b).
Proof.
  revert p h. induction xs as [|[l' b'] xs IH]; intros p h; simpl; [set_solver|].
  intros (-> & n & Hl & Hr) [[= -> ->]|Hin]%elem_of_cons; eauto.
Qed.

Lemma dlseg_last hp p h lst tl xs :
  dlseg hp p h lst tl xs -> xs = [] /\ p = lst \/ exists l, lst = Some l /\ l ∈ xs.*1.
Proof.
  revert p h. induction xs as [|[l b] xs IH]; intros p h; simpl.
  - intros [-> ->]. auto.
  - intros (-> & n & Hl & Hr). right.
    apply IH in Hr as [[-> <-]|(l' & -> & Hin)]; [exists l|exists l'];
      (split; [done|]); set_solver.
Qed.

(** The link out of the last cell of a segment, or [head_timer] when the
    segment is empty, is redirected by [link_from]. *)
Lemma link_from_seg s mid m n xs :
  NoDup xs.*1 -> dlseg (theap s) None (head_timer s) mid m xs ->
  dlseg (theap (link_from mid n s)) None (head_timer (link_from mid n s)) mid n xs.
Proof.
  intros Hnd Hseg. destruct xs as [|[l b] xs _] using rev_ind.
  { simpl in Hseg. destruct Hseg as [_ <-]. done. }
  apply dlseg_app in Hseg as (q & mid' & Hxs & Hx).
  simpl in Hx. destruct Hx as (-> & n' & Hl & <- & <-). simpl.
  apply dlseg_app. exists (Some l), mid'.
  rewrite fmap_app in Hnd. apply NoDup_app in Hnd as (_ & Hd & _).
  split.
  - eapply dlseg_frame; [|exact Hxs]. intros l' Hl'.
    rewrite lookup_alter_ne; [done|]. intros ->.
    apply (Hd l' Hl'). simpl. by constructor.
  - simpl. split; [done|]. exists n. rewrite lookup_alter_eq, Hl. done.
Qed.

Lemma link_from_other s h mid m n xs l :
  dlseg (theap s) None h mid m xs -> l ∉ xs.*1 ->
  theap (link_from mid n s) !! l = theap s !! l.
Proof.
  intros [[_ <-]|(l' & -> & Hin)]%dlseg_last Hl; [done|].
  simpl. rewrite lookup_alter_ne; [done|]. by intros ->.
Qed.

Lemma link_from_dom q n s l :
  is_Some (theap (link_from q n s) !! l) <-> is_Some (theap s !! l).
Proof. destruct q; simpl; [|done]. apply lookup_alter_is_Some. Qed.

(** The segment [pre ++ ys] of [s] with [ys] entered at [p]. *)
Definition split_at s (pre ys : list item) (mid p : option loc) : Prop :=
  dlseg (theap s) None (head_timer s) mid p pre /\
  exists lst, dlseg (theap s) mid p lst None ys.

Lemma insert_before s pre l c r mid n timer b d d' :
  NoDup (pre ++ (l, c) :: r).*1 -> theap s !! timer = None ->
  split_at s pre ((l, c) :: r) mid (Some l) ->
  theap s !! l = Some (Timer mid n c) ->
  let s1 := on_heap (insert timer (Timer mid (Some l) (body_delta d b))) s in
  let s2 := link_from mid (Some timer) s1 in
  let s3 := on_heap (alter (fun t => set_delta d' (set_prev (Some timer) t)) l) s2 in
  (exists lst, dlseg (theap s3) None (head_timer s3) lst None
    (pre ++ (timer, body_delta d b) :: (l, body_delta d' c) :: r)) /\
  (forall k, is_Some (theap s3 !! k) <-> k = timer \/ is_Some (theap s !! k)).
Proof.
  intros Hnd Hfresh [Hpre (lst & Hys)] Hl s1 s2 s3.
  simpl in Hys. destruct Hys as (_ & n' & Hl' & Hr). assert (n = n') as -> by congruence.
  rewrite fmap_app in Hnd. apply NoDup_app in Hnd as (Hnp & Hd & Hnr).
  simpl in Hnr. apply NoDup_cons in Hnr as [Hlr Hnr].
  assert (forall k, k ∈ pre.*1 -> k <> timer /\ k <> l /\ k ∉ r.*1) as Hk.
  { intros k Hin. pose proof (Hd k Hin) as Hn. simpl in Hn.
    apply not_elem_of_cons in Hn as [??]. split; [|done]. intros ->.
    apply list_elem_of_fmap in Hin as ([? b'] & -> & Hin).
    destruct (dlseg_lookup _ _ _ _ _ _ _ _ Hpre Hin) as (? & ? & ?). simpl in *; congruence. }
  assert (forall k, k ∈ r.*1 -> k <> timer) as Hkr.
  { intros k Hin ->. apply list_elem_of_fmap in Hin as ([? b'] & -> & Hin).
    destruct (dlseg_lookup _ _ _ _ _ _ _ _ Hr Hin) as (? & ? & ?). simpl in *; congruence. }
  assert (l <> timer) as Hlt by congruence.
  assert (dlseg (theap s1) None (head_timer s1) mid (Some l) pre) as Hpre1.
  { eapply dlseg_frame; [|exact Hpre]. intros k Hin. simpl.
    rewrite lookup_insert_ne; [done|]. intros <-. by apply Hk in Hin as []. }
  assert (forall k, k ∉ pre.*1 -> theap s2 !! k = theap s1 !! k) as Hs2
    by (intros; by eapply link_from_other).
  assert (forall k, k <> l -> theap s3 !! k = theap s2 !! k) as Hs3
    by (intros; simpl; by rewrite lookup_alter_ne).
  split.
  - exists lst. apply dlseg_app. exists (Some timer), mid. split.
    { eapply dlseg_frame; [|eapply link_from_seg; [done|exact Hpre1]].
      intros k Hin. apply Hs3. by apply Hk in Hin as (_ & ? & _). }
    simpl. split; [done|]. exists (Some l). split; [|split; [done|]].
    { rewrite lookup_alter_ne, Hs2 by (done || by intros Hin; apply Hk in Hin as []).
      simpl. by rewrite lookup_insert_eq. }
    exists n'. rewrite lookup_alter_eq, Hs2
      by (intros Hin; by apply Hk in Hin as (_ & ? & _)).
    simpl. rewrite lookup_insert_ne, Hl' by done. simpl. split; [done|].
    eapply dlseg_frame; [|exact Hr]. intros k Hin. fold (theap s3).
    rewrite Hs3 by (by intros ->). rewrite Hs2.
    { simpl. rewrite lookup_insert_ne; [done|]. intros <-. by apply Hkr in Hin. }
    intros Hin'. by apply Hk in Hin' as (_ & _ & ?).
  - intros k. simpl. rewrite lookup_alter_is_Some. unfold s2. rewrite link_from_dom. simpl.
    rewrite lookup_insert_is_Some'. naive_solver.
Qed.

Lemma insert_append s pre lp timer b d :
  NoDup pre.*1 -> theap s !! timer = None ->
  dlseg (theap s) None (head_timer s) (Some lp) None pre ->
  let s' := on_heap (insert timer (Timer (Some lp) None (body_delta d b)))
              (link_from (Some lp) (Some timer) s) in
  (exists lst, dlseg (theap s') None (head_timer s') lst None
    (pre ++ [(timer, body_delta d b)])) /\
  (forall k, is_Some (theap s' !! k) <-> k = timer \/ is_Some (theap s !! k)).
Proof.
  intros Hnd Hfresh Hpre s'. split.
  - exists (Some timer). apply dlseg_app. exists (Some timer), (Some lp). split.
    + eapply dlseg_frame; [|eapply link_from_seg; [done|exact Hpre]].
      intros k Hin. simpl. rewrite lookup_insert_ne; [done|]. intros <-.
      apply list_elem_of_fmap in Hin as ([? b'] & -> & Hin).
      destruct (dlseg_lookup _ _ _ _ _ _ _ _ Hpre Hin) as (? & ? & ?).
      simpl in *; congruence.
    + simpl. split; [done|]. exists None. by rewrite lookup_insert_eq.
  - intros k. simpl. rewrite lookup_insert_is_Some', lookup_alter_is_Some.
    naive_solver.
Qed.

Lemma insert_loop_spec fuel timer b trigger this s pre ys mid p :
  NoDup (pre ++ ys).*1 -> theap s !! timer = None -> split_at s pre ys mid p ->
  (length ys <= fuel)%nat -> pre ++ ys <> [] ->
  exists s', insert_loop fuel timer b trigger this mid p s = Some s' /\
    (exists lst, dlseg (theap s') None (head_timer s') lst None
       (pre ++ q_insert timer b trigger this ys)) /\
    (forall k, is_Some (theap s' !! k) <-> k = timer \/ is_Some (theap s !! k)).
Proof.
  revert fuel this pre mid p.
  induction ys as [|[l c] r IH]; intros fuel this pre mid p Hnd Hfresh Hsp Hf Hne.
  - destruct Hsp as [Hpre (lst & -> & ->)]. rewrite app_nil_r in Hnd, Hne.
    destruct (dlseg_last _ _ _ _ _ _ Hpre) as [[-> _]|(lp & -> & Hin)]; [done|].
    apply list_elem_of_fmap in Hin as ([? b'] & -> & Hin).
    destruct (dlseg_lookup _ _ _ _ _ _ _ _ Hpre Hin) as (p' & n' & Hlp).
    simpl. destruct fuel; simpl; rewrite Hlp; simpl; eexists;
      (split; [reflexivity|]); by apply insert_append.
  - pose proof Hsp as [Hpre (lst & -> & n & Hl & Hr)].
    destruct fuel as [|fuel]; [simpl in Hf; lia|]. simpl. rewrite Hl. simpl.
    destruct (trigger <=? _) eqn:Hle.
    + eexists. split; [reflexivity|]. by eapply insert_before.
    + destruct (IH fuel (to_u64 (this + delta c)) (pre ++ [(l, c)]) (Some l) n)
        as (s' & Hs' & Hseg & Hdom); try done.
      * by rewrite <- app_assoc.
      * split; [|by exists lst]. apply dlseg_app. exists (Some l), mid.
        split; [done|]. simpl. eauto.
      * simpl in Hf. lia.
      * by destruct pre.
      * exists s'. rewrite <- app_assoc in Hseg. auto.
Qed.

Lemma q_insert_ids timer b trigger this xs k :
  k ∈ (q_insert timer b trigger this xs).*1 <-> k = timer \/ k ∈ xs.*1.
Proof.
  revert this. induction xs as [|[l c] r IH]; intros this; simpl.
  - rewrite list_elem_of_singleton. set_solver.
  - destruct (trigger <=? _); simpl; rewrite !elem_of_cons; [tauto|].
    rewrite IH. tauto.
Qed.

Lemma q_insert_NoDup timer b trigger this xs :
  timer ∉ xs.*1 -> NoDup xs.*1 -> NoDup (q_insert timer b trigger this xs).*1.
Proof.
  revert this. induction xs as [|[l c] r IH]; intros this; simpl.
  - intros. apply NoDup_singleton.
  - rewrite not_elem_of_cons, NoDup_cons. intros [Hne Hni] [Hl Hr].
    destruct (trigger <=? _); simpl; rewrite !NoDup_cons.
    + rewrite not_elem_of_cons. auto.
    + rewrite q_insert_ids. naive_solver.
Qed.

(** [reactor_set_timer] links the timer in; the list it represents is the
    insertion on the list of differences. *)
Lemma insert_timer_rep s xs timer b trigger :
  rep s xs -> theap s !! timer = None -> to_u64 trigger = trigger ->
  exists s', insert_timer timer b trigger s = Some s' /\
    rep s' (q_insert timer b trigger 0 xs).
Proof.
  intros (Hnd & (lst & Hseg) & Hdom) Hfresh Htr.
  assert (timer ∉ xs.*1) as Hni.
  { rewrite <- Hdom, Hfresh. by intros [? ?]. }
  unfold insert_timer. destruct (head_timer s) as [h|] eqn:Hh.
  - destruct (insert_loop_spec (S (size (theap s))) timer b trigger 0 s [] xs None
      (Some h)) as (s' & Hs' & Hseg' & Hdom'); try done.
    + split; [by rewrite Hh|by exists lst].
    + replace (length xs) with (size (theap s)); [lia|].
      rewrite <- (length_fmap fst xs), <- (size_list_to_set (C := gset loc)) by done.
      rewrite <- size_dom. f_equal. apply set_eq. intros k.
      rewrite elem_of_dom, elem_of_list_to_set. apply Hdom.
    + destruct xs; [by destruct Hseg|done].
    + exists s'. split; [done|]. split; [by apply q_insert_NoDup|].
      split; [done|]. intros k. rewrite Hdom', q_insert_ids, Hdom. done.
  - destruct xs as [|[l c] r]; [|by destruct Hseg]. eexists. split; [done|].
    simpl. rewrite Z.sub_0_r, Htr. split; [apply NoDup_singleton|]. split.
    + exists (Some timer). simpl. split; [done|]. exists None.
      by rewrite lookup_insert_eq.
    + intros k. simpl. rewrite lookup_insert_is_Some', Hdom, list_elem_of_singleton.
      set_solver.
Qed.

(** [delete_pool] on the timer's pool: the clean-up function unlinks the
    timer, then its memory is freed. *)
Definition discard_timer (timer : loc) (s : timer_queue) : option timer_queue :=
  s' ← remove_timer timer s; Some (on_heap (delete timer) s').

Lemma add_delta_ids d xs : (add_delta d xs).*1 = xs.*1.
Proof. by destruct xs as [|[??]?]. Qed.

Lemma discard_timer_rep s pre l b r :
  rep s (pre ++ (l, b) :: r) ->
  exists s', discard_timer l s = Some s' /\ rep s' (pre ++ add_delta (delta b) r).
Proof.
  intros (Hnd & (lst & Hseg) & Hdom).
  apply dlseg_app in Hseg as (m & mid & Hpre & Hys).
  simpl in Hys. destruct Hys as (-> & n & Hl & Hr).
  rewrite fmap_app in Hnd. apply NoDup_app in Hnd as (Hnp & Hd & Hnr).
  simpl in Hnr. apply NoDup_cons in Hnr as [Hlr Hnr].
  assert (l ∉ pre.*1) as Hlp by (intros Hin; apply (Hd l Hin); by left).
  assert (forall k, k ∈ pre.*1 -> k ∉ r.*1) as Hpr
    by (intros k Hin Hin'; apply (Hd k Hin); by right).
  unfold discard_timer, remove_timer. rewrite Hl. simpl. eexists. split; [done|].
  set (s1 := link_from mid n s).
  assert (dlseg (theap s1) None (head_timer s1) mid n pre) as Hpre1
    by (eapply link_from_seg; [done|exact Hpre]).
  assert (forall k, k ∉ pre.*1 -> theap s1 !! k = theap s !! k) as Hs1
    by (intros; by eapply link_from_other).
  split; [|split].
  - rewrite fmap_app, add_delta_ids. apply NoDup_app. auto.
  - destruct r as [|[l' c] r]; simpl in Hr; [destruct Hr as [-> <-]|
      destruct Hr as (-> & n' & Hl' & Hr)]; simpl.
    + rewrite app_nil_r. exists mid. eapply dlseg_frame; [|exact Hpre1].
      intros k Hin. rewrite lookup_delete_ne; [done|]. by intros <-.
    + simpl in Hlr, Hnr. apply not_elem_of_cons in Hlr as [Hll' Hlr].
      apply NoDup_cons in Hnr as [Hl'r Hnr].
      assert (forall k, k ∈ pre.*1 -> k <> l') as Hpl
        by (intros k Hin ->; apply (Hpr l' Hin); by left).
      exists lst. apply dlseg_app. exists (Some l'), mid. split.
      * eapply dlseg_frame; [|exact Hpre1]. intros k Hin. simpl.
        rewrite lookup_delete_ne by (by intros <-).
        rewrite lookup_alter_ne; [done|]. intros <-. by apply Hpl in Hin.
      * simpl. split; [done|]. exists n'.
        rewrite lookup_delete_ne, lookup_alter_eq by done.
        rewrite Hs1, Hl' by (intros Hin; by apply Hpl in Hin). split; [done|].
        eapply dlseg_frame; [|exact Hr]. intros k Hin.
        rewrite lookup_delete_ne by (by intros <-).
        rewrite lookup_alter_ne by (by intros <-).
        apply Hs1. intros Hin'. apply (Hpr k Hin'). by right.
  - intros k. rewrite fmap_app, add_delta_ids, elem_of_app. simpl.
    rewrite lookup_delete_is_Some.
    assert (is_Some (theap (match n with None => s1 | Some n =>
      on_heap (alter (fun u => set_delta (to_u64 (delta (body u) + delta b))
                                (set_prev mid u)) n) s1 end) !! k)
      <-> is_Some (theap s !! k)) as ->.
    { destruct n; simpl; rewrite ?lookup_alter_is_Some; unfold s1; apply link_from_dom. }
    rewrite Hdom, fmap_app, elem_of_app. simpl. rewrite elem_of_cons.
    split; [naive_solver|]. intros [Hin|Hin]; (split; [|by auto]); by intros <-.
Qed.

(** ** Absolute trigger times *)

(** The same list with every difference replaced by the trigger time. *)
Fixpoint times (this : Z) xs : list item :=
  match xs with
  | [] => []
  | (l, b) :: r =>
    (l, body_delta (this + delta b) b) :: times (this + delta b) r
  end.

(** The queue in terms of trigger times: a new timer goes before the first
    one that is not earlier. *)
Fixpoint sched_insert (x : item) (q : list item) : list item :=
  match q with
  | [] => [x]
  | y :: r => if delta x.2 <=? delta y.2 then x :: y :: r
              else y :: sched_insert x r
  end.

Definition deltas_ok (this : Z) xs : Prop :=
  Forall (fun x => 0 <= delta x.2) xs /\
  Forall (fun y => delta y.2 < 2 ^ 64) (times this xs).

(** [q] is the schedule kept by the queue in memory. *)
Definition sched (s : timer_queue) (q : list item) : Prop :=
  exists xs, rep s xs /\ deltas_ok 0 xs /\ times 0 xs = q.

Lemma deltas_ok_cons this l b r :
  deltas_ok this ((l, b) :: r) <->
  0 <= delta b /\ this + delta b < 2 ^ 64 /\ deltas_ok (this + delta b) r.
Proof. unfold deltas_ok. simpl. rewrite !Forall_cons. simpl. tauto. Qed.

Lemma q_insert_times timer b trigger this xs :
  0 <= this < trigger \/ this = 0 /\ 0 <= trigger -> trigger < 2 ^ 64 ->
  deltas_ok this xs ->
  times this (q_insert timer b trigger this xs)
    = sched_insert (timer, body_delta trigger b) (times this xs) /\
  deltas_ok this (q_insert timer b trigger this xs).
Proof.
  intros Ht Htr. revert this Ht.
  induction xs as [|[l c] r IH]; intros this Ht Hok; simpl.
  - rewrite wrapu_small by lia. split; [unfold body_delta; simpl; do 3 f_equal; lia|].
    apply deltas_ok_cons. simpl. split; [lia|split; [lia|split; constructor]].
  - apply deltas_ok_cons in Hok as (Hc & Hlt & Hok).
    rewrite (wrapu_small 64 (this + delta c)) by lia.
    destruct (trigger <=? this + delta c) eqn:Hle; simpl.
    + apply Z.leb_le in Hle. rewrite !wrapu_small by lia.
      replace (trigger - (this + delta c - delta c)) with (trigger - this) by lia.
      replace (this + (trigger - this)) with trigger by lia.
      replace (trigger + (this + delta c - trigger)) with (this + delta c) by lia.
      split; [done|]. apply deltas_ok_cons. simpl.
      replace (this + (trigger - this)) with trigger by lia.
      split; [lia|split; [lia|]]. apply deltas_ok_cons. simpl.
      replace (trigger + (this + delta c - trigger)) with (this + delta c) by lia.
      split; [lia|split; [lia|done]].
    + apply Z.leb_gt in Hle.
      destruct (IH (this + delta c)) as [He Hok']; [lia|done|].
      rewrite He. split; [done|]. by apply deltas_ok_cons.
Qed.

Lemma times_app_inv this xs q1 y q2 :
  times this xs = q1 ++ y :: q2 ->
  exists pre b r, xs = pre ++ (y.1, b) :: r /\ times this pre = q1.
Proof.
  revert this q1. induction xs as [|[l c] xs IH]; intros this q1 H.
  - by destruct q1.
  - destruct q1 as [|x q1]; simpl in H; injection H as <- H; [by exists [], c, xs|].
    apply IH in H as (pre & b & r & -> & Hpre).
    exists ((l, c) :: pre), b, r. simpl. by rewrite Hpre.
Qed.

Lemma remove_times this pre l b r q1 y q2 :
  deltas_ok this (pre ++ (l, b) :: r) -> 0 <= this ->
  times this (pre ++ (l, b) :: r) = q1 ++ y :: q2 -> times this pre = q1 ->
  times this (pre ++ add_delta (delta b) r) = q1 ++ q2 /\
  deltas_ok this (pre ++ add_delta (delta b) r).
Proof.
  revert this q1. induction pre as [|[l' c] pre IH]; intros this q1; simpl.
  - intros (Hb & Hlt & Hok)%deltas_ok_cons Ht He <-. simplify_eq/=.
    destruct r as [|[l' c] r]; simpl; [done|].
    apply deltas_ok_cons in Hok as (Hc & Hlt' & Hok).
    rewrite wrapu_small by lia.
    replace (this + (delta c + delta b)) with (this + delta b + delta c) by lia.
    split; [done|]. apply deltas_ok_cons. simpl.
    replace (this + (delta c + delta b)) with (this + delta b + delta c) by lia.
    split; [lia|done].
  - intros (Hc & Hlt & Hok)%deltas_ok_cons Ht He <-. simplify_eq/=.
    edestruct IH as [H1 H2]; [exact Hok|lia|done..|].
    rewrite H1. split; [done|]. by apply deltas_ok_cons.
Qed.

Lemma times_sorted this xs :
  Forall (fun x => 0 <= delta x.2) xs ->
  StronglySorted (fun x y => delta x.2 <= delta y.2) (times this xs) /\
  Forall (fun y => this <= delta y.2) (times this xs).
Proof.
  revert this. induction xs as [|[l b] r IH]; intros this Hd; simpl.
  { split; constructor. }
  apply Forall_cons in Hd as [Hb Hd]. simpl in Hb.
  destruct (IH (this + delta b) Hd) as [Hs Hf].
  split; constructor; simpl; [done|done|lia|].
  eapply Forall_impl; [exact Hf|]. simpl. lia.
Qed.

(** The head of the queue is the earliest timer, and its [delta] field is
    its trigger time. *)
Lemma sched_head s q :
  sched s q ->
  match q with
  | [] => head_timer s = None
  | (l, b) :: r => head_timer s = Some l /\
      (exists t, theap s !! l = Some t /\ body t = b) /\
      Forall (fun y => delta b <= delta y.2) r
  end.
Proof.
  intros (xs & (_ & (lst & Hseg) & _) & [Hd _] & <-).
  pose proof (proj1 (times_sorted 0 xs Hd)) as Hs.
  destruct xs as [|[l b] r]; [by destruct Hseg|]. simpl in *.
  destruct Hseg as (Hh & n & Hl & _).
  apply StronglySorted_inv in Hs as [_ Hs].
  split; [done|split; [|done]]. eexists. split; [done|].
  by destruct b.
Qed.

Lemma sched_sorted s q :
  sched s q -> StronglySorted (fun x y => delta x.2 <= delta y.2) q.
Proof. intros (xs & _ & [Hd _] & <-). by apply times_sorted. Qed.

Lemma insert_timer_sched s q timer b trigger :
  sched s q -> theap s !! timer = None -> 0 <= trigger < 2 ^ 64 ->
  exists s', insert_timer timer b trigger s = Some s' /\
    sched s' (sched_insert (timer, body_delta trigger b) q).
Proof.
  intros (xs & Hrep & Hok & <-) Hf Ht.
  destruct (insert_timer_rep s xs timer b trigger) as (s' & Hs' & Hrep');
    [done..|by apply wrapu_small|].
  exists s'. split; [done|].
  destruct (q_insert_times timer b trigger 0 xs) as [He Hok']; [lia..|done|].
  by exists (q_insert timer b trigger 0 xs).
Qed.

Lemma discard_timer_sched s q1 l b q2 :
  sched s (q1 ++ (l, b) :: q2) ->
  exists s', discard_timer l s = Some s' /\ sched s' (q1 ++ q2).
Proof.
  intros (xs & Hrep & Hok & He).
  destruct (times_app_inv _ _ _ _ _ He) as (pre & c & r & -> & Hpre).
  destruct (discard_timer_rep s pre l c r Hrep) as (s' & Hs' & Hrep').
  exists s'. split; [done|].
  destruct (remove_times 0 pre l c r q1 (l, b) q2) as [He' Hok']; [done..|].
  by exists (pre ++ add_delta (delta c) r).
Qed.

Lemma times_ids this xs : (times this xs).*1 = xs.*1.
Proof.
  revert this. induction xs as [|[l b] r IH]; intros this; simpl; [done|].
  by rewrite IH.
Qed.

Lemma sched_NoDup s q : sched s q -> NoDup q.*1.
Proof. intros (xs & (Hnd & _) & _ & <-). by rewrite times_ids. Qed.

Lemma sched_dom s q l : sched s q -> is_Some (theap s !! l) <-> l ∈ q.*1.
Proof. intros (xs & (_ & _ & Hd) & _ & <-). by rewrite times_ids. Qed.

Lemma times_elem this xs l b :
  (l, b) ∈ times this xs ->
  exists c, (l, c) ∈ xs /\ b = body_delta (delta b) c.
Proof.
  revert this. induction xs as [|[l' c] r IH]; intros this; simpl.
  - by intros ?%not_elem_of_nil.
  - intros [[= -> ->]|Hin]%elem_of_cons.
    + exists c. split; [by left|done].
    + apply IH in Hin as (c' & ? & ?). exists c'. split; [by right|done].
Qed.

(** An entry of the schedule and the structure in memory. *)
Lemma sched_lookup s q l b :
  sched s q -> (l, b) ∈ q ->
  exists t, theap s !! l = Some t /\ b = body_delta (delta b) (body t).
Proof.
  intros (xs & (_ & (lst & Hseg) & _) & _ & <-) (c & Hc & Hb)%times_elem.
  destruct (dlseg_lookup _ _ _ _ _ _ _ _ Hseg Hc) as (p' & n & Hl).
  eexists. split; [done|]. done.
Qed.

Lemma sched_insert_elem x q y : y ∈ sched_insert x q <-> y = x \/ y ∈ q.
Proof.
  induction q as [|z q IH]; simpl.
  - rewrite list_elem_of_singleton, elem_of_nil. tauto.
  - destruct (_ <=? _); rewrite !elem_of_cons; [|rewrite IH]; tauto.
Qed.

End timers.

Arguments payload : clear implicits.
Arguments reactor_timer : clear implicits.
Arguments timer_queue : clear implicits.
