(* ===== verification/Reactor.v ===== *)
(** * Reactor: timers, prepoll handlers and the event loop ([src/pthr_reactor.c])

    The whole state of the reactor and [reactor_invoke].  The handlers, the
    [poll] and [gettimeofday] system calls and the clients' own clean-up
    functions act on a world [reactor * E]; they are parameters of the loop. *)

From stdpp Require Import base list gmap sorting.
From S2P Require Import Prelude C2lib ReactorHandles ReactorTimers.

(** Clean-up functions registered in pools: [remove_timer], [remove_prepoll]
    and those of the reactor's clients. *)
Inductive cleanup (X : Type) :=
  | CRemoveTimer (timer : loc)
  | CRemovePrepoll (handle : loc)
  | COther (x : X).
Arguments CRemoveTimer {X}.
Arguments CRemovePrepoll {X}.
Arguments COther {X}.

Section reactor.
Context {F D X : Type} `{PL : Pools (cleanup X)}.

Record reactor_prepoll := Prepoll {
  pp_id : loc; pp_pool : pool; pp_fn : F; pp_data : D; fired : Z }.

Record reactor := Reactor {
  table : handle_table F D;
  timers : timer_queue F D pool;
  head_prepoll : list reactor_prepoll;
  reactor_time : Z;
  rpools : pools
}.

Definition with_table t r :=
  Reactor t (timers r) (head_prepoll r) (reactor_time r) (rpools r).
Definition with_timers q r :=
  Reactor (table r) q (head_prepoll r) (reactor_time r) (rpools r).
Definition with_prepolls l r :=
  Reactor (table r) (timers r) l (reactor_time r) (rpools r).
Definition with_time t r :=
  Reactor (table r) (timers r) (head_prepoll r) t (rpools r).
Definition with_pools p r :=
  Reactor (table r) (timers r) (head_prepoll r) (reactor_time r) p.

(** Milliseconds since the epoch from a [struct timeval]. *)
Definition time_of_day (tv_sec tv_usec : Z) : Z :=
  to_u64 (tv_sec * 1000 + tv_usec `quot` 1000).

Definition reactor_init (tv_sec tv_usec : Z) : reactor :=
  Reactor empty_table (TimerQueue ∅ None) [] (time_of_day tv_sec tv_usec) init_pools.

(** [timer] is the address returned by [pmalloc]. *)
Definition reactor_set_timer (timer : loc) (pp : pool) (timeout : Z) (f : F) (d : D)
    (r : reactor) : option reactor :=
  let '(sp, ps) := new_subpool pp (rpools r) in
  let ps := pool_register_cleanup_fn sp (CRemoveTimer timer) ps in
  let trigger_time := to_u64 (reactor_time r + timeout) in
  q ← insert_timer timer (Payload 0 f d sp) trigger_time (timers r);
  Some (with_timers q (with_pools ps r)).

(** [fired] is not written: it keeps the unspecified value [junk] of the
    memory returned by [pmalloc]. *)
Definition reactor_register_prepoll (p : loc) (junk : Z) (pp : pool) (f : F) (d : D)
    (r : reactor) : reactor :=
  let '(sp, ps) := new_subpool pp (rpools r) in
  let ps := pool_register_cleanup_fn sp (CRemovePrepoll p) ps in
  with_prepolls (Prepoll p sp f d junk :: head_prepoll r) (with_pools ps r).

(** The assertion fails ([None]) when the handle is not in the list. *)
Definition remove_prepoll (handle : loc) (r : reactor) : option reactor :=
  '(i, _) ← list_find (fun p => pp_id p = handle) (head_prepoll r);
  Some (with_prepolls (delete i (head_prepoll r)) r).

(** ** Acting on the world *)

Context {E : Type}.
Abbreviation W := (reactor * E)%type.

Definition on_reactor (f : reactor -> option reactor) (w : W) : option W :=
  r ← f w.1; Some (r, w.2).

(** The clients' clean-up functions. *)
Context (run_other : X -> W -> option W).

Definition run_cleanup (c : cleanup X) : W -> option W :=
  match c with
  | CRemoveTimer l =>
    on_reactor (fun r => q ← discard_timer l (timers r); Some (with_timers q r))
  | CRemovePrepoll l => on_reactor (remove_prepoll l)
  | COther x => run_other x
  end.

(** [delete_pool]: the pool and those below it go away and their clean-up
    functions run. *)
Definition delete_pool_w (p : pool) (w : W) : option W :=
  let '(cs, ps) := delete_pool p (rpools w.1) in
  run_all run_cleanup cs (with_pools ps w.1, w.2).

Definition reactor_unset_timer_early (timer : loc) (w : W) : option W :=
  t ← theap (timers w.1) !! timer;
  delete_pool_w (tpool (body t)) w.

Definition reactor_unregister_prepoll (handle : loc) (w : W) : option W :=
  '(_, p) ← list_find (fun p => pp_id p = handle) (head_prepoll w.1);
  delete_pool_w (pp_pool p) w.

(** Calls through the function pointers of timers and prepoll handlers, of
    event handlers (with the descriptor and the events), and the two system
    calls of the loop.  [sys_poll] returns its result and the [revents]
    written to each polled cell. *)
Context (call : F -> D -> W -> option W).
Context (call_event : F -> Z -> Z -> D -> W -> option W).
Context (sys_poll : list pollfd -> Z -> E -> Z * list Z * E).
Context (sys_gettimeofday : E -> Z * Z * E).

(** Remove a timer from the queue, then call its function. *)
Definition fire (l : loc) (w : W) : option W :=
  t ← theap (timers w.1) !! l;
  w1 ← reactor_unset_timer_early l w;
  call (tfn (body t)) (tdata (body t)) w1.

(** The loop firing the timers that are due ([None] when the fuel runs out
    or a handler fails). *)
Fixpoint fire_timers (fuel : nat) (w : W) : option W :=
  match head_timer (timers w.1) with
  | None => Some w
  | Some l =>
    t ← theap (timers w.1) !! l;
    if delta (body t) <=? reactor_time w.1 then
      match fuel with
      | O => None
      | S k => w1 ← fire l w; fire_timers k w1
      end
    else Some w
  end.

Definition set_fired (v : Z) (p : reactor_prepoll) : reactor_prepoll :=
  Prepoll (pp_id p) (pp_pool p) (pp_fn p) (pp_data p) v.

(** From the label [prepoll_again]. *)
Fixpoint run_prepolls (fuel : nat) (w : W) : option W :=
  match list_find (fun p => fired p = 0) (head_prepoll w.1) with
  | None => Some w
  | Some (i, p) =>
    match fuel with
    | O => None
    | S k =>
      w1 ← call (pp_fn p) (pp_data p)
             (with_prepolls (alter (set_fired 1) i (head_prepoll w.1)) w.1, w.2);
      run_prepolls k w1
    end
  end.

Definition clear_fired (r : reactor) : reactor :=
  with_prepolls (set_fired 0 <$> head_prepoll r) r.

(** The timeout argument of [poll], converted to [int]; -1 waits for ever. *)
Definition poll_timeout (r : reactor) : option Z :=
  match head_timer (timers r) with
  | None => Some (-1)
  | Some l =>
    t ← theap (timers r) !! l;
    Some (to_int (to_u64 (delta (body t) - reactor_time r)))
  end.

(** [poll] writes [revents] in the cells it was given. *)
Definition set_revents (rs : list Z) (t : handle_table F D) : handle_table F D :=
  HandleTable (handles t)
    (zip_with (fun p v => Pollfd (fd p) (events p) v)
              (take (nr_array_used t) (poll_array t)) rs
       ++ drop (nr_array_used t) (poll_array t))
    (nr_array_used t).

(** The loop over the handles, from handle [i]; both arrays are read again
    after every call. *)
Fixpoint dispatch (fuel : nat) (i : nat) (w : W) : option W :=
  match handles (table w.1) !! i with
  | None => Some w
  | Some h =>
    match fuel with
    | O => None
    | S k =>
      if decide (0 <= offset h) then
        p ← poll_array (table w.1) !! Z.to_nat (offset h);
        if decide (revents p = 0) then dispatch k (S i) w
        else w1 ← call_event (fn h) (fd p) (revents p) (data h) w;
             dispatch k (S i) w1
      else dispatch k (S i) w
    end
  end.

(** One turn of the event loop. *)
Definition reactor_invoke (fuel : nat) (w : W) : option W :=
  w1 ← fire_timers fuel w;
  w2 ← run_prepolls fuel (clear_fired w1.1, w1.2);
  timeout ← poll_timeout w2.1;
  let '(r, rs, e) := sys_poll (polled (table w2.1)) timeout w2.2 in
  let '(sec, usec, e) := sys_gettimeofday e in
  let w3 := (with_time (time_of_day sec usec)
               (with_table (set_revents rs (table w2.1)) w2.1), e) in
  if decide (r > 0) then dispatch fuel 0 w3
  else if decide (r = 0) then l ← head_timer (timers w3.1); fire l w3
  else Some w3.

(** The destructor [reactor_stop].  The loop over the prepoll handlers
    keeps the handler just deleted as the next one to visit; looking at a
    handler that is no longer in the list reads freed memory ([None]). *)
Fixpoint stop_prepolls (fuel : nat) (p : option loc) (w : W) : option W :=
  match p, fuel with
  | None, _ => Some w
  | Some _, O => None
  | Some l, S k =>
    '(_, h) ← list_find (fun p => pp_id p = l) (head_prepoll w.1);
    w1 ← delete_pool_w (pp_pool h) w;
    stop_prepolls k (Some l) w1
  end.

Fixpoint stop_timers (fuel : nat) (p : option loc) (w : W) : option W :=
  match p, fuel with
  | None, _ => Some w
  | Some _, O => None
  | Some l, S k =>
    t ← theap (timers w.1) !! l;
    w1 ← delete_pool_w (tpool (body t)) w;
    stop_timers k (next t) w1
  end.

Definition reactor_stop (fuel : nat) (w : W) : option W :=
  w1 ← stop_prepolls fuel (pp_id <$> head (head_prepoll w.1)) w;
  w2 ← stop_timers fuel (head_timer (timers w1.1)) w1;
  Some (with_table empty_table w2.1, w2.2).

(** ** Invariant *)

(** A pool made for one timer or prepoll handler: it holds that clean-up
    function and no other, and has no pool below it. *)
Definition owned (ps : pools) (c : cleanup X) (p : pool) : Prop :=
  cleanups ps p = [c] /\ forall x, within ps x p <-> x = p.

(** [r] keeps the schedule [q]. *)
Record reactor_rep (r : reactor) (q : list (loc * payload F D pool)) : Prop := {
  rep_table : table_wf (table r);
  rep_sched : sched (timers r) q;
  rep_timer_pool : forall l b, (l, b) ∈ q ->
    owned (rpools r) (CRemoveTimer l) (tpool b);
  rep_prepoll_pool : forall p, p ∈ head_prepoll r ->
    owned (rpools r) (CRemovePrepoll (pp_id p)) (pp_pool p);
  rep_prepoll_ids : NoDup (pp_id <$> head_prepoll r)
}.

(** A pool of the client: alive, and not one the reactor made for itself. *)
Definition client_pool (r : reactor) (pp : pool) : Prop :=
  live (rpools r) pp /\ forall c, ~ owned (rpools r) c pp.

Lemma owned_inj ps c c' p : owned ps c p -> owned ps c' p -> c = c'.
Proof. intros [H1 _] [H2 _]. congruence. Qed.

Lemma delete_owned ps c p cs ps' :
  owned ps c p -> delete_pool p ps = (cs, ps') ->
  cs = [c] /\ forall c' p', c' <> c -> owned ps c' p' -> owned ps' c' p'.
Proof.
  intros [Hc Hw] Hd. apply delete_spec in Hd as ((qs & Hnd & Hin & Hcs) & Hw' & Hc');
    [|by apply Hw].
  split.
  - assert (qs = [p]) as ->.
    { apply Permutation_singleton_r, NoDup_Permutation; [done|apply NoDup_singleton|].
      intros x. rewrite Hin, Hw, list_elem_of_singleton. done. }
    simpl in Hcs. rewrite Hc in Hcs. by apply Permutation_singleton_r in Hcs.
  - intros c' p' Hne [Hc1 Hw1].
    assert (p' <> p) by (intros ->; congruence).
    split.
    + rewrite Hc'; [done|]. by rewrite Hw.
    + intros x. rewrite Hw', Hw1, Hw. naive_solver.
Qed.

Lemma new_owned ps pp q ps1 c :
  live ps pp -> new_subpool pp ps = (q, ps1) ->
  owned (pool_register_cleanup_fn q c ps1) c q /\
  forall c' p', p' <> pp -> owned ps c' p' ->
    owned (pool_register_cleanup_fn q c ps1) c' p'.
Proof.
  intros Hl Hn. apply new_subpool_spec in Hn as (Hq & Hcq & Hw & Hc); [|done].
  assert (live ps1 q) as Hlq by (apply Hw; auto).
  destruct (register_spec q c ps1 Hlq) as (Hw2 & Hcq2 & Hc2).
  split.
  - split.
    + rewrite Hcq in Hcq2. by apply Permutation_singleton_r in Hcq2.
    + intros x. rewrite Hw2, Hw. split; [|naive_solver].
      intros [Hx|[-> _]]; [|done]. by apply Hq in Hx.
  - intros c' p' Hne [Hc1 Hw1].
    assert (p' <> q) by (intros ->; apply (Hq q); by apply Hw1).
    split; [by rewrite Hc2, Hc|].
    intros x. rewrite Hw2, Hw, !Hw1. naive_solver.
Qed.

Lemma set_timer_rep r q timer pp timeout f d :
  reactor_rep r q -> client_pool r pp -> theap (timers r) !! timer = None ->
  0 <= reactor_time r + timeout < 2 ^ 64 ->
  exists r' sp,
    reactor_set_timer timer pp timeout f d r = Some r' /\
    reactor_rep r' (sched_insert
      (timer, Payload (reactor_time r + timeout) f d sp) q) /\
    table r' = table r /\ head_prepoll r' = head_prepoll r /\
    reactor_time r' = reactor_time r.
Proof.
  intros [Ht Hs Htp Hpp Hid] [Hl Hco] Hf Hr.
  unfold reactor_set_timer.
  destruct (new_subpool pp (rpools r)) as [sp ps] eqn:Hn.
  rewrite wrapu_small by done.
  destruct (insert_timer_sched _ _ timer (Payload 0 f d sp)
    (reactor_time r + timeout) Hs Hf Hr) as (q' & -> & Hs'). simpl.
  destruct (new_owned _ _ _ _ (CRemoveTimer timer) Hl Hn) as [Ho Ho'].
  assert (forall c p, owned (rpools r) c p -> p <> pp) as Hne
    by (intros c p Hc ->; by apply Hco in Hc).
  eexists _, sp. split; [done|]. split; [|done]. split; simpl; try done.
  - intros l b [[= -> ->]|Hin]%sched_insert_elem; [done|].
    apply Ho'; eauto.
  - intros p Hp. apply Ho'; eauto.
Qed.

Lemma unset_timer_rep r e q1 l b q2 :
  reactor_rep r (q1 ++ (l, b) :: q2) ->
  exists r', reactor_unset_timer_early l (r, e) = Some (r', e) /\
    reactor_rep r' (q1 ++ q2) /\ table r' = table r /\
    head_prepoll r' = head_prepoll r /\ reactor_time r' = reactor_time r /\
    discard_timer l (timers r) = Some (timers r').
Proof.
  intros [Ht Hs Htp Hpp Hid]. unfold reactor_unset_timer_early. simpl.
  assert ((l, b) ∈ q1 ++ (l, b) :: q2) as Hin by (apply elem_of_app; right; by left).
  destruct (sched_lookup _ _ _ _ Hs Hin) as (t & Hl & Hb).
  rewrite Hl. simpl. unfold delete_pool_w. simpl.
  assert (tpool (body t) = tpool b) as -> by (by rewrite Hb).
  destruct (delete_pool (tpool b) (rpools r)) as [cs ps] eqn:Hd.
  destruct (delete_owned _ _ _ _ _ (Htp _ _ Hin) Hd) as [-> Ho]. simpl.
  destruct (discard_timer_sched _ _ _ _ _ Hs) as (q' & Hq' & Hs').
  unfold on_reactor. simpl. rewrite Hq'. simpl.
  eexists. split; [done|]. split; [|done]. split; simpl; try done.
  - intros l' b' Hin'. apply Ho.
    + intros [= ->]. pose proof (sched_NoDup _ _ Hs) as Hnd.
      rewrite fmap_app in Hnd. simpl in Hnd.
      apply NoDup_app in Hnd as (_ & Hd1 & [Hd2 _]%NoDup_cons).
      apply elem_of_app in Hin' as [Hi|Hi]; apply (list_elem_of_fmap_2 fst) in Hi;
        [apply (Hd1 _ Hi); by left|by apply Hd2].
    + apply Htp. apply elem_of_app in Hin' as [?|?]; apply elem_of_app; [by left|].
      right. by right.
  - intros p Hp. apply Ho; [done|auto].
Qed.

Lemma fire_rep r e l b q :
  reactor_rep r ((l, b) :: q) ->
  exists r', fire l (r, e) = call (tfn b) (tdata b) (r', e) /\
    reactor_rep r' q /\ table r' = table r /\
    head_prepoll r' = head_prepoll r /\ reactor_time r' = reactor_time r.
Proof.
  intros Hr.
  destruct (unset_timer_rep r e [] l b q Hr) as (r' & Hu & Hrep & ? & ? & ? & _).
  destruct Hr as [_ Hs _ _ _].
  destruct (sched_lookup _ _ l b Hs) as (t & Hl & Hb); [by left|].
  exists r'. split; [|done]. unfold fire. simpl in *. rewrite Hl. simpl.
  rewrite Hu. simpl. by rewrite Hb.
Qed.

Lemma rep_head r q :
  reactor_rep r q ->
  match q with
  | [] => head_timer (timers r) = None
  | (l, b) :: _ => head_timer (timers r) = Some l /\
      exists t, theap (timers r) !! l = Some t /\ body t = b
  end.
Proof.
  intros [_ Hs _ _ _]. apply sched_head in Hs. destruct q as [|[l b] q]; naive_solver.
Qed.

(** Whatever the handlers do, when the loop over the timers ends no timer
    that is due is left at the head of the queue. *)
Lemma fire_timers_none_due fuel w w' :
  fire_timers fuel w = Some w' ->
  match head_timer (timers w'.1) with
  | None => True
  | Some l => exists t, theap (timers w'.1) !! l = Some t /\
                        reactor_time w'.1 < delta (body t)
  end.
Proof.
  revert w. induction fuel as [|k IH]; intros w; simpl;
    destruct (head_timer (timers w.1)) as [l|] eqn:Hh;
    try (intros [= <-]; by rewrite Hh);
    destruct (theap (timers w.1) !! l) as [t|] eqn:Hl; simpl; try done;
    destruct (_ <=? _) eqn:Hle; try done;
    try (intros [= <-]; rewrite Hh; exists t; split; [done|lia]).
  destruct (fire l w) as [w1|]; simpl; [apply IH|done].
Qed.

(** When the loop over the prepoll handlers ends, all of them have their
    [fired] flag set, whatever the handlers registered or removed. *)
Lemma run_prepolls_all_fired fuel w w' :
  run_prepolls fuel w = Some w' -> Forall (fun p => fired p <> 0) (head_prepoll w'.1).
Proof.
  revert w. induction fuel as [|k IH]; intros w; simpl;
    destruct (list_find _ _) as [[i p]|] eqn:Hf; try done.
  - intros [= <-]. by apply (list_find_None (fun p => fired p = 0)).
  - destruct (call _ _ _) as [w1|]; simpl; [apply IH|done].
  - intros [= <-]. by apply (list_find_None (fun p => fired p = 0)).
Qed.

(** ** Handlers that leave the reactor alone

    [log] is then the effect of a call on the rest of the world. *)
Section quiet.
Context (log : F -> D -> E -> E).
Hypothesis quiet : forall f d r e, call f d (r, e) = Some (r, log f d e).

Definition log_timer (e : E) (x : loc * payload F D pool) : E :=
  log (tfn x.2) (tdata x.2) e.

Lemma fire_timers_due fuel r e due rest :
  reactor_rep r (due ++ rest) ->
  Forall (fun x => delta x.2 <= reactor_time r) due ->
  match rest with [] => True | x :: _ => reactor_time r < delta x.2 end ->
  (length due <= fuel)%nat ->
  exists r', fire_timers fuel (r, e) = Some (r', foldl log_timer e due) /\
    reactor_rep r' rest /\ reactor_time r' = reactor_time r /\
    table r' = table r /\ head_prepoll r' = head_prepoll r.
Proof.
  revert fuel r e. induction due as [|[l b] due IH]; intros fuel r e Hr Hd Hrest Hf.
  - exists r. split; [|done]. pose proof (rep_head _ _ Hr) as Hh. simpl in Hh.
    destruct rest as [|[l b] rest]; destruct fuel; simpl.
    1,2: by rewrite Hh.
    all: destruct Hh as (Hh & t & Hl & <-); rewrite Hh, Hl; simpl in *.
    all: destruct (_ <=? _) eqn:Hle; [lia|done].
  - apply Forall_cons in Hd as [Hb Hd]. simpl in Hb, Hf, Hr.
    destruct fuel as [|fuel]; [lia|].
    destruct (rep_head _ _ Hr) as (Hh & t & Hl & Htb).
    destruct (fire_rep r e l b _ Hr) as (r1 & Hfire & Hr1 & Htb1 & Hp1 & Ht1).
    destruct (IH fuel r1 (log (tfn b) (tdata b) e))
      as (r' & Hr' & Hrep & Ht' & Htb' & Hp');
      [done|by rewrite Ht1|by rewrite Ht1|lia|].
    exists r'. rewrite Ht', Htb', Hp'. split; [|done]. simpl. rewrite Hh, Hl. simpl.
    rewrite Htb. rewrite (proj2 (Z.leb_le _ _) Hb), Hfire, quiet. exact Hr'.
Qed.

Definition log_prepoll (e : E) (p : reactor_prepoll) : E :=
  log (pp_fn p) (pp_data p) e.

Lemma run_prepolls_split fuel r e done_ rest :
  head_prepoll r = done_ ++ rest ->
  Forall (fun p => fired p <> 0) done_ -> Forall (fun p => fired p = 0) rest ->
  (length rest <= fuel)%nat ->
  run_prepolls fuel (r, e)
  = Some (with_prepolls (done_ ++ (set_fired 1 <$> rest)) r,
          foldl log_prepoll e rest).
Proof.
  revert fuel r e done_. induction rest as [|p rest IH];
    intros fuel r e done_ Hp Hd Hr Hf.
  - rewrite app_nil_r in *. simpl.
    assert (list_find (fun p => fired p = 0) (head_prepoll r) = None) as Hn
      by (rewrite Hp; by apply (list_find_None (fun p => fired p = 0))).
    assert (r = with_prepolls done_ r) as <- by (destruct r; simpl in *; by subst).
    destruct fuel; simpl; by rewrite Hn.
  - apply Forall_cons in Hr as [Hp0 Hr]. simpl in Hf.
    destruct fuel as [|fuel]; [lia|]. simpl.
    assert (list_find (fun p => fired p = 0) (head_prepoll r)
            = Some (length done_, p)) as ->.
    { apply list_find_Some. rewrite Hp. split; [by apply list_lookup_middle|].
      split; [done|]. intros j y Hy Hj. rewrite lookup_app_l in Hy by done.
      eapply (Forall_lookup_1 _ _ _ _ Hd Hy). }
    rewrite quiet. simpl. rewrite Hp.
    rewrite (alter_app_r_alt _ done_) by lia. rewrite Nat.sub_diag. simpl.
    rewrite IH with (done_ := done_ ++ [set_fired 1 p]).
    + simpl. unfold with_prepolls. simpl. by rewrite <- app_assoc.
    + simpl. by rewrite <- app_assoc.
    + apply Forall_app. split; [done|]. by constructor.
    + done.
    + lia.
Qed.
End quiet.

Section quiet_events.
Context (log : F -> Z -> Z -> D -> E -> E).
Hypothesis quiet : forall f s v d r e,
  call_event f s v d (r, e) = Some (r, log f s v d e).

(** The effect of the handle [h] in one pass over the table [t]. *)
Definition log_event (t : handle_table F D) (e : E) (h : reactor_handle F D) : E :=
  if decide (0 <= offset h) then
    match poll_array t !! Z.to_nat (offset h) with
    | Some p => if decide (revents p = 0) then e
                else log (fn h) (fd p) (revents p) (data h) e
    | None => e
    end
  else e.

Lemma dispatch_from fuel i r e :
  table_wf (table r) -> (length (handles (table r)) - i <= fuel)%nat ->
  dispatch fuel i (r, e)
  = Some (r, foldl (log_event (table r)) e (drop i (handles (table r)))).
Proof.
  intros Hwf. revert i e. induction fuel as [|k IH]; intros i e Hf; simpl;
    destruct (handles (table r) !! i) as [h|] eqn:Hh.
  - apply lookup_lt_Some in Hh. lia.
  - apply lookup_ge_None in Hh. by rewrite drop_ge.
  - rewrite (drop_S _ _ _ Hh). simpl. unfold log_event at 2.
    pose proof (lookup_lt_Some _ _ _ Hh).
    case_decide as Ho; [|apply IH; lia].
    destruct (poll_array (table r) !! Z.to_nat (offset h)) as [p|] eqn:Hp; simpl.
    + case_decide; [apply IH; lia|]. rewrite quiet. simpl. apply IH. lia.
    + apply lookup_ge_None in Hp. pose proof (wf_alloc _ Hwf).
      destruct (wf_offset _ Hwf _ _ Hh) as [?|[??]]; lia.
  - apply lookup_ge_None in Hh. by rewrite drop_ge.
Qed.
End quiet_events.

Lemma rep_with_time t r q : reactor_rep r q -> reactor_rep (with_time t r) q.
Proof. intros []. by split. Qed.

Lemma rep_with_table t r q :
  table_wf t -> reactor_rep r q -> reactor_rep (with_table t r) q.
Proof. intros ? []. by split. Qed.

(** Only [fired] flags change. *)
Lemma rep_with_fired (g : reactor_prepoll -> Z) r q :
  reactor_rep r q ->
  reactor_rep (with_prepolls ((fun p => set_fired (g p) p) <$> head_prepoll r) r) q.
Proof.
  intros [Ht Hs Htp Hpp Hid]. split; simpl; try done.
  - intros p (p' & -> & Hp')%list_elem_of_fmap. simpl. auto.
  - rewrite <- list_fmap_compose. done.
Qed.

Lemma set_revents_lookup rs t i p :
  length rs = nr_array_used t -> (nr_array_used t <= length (poll_array t))%nat ->
  poll_array (set_revents rs t) !! i = Some p ->
  exists v, poll_array t !! i = Some (Pollfd (fd p) (events p) v).
Proof.
  intros Hlen Hle Hp. simpl in Hp.
  assert (length (zip_with (fun p v => Pollfd (fd p) (events p) v)
    (take (nr_array_used t) (poll_array t)) rs) = nr_array_used t) as Hl
    by (rewrite length_zip_with, length_take; lia).
  destruct (decide (i < nr_array_used t)%nat) as [Hi|Hi].
  - rewrite lookup_app_l in Hp by lia.
    apply lookup_zip_with_Some in Hp as (p' & v & -> & Hp' & _).
    apply lookup_take_Some in Hp' as [Hp' _]. exists (revents p').
    by destruct p'.
  - rewrite lookup_app_r in Hp by lia. rewrite Hl, lookup_drop in Hp.
    exists (revents p). replace (nr_array_used t + (i - nr_array_used t))%nat with i in Hp by lia.
    by destruct p.
Qed.

Lemma set_revents_wf rs t :
  table_wf t -> length rs = nr_array_used t -> table_wf (set_revents rs t).
Proof.
  intros [Hal Hof How Hdis] Hlen. split; try done.
  - simpl. rewrite length_app, length_zip_with, length_take, length_drop. lia.
  - intros a b p q Ha Hb Hp Hq Hf He.
    apply set_revents_lookup in Hp as (v & Hp); [|done..].
    apply set_revents_lookup in Hq as (v' & Hq); [|done..].
    eapply Hdis; eauto.
Qed.

(** One turn of the loop when the handlers leave the reactor alone. *)
Section turn.
Context (log : F -> D -> E -> E) (log_ev : F -> Z -> Z -> D -> E -> E).
Hypothesis quiet : forall f d r e, call f d (r, e) = Some (r, log f d e).
Hypothesis quiet_ev : forall f s v d r e,
  call_event f s v d (r, e) = Some (r, log_ev f s v d e).
(** [poll] reports on every cell, and only times out when it was given a
    timeout. *)
Hypothesis poll_cells : forall ps timeout e,
  length (sys_poll ps timeout e).1.2 = length ps.
Hypothesis poll_timed_out : forall ps timeout e,
  (sys_poll ps timeout e).1.1 = 0 -> 0 <= timeout.

(** The effect of the turn on the rest of the world and the schedule left. *)
Definition turn (r : reactor) (e : E) (due rest : list (loc * payload F D pool))
    (timeout : Z) : E * list (loc * payload F D pool) :=
  let e := foldl (log_timer log) e due in
  let e := foldl (log_prepoll log) e (head_prepoll r) in
  let '(n, rs, e) := sys_poll (polled (table r)) timeout e in
  let '(_, _, e) := sys_gettimeofday e in
  if decide (n > 0) then
    (foldl (log_event log_ev (set_revents rs (table r))) e (handles (table r)), rest)
  else if decide (n = 0) then
    match rest with
    | x :: rest => (log_timer log e x, rest)
    | [] => (e, rest)
    end
  else (e, rest).

Lemma poll_timeout_head r l b q :
  reactor_rep r ((l, b) :: q) ->
  0 <= reactor_time r < delta b -> delta b <= reactor_time r + INT_MAX ->
  delta b < 2 ^ 64 -> poll_timeout r = Some (delta b - reactor_time r).
Proof.
  intros Hr H1 H2 H3. destruct (rep_head _ _ Hr) as (Hh & t & Hl & <-).
  unfold poll_timeout. rewrite Hh, Hl. simpl. f_equal.
  unfold INT_MAX in *. rewrite wrapu_small by lia. apply wraps_small; lia.
Qed.

Lemma poll_timeout_none r :
  reactor_rep r [] -> poll_timeout r = Some (-1).
Proof. intros Hr. apply rep_head in Hr. unfold poll_timeout. by rewrite Hr. Qed.

Lemma invoke_turn fuel r e due rest timeout :
  reactor_rep r (due ++ rest) ->
  Forall (fun x => delta x.2 <= reactor_time r) due ->
  match rest with
  | [] => timeout = -1
  | x :: _ => reactor_time r < delta x.2 < 2 ^ 64 /\
              timeout = delta x.2 - reactor_time r /\ timeout <= INT_MAX
  end ->
  0 <= reactor_time r ->
  (length due <= fuel)%nat -> (length (head_prepoll r) <= fuel)%nat ->
  (length (handles (table r)) <= fuel)%nat ->
  exists r', reactor_invoke fuel (r, e) = Some (r', (turn r e due rest timeout).1) /\
    reactor_rep r' (turn r e due rest timeout).2.
Proof.
  intros Hr Hd Hrest Ht0 Hf1 Hf2 Hf3.
  destruct (fire_timers_due log quiet fuel r e due rest)
    as (r1 & Hr1 & Hrep1 & Ht1 & Htb1 & Hp1);
    [done|done|destruct rest; naive_solver|done|].
  unfold reactor_invoke. rewrite Hr1. simpl.
  rewrite (run_prepolls_split log quiet fuel _ _ [] (set_fired 0 <$> head_prepoll r1));
    [|done|done|by apply Forall_fmap, Forall_true|by rewrite length_fmap, Hp1].
  simpl. set (r2 := with_prepolls _ (clear_fired r1)).
  assert (reactor_rep r2 rest) as Hrep2.
  { subst r2. unfold clear_fired. rewrite <- list_fmap_compose.
    apply (rep_with_fired (fun _ => 1)) in Hrep1. done. }
  assert (poll_timeout r2 = Some timeout) as ->.
  { destruct rest as [|[l b] rest]; [subst timeout; by apply poll_timeout_none|].
    destruct Hrest as (? & -> & ?). simpl in *.
    rewrite <- Ht1. change (reactor_time r1) with (reactor_time r2).
    eapply poll_timeout_head; [exact Hrep2|simpl; lia..]. }
  unfold turn. simpl. rewrite Htb1, foldl_fmap, Hp1. simpl.
  change (foldl (fun e p => log_prepoll log e (set_fired 0 p))) with (foldl (log_prepoll log)).
  set (e2 := foldl (log_prepoll log) _ _).
  destruct (sys_poll (polled (table r)) timeout e2) as [[n rs] e3] eqn:Hpoll.
  destruct (sys_gettimeofday e3) as [[sec usec] e4].
  pose proof (poll_cells (polled (table r)) timeout e2) as Hrs.
  pose proof (poll_timed_out (polled (table r)) timeout e2) as Hto.
  rewrite Hpoll in Hrs, Hto. simpl in Hrs, Hto.
  pose proof (rep_table _ _ Hr) as Hwf.
  assert (table_wf (set_revents rs (table r))) as Hwf'.
  { apply set_revents_wf; [done|]. rewrite Hrs. unfold polled.
    rewrite length_take. pose proof (wf_alloc _ Hwf). lia. }
  set (r3 := with_time _ _).
  assert (reactor_rep r3 rest) as Hrep3
    by (by apply rep_with_time, rep_with_table).
  case_decide.
  { exists r3. split; [|done]. unfold r3.
    by rewrite (dispatch_from log_ev quiet_ev) by (simpl; done || lia). }
  case_decide; [|by exists r3].
  destruct rest as [|[l b] rest]; [subst timeout; naive_solver lia|].
  destruct (rep_head _ _ Hrep3) as [Hh _]. simpl in Hh. rewrite Hh. simpl.
  destruct (fire_rep r3 e4 l b rest Hrep3) as (r4 & Hf & Hrep4 & _).
  exists r4. split; [|done]. by rewrite Hf, quiet.
Qed.
End turn.

(** ** Handlers that use the reactor

    One turn of the loop for handlers that register, unregister, set and remove
    whatever they like, as long as they do so by the calls of the reactor.  The
    relations below say what a turn is in terms of the schedule and of the
    registrations; [q] is the schedule that the linked queue stands for. *)

Abbreviation schedule := (list (loc * payload F D pool)).

(** The timers that are due, the prepoll handlers still to be run. *)
Definition due (t : Z) (q : schedule) : schedule := filter (fun x => delta x.2 <= t) q.
Definition unfired (r : reactor) : nat := length (filter (fun p => fired p = 0) (head_prepoll r)).

(** The first timer is taken off the queue and called as long as it is due. *)
Inductive timers_fired : W -> schedule -> W -> schedule -> Prop :=
  | timers_done w q : due (reactor_time w.1) q = [] -> timers_fired w q w q
  | timers_next r e l b q r1 w2 q2 w3 q3 :
      delta b <= reactor_time r ->
      reactor_rep r1 q -> table r1 = table r -> head_prepoll r1 = head_prepoll r ->
      reactor_time r1 = reactor_time r ->
      call (tfn b) (tdata b) (r1, e) = Some w2 -> reactor_rep w2.1 q2 ->
      timers_fired w2 q2 w3 q3 -> timers_fired (r, e) ((l, b) :: q) w3 q3.

(** The first prepoll handler without its flag is marked and called. *)
Inductive prepolls_run : W -> schedule -> W -> schedule -> Prop :=
  | prepolls_done w q : Forall (fun p => fired p <> 0) (head_prepoll w.1) -> prepolls_run w q w q
  | prepolls_next r e q l1 p l2 w1 q1 w2 q2 :
      head_prepoll r = l1 ++ p :: l2 -> Forall (fun p => fired p <> 0) l1 -> fired p = 0 ->
      call (pp_fn p) (pp_data p) (with_prepolls (l1 ++ set_fired 1 p :: l2) r, e) = Some w1 ->
      reactor_rep w1.1 q1 -> prepolls_run w1 q1 w2 q2 -> prepolls_run (r, e) q w2 q2.

(** What handle [i] is registered for and the events reported for it. *)
Definition event_at (t : handle_table F D) (i : nat) : option (registration F D * Z) :=
  reg ← lookup_reg t i; h ← handles t !! i; p ← poll_array t !! Z.to_nat (offset h);
  if decide (revents p = 0) then None else Some (reg, revents p).

(** Each handle from [i] on is called if it has events when its turn comes. *)
Inductive handles_called : nat -> W -> W -> Prop :=
  | handles_done i w : (length (handles (table w.1)) <= i)%nat -> handles_called i w w
  | handles_idle i w w' : (i < length (handles (table w.1)))%nat -> event_at (table w.1) i = None ->
      handles_called (S i) w w' -> handles_called i w w'
  | handles_event i w reg v w1 w' : event_at (table w.1) i = Some (reg, v) ->
      call_event (r_fn reg) (r_fd reg) v (r_data reg) w = Some w1 ->
      handles_called (S i) w1 w' -> handles_called i w w'.

(** A turn.  [w3] is the world after [poll] returned. *)
Inductive turn_taken (w : W) (q : schedule) (w' : W) : Prop :=
  turn_intro w1 q1 w2 q2 n rs e3 sec usec e4 :
    timers_fired w q w1 q1 ->
    prepolls_run (clear_fired w1.1, w1.2) q1 w2 q2 ->
    due (reactor_time w2.1) q2 = [] ->
    sys_poll (polled (table w2.1))
      match q2 with [] => -1 | x :: _ => delta x.2 - reactor_time w2.1 end w2.2 = (n, rs, e3) ->
    sys_gettimeofday e3 = (sec, usec, e4) ->
    let r3 := with_time (time_of_day sec usec) (with_table (set_revents rs (table w2.1)) w2.1) in
    (n > 0 -> handles_called 0 (r3, e4) w') ->
    (n = 0 -> exists l b q3 r4, q2 = (l, b) :: q3 /\ reactor_rep r4 q3 /\ table r4 = table r3 /\
       call (tfn b) (tdata b) (r4, e4) = Some w') ->
    (n < 0 -> w' = (r3, e4)) ->
    turn_taken w q w'.

Section active.
(** A bound on the sizes of the arrays, and on the times of timers. *)
Context (N : nat).

Definition bounded (r : reactor) : Prop :=
  (length (handles (table r)) <= N)%nat /\ (length (head_prepoll r) <= N)%nat.

Definition near (r : reactor) (q : schedule) : Prop :=
  Forall (fun x => delta x.2 <= reactor_time r + INT_MAX /\ delta x.2 < 2 ^ 64) q.

(** [g] returns, and leaves the structures of the reactor intact. *)
Definition keeps_reactor (g : W -> option W) (more : reactor -> schedule -> reactor -> schedule -> Prop)
    : Prop :=
  forall r e q, reactor_rep r q -> bounded r -> exists r' e' q', g (r, e) = Some (r', e') /\
    reactor_rep r' q' /\ bounded r' /\ reactor_time r' = reactor_time r /\ more r q r' q'.

(** The loops over timers and prepoll handlers come to an end because the
    handlers do not add to the work at hand. *)
Definition adds_no_work (r : reactor) (q : schedule) (r' : reactor) (q' : schedule) : Prop :=
  (length (due (reactor_time r) q') <= length (due (reactor_time r) q))%nat /\
  (unfired r' <= unfired r)%nat /\ (near r q -> near r' q').

Hypothesis call_keeps : forall f d, keeps_reactor (call f d) adds_no_work.
Hypothesis event_keeps : forall f s v d, keeps_reactor (call_event f s v d) (fun _ _ _ _ => True).
Hypothesis poll_cells : forall ps timeout e,
  length (sys_poll ps timeout e).1.2 = length ps.
Hypothesis poll_timed_out : forall ps timeout e,
  (sys_poll ps timeout e).1.1 = 0 -> 0 <= timeout.

Lemma due_head t q : due t q = [] -> match q with [] => True | x :: _ => t < delta x.2 end.
Proof.
  destruct q as [|x q]; [done|]. unfold due. rewrite filter_cons.
  destruct (decide _); [done|lia].
Qed.

Lemma due_none t q : Forall (fun x => t < delta x.2) q -> due t q = [].
Proof.
  unfold due. induction 1 as [|x q Hx _ IH]; [done|]. by rewrite filter_cons, decide_False by lia.
Qed.

(** The schedule is in order: when the first is not due, none is. *)
Lemma rep_due_head r l b q t :
  reactor_rep r ((l, b) :: q) -> t < delta b -> due t ((l, b) :: q) = [].
Proof.
  intros [_ Hs _ _ _] Ht. apply sched_sorted in Hs. apply StronglySorted_inv in Hs as [_ Hs].
  apply due_none, Forall_cons. split; [done|]. eapply Forall_impl; [exact Hs|]. simpl. lia.
Qed.

(** What the world is like between two calls. *)
Record sane (w : W) (q : schedule) (t : Z) : Prop := {
  sane_rep : reactor_rep w.1 q;
  sane_bounded : bounded w.1;
  sane_near : near w.1 q;
  sane_time : reactor_time w.1 = t
}.

Lemma call_sane f d w q t :
  sane w q t -> exists w' q', call f d w = Some w' /\ sane w' q' t /\
    (length (due t q') <= length (due t q))%nat /\ (unfired w'.1 <= unfired w.1)%nat.
Proof.
  destruct w as [r e]. intros [Hr Hb Hn Ht]. simpl in *.
  destruct (call_keeps f d r e q Hr Hb) as (r' & e' & q' & Hc & Hr' & Hb' & Ht' & Hd & Hu & Hn').
  exists (r', e'), q'. rewrite <- Ht. split; [done|]. split; [split; simpl; auto|]. auto.
Qed.

Lemma fire_sane w l b q t :
  sane w ((l, b) :: q) t -> exists r1, fire l w = call (tfn b) (tdata b) (r1, w.2) /\
    sane (r1, w.2) q t /\ table r1 = table w.1 /\ head_prepoll r1 = head_prepoll w.1.
Proof.
  destruct w as [r e]. intros [Hr Hb Hn Ht]. simpl in *.
  destruct (fire_rep r e l b q Hr) as (r1 & Hf & Hr1 & Htb & Hp & Ht1). exists r1.
  split; [done|]. split; [|done].
  split; unfold bounded, near in *; simpl; rewrite ?Htb, ?Hp, ?Ht1; try done. by apply Forall_cons in Hn as [_ ?].
Qed.

Lemma fire_timers_active fuel w q t :
  sane w q t -> (length (due t q) <= fuel)%nat ->
  exists w' q', fire_timers fuel w = Some w' /\ timers_fired w q w' q' /\ sane w' q' t /\
    due t q' = [].
Proof.
  revert w q. induction fuel as [|fuel IH]; intros w q Hs Hf; pose proof (rep_head _ _ (sane_rep _ _ _ Hs)) as Hh;
    destruct q as [|[l b] q]; cbn [fire_timers].
  - rewrite Hh. exists w, []. split; [done|]. split; [by apply timers_done|done].
  - destruct Hh as (Hh & u & Hl & Hb). rewrite Hh, Hl. simpl. rewrite Hb, (sane_time _ _ _ Hs).
    destruct (Z.leb_spec (delta b) t) as [Hle|Hgt].
    + unfold due in Hf. rewrite filter_cons, decide_True in Hf by done. simpl in Hf. lia.
    + pose proof (rep_due_head _ _ _ _ _ (sane_rep _ _ _ Hs) Hgt) as Hd.
      eexists _, _. split; [done|]. split; [apply timers_done; by rewrite (sane_time _ _ _ Hs)|done].
  - rewrite Hh. exists w, []. split; [done|]. split; [by apply timers_done|done].
  - destruct Hh as (Hh & u & Hl & Hb). rewrite Hh, Hl. simpl. rewrite Hb, (sane_time _ _ _ Hs).
    destruct (Z.leb_spec (delta b) t) as [Hle|Hgt].
    + unfold due in Hf. rewrite filter_cons, decide_True in Hf by done. simpl in Hf.
      destruct (fire_sane w l b q t Hs) as (r1 & -> & Hs1 & Htb & Hp).
      destruct (call_sane (tfn b) (tdata b) _ _ _ Hs1) as (w2 & q2 & Hc & Hs2 & Hd2 & _).
      destruct (IH w2 q2 Hs2) as (w3 & q3 & Hr & Hfd & Hs3 & Hd3); [unfold due in *; lia|].
      exists w3, q3. rewrite Hc. split; [done|]. split; [|done]. destruct w as [r e], Hs, Hs1, Hs2. simpl in *.
      eapply timers_next; (done || congruence).
    + pose proof (rep_due_head _ _ _ _ _ (sane_rep _ _ _ Hs) Hgt) as Hd.
      eexists _, _. split; [done|]. split; [apply timers_done; by rewrite (sane_time _ _ _ Hs)|done].
Qed.

Lemma mark_sane r e q t l1 p l2 :
  sane (r, e) q t -> head_prepoll r = l1 ++ p :: l2 ->
  sane (with_prepolls (l1 ++ set_fired 1 p :: l2) r, e) q t.
Proof.
  intros [Hr [Hb1 Hb2] Hn Ht] Hp. simpl in *. split; [|split|..]; simpl; try done.
  - destruct Hr as [H1 H2 H3 H4 H5]. rewrite Hp in *. split; simpl; try done.
    + intros x. rewrite elem_of_app, elem_of_cons. intros [Hx|[->|Hx]]; cbn [set_fired pp_id pp_pool];
        apply H4; set_solver.
    + rewrite fmap_app in *. exact H5.
  - rewrite Hp in Hb2. rewrite length_app in *. exact Hb2.
Qed.

Lemma run_prepolls_active fuel w q t :
  sane w q t -> (unfired w.1 <= fuel)%nat -> due t q = [] ->
  exists w' q', run_prepolls fuel w = Some w' /\ prepolls_run w q w' q' /\ sane w' q' t /\ due t q' = [].
Proof.
  revert w q. induction fuel as [|fuel IH]; intros [r e] q Hs Hf Hd; cbn [run_prepolls fst snd];
    destruct (list_find _ _) as [[i p]|] eqn:Hfind.
  - apply list_find_Some in Hfind as (Hp & Hz & _). exfalso. simpl in Hf. unfold unfired in Hf.
    assert (p ∈ filter (fun p => fired p = 0) (head_prepoll r)) as Hin.
    { apply list_elem_of_filter. split; [done|by eapply list_elem_of_lookup_2]. }
    destruct (filter _ _); [by apply not_elem_of_nil in Hin|simpl in Hf; lia].
  - exists (r, e), q. split; [done|]. split; [|done]. apply prepolls_done.
    by apply (list_find_None (fun p => fired p = 0)).
  - apply list_find_Some in Hfind as (Hp & Hz & Hbefore).
    assert (head_prepoll r = take i (head_prepoll r) ++ p :: drop (S i) (head_prepoll r)) as Hsp
      by (by rewrite take_drop_middle).
    set (l1 := take i (head_prepoll r)) in *. set (l2 := drop (S i) (head_prepoll r)) in *.
    assert (length l1 = i) as Hl1.
    { unfold l1. rewrite length_take. apply lookup_lt_Some in Hp. lia. }
    assert (alter (set_fired 1) i (head_prepoll r) = l1 ++ set_fired 1 p :: l2) as ->.
    { rewrite Hsp, alter_app_r_alt by lia. by rewrite Hl1, Nat.sub_diag. }
    assert (Forall (fun p => fired p <> 0) l1) as Hl1f.
    { apply Forall_lookup. intros j y Hy. unfold l1 in Hy. apply lookup_take_Some in Hy as [Hy Hj]. by eapply Hbefore. }
    pose proof (mark_sane r e q t l1 p l2 Hs Hsp) as Hs1.
    destruct (call_sane (pp_fn p) (pp_data p) _ _ _ Hs1) as (w2 & q2 & Hc & Hs2 & Hd2 & Hu2). rewrite Hc. simpl.
    simpl in Hf. unfold unfired in *. cbn [head_prepoll with_prepolls fst] in Hu2.
    rewrite filter_app, filter_cons, decide_False in Hu2 by done.
    rewrite Hsp, filter_app, filter_cons, decide_True in Hf by done.
    rewrite length_app in *. cbn [length] in Hf.
    destruct (IH w2 q2 Hs2) as (w3 & q3 & Hr & Hrun & Hs3 & Hd3); [lia|apply length_zero_iff_nil; rewrite Hd in Hd2; simpl in Hd2; lia|].
    exists w3, q3. split; [done|]. split; [|done]. eapply prepolls_next; try done. by destruct Hs2.
  - exists (r, e), q. split; [done|]. split; [|done]. apply prepolls_done.
    by apply (list_find_None (fun p => fired p = 0)).
Qed.

Lemma dispatch_active fuel i w q :
  reactor_rep w.1 q -> bounded w.1 -> (N - i <= fuel)%nat ->
  exists w' q', dispatch fuel i w = Some w' /\ handles_called i w w' /\ reactor_rep w'.1 q'.
Proof.
  revert i w q. induction fuel as [|fuel IH]; intros i w q Hr Hb Hf; cbn [dispatch];
    destruct (handles (table w.1) !! i) as [h|] eqn:Hh.
  - apply lookup_lt_Some in Hh. destruct Hb. lia.
  - apply lookup_ge_None in Hh. exists w, q. split; [done|]. split; [by apply handles_done|done].
  - assert (i < length (handles (table w.1)))%nat as Hi by (by eapply lookup_lt_Some).
    assert (forall w1 q1, reactor_rep w1.1 q1 -> bounded w1.1 -> exists w' q',
      dispatch fuel (S i) w1 = Some w' /\ handles_called (S i) w1 w' /\ reactor_rep w'.1 q') as Hnext.
    { intros w1 q1 H1 H2. apply (IH (S i) w1 q1 H1 H2). lia. }
    unfold event_at in *. destruct (decide (0 <= offset h)) as [Ho|Ho].
    + destruct (wf_offset _ (rep_table _ _ Hr) _ _ Hh) as [?|[_ Hu]]; [lia|].
      pose proof (wf_alloc _ (rep_table _ _ Hr)).
      destruct (lookup_lt_is_Some_2 (poll_array (table w.1)) (Z.to_nat (offset h))) as [p Hp]; [lia|].
      rewrite Hp. simpl.
      assert (lookup_reg (table w.1) i = Some (Reg (fd p) (events p) (fn h) (data h))) as Hreg.
      { unfold lookup_reg, handle_reg. rewrite Hh. simpl. rewrite decide_True by done. by rewrite Hp. }
      destruct (decide (revents p = 0)) as [Hz|Hz].
      * destruct (Hnext w q Hr Hb) as (w' & q' & H1 & H2 & H3). exists w', q'. split; [done|]. split; [|done].
        apply handles_idle; [done| |done]. unfold event_at. rewrite Hreg, Hh. simpl. rewrite Hp. simpl. by rewrite decide_True.
      * destruct w as [r e]. destruct (event_keeps (fn h) (fd p) (revents p) (data h) r e q Hr Hb)
          as (r1 & e1 & q1 & Hc & Hr1 & Hb1 & _). rewrite Hc. simpl.
        destruct (Hnext (r1, e1) q1 Hr1 Hb1) as (w' & q' & H1 & H2 & H3). exists w', q'. split; [done|]. split; [|done].
        eapply (handles_event _ _ (Reg (fd p) (events p) (fn h) (data h)) (revents p)); [|exact Hc|done]. unfold event_at. cbn [fst] in *. rewrite Hreg, Hh. simpl. rewrite Hp. simpl.
        by rewrite decide_False.
    + destruct (Hnext w q Hr Hb) as (w' & q' & H1 & H2 & H3). exists w', q'. split; [done|]. split; [|done].
      apply handles_idle; [done| |done]. unfold event_at, lookup_reg, handle_reg. rewrite Hh. simpl.
      by rewrite decide_False.
  - apply lookup_ge_None in Hh. exists w, q. split; [done|]. split; [by apply handles_done|done].
Qed.

Lemma sched_timeout w q t :
  sane w q t -> 0 <= t -> due t q = [] ->
  poll_timeout w.1 = Some match q with [] => -1 | x :: _ => delta x.2 - t end.
Proof.
  intros [Hr _ Hn Ht] H0 Hd. destruct q as [|[l b] q]; [by apply poll_timeout_none|].
  apply due_head in Hd. apply Forall_cons in Hn as [[Hn1 Hn2] _]. simpl in *. subst t.
  eapply poll_timeout_head; [exact Hr|lia..].
Qed.

Lemma invoke_active fuel w q t :
  sane w q t -> 0 <= t -> (length (due t q) <= fuel)%nat -> (N <= fuel)%nat ->
  exists w' q', reactor_invoke fuel w = Some w' /\ turn_taken w q w' /\ reactor_rep w'.1 q'.
Proof.
  intros Hs H0 Hf HN.
  destruct (fire_timers_active fuel w q t Hs Hf) as (w1 & q1 & Hw1 & Hfd & Hs1 & Hd1).
  assert (sane (clear_fired w1.1, w1.2) q1 t) as Hs1'.
  { destruct Hs1 as [Hr [Hb1 Hb2] Hn Ht]. split; simpl; try done.
    - by apply (rep_with_fired (fun _ => 0)).
    - split; simpl; [done|]. by rewrite length_fmap. }
  destruct (run_prepolls_active fuel _ q1 t Hs1') as (w2 & q2 & Hw2 & Hpr & Hs2 & Hd2); [|done|].
  { pose proof (sane_bounded _ _ _ Hs1') as [_ Hb]. unfold unfired. simpl in *.
    pose proof (length_filter (fun p => fired p = 0) (set_fired 0 <$> head_prepoll w1.1)). lia. }
  pose proof (sched_timeout w2 q2 t Hs2 H0 Hd2) as Hto. destruct Hs2 as [Hr2 Hb2 Hn2 Ht2].
  unfold reactor_invoke. rewrite Hw1. simpl. rewrite Hw2. simpl. rewrite Hto. simpl.
  rewrite <- Ht2 in Hto, Hd2 |- *.
  set (timeout := match q2 with [] => -1 | x :: _ => _ end) in *.
  destruct (sys_poll (polled (table w2.1)) timeout w2.2) as [[n rs] e3] eqn:Hpoll.
  destruct (sys_gettimeofday e3) as [[sec usec] e4] eqn:Htime.
  pose proof (poll_cells (polled (table w2.1)) timeout w2.2) as Hrs.
  pose proof (poll_timed_out (polled (table w2.1)) timeout w2.2) as Hzero.
  rewrite Hpoll in Hrs, Hzero. simpl in Hrs, Hzero.
  assert (table_wf (set_revents rs (table w2.1))) as Hwf.
  { pose proof (rep_table _ _ Hr2) as Hwf2. apply set_revents_wf; [done|]. rewrite Hrs. unfold polled.
    rewrite length_take. pose proof (wf_alloc _ Hwf2). lia. }
  set (r3 := with_time (time_of_day sec usec) (with_table (set_revents rs (table w2.1)) w2.1)).
  assert (reactor_rep r3 q2) as Hr3 by (by apply rep_with_time, rep_with_table).
  assert (bounded r3) as Hb3 by done.
  assert (forall w', (n > 0 -> handles_called 0 (r3, e4) w') ->
    (n = 0 -> exists l b q3 r4, q2 = (l, b) :: q3 /\ reactor_rep r4 q3 /\ table r4 = table r3 /\
       call (tfn b) (tdata b) (r4, e4) = Some w') -> (n < 0 -> w' = (r3, e4)) -> turn_taken w q w') as Hturn.
  { intros w' ? ? ?. by eapply turn_intro. }
  destruct (decide (n > 0)); [|destruct (decide (n = 0))].
  - destruct (dispatch_active fuel 0 (r3, e4) q2 Hr3 Hb3) as (w' & q' & Hd & Hc & Hr'); [lia|].
    exists w', q'. split; [done|]. split; [apply Hturn; intros; [done|lia|lia]|done].
  - destruct q2 as [|[l b] q3]; [subst timeout; naive_solver lia|].
    destruct (rep_head _ _ Hr3) as [Hh _]. simpl in Hh. simpl. rewrite Hh. simpl.
    destruct (fire_rep r3 e4 l b q3 Hr3) as (r4 & Hf4 & Hr4 & Htb4 & Hp4 & Ht4).
    assert (bounded r4) as Hb4 by (unfold bounded; rewrite Htb4, Hp4; exact Hb3).
    destruct (call_keeps (tfn b) (tdata b) r4 e4 q3 Hr4 Hb4) as (r5 & e5 & q5 & Hc & Hr5 & _).
    exists (r5, e5), q5. rewrite Hf4. split; [done|]. split; [|done]. apply Hturn; [lia| |lia].
    intros _. by exists l, b, q3, r4.
  - exists (r3, e4), q2. split; [done|]. split; [|done]. apply Hturn; intros; (lia || done).
Qed.
End active.

Lemma delete_prepoll_rep r e q l1 p l2 :
  reactor_rep r q -> head_prepoll r = l1 ++ p :: l2 ->
  exists r', delete_pool_w (pp_pool p) (r, e) = Some (r', e) /\ reactor_rep r' q /\
    head_prepoll r' = l1 ++ l2 /\ table r' = table r /\ timers r' = timers r /\
    reactor_time r' = reactor_time r.
Proof.
  intros [Ht Hs Htp Hpp Hid] Hp. unfold delete_pool_w. simpl.
  assert (p ∈ head_prepoll r) as Hin by (rewrite Hp; apply elem_of_app; right; by left).
  destruct (delete_pool (pp_pool p) (rpools r)) as [cs ps] eqn:Hd.
  destruct (delete_owned _ _ _ _ _ (Hpp _ Hin) Hd) as [-> Ho]. simpl.
  rewrite Hp, fmap_app in Hid. simpl in Hid.
  apply NoDup_app in Hid as (Hn1 & Hn2 & [Hn3 Hn4]%NoDup_cons).
  assert (list_find (fun p' => pp_id p' = pp_id p) (l1 ++ p :: l2)
          = Some (length l1, p)) as Hf.
  { apply list_find_Some. split; [by apply list_lookup_middle|].
    split; [done|]. intros j y Hy Hj Heq. rewrite lookup_app_l in Hy by done.
    apply list_elem_of_lookup_2, (list_elem_of_fmap_2 pp_id) in Hy.
    apply (Hn2 _ Hy). rewrite Heq. by left. }
  unfold on_reactor, remove_prepoll. simpl. rewrite Hp, Hf. simpl.
  eexists. split; [done|]. split; [|simpl; by rewrite delete_middle].
  assert (forall x, x ∈ l1 ++ l2 -> x ∈ head_prepoll r /\ pp_id x <> pp_id p) as Hx.
  { intros x Hx. rewrite Hp. split.
    - apply elem_of_app in Hx as [?|?]; apply elem_of_app; [by left|].
      right. by right.
    - intros He. apply elem_of_app in Hx as [Hx|Hx];
        apply (list_elem_of_fmap_2 pp_id) in Hx; rewrite He in Hx;
        [apply (Hn2 _ Hx); by left|by apply Hn3]. }
  split; simpl; try done; rewrite ?delete_middle.
  - intros l b Hlb. apply Ho; [done|auto].
  - intros x Hin'. apply Hx in Hin' as [??]. apply Ho; [congruence|auto].
  - rewrite fmap_app. apply NoDup_app. split; [done|]. split; [|done].
    intros i Hi Hi'. apply (Hn2 i Hi). by right.
Qed.

Lemma stop_timers_rep fuel r e q :
  reactor_rep r q -> (length q <= fuel)%nat ->
  exists r', stop_timers fuel (head_timer (timers r)) (r, e) = Some (r', e) /\
    reactor_rep r' [].
Proof.
  revert fuel r. induction q as [|[l b] q IH]; intros fuel r Hr Hf.
  - exists r. rewrite (rep_head _ _ Hr). by destruct fuel.
  - destruct (rep_head _ _ Hr) as (Hh & _). simpl in Hf.
    destruct fuel as [|fuel]; [lia|]. rewrite Hh. simpl.
    destruct (unset_timer_rep r e [] l b q Hr)
      as (r1 & Hu & Hr1 & _ & _ & _ & Hd).
    unfold reactor_unset_timer_early in Hu. simpl in Hu.
    destruct (theap (timers r) !! l) as [t|] eqn:Hl; [|done]. simpl in *.
    rewrite Hu. simpl.
    assert (head_timer (timers r1) = next t) as <-.
    { destruct Hr as [_ (xs & (_ & (lst & Hseg) & _) & _ & He) _ _ _].
      destruct xs as [|[l' c] xs]; [done|]. simpl in Hseg, He.
      destruct Hseg as (Hh' & n & Hl' & _).
      assert (l' = l) as -> by congruence.
      rewrite Hl in Hl'. injection Hl' as ->.
      unfold discard_timer, remove_timer in Hd. rewrite Hl in Hd. simpl in Hd.
      injection Hd as <-. by destruct n. }
    apply IH; [done|lia].
Qed.

Lemma init_rep sec usec : reactor_rep (reactor_init sec usec) [].
Proof.
  split; simpl.
  - apply empty_table_wf.
  - exists []. split; [|split; [split; constructor|done]].
    split; [constructor|]. split; [by exists None|]. intros l. simpl.
    rewrite lookup_empty, elem_of_nil. split; [by intros [? ?]|done].
  - by intros l b ?%not_elem_of_nil.
  - by intros p ?%not_elem_of_nil.
  - constructor.
Qed.

End reactor.

Arguments reactor_prepoll F D {X PL}.
Arguments reactor F D {X PL}.

(** ** Properties *)

(** C24: setting a timer inserts exactly one entry in the schedule, at the
    current time plus the timeout, before the first timer that is not earlier
    (so timers due at the same time fire in reverse order of creation); it
    keeps the doubly linked list of differences consistent, changes no other
    timer's trigger time, function or argument, and gives the timer a pool of
    its own whose deletion removes it. *)
Theorem reactor_set_timer_refines {F D X : Type} `{PL : Pools (cleanup X)}
    (r : reactor F D) q timer pp timeout f d :
  reactor_rep r q -> client_pool r pp -> theap (timers r) !! timer = None ->
  0 <= reactor_time r + timeout < 2 ^ 64 ->
  exists r' sp,
    reactor_set_timer timer pp timeout f d r = Some r' /\
    reactor_rep r' (sched_insert
      (timer, Payload (reactor_time r + timeout) f d sp) q) /\
    table r' = table r /\ head_prepoll r' = head_prepoll r /\
    reactor_time r' = reactor_time r.
Proof. apply set_timer_rep. Qed.

(** A world for the examples: handlers are numbers, and calling one appends
    its number and argument to a log. *)
Definition dcall (f : nat) (d : Z) (w : reactor nat Z (X := unit) * list (nat * Z))
  : option (reactor nat Z (X := unit) * list (nat * Z)) := Some (w.1, w.2 ++ [(f, d)]).
Definition dlog (f : nat) (d : Z) (e : list (nat * Z)) : list (nat * Z) := e ++ [(f, d)].
Definition devent (f : nat) (s v d : Z) (w : reactor nat Z (X := unit) * list (nat * Z))
  : option (reactor nat Z (X := unit) * list (nat * Z)) := dcall f d w.
Definition dlog_ev (f : nat) (s v d : Z) (e : list (nat * Z)) : list (nat * Z) :=
  dlog f d e.
Definition dpoll (ps : list pollfd) (timeout : Z) (e : list (nat * Z))
  : Z * list Z * list (nat * Z) :=
  (if timeout <? 0 then 1 else 0, (fun _ => 0) <$> ps, e).
Definition dtime (e : list (nat * Z)) : Z * Z * list (nat * Z) := (1, 500000, e).
Definition dother (x : unit) (w : reactor nat Z (X := unit) * list (nat * Z))
  : option (reactor nat Z (X := unit) * list (nat * Z)) := Some w.
Definition r0 : reactor nat Z (X := unit) := reactor_init 1 0.

Lemma r0_client : client_pool r0 (global_pool (cl := cleanup unit)).
Proof.
  split; [apply init_global|]. intros c [Hc _]. discriminate Hc.
Defined.

Definition r1 : reactor nat Z (X := unit) :=
  default r0 (reactor_set_timer 5%positive (global_pool (cl := cleanup unit)) 300 7%nat 70 r0).

Lemma reactor_set_timer_refines_witness :
  reactor_set_timer 5%positive (global_pool (cl := cleanup unit)) 300 7%nat 70 r0 = Some r1 /\
  exists sp, reactor_rep r1 [(5%positive, Payload 1300 7%nat 70 sp)].
Proof.
  destruct (reactor_set_timer_refines r0 [] 5%positive global_pool 300 7%nat 70)
    as (r' & sp & Hr & Hrep & _).
  - apply init_rep.
  - exact r0_client.
  - reflexivity.
  - vm_compute. split; congruence.
  - assert (r' = r1) as -> by (unfold r1; by rewrite Hr).
    split; [done|]. by exists sp.
Defined.

(** Removing a timer early (also how [reactor_invoke] takes a timer off the
    queue, and what happens when the pool it was created in is deleted) removes
    that entry and no other: every remaining timer keeps its trigger time, its
    difference being adjusted. *)
Theorem reactor_unset_timer_refines {F D X E : Type} `{PL : Pools (cleanup X)}
    (run_other : X -> reactor F D * E -> option (reactor F D * E))
    (r : reactor F D) e q1 l b q2 :
  reactor_rep r (q1 ++ (l, b) :: q2) ->
  exists r', reactor_unset_timer_early run_other l (r, e) = Some (r', e) /\
    reactor_rep r' (q1 ++ q2) /\ table r' = table r /\
    head_prepoll r' = head_prepoll r /\ reactor_time r' = reactor_time r.
Proof.
  intros Hr. destruct (unset_timer_rep run_other r e _ _ _ _ Hr)
    as (r' & ? & ? & ? & ? & ? & _). eauto 10.
Qed.

Lemma r1_rep : exists sp, reactor_rep r1 [(5%positive, Payload 1300 7%nat 70 sp)].
Proof.
  destruct (set_timer_rep r0 [] 5%positive (global_pool (cl := cleanup unit)) 300 7%nat 70)
    as (r' & sp & Hr & Hrep & _); [apply init_rep|exact r0_client|reflexivity|
    vm_compute; split; congruence|].
  assert (r' = r1) as -> by (unfold r1; by rewrite Hr). by exists sp.
Defined.

Lemma reactor_unset_timer_refines_witness :
  exists r', reactor_unset_timer_early dother 5%positive (r1, []) = Some (r', []) /\
    reactor_rep r' [].
Proof.
  destruct r1_rep as [sp Hr].
  destruct (reactor_unset_timer_refines dother r1 [] [] 5%positive
    (Payload 1300 7%nat 70 sp) [] Hr) as (r' & H1 & H2 & _).
  exists r'. exact (conj H1 H2).
Defined.

(** Whatever the timer functions do (set or remove timers, register or
    unregister handles), when the timer loop of [reactor_invoke] ends the timer
    at the head of the queue, if any, lies strictly in the future: no due timer
    is skipped and the subtraction for the [poll] timeout cannot be negative. *)
Theorem fire_timers_leaves_none_due {F D X E : Type} `{PL : Pools (cleanup X)}
    run_other (call : F -> D -> reactor F D * E -> option (reactor F D * E)) fuel w w' :
  fire_timers run_other call fuel w = Some w' ->
  match head_timer (timers w'.1) with
  | None => True
  | Some l => exists t, theap (timers w'.1) !! l = Some t /\
                        reactor_time w'.1 < delta (body t)
  end.
Proof. apply fire_timers_none_due. Qed.

Lemma fire_timers_leaves_none_due_witness :
  match fire_timers dother dcall 3 (with_time 1200 r1, []) with
  | Some w' =>
    match head_timer (timers w'.1) with
    | None => True
    | Some l => exists t, theap (timers w'.1) !! l = Some t /\
                          reactor_time w'.1 < delta (body t)
    end
  | None => False
  end.
Proof.
  destruct (fire_timers dother dcall 3 (with_time 1200 r1, [])) as [w'|] eqn:H.
  - exact (fire_timers_leaves_none_due dother dcall 3 (with_time 1200 r1, []) w' H).
  - assert ((if fire_timers dother dcall 3 (with_time 1200 r1, []) is Some _ then true else false)
      = true) as Hs by (vm_compute; reflexivity).
    rewrite H in Hs. discriminate Hs.
Defined.

(** One complete turn of [reactor_invoke], for handlers that leave the
    reactor's own structures alone and a [poll] that obeys its manual page:
    with enough fuel the turn completes (no null or dangling pointer is
    followed), the timers that are due fire in order of trigger time, then
    every prepoll handler runs once, then [poll] is called on the registered
    descriptors with the exact time to the next timer, and either each handle
    whose descriptor has events is called once, in handle order, or on a
    timeout the next timer fires; the schedule left is the rest. *)
Theorem reactor_invoke_quiet {F D X E : Type} `{PL : Pools (cleanup X)}
    run_other (call : F -> D -> reactor F D * E -> option (reactor F D * E))
    call_event sys_poll sys_gettimeofday log log_ev
    (quiet : forall f d r e, call f d (r, e) = Some (r, log f d e))
    (quiet_ev : forall f s v d r e,
       call_event f s v d (r, e) = Some (r, log_ev f s v d e))
    (poll_cells : forall ps timeout e,
       length (sys_poll ps timeout e).1.2 = length ps)
    (poll_timed_out : forall ps timeout e,
       (sys_poll ps timeout e).1.1 = 0 -> 0 <= timeout)
    fuel (r : reactor F D) e due rest timeout :
  reactor_rep r (due ++ rest) ->
  Forall (fun x => delta x.2 <= reactor_time r) due ->
  match rest with
  | [] => timeout = -1
  | x :: _ => reactor_time r < delta x.2 < 2 ^ 64 /\
              timeout = delta x.2 - reactor_time r /\ timeout <= INT_MAX
  end ->
  0 <= reactor_time r ->
  (length due <= fuel)%nat -> (length (head_prepoll r) <= fuel)%nat ->
  (length (handles (table r)) <= fuel)%nat ->
  exists r', reactor_invoke run_other call call_event sys_poll sys_gettimeofday
               fuel (r, e)
             = Some (r', (turn sys_poll sys_gettimeofday log log_ev r e due rest
                            timeout).1) /\
    reactor_rep r' (turn sys_poll sys_gettimeofday log log_ev r e due rest timeout).2.
Proof. by apply invoke_turn. Qed.

Lemma reactor_invoke_quiet_witness :
  exists r', reactor_invoke dother dcall devent dpoll dtime 2 (r1, [])
             = Some (r', [(7%nat, 70)]) /\ reactor_rep r' [].
Proof.
  destruct r1_rep as [sp Hr].
  apply (reactor_invoke_quiet dother dcall devent dpoll dtime dlog dlog_ev
    (fun f d r e => eq_refl) (fun f s v d r e => eq_refl)
    (fun ps t e => length_fmap (fun _ => 0) ps)
    ltac:(intros ps t e; unfold dpoll; simpl; destruct (t <? 0) eqn:Ht; [done|lia])
    2 r1 [] [] _ 300 Hr).
  - constructor.
  - vm_compute. repeat split; congruence.
  - vm_compute. congruence.
  - simpl. lia.
  - vm_compute. lia.
  - vm_compute. lia.
Defined.



(** A handler of events that gives up its handle and waits for another
    descriptor, as threads do; [poll] reports the first descriptor. *)
Definition moving_event (f : nat) (s v d : Z) (w : reactor nat Z (X := unit) * list (nat * Z))
  : option (reactor nat Z (X := unit) * list (nat * Z)) :=
  match reactor_unregister (table w.1) 0 with
  | Some t => Some (with_table (reactor_register (fun _ => Handle 0 0%nat 0) (fun _ => Pollfd 0 0 0)
                                  t 9 1 f d).2 w.1, w.2 ++ [(f, s)])
  | None => Some (w.1, w.2 ++ [(f, s)])
  end.

Definition first_ready (ps : list pollfd) (timeout : Z) (e : list (nat * Z)) : Z * list Z * list (nat * Z) :=
  (if timeout <? 0 then 1 else match ps with [] => 0 | _ => 1 end,
   match ps with [] => [] | _ :: ps => 1 :: ((fun _ => 0) <$> ps) end, e).

Lemma moving_event_keeps f s v d : keeps_reactor 8 (moving_event f s v d) (fun _ _ _ _ => True).
Proof.
  intros r e q Hr [Hb1 Hb2]. unfold moving_event. cbn [fst snd].
  destruct (reactor_unregister (table r) 0) as [t|] eqn:Hu; [|by exists r, (e ++ [(f, s)]), q].
  pose proof (rep_table _ _ Hr) as Hwf. destruct (unregister_frees _ _ _ Hwf Hu) as (Hl & h & Hh & Ho).
  assert (exists h0, handles (table r) !! 0%nat = Some h0) as [h0 Hh0].
  { apply lookup_lt_is_Some_2. rewrite <- Hl. by eapply lookup_lt_Some. }
  assert (table_wf t) as Hwt by (eapply unregister_wf; [exact Hwf|left; apply _|exact Hh0|exact Hu]).
  destruct (reactor_register _ _ t 9 1 f d) as [h' t'] eqn:Hg.
  eexists _, _, q. split; [done|]. simpl. split.
  { apply rep_with_table; [|done]. eapply register_wf; [exact Hwt| |exact Hg]. done. }
  split; [|done]. split; [|done]. simpl.
  pose proof (register_length (fun _ => Handle 0 0%nat 0) (fun _ => Pollfd 0 0 0) t 9 1 f d) as Hlen.
  rewrite Hg in Hlen. simpl in Hlen. rewrite Hlen, Hl; [done|].
  apply Exists_exists. exists h. split; [by eapply list_elem_of_lookup_2|done].
Qed.

Lemma dcall_keeps f d : keeps_reactor 8 (dcall f d) adds_no_work.
Proof. intros r e q Hr Hb. exists r, (e ++ [(f, d)]), q. by split_and!. Qed.

Definition r5 : reactor nat Z (X := unit) :=
  with_table (reactor_register (fun _ => Handle 0 0%nat 0) (fun _ => Pollfd 0 0 0)
                empty_table 4 1 3%nat 30).2 r1.


(** [reactor_stop] completes and releases every timer and both arrays when no
    prepoll handler is registered.  When one is still registered it never
    completes: the loop reads the handler it has just freed (its successor
    variable is assigned the handler itself instead of the next one). *)
Theorem reactor_stop_behaviour {F D X E : Type} `{PL : Pools (cleanup X)}
    (run_other : X -> reactor F D * E -> option (reactor F D * E))
    (r : reactor F D) e q :
  reactor_rep r q ->
  match head_prepoll r with
  | [] => forall fuel, (length q <= fuel)%nat -> exists r',
      reactor_stop run_other fuel (r, e) = Some (r', e) /\
      table r' = empty_table /\ sched (timers r') []
  | _ :: _ => forall fuel, reactor_stop run_other fuel (r, e) = None
  end.
Proof.
  intros Hr. destruct (head_prepoll r) as [|p ps] eqn:Hpp; intros fuel.
  - intros Hf. unfold reactor_stop. simpl. rewrite Hpp. simpl.
    destruct (stop_timers_rep run_other fuel r e q Hr Hf) as (r' & Hs & Hr').
    exists (with_table empty_table r').
    destruct fuel; simpl in *; rewrite Hs; (split; [done|]); split;
      (done || by destruct Hr').
  - unfold reactor_stop. simpl. rewrite Hpp. simpl.
    destruct fuel as [|fuel]; [done|]. simpl. rewrite Hpp. simpl.
    rewrite decide_True by done. simpl.
    destruct (delete_prepoll_rep run_other r e q [] p ps Hr Hpp)
      as (r' & -> & Hr' & Hh & _). simpl in *.
    destruct Hr as [_ _ _ _ Hnd]. rewrite Hpp in Hnd. simpl in Hnd.
    apply NoDup_cons in Hnd as [Hni _].
    destruct fuel as [|fuel]; [done|]. simpl. rewrite Hh.
    assert (list_find (fun p' => pp_id p' = pp_id p) ps = None) as ->; [|done].
    apply (list_find_None (fun p' => pp_id p' = pp_id p)), Forall_forall.
    intros x Hx He. apply Hni. rewrite <- He. by apply list_elem_of_fmap_2.
Qed.

Definition r2 : reactor nat Z (X := unit) :=
  reactor_register_prepoll 9%positive 0 (global_pool (cl := cleanup unit)) 3%nat 30 r0.

Lemma r2_rep : reactor_rep r2 [].
Proof.
  unfold r2, reactor_register_prepoll.
  destruct (new_subpool (global_pool (cl := cleanup unit)) (rpools r0)) as [sp ps] eqn:Hn.
  destruct (new_owned _ _ _ _ (CRemovePrepoll 9%positive) (init_global (cl := cleanup unit)) Hn)
    as [Ho _].
  destruct (init_rep (F := nat) (D := Z) (X := unit) 1 0) as [H1 H2 H3 H4 H5].
  split; simpl; try done.
  - by intros l b ?%not_elem_of_nil.
  - intros p ->%list_elem_of_singleton. exact Ho.
  - apply NoDup_singleton.
Defined.

Lemma reactor_stop_behaviour_witness :
  reactor_stop dother 5 (r2, []) = None /\
  exists r', reactor_stop dother 5 (r1, []) = Some (r', []).
Proof.
  split.
  - exact (reactor_stop_behaviour dother r2 [] [] r2_rep 5%nat).
  - destruct r1_rep as [sp Hr].
    destruct (reactor_stop_behaviour dother r1 [] _ Hr 5%nat) as (r' & H & _);
      [simpl; lia|].
    exists r'. exact H.
Defined.

(** A handler that registers a second prepoll handler (number 2, in memory whose
    [fired] field happens to hold [junk]) the first time it runs. *)
Definition adding_call (junk : Z) (f : nat) (d : Z)
    (w : reactor nat Z (X := unit) * list (nat * Z))
  : option (reactor nat Z (X := unit) * list (nat * Z)) :=
  Some (if decide (f = 1%nat)
        then reactor_register_prepoll 2%positive junk
               (global_pool (cl := cleanup unit)) 2%nat 0 w.1
        else w.1, w.2 ++ [(f, d)]).

Definition r3 : reactor nat Z (X := unit) :=
  reactor_register_prepoll 1%positive 0 (global_pool (cl := cleanup unit)) 1%nat 0 r0.

(** A prepoll handler registered while the prepoll handlers run is run in
    the same turn or not depending on the unspecified contents of the memory
    it was allocated in: with a zero [fired] byte pattern both handlers run,
    with any other the new one is skipped and the reactor goes on to block in
    [poll]. *)
Theorem prepoll_added_may_be_skipped (junk : Z) :
  snd <$> run_prepolls (adding_call junk) 5 (clear_fired r3, [])
  = Some (if decide (junk = 0) then [(1%nat, 0); (2%nat, 0)] else [(1%nat, 0)]).
Proof.
  destruct junk as [|p|p]; vm_compute; reflexivity.
Qed.

(** A thread polling descriptors 4 and 7 (handler 0): when it runs it
    unregisters both handles and polls descriptors 5 and 6 instead (handler 1). *)
Definition two_fd_event (f : nat) (s v d : Z)
    (w : reactor nat Z (X := unit) * list (nat * Z))
  : option (reactor nat Z (X := unit) * list (nat * Z)) :=
  if decide (f = 0%nat) then
    t ← reactor_unregister (table w.1) 0;
    t ← reactor_unregister t 1;
    let t := (reactor_register (fun _ => Handle 0 0%nat 0) (fun _ => Pollfd 0 0 0)
                t 5 1 1%nat 0).2 in
    let t := (reactor_register (fun _ => Handle 0 0%nat 0) (fun _ => Pollfd 0 0 0)
                t 6 1 1%nat 0).2 in
    Some (with_table t w.1, w.2 ++ [(f, s)])
  else Some (w.1, w.2 ++ [(f, s)]).

Definition r4 : reactor nat Z (X := unit) :=
  let t := (reactor_register (fun _ => Handle 0 0%nat 0) (fun _ => Pollfd 0 0 0)
              empty_table 4 1 0%nat 0).2 in
  let t := (reactor_register (fun _ => Handle 0 0%nat 0) (fun _ => Pollfd 0 0 0)
              t 7 1 0%nat 0).2 in
  with_table t r0.

(** The dispatch loop is not free of races: a cell of the poll array that is
    reused while events are being dispatched keeps the [revents] of its former
    owner, because registering a handle does not clear it.  When [poll] reports
    descriptors 4 and 7 and the first handler re-registers for 5 and 6, the
    handler for descriptor 6 is called with an event although [poll] was never
    asked about descriptor 6. *)
Theorem dispatch_spurious_event :
  snd <$> dispatch two_fd_event 20 0
    (with_table (set_revents [1; 1] (table r4)) r4, []) = Some [(0%nat, 4); (1%nat, 6)].
Proof. vm_compute. reflexivity. Qed.
