(* ===== verification/WaitQueue.v ===== *)
(** * Wait queues ([src/pthr_wait_queue.c])

    Wait queues live in the memory of the program next to the locks built on
    them.  Sleeping and waking a thread cross a context switch, so
    [wq_sleep_on] is given by its two halves: up to the switch back to the
    reactor, and from the return of that switch. *)

From stdpp Require Import base list gmap.
From S2P Require Import Prelude C2lib ReactorTimers Reactor.

(** A pseudothread is known by its address. *)
Abbreviation pth := loc.

(** The only prepoll handler of this file is [do_wake_up]; its argument is
    the address of a [wake_up_info]. *)
Inductive prepoll_fn := DoWakeUp.

Section wait_queue.
Context {L X : Type} {vec : Type -> Type} `{VL : Vector vec} `{PL : Pools (cleanup X)}.

Record wake_up_info := WakeUpInfo {
  info_pool : pool; info_sleepers : vec pth; info_handler : loc }.

(** The rest of the program's memory.  [locks] are the locks of the clients;
    [alarm_received] holds the threads whose flag of that name is set. *)
Record env := Env {
  current_pth : pth;
  pth_pool : gmap pth pool;
  alarm_received : gset pth;
  queues : gmap loc (vec pth);
  infos : gmap loc wake_up_info;
  locks : gmap loc L
}.

Abbreviation W := (reactor prepoll_fn loc (X := X) * env)%type.

Definition with_current t (w : W) : W :=
  (w.1, Env t (pth_pool w.2) (alarm_received w.2) (queues w.2) (infos w.2) (locks w.2)).
Definition with_pth_pool f (w : W) : W :=
  (w.1, Env (current_pth w.2) (f (pth_pool w.2)) (alarm_received w.2) (queues w.2)
          (infos w.2) (locks w.2)).
Definition with_alarm f (w : W) : W :=
  (w.1, Env (current_pth w.2) (pth_pool w.2) (f (alarm_received w.2)) (queues w.2)
          (infos w.2) (locks w.2)).
Definition set_queue q v (w : W) : W :=
  (w.1, Env (current_pth w.2) (pth_pool w.2) (alarm_received w.2)
          (<[q := v]> (queues w.2)) (infos w.2) (locks w.2)).
Definition set_info a i (w : W) : W :=
  (w.1, Env (current_pth w.2) (pth_pool w.2) (alarm_received w.2) (queues w.2)
          (<[a := i]> (infos w.2)) (locks w.2)).
Definition free_info a (w : W) : W :=
  (w.1, Env (current_pth w.2) (pth_pool w.2) (alarm_received w.2) (queues w.2)
          (delete a (infos w.2)) (locks w.2)).
Definition set_lock l k (w : W) : W :=
  (w.1, Env (current_pth w.2) (pth_pool w.2) (alarm_received w.2) (queues w.2)
          (infos w.2) (<[l := k]> (locks w.2))).

(** [pmalloc]: the address of new memory, and what its [fired] field holds. *)
Context (pmalloc : W -> loc) (junk : loc -> Z).

(** The clean-up functions of the clients. *)
Context (run_other : X -> W -> option W).

(** [a] is the address of the new queue. *)
Definition new_wait_queue (a : loc) (w : W) : W := set_queue a new_vector w.

Definition wq_nr_sleepers (q : loc) (w : W) : nat :=
  match queues w.2 !! q with Some v => vector_size v | None => O end.

(** [wq_sleep_on] up to the switch to the calling context. *)
Definition wq_sleep_on (q : loc) (w : W) : option W :=
  v ← queues w.2 !! q;
  Some (set_queue q (vector_push_back v (current_pth w.2)) w).

(** The loop that looks for the thread in the sleepers. *)
Fixpoint find_sleeper (fuel i : nat) (v : vec pth) (t : pth) : option nat :=
  match fuel with
  | O => None
  | S k =>
    p ← vector_get v i;
    if decide (p = t) then Some i else find_sleeper k (S i) v t
  end.

(** [wq_sleep_on] from the return of the switch: [false] when the thread goes
    on to [pth_exit]; [None] is the call of [abort]. *)
Definition wq_woken_up (q : loc) (w : W) : option (bool * W) :=
  if decide (current_pth w.2 ∈ alarm_received w.2) then
    v ← queues w.2 !! q;
    i ← find_sleeper (vector_size v) 0 v (current_pth w.2);
    Some (false, set_queue q (vector_erase v i) w)
  else Some (true, w).

(** The loop of [wake_up] moving [n] threads from [sleepers] to [v]. *)
Fixpoint pop_sleepers (n : nat) (sleepers v : vec pth) : option (vec pth * vec pth) :=
  match n with
  | O => Some (sleepers, v)
  | S k =>
    '(t, sleepers) ← vector_pop_front sleepers;
    pop_sleepers k sleepers (vector_push_back v t)
  end.

Definition wake_up (q : loc) (n : Z) (w : W) : option W :=
  sl ← queues w.2 !! q;
  if decide (vector_size sl = 0%nat) then Some w
  else
    let '(p, ps) := new_subpool global_pool (rpools w.1) in
    '(sl', v) ← (if decide (n = -1) then Some (vector_clear sl, copy_vector sl)
                 else pop_sleepers (Z.to_nat n) sl new_vector);
    let w1 := set_queue q sl' (with_pools ps w.1, w.2) in
    let a := pmalloc w1 in
    let w2 := set_info a (WakeUpInfo p v 1%positive) w1 in
    let h := pmalloc w2 in
    let w3 := (reactor_register_prepoll h (junk h) p DoWakeUp a w2.1, w2.2) in
    Some (set_info a (WakeUpInfo p v h) w3).

Definition wq_wake_up (q : loc) (w : W) : option W := wake_up q (-1) w.

Definition wq_wake_up_one (q : loc) (w : W) : option W :=
  if decide (wq_nr_sleepers q w < 1)%nat then None else wake_up q 1 w.

(** The end of [do_wake_up], once every sleeper has been resumed.  The
    [wake_up_info] is in the pool that is deleted. *)
Definition do_wake_up_end (a : loc) (w : W) : option W :=
  i ← infos w.2 !! a;
  w1 ← reactor_unregister_prepoll run_other (info_handler i) w;
  delete_pool_w run_other (info_pool i) (free_info a w1).

(** ** Lemmas *)

Lemma wq_nr_sleepers_elems q w v :
  queues w.2 !! q = Some v -> wq_nr_sleepers q w = length (elems v).
Proof. unfold wq_nr_sleepers. intros ->. apply size_elems. Qed.

Lemma find_sleeper_spec fuel i v t :
  (i + fuel = length (elems v))%nat ->
  match find_sleeper fuel i v t with
  | Some j => elems v !! j = Some t
  | None => t ∉ drop i (elems v)
  end.
Proof.
  revert i. induction fuel as [|k IH]; intros i Hi; simpl.
  - rewrite drop_ge by lia. apply not_elem_of_nil.
  - rewrite get_elems by lia.
    destruct (lookup_lt_is_Some_2 (elems v) i) as [p Hp]; [lia|].
    rewrite Hp. simpl. destruct (decide (p = t)) as [->|Hne]; [done|].
    specialize (IH (S i) ltac:(lia)). destruct (find_sleeper _ _ _ _); [done|].
    rewrite (drop_S _ _ _ Hp). apply not_elem_of_cons. split; congruence.
Qed.

Lemma find_sleeper_in v t :
  t ∈ elems v -> exists j, find_sleeper (vector_size v) 0 v t = Some j /\
    elems v !! j = Some t.
Proof.
  intros Hin. pose proof (find_sleeper_spec (vector_size v) 0 v t) as Hs.
  rewrite size_elems in *. specialize (Hs eq_refl).
  destruct (find_sleeper _ _ _ _); eauto. by rewrite drop_0 in Hs.
Qed.

Lemma find_sleeper_notin v t :
  t ∉ elems v -> find_sleeper (vector_size v) 0 v t = None.
Proof.
  intros Hin. pose proof (find_sleeper_spec (vector_size v) 0 v t) as Hs.
  rewrite size_elems in *. specialize (Hs eq_refl).
  destruct (find_sleeper _ _ _ _) as [j|]; [|done].
  exfalso. apply Hin. by apply list_elem_of_lookup_2 in Hs.
Qed.

Lemma wake_up_one_pop q w v t ts :
  queues w.2 !! q = Some v -> elems v = t :: ts ->
  exists v' s, elems v' = ts /\ elems s = [t] /\
    wq_wake_up_one q w =
      let '(p, ps) := new_subpool global_pool (rpools w.1) in
      let w1 := set_queue q v' (with_pools ps w.1, w.2) in
      let a := pmalloc w1 in
      let w2 := set_info a (WakeUpInfo p s 1%positive) w1 in
      let h := pmalloc w2 in
      let w3 := (reactor_register_prepoll h (junk h) p DoWakeUp a w2.1, w2.2) in
      Some (set_info a (WakeUpInfo p s h) w3).
Proof.
  intros Hq Hv. unfold wq_wake_up_one, wake_up.
  rewrite decide_False by (rewrite (wq_nr_sleepers_elems q w v Hq), Hv; simpl; lia).
  rewrite Hq. simpl. rewrite decide_False by (rewrite size_elems, Hv; done).
  destruct (pop_front_elems _ _ _ _ Hv) as (v' & Hp & Hv').
  exists v', (vector_push_back new_vector t). split; [done|]. split.
  { by autorewrite with vec. }
  destruct (new_subpool _ _) as [p ps]. simpl. rewrite Hp. done.
Qed.
(** [wq_wake_up_one] stops the program exactly when nobody sleeps; [wq_wake_up] does
    not. *)
Lemma wake_up_one_aborts q w v :
  queues w.2 !! q = Some v -> wq_wake_up_one q w = None <-> elems v = [].
Proof.
  intros Hq. destruct (elems v) as [|t ts] eqn:Hv.
  - split; [done|]. intros _. unfold wq_wake_up_one.
    by rewrite decide_True by (rewrite (wq_nr_sleepers_elems q w v Hq), Hv; simpl; lia).
  - destruct (wake_up_one_pop q w v t ts Hq Hv) as (v' & sl & _ & _ & ->).
    destruct (new_subpool _ _). done.
Qed.

Lemma wake_up_all_runs q w v : queues w.2 !! q = Some v -> is_Some (wq_wake_up q w).
Proof.
  intros Hq. unfold wq_wake_up, wake_up. rewrite Hq. simpl. destruct (decide _); [done|].
  destruct (new_subpool _ _). simpl. done.
Qed.
End wait_queue.

Arguments wake_up_info X vec {PL}.
Arguments env L X vec {PL}.
