(* ===== verification/Locks.v ===== *)
(** * Locks and the threads that use them

    What a lock promises to the threads ([Lock]), and the machine in which
    threads run: the stack of threads started from one another by [pth_start],
    the activation of [do_wake_up] below it, and the reactor at the bottom.
    The invariant of the machine is proved against the interface; the mutex
    and the readers/writers lock are its instances. *)

From stdpp Require Import base list gmap.
From S2P Require Import Prelude C2lib Forest ReactorTimers Reactor WaitQueue.

(** ** The interface *)

Class Lock {L M X : Type} {vec : Type -> Type} `{VL : Vector vec} `{PL : Pools (cleanup X)}
  (pmalloc : reactor prepoll_fn loc (X := X) * env L X vec -> loc) (junk : loc -> Z) := {
  (** the operations: a lock is entered in a mode and left by the current
      thread; [run_release] is the clean-up function of its subpool *)
  mode_eq_dec :: EqDecision M;
  lock_wq : M -> L -> loc;
  try_enter : M -> loc -> reactor prepoll_fn loc (X := X) * env L X vec ->
    option (bool * (reactor prepoll_fn loc (X := X) * env L X vec));
  leave : loc -> reactor prepoll_fn loc (X := X) * env L X vec ->
    option (reactor prepoll_fn loc (X := X) * env L X vec);
  run_release : X -> reactor prepoll_fn loc (X := X) * env L X vec ->
    option (reactor prepoll_fn loc (X := X) * env L X vec);

  (** what they do to the lock: who holds it (and by which subpool), when a
      thread may enter, the queue of which a thread is woken by a release *)
  held : L -> gmap pth pool;
  can_enter : M -> L -> (loc -> nat) -> bool;
  enter_lock : M -> pth -> pool -> L -> L;
  release_lock : pth -> L -> (loc -> nat) -> L * option loc;
  rel_of : pth -> loc -> X;
  lock_wf : L -> Prop;
  (** a thread in an exclusive mode shares the lock with nobody *)
  exclusive : M -> bool;

  try_enter_ok : forall md l (w : reactor prepoll_fn loc (X := X) * env L X vec) k tp,
    locks w.2 !! l = Some k -> pth_pool w.2 !! current_pth w.2 = Some tp ->
    try_enter md l w = Some
      (if can_enter md k (fun q => wq_nr_sleepers q w) then
         let '(p, ps) := new_subpool tp (rpools w.1) in
         let ps := pool_register_cleanup_fn p (COther (rel_of (current_pth w.2) l)) ps in
         (true, set_lock l (enter_lock md (current_pth w.2) p k) (with_pools ps w.1, w.2))
       else (false, w));
  leave_ok : forall l (w : reactor prepoll_fn loc (X := X) * env L X vec) k,
    locks w.2 !! l = Some k -> lock_wf k ->
    leave l w = match held k !! current_pth w.2 with
                | Some p => delete_pool_w run_release p w
                | None => None
                end;
  release_ok : forall t l (w : reactor prepoll_fn loc (X := X) * env L X vec) k,
    locks w.2 !! l = Some k -> lock_wf k -> is_Some (held k !! t) ->
    run_release (rel_of t l) w =
      let '(k', wq) := release_lock t k (fun q => wq_nr_sleepers q w) in
      match wq with
      | Some q => wq_wake_up_one pmalloc junk q (set_lock l k' w)
      | None => Some (set_lock l k' w)
      end;

  rel_inj : forall t l l', rel_of t l = rel_of t l' -> l = l';
  enter_wf : forall md t p k ns, lock_wf k -> held k !! t = None ->
    can_enter md k ns = true -> lock_wf (enter_lock md t p k);
  enter_held : forall md t p k ns, lock_wf k -> can_enter md k ns = true ->
    held (enter_lock md t p k) = <[t := p]> (held k);
  enter_wq : forall md md' t p k, lock_wq md' (enter_lock md t p k) = lock_wq md' k;
  release_wf : forall t k ns, lock_wf k -> is_Some (held k !! t) ->
    lock_wf (release_lock t k ns).1;
  release_held : forall t k ns, lock_wf k -> is_Some (held k !! t) ->
    held (release_lock t k ns).1 = delete t (held k);
  release_keeps_wq : forall md t k ns, lock_wq md (release_lock t k ns).1 = lock_wq md k;
  release_wakes : forall t k ns q, (release_lock t k ns).2 = Some q ->
    (0 < ns q)%nat /\ exists md, q = lock_wq md k;

  excl_ns : forall md k ns ns', exclusive md = true ->
    can_enter md k ns = can_enter md k ns';
  excl_held : forall md k ns t, exclusive md = true -> lock_wf k ->
    is_Some (held k !! t) -> can_enter md k ns = false;
  excl_release : forall md t k ns, exclusive md = true -> lock_wf k -> is_Some (held k !! t) ->
    can_enter md (release_lock t k ns).1 ns = true -> (0 < ns (lock_wq md k))%nat ->
    (release_lock t k ns).2 = Some (lock_wq md k)
}.

(** ** The machine *)

Section machine.
Context {L M X : Type} {vec : Type -> Type} `{VL : Vector vec} `{PL : Pools (cleanup X)}.
Context (pmalloc : reactor prepoll_fn loc (X := X) * env L X vec -> loc) (junk : loc -> Z).
Context `{LK : !Lock (L := L) (M := M) pmalloc junk}.

Abbreviation W := (reactor prepoll_fn loc (X := X) * env L X vec)%type.

(** One round of the loop of [mutex_enter] and the like: [true] when the lock
    was taken, [false] when the thread is on the queue and gives up control. *)
Definition enter_round (l : loc) (md : M) (w : W) : option (bool * W) :=
  '(b, w1) ← try_enter md l w;
  if b : bool then Some (true, w1)
  else k ← locks w1.2 !! l; w2 ← wq_sleep_on (lock_wq md k) w1; Some (false, w2).

(** [thread_trampoline] after the thread's function returned or called
    [pth_exit]: the thread's pool goes away, and the thread with it. *)
Definition thread_exit (w : W) : option W :=
  tp ← pth_pool w.2 !! current_pth w.2;
  delete_pool_w run_release tp (with_pth_pool (delete (current_pth w.2)) w).

(** Where a thread is: running (or inside [pth_start]), blocked in the
    reactor on something else than a lock, or asleep in [wq_sleep_on] called
    to enter a lock. *)
Inductive status := TRun | TBlocked | TSleep (l : loc) (md : M).

Record sys := Sys {
  world : W;
  stack : list pth;
  waking : option (loc * nat);
  stat : gmap pth status
}.

Inductive action :=
  | Start (t : pth) | Enter (l : loc) (md : M) | Try (l : loc) (md : M)
  | Leave (l : loc) | Block | Exit
  | Resume (t : pth) | Alarm (t : pth) | Prepoll | Wake | Turn.

(** [Aborted] is a failed assertion, a call of [abort] or an access to
    memory that is not there. *)
Inductive outcome := Next (s : sys) | Disabled | Aborted.

Definition next {A} (f : A -> sys) (o : option A) : outcome :=
  match o with Some a => Next (f a) | None => Aborted end.

(** The context switch out of a thread: [pth_start] restores
    [current_pth] in the thread below. *)
Definition return_to (st : list pth) (w : W) : W :=
  match st with u :: _ => with_current u w | [] => w end.

(** [new_pseudothread] in a new pool and [pth_start]. *)
Definition start_thread (t : pth) (w : W) : W :=
  let '(p, ps) := new_pool (rpools w.1) in
  with_current t (with_alarm (fun a => a ∖ {[t]})
    (with_pth_pool <[t := p]> (with_pools ps w.1, w.2))).

(** [return_from_alarm] for a thread asleep in [wq_sleep_on]. *)
Definition alarm_wakes (t : pth) (l : loc) (md : M) (w : W) : option W :=
  k ← locks w.2 !! l;
  '(_, w1) ← wq_woken_up (lock_wq md k) (with_current t (with_alarm (union {[t]}) w));
  thread_exit w1.

(** [do_wake_up] resumes the thread [t] asleep for the lock [l]. *)
Definition wake_thread (t : pth) (l : loc) (md : M) (w : W) : option (bool * W) :=
  k ← locks w.2 !! l;
  '(b, w1) ← wq_woken_up (lock_wq md k) (with_current t w);
  if b : bool then enter_round l md w1 else None.

Definition do_step (a : action) (s : sys) : outcome :=
  let w := world s in
  match a, stack s, waking s with
  | Start t, st, wk =>
    if decide (stat s !! t = None /\ (st <> [] \/ wk = None)) then
      Next (Sys (start_thread t w) (t :: st) wk (<[t := TRun]> (stat s)))
    else Disabled
  | Enter l md, t :: st, wk =>
    match locks w.2 !! l with
    | Some _ =>
      next (fun '(b, w') =>
        if b : bool then Sys w' (t :: st) wk (stat s)
        else Sys (return_to st w') st wk (<[t := TSleep l md]> (stat s)))
        (enter_round l md w)
    | None => Disabled
    end
  | Try l md, t :: st, wk =>
    match locks w.2 !! l with
    | Some _ => next (fun '(_, w') => Sys w' (t :: st) wk (stat s)) (try_enter md l w)
    | None => Disabled
    end
  | Leave l, t :: st, wk =>
    match locks w.2 !! l with
    | Some _ => next (fun w' => Sys w' (t :: st) wk (stat s)) (leave l w)
    | None => Disabled
    end
  | Block, t :: st, wk => Next (Sys (return_to st w) st wk (<[t := TBlocked]> (stat s)))
  | Exit, t :: st, wk =>
    next (fun w' => Sys (return_to st w') st wk (delete t (stat s))) (thread_exit w)
  | Resume t, [], None =>
    match stat s !! t with
    | Some TBlocked => Next (Sys (with_current t w) [t] None (<[t := TRun]> (stat s)))
    | _ => Disabled
    end
  | Alarm t, [], None =>
    match stat s !! t with
    | Some (TSleep l md) =>
      next (fun w' => Sys w' [] None (delete t (stat s))) (alarm_wakes t l md w)
    | _ => Disabled
    end
  | Prepoll, [], None =>
    match list_find (fun p => fired p = 0) (head_prepoll w.1) with
    | Some (i, p) =>
      Next (Sys (with_prepolls (alter (set_fired 1) i (head_prepoll w.1)) w.1, w.2)
                [] (Some (pp_data p, O)) (stat s))
    | None => Disabled
    end
  | Wake, [], Some (a, i) =>
    match infos w.2 !! a with
    | Some info =>
      if decide (i < vector_size (info_sleepers info))%nat then
        match vector_get (info_sleepers info) i with
        | Some t =>
          match stat s !! t with
          | Some (TSleep l md) =>
            next (fun '(b, w') =>
              if b : bool then Sys w' [t] (Some (a, S i)) (<[t := TRun]> (stat s))
              else Sys w' [] (Some (a, S i)) (stat s)) (wake_thread t l md w)
          | _ => Aborted
          end
        | None => Aborted
        end
      else next (fun w' => Sys w' [] None (stat s))
                (do_wake_up_end run_release a w)
    | None => Aborted
    end
  | Turn, [], None => Next (Sys (clear_fired w.1, w.2) [] None (stat s))
  | _, _, _ => Disabled
  end.

Fixpoint run (l : list action) (s : sys) : outcome :=
  match l with
  | [] => Next s
  | a :: l => match do_step a s with Next s' => run l s' | o => o end
  end.

(** The running thread does not enter a lock it already holds in a mode that would
    let it in a second time.  (In an exclusive mode it is refused like any other
    thread.) *)
Definition not_inside (a : action) (s : sys) : Prop :=
  match a, stack s with
  | Enter l md, t :: _ | Try l md, t :: _ =>
    match locks (world s).2 !! l with
    | Some k => held k !! t = None \/ exclusive md = true
    | None => True
    end
  | _, _ => True
  end.

#[export] Instance not_inside_dec a s : Decision (not_inside a s).
Proof. destruct a; simpl; destruct (stack s); try apply _; destruct (locks (world s).2 !! l); apply _. Defined.

(** No thread does so in a run. *)
Fixpoint no_reentry (l : list action) (s : sys) : Prop :=
  match l with
  | [] => True
  | a :: l => not_inside a s /\ match do_step a s with Next s' => no_reentry l s' | _ => True end
  end.

#[export] Instance no_reentry_dec l s : Decision (no_reentry l s).
Proof.
  revert s. induction l as [|a l IH]; intros s; simpl; [apply _|].
  apply and_dec; [apply _|]. destruct (do_step a s); apply _.
Defined.

Lemma exclusive_not_inside a s : (forall md, exclusive md = true) -> not_inside a s.
Proof.
  intros H. destruct a; simpl; destruct (stack s); try done; destruct (locks (world s).2 !! l); auto.
Qed.

Lemma exclusive_no_reentry l s : (forall md, exclusive md = true) -> no_reentry l s.
Proof.
  intros H. revert s. induction l as [|a l IH]; intros s; [done|]. split; [by apply exclusive_not_inside|].
  destruct (do_step a s); auto.
Qed.

(** The threads taken off a queue that [do_wake_up] has still to resume. *)
Definition remaining (wk : option (loc * nat)) (w : W) (a : loc) : list pth :=
  match infos w.2 !! a with
  | Some i =>
    match wk with
    | Some (a', n) => if decide (a' = a) then drop n (elems (info_sleepers i))
                      else elems (info_sleepers i)
    | None => elems (info_sleepers i)
    end
  | None => []
  end.

Definition pending (wk : option (loc * nat)) (w : W) : list pth :=
  concat ((fun p => remaining wk w (pp_data p)) <$> head_prepoll w.1).

(** ** What holds of the world

    [ok w D f]: the pools are the trees [f], one for each thread with a
    child for each lock it holds, and one for each pending wake-up.  [D] are
    the holders whose subpool is already deleted, the release being still to
    run. *)

Record ok (w : W) (D : list (pth * loc)) (f : list (pool * list (pool * cleanup X)))
  : Prop := {
  ok_forest : forest (rpools w.1) f;
  ok_thread : forall t tp, pth_pool w.2 !! t = Some tp ->
    exists ks, (tp, ks) ∈ f /\ forall p c, (p, c) ∈ ks <-> (exists l k,
      c = COther (rel_of t l) /\ ((t, l) ∉ D) /\ locks w.2 !! l = Some k /\
      held k !! t = Some p);
  ok_pool_inj : forall t t' tp, pth_pool w.2 !! t = Some tp ->
    pth_pool w.2 !! t' = Some tp -> t = t';
  ok_holder : forall l k t p, locks w.2 !! l = Some k -> held k !! t = Some p ->
    (t, l) ∉ D -> is_Some (pth_pool w.2 !! t);
  ok_dead : NoDup D /\ forall t l, (t, l) ∈ D ->
    exists k, locks w.2 !! l = Some k /\ is_Some (held k !! t);
  ok_lock : forall l k, locks w.2 !! l = Some k ->
    lock_wf k /\ forall md, is_Some (queues w.2 !! lock_wq md k);
  ok_wq_inj : forall l l' k k' md md', locks w.2 !! l = Some k ->
    locks w.2 !! l' = Some k' -> lock_wq md k = lock_wq md' k' -> l = l' /\ md = md';
  ok_prepoll : forall p, p ∈ head_prepoll w.1 -> exists i,
    infos w.2 !! pp_data p = Some i /\ info_handler i = pp_id p /\
    (info_pool i, [(pp_pool p, CRemovePrepoll (pp_id p))]) ∈ f;
  ok_ids : NoDup (pp_id <$> head_prepoll w.1);
  ok_datas : NoDup (pp_data <$> head_prepoll w.1);
  ok_infos : forall a, is_Some (infos w.2 !! a) -> a ∈ pp_data <$> head_prepoll w.1
}.

(** A tree of the forest can be brought to the front. *)
Lemma tree_front (f : list (pool * list (pool * cleanup X))) x :
  x ∈ f -> exists f', f ≡ₚ x :: f'.
Proof. intros [f' Hf]%elem_of_Permutation. by exists f'. Qed.

Lemma ok_perm w D f f' : f ≡ₚ f' -> ok w D f -> ok w D f'.
Proof.
  intros Hp []. split; try done.
  - by eapply forest_perm.
  - intros t tp Ht. destruct (ok_thread0 t tp Ht) as (ks & Hin & Hks).
    exists ks. by rewrite <- Hp.
  - intros p Hin. destruct (ok_prepoll0 p Hin) as (i & ? & ? & ?).
    exists i. by rewrite <- Hp.
Qed.

(** The trees of two threads, and of a thread and a wake-up, are distinct. *)
Lemma thread_tree_neq w D f t t' tp tp' :
  ok w D f -> pth_pool w.2 !! t = Some tp -> pth_pool w.2 !! t' = Some tp' ->
  t <> t' -> tp <> tp'.
Proof. intros Hok Ht Ht' Hne ->. by apply Hne, (ok_pool_inj _ _ _ Hok t t' tp'). Qed.

Lemma forest_root_inj ps (f : list (pool * list (pool * cleanup X))) r ks ks' :
  forest ps f -> (r, ks) ∈ f -> (r, ks') ∈ f -> ks = ks'.
Proof.
  intros Hf [f' Hp]%tree_front Hin'. rewrite Hp in Hin'.
  apply elem_of_cons in Hin' as [[= ->]|Hin']; [done|].
  apply (forest_perm _ _ _ Hp), forest_distinct in Hf.
  unfold forest_pools in Hf. simpl in Hf. apply NoDup_cons in Hf as [Hf _].
  exfalso. apply Hf, elem_of_app. right. apply elem_forest_pools.
  exists (r, ks'). split; [done|by left].
Qed.

Context (pmalloc_new : forall w : W,
  infos w.2 !! pmalloc w = None /\ ~ (pmalloc w ∈ pp_id <$> head_prepoll w.1)).

(** The part of the world that waking a thread leaves alone. *)
Definition same_threads (w w' : W) : Prop :=
  current_pth w'.2 = current_pth w.2 /\ pth_pool w'.2 = pth_pool w.2 /\
  alarm_received w'.2 = alarm_received w.2.

Lemma remaining_same wk (w w' : W) a :
  infos w'.2 !! a = infos w.2 !! a -> remaining wk w' a = remaining wk w a.
Proof. unfold remaining. by intros ->. Qed.

Lemma pending_same wk (w w' : W) :
  head_prepoll w'.1 = head_prepoll w.1 -> infos w'.2 = infos w.2 ->
  pending wk w' = pending wk w.
Proof. unfold pending, remaining. by intros -> ->. Qed.

(** The activation [wk] of [do_wake_up] is one of a pending wake-up. *)
Definition active (wk : option (loc * nat)) (w : W) : Prop :=
  match wk with Some (a, _) => is_Some (infos w.2 !! a) | None => True end.

Lemma wake_one_ok wk w D f q v t ts :
  ok w D f -> active wk w -> queues w.2 !! q = Some v -> elems v = t :: ts ->
  exists w' f' v',
    wq_wake_up_one pmalloc junk q w = Some w' /\ ok w' D f' /\
    queues w'.2 = <[q := v']> (queues w.2) /\ elems v' = ts /\
    pending wk w' = t :: pending wk w /\ active wk w' /\
    same_threads w w' /\ locks w'.2 = locks w.2.
Proof.
  intros Hok Hact Hq Hv.
  destruct (wake_up_one_pop pmalloc junk q w v t ts Hq Hv) as (v' & s & Hv' & Hs & ->).
  destruct (new_subpool global_pool (rpools w.1)) as [p ps] eqn:Hn. cbv zeta.
  set (w1 := set_queue q v' (with_pools ps w.1, w.2)).
  destruct (pmalloc_new w1) as [Ha _]. set (a := pmalloc w1) in *. simpl in Ha.
  set (w2 := set_info a (WakeUpInfo p s 1%positive) w1).
  destruct (pmalloc_new w2) as [_ Hh]. set (h := pmalloc w2) in *. simpl in Hh.
  unfold reactor_register_prepoll. simpl.
  destruct (new_subpool p ps) as [sp ps2] eqn:Hn2.
  pose proof (forest_new_sub_global _ _ _ _ (ok_forest _ _ _ Hok) Hn) as Hf1.
  destruct (forest_new_kid _ _ _ _ _ _ (CRemovePrepoll h) Hf1 Hn2) as [Hf2 _].
  assert (forall pp, pp ∈ head_prepoll w.1 -> pp_data pp <> a) as Hda.
  { intros pp Hpp E. destruct (ok_prepoll _ _ _ Hok pp Hpp) as (i & Hi & _).
    rewrite E in Hi. congruence. }
  eexists _, _, v'. split; [done|]. split; [|split; [done|split; [done|]]].
  - destruct Hok. split; simpl; try done.
    + intros t' tp Ht'. destruct (ok_thread0 _ _ Ht') as (ks & ? & ?).
      exists ks. split; [by right|done].
    + intros l k Hl. destruct (ok_lock0 l k Hl) as [? Hwq]. split; [done|].
      intros md. destruct (decide (lock_wq md k = q)) as [->|];
        [rewrite lookup_insert_eq|rewrite lookup_insert_ne]; eauto.
    + intros pp [->|Hpp]%elem_of_cons; simpl.
      * eexists. rewrite lookup_insert_eq. split; [done|]. split; [done|by left].
      * destruct (ok_prepoll0 pp Hpp) as (i & ? & ? & ?). exists i.
        rewrite !lookup_insert_ne by (by apply not_eq_sym, Hda).
        split; [done|]. split; [done|by right].
    + apply NoDup_cons. split; [|done]. done.
    + apply NoDup_cons. split; [|done].
      intros (pp & E & Hpp)%list_elem_of_fmap. by apply (Hda pp).
    + intros a'. destruct (decide (a' = a)) as [->|]; [by left|].
      rewrite !lookup_insert_ne by done. right. auto.
  - assert (wk_ne : forall n, wk <> Some (a, n)).
    { intros n ->. simpl in Hact. rewrite Ha in Hact. by destruct Hact. }
    split; [|split; [|done]].
    + unfold pending. simpl. unfold remaining at 1. simpl.
      rewrite lookup_insert_eq. simpl. rewrite Hs.
      destruct wk as [[a' n]|].
      * rewrite decide_False by (intros ->; by apply (wk_ne n)). simpl. f_equal.
        f_equal. apply list_fmap_ext. intros i pp Hpp. apply remaining_same. simpl.
        rewrite !lookup_insert_ne; [done|..];
          apply not_eq_sym, Hda; by apply list_elem_of_lookup_2 in Hpp.
      * simpl. f_equal.
        f_equal. apply list_fmap_ext. intros i pp Hpp. apply remaining_same. simpl.
        rewrite !lookup_insert_ne; [done|..];
          apply not_eq_sym, Hda; by apply list_elem_of_lookup_2 in Hpp.
    + destruct wk as [[a' n]|]; simpl; [|done]. simpl in Hact.
      rewrite !lookup_insert_ne by (intros <-; by apply (wk_ne n)). done.
Qed.

(** ** Who waits for what

    [waits st wk exc w]: every thread that [st] says is asleep for a lock is on
    the queue of that lock or about to be woken, once, and nobody else is;
    when a thread could enter a lock in a live mode and threads wait for it,
    one of them is about to be woken, except for the locks and modes of
    [exc]. *)

Record waits (st : gmap pth status) (wk : option (loc * nat)) (exc : loc -> M -> Prop)
    (w : W) : Prop := {
  w_queue : forall q v, queues w.2 !! q = Some v -> NoDup (elems v) /\
    forall t, t ∈ elems v -> exists l md k, st !! t = Some (TSleep l md) /\
      locks w.2 !! l = Some k /\ lock_wq md k = q;
  w_pend : NoDup (pending wk w);
  w_pend_in : forall t, t ∈ pending wk w -> exists l md k v,
    st !! t = Some (TSleep l md) /\ locks w.2 !! l = Some k /\
    queues w.2 !! lock_wq md k = Some v /\ (t ∉ elems v);
  w_sleep : forall t l md, st !! t = Some (TSleep l md) -> exists k v,
    locks w.2 !! l = Some k /\ queues w.2 !! lock_wq md k = Some v /\
    (t ∈ elems v \/ t ∈ pending wk w);
  w_hold : forall t l md k, st !! t = Some (TSleep l md) -> locks w.2 !! l = Some k ->
    held k !! t = None \/ exclusive md = true;
  w_live : forall md l k v, exclusive md = true -> locks w.2 !! l = Some k -> ~ exc l md ->
    can_enter md k (fun _ => O) = true -> queues w.2 !! lock_wq md k = Some v ->
    elems v <> [] -> exists t, t ∈ pending wk w /\ st !! t = Some (TSleep l md)
}.

Definition no_exc : loc -> M -> Prop := fun _ _ => False.

Lemma no_exc_dec l md : no_exc l md \/ ~ no_exc l md.
Proof. right. by intros []. Qed.

Lemma waits_exc st wk (exc exc' : loc -> M -> Prop) w :
  waits st wk exc w ->
  (forall md l k v, exclusive md = true -> locks w.2 !! l = Some k -> exc l md -> ~ exc' l md ->
    can_enter md k (fun _ => O) = true -> queues w.2 !! lock_wq md k = Some v ->
    elems v <> [] -> exists t, t ∈ pending wk w /\ st !! t = Some (TSleep l md)) ->
  (forall l md, exc l md \/ ~ exc l md) -> waits st wk exc' w.
Proof.
  intros [] H Hdec. split; try done. intros md l k v Hmd Hl Hn Hc Hq Hne.
  destruct (Hdec l md) as [He|He]; eauto.
Qed.

(** Changing a lock without its queues. *)
Lemma waits_set_lock st wk exc w l k k' :
  waits st wk exc w -> locks w.2 !! l = Some k ->
  (forall md, lock_wq md k' = lock_wq md k) ->
  (forall t md, st !! t = Some (TSleep l md) -> held k !! t = None -> held k' !! t = None) ->
  waits st wk (fun l' md => exc l' md \/ l' = l) (set_lock l k' w).
Proof.
  intros Hw Hl Hwq Hhold.
  assert (forall l' k0 md, locks w.2 !! l' = Some k0 -> exists k1,
            <[l := k']> (locks w.2) !! l' = Some k1 /\ lock_wq md k1 = lock_wq md k0)
    as Hlk.
  { intros l' k0 md Hl'. destruct (decide (l' = l)) as [->|].
    - rewrite lookup_insert_eq. eexists. split; [done|]. rewrite Hwq. congruence.
    - rewrite lookup_insert_ne by done. eauto. }
  destruct Hw. split; simpl; try done.
  - intros q v Hq. destruct (w_queue0 q v Hq) as [? Hin]. split; [done|].
    intros t Ht. destruct (Hin t Ht) as (l' & md & k0 & ? & Hk0 & ?).
    destruct (Hlk _ _ md Hk0) as (k1 & ? & ?). exists l', md, k1.
    split; [done|]. split; [done|]. congruence.
  - intros t Ht. destruct (w_pend_in0 t Ht) as (l' & md & k0 & v & ? & Hk0 & ? & ?).
    destruct (Hlk _ _ md Hk0) as (k1 & ? & E). exists l', md, k1, v.
    rewrite E. done.
  - intros t l' md Ht. destruct (w_sleep0 t l' md Ht) as (k0 & v & Hk0 & ? & ?).
    destruct (Hlk _ _ md Hk0) as (k1 & ? & E). exists k1, v. rewrite E. done.
  - intros t l' md k0 Ht. destruct (decide (l' = l)) as [->|];
      [rewrite lookup_insert_eq|rewrite lookup_insert_ne by done; eauto].
    intros [= <-]. destruct (w_hold0 t l md k Ht Hl); eauto.
  - intros md l' k0 v Hmd Hl' Hn. rewrite lookup_insert_ne in Hl'
      by (intros ->; apply Hn; by right).
    apply w_live0; auto.
Qed.

(** Moving the first thread of a queue to those about to be woken. *)
Lemma waits_wake st wk exc w w' D f q v v' t ts :
  ok w D f -> waits st wk exc w -> queues w.2 !! q = Some v -> elems v = t :: ts ->
  elems v' = ts -> queues w'.2 = <[q := v']> (queues w.2) ->
  locks w'.2 = locks w.2 -> pending wk w' = t :: pending wk w ->
  waits st wk (fun l md => exc l md /\ forall k, locks w.2 !! l = Some k ->
                 lock_wq md k <> q) w'.
Proof.
  intros Hok Hw Hq Hv Hv' Eq El Ep.
  destruct (w_queue _ _ _ _ Hw q v Hq) as [Hnd Hin]. rewrite Hv in Hnd, Hin.
  apply NoDup_cons in Hnd as [Hni Hnd].
  destruct (Hin t) as (l0 & md0 & k0 & Ht & Hl0 & Hq0); [by left|].
  assert (forall q' v1, <[q := v']> (queues w.2) !! q' = Some v1 -> exists v0,
            queues w.2 !! q' = Some v0 /\ NoDup (elems v1) /\
            (forall x, x ∈ elems v1 -> x ∈ elems v0) /\
            (forall x, x ∈ elems v0 -> x <> t -> x ∈ elems v1)) as Hold.
  { intros q' v1. destruct (decide (q' = q)) as [->|].
    - rewrite lookup_insert_eq. intros [= <-]. exists v.
      rewrite Hv, Hv'. split; [done|]. split; [done|]. set_solver.
    - rewrite lookup_insert_ne by done. intros Hq'. exists v1.
      split; [done|]. split; [|done]. by apply (w_queue _ _ _ _ Hw q'). }
  assert (forall q' v0, queues w.2 !! q' = Some v0 ->
            exists v1, <[q := v']> (queues w.2) !! q' = Some v1) as Hnew.
  { intros q' v0 Hq'. destruct (decide (q' = q)) as [->|];
      [rewrite lookup_insert_eq|rewrite lookup_insert_ne]; eauto. }
  destruct Hw. split; rewrite ?Eq, ?El, ?Ep.
  - intros q' v1 Hq'. destruct (Hold q' v1 Hq') as (v0 & Hv0 & ? & Hsub & _).
    split; [done|]. intros x Hx. apply (w_queue0 q' v0); auto.
  - apply NoDup_cons. split; [|done]. intros Hp.
    destruct (w_pend_in0 t Hp) as (l & md & k & v0 & Ht' & Hl & Hv0 & Hn).
    simplify_eq. apply Hn. rewrite Hv. by left.
  - intros x [->|Hx]%elem_of_cons.
    + exists l0, md0, k0, v'. rewrite Hq0, lookup_insert_eq, Hv'. done.
    + destruct (w_pend_in0 x Hx) as (l & md & k & v0 & ? & ? & Hv0 & ?).
      destruct (Hnew _ _ Hv0) as (v1 & Hv1).
      destruct (Hold _ _ Hv1) as (v0' & ? & _ & Hsub & _). simplify_eq.
      exists l, md, k, v1. naive_solver.
  - intros x l md Hx. destruct (w_sleep0 x l md Hx) as (k & v0 & Hk & Hv0 & Hor).
    destruct (Hnew _ _ Hv0) as (v1 & Hv1).
    destruct (Hold _ _ Hv1) as (v0' & ? & _ & _ & Hsup). simplify_eq.
    exists k, v1. split; [done|]. split; [done|]. rewrite elem_of_cons.
    destruct (decide (x = t)) as [->|]; [auto|]. destruct Hor; auto.
  - done.
  - intros md l k v1 Hmd Hl Hn Hc Hv1 Hne.
    destruct (decide (lock_wq md k = q)) as [E|E].
    + exists t. split; [by left|].
      destruct (ok_wq_inj _ _ _ Hok l l0 k k0 md md0) as [-> ->]; congruence.
    + destruct (Hold _ _ Hv1) as (v0 & Hv0 & _ & Hsub & _).
      destruct (w_live0 md l k v0) as (x & Hx & Hst); try done.
      * intros He. apply Hn. split; [done|]. intros k1 Hk1. congruence.
      * intros E'. apply Hne. destruct (elems v1) as [|y ys]; [done|].
        exfalso. specialize (Hsub y ltac:(by left)). rewrite E' in Hsub.
        by apply not_elem_of_nil in Hsub.
      * exists x. split; [by right|done].
Qed.

(** ** Releasing *)

Lemma ok_released w D f t l k ns :
  ok w ((t, l) :: D) f -> locks w.2 !! l = Some k ->
  ok (set_lock l (release_lock t k ns).1 w) D f.
Proof.
  intros Hok Hl.
  destruct (ok_dead _ _ _ Hok) as [[Hni Hnd]%NoDup_cons Hdead].
  destruct (Hdead t l) as (k0 & Hk0 & Hh); [by left|]. simplify_eq.
  destruct (ok_lock _ _ _ Hok l k Hl) as [Hwf Hwq].
  pose proof (release_held t k ns Hwf Hh) as Hrel.
  pose proof (fun md => release_keeps_wq md t k ns) as Hkeep.
  set (k' := (release_lock t k ns).1) in *.
  (* holders that are not in [D], before and after *)
  assert (forall l' u p, (exists k1, ((u, l') ∉ D) /\ <[l := k']> (locks w.2) !! l' = Some k1 /\
              held k1 !! u = Some p) <->
            (exists k1, ((u, l') ∉ (t, l) :: D) /\ locks w.2 !! l' = Some k1 /\
              held k1 !! u = Some p)) as Hheld.
  { intros l' u p. destruct (decide (l' = l)) as [->|].
    - rewrite lookup_insert_eq, Hl. destruct (decide (u = t)) as [->|].
      + split; [|naive_solver set_solver]. intros (k1 & _ & [= <-] & Hp).
        by rewrite Hrel, lookup_delete_eq in Hp.
      + split; intros (k1 & ? & [= <-] & Hp); eexists;
          (split; [|split; [done|]]).
        * rewrite not_elem_of_cons. split; [congruence|done].
        * by rewrite Hrel, lookup_delete_ne in Hp.
        * set_solver.
        * by rewrite Hrel, lookup_delete_ne.
    - rewrite lookup_insert_ne by done. split; intros (k1 & ? & ? & ?);
        exists k1; (split; [|done]).
      + rewrite not_elem_of_cons. split; [congruence|done].
      + set_solver. }
  assert (forall l' k1, <[l := k']> (locks w.2) !! l' = Some k1 -> exists k2,
            locks w.2 !! l' = Some k2 /\ lock_wf k1 /\
            forall md, lock_wq md k1 = lock_wq md k2) as Hlk.
  { intros l' k1. destruct (decide (l' = l)) as [->|].
    - rewrite lookup_insert_eq. intros [= <-]. exists k. split; [done|].
      split; [by apply release_wf|done].
    - rewrite lookup_insert_ne by done. intros Hk1. exists k1. split; [done|].
      split; [|done]. by apply (ok_lock _ _ _ Hok l'). }
  destruct Hok. split; simpl; try done.
  - intros u tp Hu. destruct (ok_thread0 u tp Hu) as (ks & Hin & Hks). exists ks.
    split; [done|]. intros p c. rewrite Hks. split.
    + intros (l' & k1 & -> & H1 & H2 & H3).
      destruct (proj2 (Hheld l' u p)) as (k2 & ? & ? & ?); [eauto|]. eauto 10.
    + intros (l' & k1 & -> & H1 & H2 & H3).
      destruct (proj1 (Hheld l' u p)) as (k2 & ? & ? & ?); [eauto|]. eauto 10.
  - intros l' k1 u p H1 H2 H3. destruct (proj1 (Hheld l' u p)) as (k2 & ? & ? & ?); eauto.
  - split; [done|]. intros u l' Hin. destruct (Hdead u l') as (k1 & H1 & H2); [by right|].
    destruct (decide (l' = l)) as [->|]; [|rewrite lookup_insert_ne by done; eauto].
    rewrite lookup_insert_eq. eexists. split; [done|]. simplify_eq.
    rewrite Hrel, lookup_delete_ne by (intros ->; by apply Hni). done.
  - intros l' k1 Hk1. destruct (Hlk l' k1 Hk1) as (k2 & Hk2 & ? & E).
    split; [done|]. intros md. rewrite E. by apply (ok_lock0 l' k2 Hk2).
  - intros l1 l2 k1 k2 md1 md2 Hk1 Hk2.
    destruct (Hlk l1 k1 Hk1) as (k1' & ? & _ & ->).
    destruct (Hlk l2 k2 Hk2) as (k2' & ? & _ & ->). eauto.
Qed.

Lemma release_runs st wk w D f t l :
  ok w ((t, l) :: D) f -> active wk w -> waits st wk no_exc w ->
  exists w' f' k k',
    run_release (rel_of t l) w = Some w' /\ ok w' D f' /\ active wk w' /\
    waits st wk no_exc w' /\ same_threads w w' /\
    locks w.2 !! l = Some k /\ locks w'.2 = <[l := k']> (locks w.2) /\
    held k' = delete t (held k).
Proof.
  intros Hok Hact Hw.
  destruct (ok_dead _ _ _ Hok) as [_ Hdead].
  destruct (Hdead t l) as (k & Hl & Hh); [by left|].
  destruct (ok_lock _ _ _ Hok l k Hl) as [Hwf Hwq].
  rewrite (release_ok t l w k Hl Hwf Hh).
  set (ns := fun q => wq_nr_sleepers q w).
  pose proof (release_held t k ns Hwf Hh) as Hrel.
  pose proof (release_wakes t k ns) as Hwakes.
  pose proof (fun md Hmd => excl_release md t k ns Hmd Hwf Hh) as Hlive.
  pose proof (fun md => release_keeps_wq md t k ns) as Hkeep.
  pose proof (ok_released _ _ _ _ _ _ ns Hok Hl) as Hok1.
  destruct (release_lock t k ns) as [k' wq]. simpl in *.
  assert (forall u md, st !! u = Some (TSleep l md) -> held k !! u = None ->
            held k' !! u = None) as Hsub.
  { intros u md _ Hu. rewrite Hrel. by apply lookup_delete_None; right. }
  pose proof (waits_set_lock _ _ _ _ _ _ k' Hw Hl Hkeep Hsub) as Hw1.
  assert (forall md v, exclusive md = true -> can_enter md k' (fun _ => O) = true ->
            queues w.2 !! lock_wq md k = Some v -> elems v <> [] ->
            wq = Some (lock_wq md k)) as Hwake.
  { intros md v Hmd Hc Hv Hne. apply Hlive; [done|by rewrite (excl_ns md k' _ (fun _ => O))|].
    unfold ns. rewrite (wq_nr_sleepers_elems _ _ _ Hv). destruct (elems v); [done|simpl; lia]. }
  destruct wq as [q|].
  - destruct (Hwakes q eq_refl) as [Hpos (md0 & Hq0)].
    destruct (Hwq md0) as [v Hv]. rewrite <- Hq0 in Hv.
    unfold ns in Hpos. rewrite (wq_nr_sleepers_elems _ _ _ Hv) in Hpos.
    destruct (elems v) as [|u us] eqn:Hel; [simpl in Hpos; lia|].
    destruct (wake_one_ok wk (set_lock l k' w) D f q v u us Hok1 Hact Hv Hel)
      as (w' & f' & v' & Hwk & Hok' & Eq & Hv' & Ep & Hact' & Hs & El).
    exists w', f', k, k'. split; [done|]. split; [done|]. split; [done|].
    split; [|done].
    pose proof (waits_wake _ _ _ _ w' _ _ _ _ _ _ _ Hok1 Hw1 Hv Hel Hv' Eq El Ep) as Hw2.
    apply (waits_exc _ _ _ _ _ Hw2).
    + intros md l' k1 v1 Hmd Hk1 [[[]| ->] Hne] _ Hc Hv1 Hvne. exfalso.
      rewrite El in Hk1. simpl in *. rewrite lookup_insert_eq in *. simplify_eq.
      specialize (Hne k1 eq_refl). rewrite Hkeep in *.
      rewrite Eq, lookup_insert_ne in Hv1 by done.
      specialize (Hwake md v1 Hmd Hc Hv1 Hvne). congruence.
    + intros l' md. simpl. destruct (decide (l' = l)) as [->|]; [|naive_solver].
      rewrite lookup_insert_eq. destruct (decide (lock_wq md k' = q)); naive_solver.
  - exists (set_lock l k' w), f, k, k'. do 3 (split; [done|]). split; [|done].
    apply (waits_exc _ _ _ _ _ Hw1).
    + intros md l' k1 v1 Hmd Hk1 [[]| ->] _ Hc Hv1 Hvne. simpl in *.
      rewrite lookup_insert_eq in Hk1. simplify_eq. rewrite Hkeep in Hv1.
      by specialize (Hwake md v1 Hmd Hc Hv1 Hvne).
    + intros l' md. simpl. unfold no_exc. destruct (decide (l' = l)); naive_solver.
Qed.

(** Releases run in any order. *)
Lemma releases_run st wk w D f :
  ok w D f -> active wk w -> waits st wk no_exc w ->
  exists w' f',
    run_all (run_cleanup run_release)
      ((fun x => COther (rel_of x.1 x.2)) <$> D) w = Some w' /\
    ok w' [] f' /\ active wk w' /\ waits st wk no_exc w' /\ same_threads w w'.
Proof.
  revert w f. induction D as [|[t l] D IH]; intros w f Hok Hact Hw; simpl.
  - exists w, f. done.
  - destruct (release_runs st wk w D f t l Hok Hact Hw)
      as (w1 & f1 & k & k' & -> & Hok1 & Hact1 & Hw1 & (E1 & E2 & E3) & _). simpl.
    destruct (IH w1 f1 Hok1 Hact1 Hw1) as (w' & f' & ? & ? & ? & ? & E1' & E2' & E3').
    exists w', f'. do 4 (split; [done|]). split; [congruence|]. split; congruence.
Qed.

Lemma leave_runs st wk w f l k p :
  ok w [] f -> active wk w -> waits st wk no_exc w ->
  locks w.2 !! l = Some k -> held k !! current_pth w.2 = Some p ->
  exists w' f' k',
    leave l w = Some w' /\ ok w' [] f' /\ active wk w' /\ waits st wk no_exc w' /\
    same_threads w w' /\ locks w'.2 = <[l := k']> (locks w.2) /\
    held k' = delete (current_pth w.2) (held k).
Proof.
  intros Hok Hact Hw Hl Hp. set (t := current_pth w.2) in *.
  rewrite (leave_ok l w k Hl) by apply (ok_lock _ _ _ Hok l k Hl). fold t. rewrite Hp.
  destruct (ok_holder _ _ _ Hok l k t p Hl Hp) as [tp Htp]; [apply not_elem_of_nil|].
  destruct (ok_thread _ _ _ Hok t tp Htp) as (ks & Hin & Hks).
  destruct (tree_front _ _ Hin) as [f1 Hf1].
  assert ((p, COther (rel_of t l)) ∈ ks) as Hkid.
  { apply Hks. exists l, k. split; [done|]. split; [apply not_elem_of_nil|done]. }
  pose proof Hkid as [ks' Hks']%elem_of_Permutation.
  unfold delete_pool_w. destruct (delete_pool p (rpools w.1)) as [cs ps] eqn:Hd.
  pose proof (forest_kids_perm _ _ _ _ _ Hks'
    (forest_perm _ _ _ Hf1 (ok_forest _ _ _ Hok))) as Hfor.
  destruct (forest_delete_kid _ _ _ _ _ _ _ _ Hfor Hd) as [-> Hfor']. simpl.
  (* the other children have another pool *)
  assert (forall p' c, (p', c) ∈ ks' <-> (p', c) ∈ ks /\ p' <> p) as Hks2.
  { intros p' c. rewrite Hks', elem_of_cons. pose proof (forest_distinct _ _ Hfor) as Hnd.
    unfold forest_pools in Hnd. simpl in Hnd.
    apply NoDup_cons in Hnd as [_ Hnd]. apply NoDup_cons in Hnd as [Hnd _].
    split; [|naive_solver]. intros Hin'. split; [by right|]. intros ->.
    apply Hnd, elem_of_app. left. by apply (list_elem_of_fmap_2 fst) in Hin'. }
  set (w1 := (with_pools ps w.1, w.2) : W).
  assert (ok w1 [(t, l)] ((tp, ks') :: f1)) as Hok1.
  { apply (ok_perm _ _ _ _ Hf1) in Hok. destruct Hok. split; simpl; try done.
    - intros u up Hu. destruct (decide (u = t)) as [->|Hne].
      + simplify_eq. exists ks'. split; [by left|]. intros p' c. rewrite Hks2, Hks.
        split.
        * intros [(l' & k1 & -> & _ & H1 & H2) Hne]. exists l', k1.
          rewrite list_elem_of_singleton. naive_solver.
        * intros (l' & k1 & -> & H1 & H2 & H3). rewrite list_elem_of_singleton in H1.
          split; [exists l', k1; split; [done|]; split; [apply not_elem_of_nil|done]|].
          intros ->. apply H1.
          assert ((p, COther (rel_of t l')) ∈ ks) as Hkid'.
          { apply Hks. exists l', k1. split; [done|]. split; [apply not_elem_of_nil|done]. }
          rewrite Hks', elem_of_cons in Hkid'. destruct Hkid' as [E|Hkid'].
          { injection E as E. apply rel_inj in E. by subst. }
          by apply Hks2 in Hkid' as [_ ?].
      + destruct (ok_thread0 u up Hu) as (ku & Hku & Hks0). exists ku. split.
        * apply elem_of_cons in Hku as [[= -> ->]|Hku]; [|by right].
          exfalso. apply Hne. by eapply ok_pool_inj0.
        * intros p' c. rewrite Hks0. setoid_rewrite list_elem_of_singleton.
          setoid_rewrite elem_of_nil. naive_solver.
    - intros l' k1 u p' H1 H2 _. apply (ok_holder0 l' k1 u p'); try done. apply not_elem_of_nil.
    - split; [apply NoDup_singleton|]. intros u l' [= -> ->]%list_elem_of_singleton.
      exists k. eauto.
    - intros pp Hpp. destruct (ok_prepoll0 pp Hpp) as (i & H1 & H2 & H3).
      exists i. split; [done|]. split; [done|].
      apply elem_of_cons in H3 as [E|H3]; [|by right]. exfalso.
      injection E as E1 E2. rewrite <- E2 in Hkid.
      apply list_elem_of_singleton in Hkid. done. }
  destruct (release_runs st wk w1 [] _ t l Hok1 Hact) as
    (w' & f' & k0 & k' & Hr & ? & ? & ? & ? & Hk0 & ? & ?).
  { destruct Hw. by split. }
  exists w', f', k'. rewrite Hr. simpl in Hk0. simplify_eq. done.
Qed.

(** The locks whose releases are in the list of clean-up functions [ks]. *)
Lemma kids_locks (w : W) t (ks : list (pool * cleanup X)) cs :
  (forall p c, (p, c) ∈ ks -> exists l k, c = COther (rel_of t l) /\
     locks w.2 !! l = Some k /\ held k !! t = Some p) ->
  NoDup ks.*1 -> cs ≡ₚ ks.*2 ->
  exists D : list (pth * loc), cs = (fun x => COther (rel_of x.1 x.2)) <$> D /\ NoDup D /\
    (forall u l, (u, l) ∈ D -> u = t /\ exists k, locks w.2 !! l = Some k /\
       is_Some (held k !! t)) /\
    (forall p l, (p, COther (rel_of t l)) ∈ ks -> (t, l) ∈ D).
Proof.
  intros Hks Hnd Hp.
  assert (exists D : list (pth * loc), ks.*2 = (fun x => COther (rel_of x.1 x.2)) <$> D /\ NoDup D /\
    (forall u l, (u, l) ∈ D -> u = t /\ exists k p, locks w.2 !! l = Some k /\
       held k !! t = Some p /\ p ∈ ks.*1) /\
    (forall p l, (p, COther (rel_of t l)) ∈ ks -> (t, l) ∈ D))
    as (D & HD & HndD & Hin & Hall).
  { clear Hp. induction ks as [|[p c] ks IH]; simpl in *.
    { exists []. split; [done|]. split; [constructor|].
      split; intros ? ? H; by apply not_elem_of_nil in H. }
    apply NoDup_cons in Hnd as [Hni Hnd].
    destruct IH as (D & HD & HndD & Hin & Hall); [|done|].
    { intros p' c' H. apply Hks. by right. }
    destruct (Hks p c) as (l & k & -> & Hl & Hh); [by left|].
    exists ((t, l) :: D). simpl. split; [f_equal; exact HD|]. split; [|split].
    - apply NoDup_cons. split; [|done]. intros (_ & k' & p' & ? & ? & Hp')%Hin.
      simplify_eq. done.
    - intros u l' [[= -> ->]|H]%elem_of_cons.
      + split; [done|]. exists k, p. split; [done|]. split; [done|by left].
      + destruct (Hin u l' H) as (-> & k' & p' & ? & ? & ?). split; [done|].
        exists k', p'. split; [done|]. split; [done|by right].
    - intros p' l' [E|H]%elem_of_cons; [|right; by eapply Hall].
      injection E as -> E. apply rel_inj in E as ->. by left. }
  rewrite HD in Hp.
  apply Permutation_map_inv in Hp as (D' & -> & HD').
  exists D'. split; [done|]. split; [by rewrite <- HD'|].
  setoid_rewrite <- HD'. naive_solver.
Qed.

Lemma ok_delete_thread w f t tp cs ps :
  ok w [] f -> pth_pool w.2 !! t = Some tp -> delete_pool tp (rpools w.1) = (cs, ps) ->
  exists (D : list (pth * loc)) f', cs = (fun x => COther (rel_of x.1 x.2)) <$> D /\
    ok (with_pth_pool (delete t) (with_pools ps w.1, w.2)) D f'.
Proof.
  intros Hok Ht Hd. destruct (ok_thread _ _ _ Hok t tp Ht) as (ks & Hin & Hks).
  destruct (tree_front _ _ Hin) as [f1 Hf1].
  apply (ok_perm _ _ _ _ Hf1) in Hok. pose proof (ok_forest _ _ _ Hok) as Hfor.
  destruct (forest_delete_root _ _ _ _ _ _ Hfor Hd) as [Hcs Hfor'].
  assert (NoDup ks.*1) as Hnd.
  { pose proof (forest_distinct _ _ Hfor) as H. unfold forest_pools in H. simpl in H.
    apply NoDup_cons in H as [_ H]. by apply NoDup_app in H as [H _]. }
  destruct (kids_locks w t ks cs) as (D & HD & HndD & HinD & HallD); [|done|done|].
  { intros p c (l & k & ? & _ & ? & ?)%Hks. eauto. }
  exists D, f1. split; [done|].
  assert (forall u l k p, locks w.2 !! l = Some k -> held k !! u = Some p ->
            (u, l) ∉ D <-> u <> t) as HDt.
  { intros u l k p Hl Hh. split.
    - intros Hni ->. apply Hni, (HallD p), Hks. exists l, k.
      split; [done|]. split; [apply not_elem_of_nil|done].
    - intros Hne Hi. by apply HinD in Hi as [? _]. }
  destruct Hok. split; simpl; try done.
  - intros u up. destruct (decide (u = t)) as [->|Hne]; [by rewrite lookup_delete_eq|].
    rewrite lookup_delete_ne by done. intros Hu.
    destruct (ok_thread0 u up Hu) as (ku & Hku & Hks0). exists ku. split.
    + apply elem_of_cons in Hku as [[= -> ->]|Hku]; [|done].
      exfalso. apply Hne. by eapply ok_pool_inj0.
    + intros p c. rewrite Hks0. split; intros (l & k & ? & _ & Hl & Hh);
        exists l, k; (split; [done|]); (split; [|done]);
        [by apply (HDt u l k p)|apply not_elem_of_nil].
  - intros u u' up. rewrite !lookup_delete_Some. naive_solver.
  - intros l k u p Hl Hh Hni. apply (HDt u l k p) in Hni; [|done..].
    rewrite lookup_delete_ne by done. apply (ok_holder0 l k u p); try done.
    apply not_elem_of_nil.
  - split; [done|]. intros u l Hi. by apply HinD in Hi as (-> & ?).
  - intros pp Hpp. destruct (ok_prepoll0 pp Hpp) as (i & H1 & H2 & H3).
    exists i. split; [done|]. split; [done|].
    apply elem_of_cons in H3 as [E|H3]; [|done]. exfalso. injection E as E1 E2.
    assert ((pp_pool pp, CRemovePrepoll (pp_id pp)) ∈ ks) as Hk
      by (rewrite <- E2; by left).
    by apply Hks in Hk as (? & ? & ? & _).
Qed.

(** A thread's exit releases all its locks. *)
Lemma thread_exit_runs st wk w f tp :
  ok w [] f -> active wk w -> waits st wk no_exc w ->
  pth_pool w.2 !! current_pth w.2 = Some tp ->
  (forall l md, st !! current_pth w.2 <> Some (TSleep l md)) ->
  exists w' f',
    thread_exit w = Some w' /\ ok w' [] f' /\ active wk w' /\
    waits (delete (current_pth w.2) st) wk no_exc w' /\
    current_pth w'.2 = current_pth w.2 /\ alarm_received w'.2 = alarm_received w.2 /\
    pth_pool w'.2 = delete (current_pth w.2) (pth_pool w.2).
Proof.
  intros Hok Hact Hw Htp Hst. set (t := current_pth w.2) in *.
  unfold thread_exit. fold t. rewrite Htp. simpl. unfold delete_pool_w. simpl.
  destruct (delete_pool tp (rpools w.1)) as [cs ps] eqn:Hd.
  destruct (ok_delete_thread w f t tp cs ps Hok Htp Hd) as (D & f' & -> & Hok').
  destruct (releases_run st wk _ D f' Hok' Hact) as
    (w' & f2 & Hr & ? & ? & Hw' & E1 & E2 & E3).
  { destruct Hw. by split. }
  exists w', f2. split; [exact Hr|]. split; [done|]. split; [done|]. split; [|done].
  assert (forall u, (exists l md, st !! u = Some (TSleep l md)) ->
            delete t st !! u = st !! u) as Hdel.
  { intros u (l & md & Hu). apply lookup_delete_ne. intros ->. by eapply Hst. }
  destruct Hw'. split; try done.
  - intros q v Hq. destruct (w_queue0 q v Hq) as [? Hin]. split; [done|].
    intros u Hu. destruct (Hin u Hu) as (l & md & k & ? & ?). exists l, md, k.
    rewrite Hdel by eauto. done.
  - intros u Hu. destruct (w_pend_in0 u Hu) as (l & md & k & v & ? & ?).
    exists l, md, k, v. rewrite Hdel by eauto. done.
  - intros u l md Hu. apply lookup_delete_Some in Hu as [_ Hu]. eauto.
  - intros u l md k Hu. apply lookup_delete_Some in Hu as [_ Hu]. eauto.
  - intros md l k v ? ? ? ? ? ?. destruct (w_live0 md l k v) as (u & ? & ?); try done.
    exists u. rewrite Hdel by eauto. done.
Qed.

(** ** Entering *)

(** Who holds what after [t] has entered the lock [l] with the pool [p]. *)
Lemma entered_held (ls : gmap loc L) l k k' t p u l' p' :
  ls !! l = Some k -> held k !! t = None -> held k' = <[t := p]> (held k) ->
  (exists k1, <[l := k']> ls !! l' = Some k1 /\ held k1 !! u = Some p') <->
  (u = t /\ l' = l /\ p' = p) \/ (exists k1, ls !! l' = Some k1 /\ held k1 !! u = Some p').
Proof using Type.
  clear pmalloc_new. intros Hl Hh Hent. destruct (decide (l' = l)) as [->|];
    [rewrite lookup_insert_eq, Hl|rewrite lookup_insert_ne by done; naive_solver].
  destruct (decide (u = t)) as [->|].
  - split; [intros (? & [= <-] & Hp)|intros [(_ & _ & ->)|(? & [= <-] & ?)]].
    + rewrite Hent, lookup_insert_eq in Hp. naive_solver.
    + eexists. split; [done|]. by rewrite Hent, lookup_insert_eq.
    + congruence.
  - split; [intros (? & [= <-] & Hp)|intros [(-> & _ & _)|(? & [= <-] & Hp)]; [done|]].
    + rewrite Hent, lookup_insert_ne in Hp by done. naive_solver.
    + eexists. split; [done|]. by rewrite Hent, lookup_insert_ne.
Qed.

Lemma ok_entered w f l k md tp p ps :
  let t := current_pth w.2 in
  ok w [] f -> pth_pool w.2 !! t = Some tp -> locks w.2 !! l = Some k ->
  held k !! t = None -> can_enter md k (fun q => wq_nr_sleepers q w) = true ->
  new_subpool tp (rpools w.1) = (p, ps) ->
  exists f', ok (set_lock l (enter_lock md t p k)
    (with_pools (pool_register_cleanup_fn p (COther (rel_of t l)) ps) w.1, w.2)) [] f'.
Proof.
  intros t Hok Ht Hl Hh Hc Hn.
  destruct (ok_lock _ _ _ Hok l k Hl) as [Hwf Hwq].
  pose proof (enter_held md t p k _ Hwf Hc) as Hent.
  pose proof (enter_wf md t p k _ Hwf Hh Hc) as Hwf'.
  pose proof (fun md' => enter_wq md md' t p k) as Hkeep.
  set (k' := enter_lock md t p k) in *.
  destruct (ok_thread _ _ _ Hok t tp Ht) as (ks & Hin & Hks).
  destruct (tree_front _ _ Hin) as [f1 Hf1].
  apply (ok_perm _ _ _ _ Hf1) in Hok. pose proof (ok_forest _ _ _ Hok) as Hfor.
  destruct (forest_new_kid _ _ _ _ _ _ (COther (rel_of t l)) Hfor Hn) as [Hfor' _].
  exists ((tp, (p, COther (rel_of t l)) :: ks) :: f1).
  assert (forall l' k1, <[l := k']> (locks w.2) !! l' = Some k1 -> exists k2,
            locks w.2 !! l' = Some k2 /\ lock_wf k1 /\
            forall md, lock_wq md k1 = lock_wq md k2) as Hlk.
  { intros l' k1. destruct (decide (l' = l)) as [->|].
    - rewrite lookup_insert_eq. intros [= <-]. eauto.
    - rewrite lookup_insert_ne by done. intros Hk1. exists k1. split; [done|].
      split; [|done]. by apply (ok_lock _ _ _ Hok l'). }
  assert (forall u l' p', (exists k1, <[l := k']> (locks w.2) !! l' = Some k1 /\
              held k1 !! u = Some p') <->
            (u = t /\ l' = l /\ p' = p) \/
            exists k1, locks w.2 !! l' = Some k1 /\ held k1 !! u = Some p') as Hheld
    by (intros u l' p'; by apply (entered_held _ _ k)).
  destruct Hok. split; simpl; try done.
  - intros u up Hu. destruct (decide (u = t)) as [->|Hne].
    + simplify_eq. eexists. split; [by left|]. intros p' c.
      rewrite elem_of_cons, Hks. split.
      * intros [[= -> ->]|(l' & k1 & -> & ? & ? & ?)].
        -- destruct (proj2 (Hheld t l p)) as (k1 & ? & ?); [auto|].
           exists l, k1. split; [done|]. split; [apply not_elem_of_nil|done].
        -- destruct (proj2 (Hheld t l' p')) as (k2 & ? & ?); [eauto|]. eauto 10.
      * intros (l' & k1 & -> & ? & ? & ?).
        destruct (proj1 (Hheld t l' p')) as [(_ & -> & ->)|(k2 & ? & ?)]; eauto 10.
    + destruct (ok_thread0 u up Hu) as (ku & Hku & Hks0). exists ku. split.
      * apply elem_of_cons in Hku as [[= -> ->]|Hku]; [|by right].
        exfalso. apply Hne. by eapply ok_pool_inj0.
      * intros p' c. rewrite Hks0. split; intros (l' & k1 & -> & ? & ? & ?).
        -- destruct (proj2 (Hheld u l' p')) as (k2 & ? & ?); [eauto|]. eauto 10.
        -- destruct (proj1 (Hheld u l' p')) as [(-> & _)|(k2 & ? & ?)]; eauto 10. done.
  - intros l' k1 u p' H1 H2 H3.
    destruct (proj1 (Hheld u l' p')) as [(-> & _)|(k2 & ? & ?)]; eauto.
  - split; [constructor|]. by intros ? ? ?%not_elem_of_nil.
  - intros l' k1 Hk1. destruct (Hlk l' k1 Hk1) as (k2 & Hk2 & ? & E).
    split; [done|]. intros md'. rewrite E. by apply (ok_lock0 l' k2 Hk2).
  - intros l1 l2 k1 k2 md1 md2 Hk1 Hk2.
    destruct (Hlk l1 k1 Hk1) as (k1' & ? & _ & ->).
    destruct (Hlk l2 k2 Hk2) as (k2' & ? & _ & ->). eauto.
  - intros pp Hpp. destruct (ok_prepoll0 pp Hpp) as (i & H1 & H2 & H3).
    exists i. split; [done|]. split; [done|].
    apply elem_of_cons in H3 as [E|H3]; [|by right]. exfalso. injection E as E1 E2.
    assert ((pp_pool pp, CRemovePrepoll (pp_id pp)) ∈ ks) as Hk
      by (rewrite <- E2; by left).
    by apply Hks in Hk as (? & ? & ? & _).
Qed.

(** One attempt: the exceptions at [l] are gone when it succeeds, nothing
    changes when it does not. *)
Lemma try_enter_runs st wk exc w f l k md tp :
  ok w [] f -> active wk w -> waits st wk exc w ->
  pth_pool w.2 !! current_pth w.2 = Some tp -> locks w.2 !! l = Some k ->
  held k !! current_pth w.2 = None \/ exclusive md = true ->
  (forall l md, st !! current_pth w.2 <> Some (TSleep l md)) ->
  (forall l md, exc l md \/ ~ exc l md) ->
  if can_enter md k (fun q => wq_nr_sleepers q w) then
    exists w' f', try_enter md l w = Some (true, w') /\ ok w' [] f' /\ active wk w' /\
      waits st wk (fun l' md' => exc l' md' /\ l' <> l) w' /\ same_threads w w'
  else try_enter md l w = Some (false, w).
Proof.
  intros Hok Hact Hw Ht Hl Hg Hns Hdec.
  pose proof (try_enter_ok md l w k tp Hl Ht) as Htry.
  destruct (can_enter _ _ _) eqn:Hc; [|done].
  destruct (new_subpool tp (rpools w.1)) as [p ps] eqn:Hn.
  destruct (ok_lock _ _ _ Hok l k Hl) as [Hwf _].
  assert (held k !! current_pth w.2 = None) as Hh.
  { destruct Hg as [|Hex]; [done|]. apply eq_None_not_Some. intros Hsome.
    pose proof (excl_held md k (fun q => wq_nr_sleepers q w) _ Hex Hwf Hsome). congruence. }
  pose proof (enter_held md (current_pth w.2) p k _ Hwf Hc) as Hent.
  destruct (ok_entered w f l k md tp p ps Hok Ht Hl Hh Hc Hn) as [f' Hok'].
  eexists _, f'. split; [exact Htry|]. split; [done|]. split; [done|]. split; [|done].
  set (w1 := (with_pools (pool_register_cleanup_fn p
    (COther (rel_of (current_pth w.2) l)) ps) w.1, w.2) : W).
  assert (waits st wk exc w1) as Hw1 by (destruct Hw; by split).
  eapply waits_exc; [eapply (waits_set_lock _ _ _ w1 l k); [done|done| |]| |].
  - intros md'. apply enter_wq.
  - intros u md' Hu Hhu. rewrite Hent, lookup_insert_ne; [done|]. intros <-.
    by apply Hns in Hu.
  - intros md' l' k1 v Hmd Hk1 Hor Hn1 Hc1. simpl in Hk1.
    destruct (decide (l' = l)) as [->|]; [|naive_solver].
    rewrite lookup_insert_eq in Hk1. simplify_eq.
    rewrite (excl_held md' _ _ (current_pth w.2) Hmd) in Hc1; [done|by eapply enter_wf|].
    by rewrite Hent, lookup_insert_eq.
  - intros l' md'. simpl. destruct (Hdec l' md'); destruct (decide (l' = l)); naive_solver.
Qed.

(** A thread that is not asleep goes to sleep for a lock it cannot enter. *)
Lemma ok_sleep w f q v :
  ok w [] f -> ok (set_queue q v w) [] f.
Proof using Type.
  intros Hok. destruct Hok. split; simpl; try done. intros l' k' Hk'.
  destruct (ok_lock0 l' k' Hk') as [? Hq]. split; [done|]. intros md'.
  destruct (decide (lock_wq md' k' = q)) as [->|];
    [rewrite lookup_insert_eq|rewrite lookup_insert_ne]; eauto.
Qed.

(** The current thread [t] joins the queue of the lock [l]. *)
Lemma waits_sleep st wk exc w f l k md ns v :
  let t := current_pth w.2 in
  ok w [] f -> waits st wk exc w -> locks w.2 !! l = Some k ->
  queues w.2 !! lock_wq md k = Some v -> can_enter md k ns = false ->
  held k !! t = None \/ exclusive md = true ->
  (forall u, (exists l md, st !! u = Some (TSleep l md)) -> u <> t) ->
  (t ∉ elems v) -> (t ∉ pending wk w) ->
  waits (<[t := TSleep l md]> st) wk (fun l' md' => exc l' md' /\ ~ (l' = l /\ md' = md))
    (set_queue (lock_wq md k) (vector_push_back v t) w).
Proof.
  intros t Hok Hw Hl Hv Hc Hg Hne Hnv Hnp. destruct Hw. split; simpl; try done.
  - intros q v1. destruct (decide (q = lock_wq md k)) as [->|].
    + rewrite lookup_insert_eq. intros [= <-]. destruct (w_queue0 _ _ Hv) as [Hnd Hin].
      autorewrite with vec. split.
      { apply NoDup_app. split; [done|]. split; [|apply NoDup_singleton].
        intros x Hx ->%list_elem_of_singleton. by apply Hnv. }
      intros u [Hu|Hu%list_elem_of_singleton]%elem_of_app.
      * destruct (Hin u Hu) as (l' & md' & k' & ? & ?). exists l', md', k'.
        rewrite lookup_insert_ne by (apply not_eq_sym; eauto). done.
      * subst u. exists l, md, k. by rewrite lookup_insert_eq.
    + rewrite lookup_insert_ne by done. intros Hq.
      destruct (w_queue0 _ _ Hq) as [Hnd Hin]. split; [done|]. intros u Hu.
      destruct (Hin u Hu) as (l' & md' & k' & ? & ?). exists l', md', k'.
      rewrite lookup_insert_ne by (apply not_eq_sym; eauto). done.
  - intros u Hu. destruct (w_pend_in0 u Hu) as (l' & md' & k' & v' & Hu' & ? & Hq & Hn).
    rewrite lookup_insert_ne by (apply not_eq_sym; eauto). exists l', md', k'.
    destruct (decide (lock_wq md' k' = lock_wq md k)) as [E|];
      [|exists v'; by rewrite lookup_insert_ne].
    eexists. rewrite E, lookup_insert_eq. do 3 (split; [done|]). autorewrite with vec.
    rewrite E, Hv in Hq. injection Hq as <-.
    rewrite elem_of_app, list_elem_of_singleton. intros [?| ->]; [done|]. by apply Hnp.
  - intros u l' md'. destruct (decide (u = t)) as [->|Hut].
    + rewrite lookup_insert_eq. intros [= <- <-]. exists k. eexists.
      rewrite lookup_insert_eq. split; [done|]. split; [done|]. left.
      autorewrite with vec. apply elem_of_app. right. by left.
    + rewrite lookup_insert_ne by done. intros Hu.
      destruct (w_sleep0 u l' md' Hu) as (k' & v' & ? & Hq & Hor). exists k'.
      destruct (decide (lock_wq md' k' = lock_wq md k)) as [E|];
        [|exists v'; by rewrite lookup_insert_ne].
      rewrite E, lookup_insert_eq in *. eexists. split; [done|]. split; [done|].
      simplify_eq. autorewrite with vec. rewrite elem_of_app. naive_solver.
  - intros u l' md' k'. destruct (decide (u = t)) as [->|];
      [rewrite lookup_insert_eq|rewrite lookup_insert_ne by done; eauto].
    intros [= <- <-]. naive_solver.
  - intros md' l' k' v' Hmd Hk' Hn Hc' Hq Hvne.
    assert ((l', md') <> (l, md)) as Hlm.
    { intros [= -> ->]. assert (k' = k) as -> by congruence.
      rewrite (excl_ns md k _ ns Hmd) in Hc'. congruence. }
    destruct (decide (lock_wq md' k' = lock_wq md k)) as [E|Eq].
    { destruct (ok_wq_inj _ _ _ Hok l' l k' k md' md) as [-> ->]; done. }
    rewrite lookup_insert_ne in Hq by done.
    destruct (w_live0 md' l' k' v') as (u & ? & Hu); try done.
    { intros He. apply Hn. split; [done|]. intros [-> ->]. by apply Hlm. }
    exists u. split; [done|]. rewrite lookup_insert_ne by (apply not_eq_sym; eauto). done.
Qed.

Lemma sleep_runs st wk exc w f l k md ns :
  let t := current_pth w.2 in
  ok w [] f -> active wk w -> waits st wk exc w -> locks w.2 !! l = Some k ->
  can_enter md k ns = false -> held k !! t = None \/ exclusive md = true ->
  (forall l md, st !! t <> Some (TSleep l md)) ->
  exists w', wq_sleep_on (lock_wq md k) w = Some w' /\ ok w' [] f /\ active wk w' /\
    waits (<[t := TSleep l md]> st) wk
      (fun l' md' => exc l' md' /\ ~ (l' = l /\ md' = md)) w' /\ same_threads w w'.
Proof.
  intros t Hok Hact Hw Hl Hc Hg Hst.
  destruct (ok_lock _ _ _ Hok l k Hl) as [_ Hwq]. destruct (Hwq md) as [v Hv].
  unfold wq_sleep_on. rewrite Hv. simpl. eexists. split; [done|].
  split; [by apply ok_sleep|]. split; [done|]. split; [|done].
  eapply waits_sleep; try done.
  - intros u (l' & md' & Hu) ->. by eapply Hst.
  - intros Hin. apply (w_queue _ _ _ _ Hw _ _ Hv) in Hin as (? & ? & ? & ? & _). by eapply Hst.
  - intros Hin. apply (w_pend_in _ _ _ _ Hw) in Hin as (? & ? & ? & ? & ? & _). by eapply Hst.
Qed.

Lemma enter_round_runs st wk exc w f l k md tp :
  let t := current_pth w.2 in
  ok w [] f -> active wk w -> waits st wk exc w ->
  pth_pool w.2 !! t = Some tp -> locks w.2 !! l = Some k ->
  held k !! t = None \/ exclusive md = true ->
  (forall l md, exc l md \/ ~ exc l md) ->
  (forall l' md', exc l' md' -> l' = l /\ md' = md) ->
  (forall l md, st !! t <> Some (TSleep l md)) ->
  exists b w' f', enter_round l md w = Some (b, w') /\ ok w' [] f' /\ active wk w' /\
    waits (if b : bool then st else <[t := TSleep l md]> st) wk no_exc w' /\
    same_threads w w'.
Proof.
  intros t Hok Hact Hw Ht Hl Hh Hdec Hexc Hst. unfold enter_round.
  pose proof (try_enter_runs st wk exc w f l k md tp Hok Hact Hw Ht Hl Hh Hst Hdec)
    as Htry.
  destruct (can_enter _ _ _) eqn:Hc.
  - destruct Htry as (w' & f' & -> & Hok' & Hact' & Hw' & Hs). simpl.
    exists true, w', f'. do 3 (split; [done|]). split; [|done].
    apply (waits_exc _ _ _ _ _ Hw').
    + intros md' l' ? ? ? ? [He Hne]. by apply Hexc in He as [-> _].
    + intros l' md'. destruct (Hdec l' md'), (decide (l' = l)); naive_solver.
  - rewrite Htry. simpl. rewrite Hl. simpl.
    destruct (sleep_runs st wk exc w f l k md _ Hok Hact Hw Hl Hc Hh Hst) as
      (w' & -> & Hok' & Hact' & Hw' & Hs). simpl.
    exists false, w', f. do 3 (split; [done|]). split; [|done].
    apply (waits_exc _ _ _ _ _ Hw').
    + intros md' l' ? ? ? ? [He Hne]. apply Hexc in He as [-> ->]; by destruct Hne.
    + intros l' md'. destruct (Hdec l' md') as [He|]; [|naive_solver].
      apply Hexc in He as [-> ->]. naive_solver.
Qed.

(** ** The activation of [do_wake_up] *)

(** The prepoll handler of the wake-up at [a], among the others. *)
Lemma handler_split w D f a :
  ok w D f -> is_Some (infos w.2 !! a) ->
  exists l1 p l2, head_prepoll w.1 = l1 ++ p :: l2 /\ pp_data p = a /\
    forall p', p' ∈ l1 ++ l2 -> pp_data p' <> a /\ pp_id p' <> pp_id p.
Proof.
  intros Hok (p & -> & Hp)%(ok_infos _ _ _ Hok)%list_elem_of_fmap.
  apply list_elem_of_split in Hp as (l1 & l2 & Hl). exists l1, p, l2.
  split; [done|]. split; [done|].
  pose proof (ok_ids _ _ _ Hok) as Hi. pose proof (ok_datas _ _ _ Hok) as Hd.
  rewrite Hl in Hi, Hd. rewrite fmap_app in Hi, Hd. simpl in Hi, Hd.
  rewrite <- Permutation_middle in Hi, Hd.
  apply NoDup_cons in Hi as [Hi _]. apply NoDup_cons in Hd as [Hd _].
  rewrite <- fmap_app in Hi, Hd. intros p' Hp'. split; intros E.
  - apply Hd. rewrite <- E. by apply list_elem_of_fmap_2.
  - apply Hi. rewrite <- E. by apply list_elem_of_fmap_2.
Qed.

Lemma remaining_other a n wk w a' :
  a' <> a -> (wk = None \/ exists m, wk = Some (a, m)) ->
  remaining (Some (a, n)) w a' = remaining wk w a'.
Proof.
  intros Hne Hwk. unfold remaining. destruct (infos w.2 !! a'); [|done].
  rewrite decide_False by done.
  destruct Hwk as [->|[m ->]]; [done|]. by rewrite decide_False.
Qed.

Lemma pending_split wk w l1 p l2 :
  head_prepoll w.1 = l1 ++ p :: l2 ->
  pending wk w ≡ₚ remaining wk w (pp_data p) ++
    concat ((fun p => remaining wk w (pp_data p)) <$> (l1 ++ l2)).
Proof.
  intros Hl. unfold pending. rewrite Hl.
  by rewrite <- (Permutation_middle l1 l2 p).
Qed.

Lemma pending_take w D f a i info t :
  ok w D f -> infos w.2 !! a = Some info -> elems (info_sleepers info) !! i = Some t ->
  pending (Some (a, i)) w ≡ₚ t :: pending (Some (a, S i)) w.
Proof.
  intros Hok Hi Ht. destruct (handler_split w D f a) as (l1 & p & l2 & Hl & <- & Hne); eauto.
  rewrite !(pending_split _ w _ _ _ Hl). unfold remaining at 1 3. rewrite Hi.
  rewrite !decide_True by done. rewrite (drop_S _ _ _ Ht). simpl.
  apply reflexive_eq. do 3 f_equal. apply list_fmap_ext. intros j p' Hp'.
  apply list_elem_of_lookup_2 in Hp'. apply remaining_other; [by apply Hne|eauto].
Qed.

(** The thread that is resumed runs. *)
Lemma take_waits st w D f a i info t l md :
  ok w D f -> waits st (Some (a, i)) no_exc w ->
  infos w.2 !! a = Some info -> elems (info_sleepers info) !! i = Some t ->
  st !! t = Some (TSleep l md) ->
  waits (<[t := TRun]> st) (Some (a, S i)) (fun l' md' => l' = l /\ md' = md) w /\
  t ∈ pending (Some (a, i)) w.
Proof.
  intros Hok Hw Hi Ht Hst. pose proof (pending_take _ _ _ _ _ _ _ Hok Hi Ht) as Hp.
  assert (t ∈ pending (Some (a, i)) w) as Htp by (rewrite Hp; by left).
  split; [|done]. pose proof (w_pend _ _ _ _ Hw) as Hnd. rewrite Hp in Hnd.
  apply NoDup_cons in Hnd as [Hni Hnd].
  assert (forall u, u ∈ pending (Some (a, S i)) w -> u <> t /\
            u ∈ pending (Some (a, i)) w) as Hrest.
  { intros u Hu. split; [by intros ->|]. rewrite Hp. by right. }
  destruct (w_pend_in _ _ _ _ Hw t Htp) as (l0 & md0 & k & v & E & Hk & Hv & Hnv).
  rewrite Hst in E. injection E as <- <-.
  assert (forall q v, queues w.2 !! q = Some v -> t ∉ elems v) as Hnq.
  { intros q v' Hq Hin. destruct (w_queue _ _ _ _ Hw q v' Hq) as [_ H].
    destruct (H t Hin) as (l1 & md1 & k1 & ? & ? & ?). by simplify_eq. }
  destruct Hw. split; try done.
  - intros q v' Hq. destruct (w_queue0 q v' Hq) as [? Hin]. split; [done|].
    intros u Hu. destruct (Hin u Hu) as (l' & md' & k' & ? & ?). exists l', md', k'.
    rewrite lookup_insert_ne by (intros ->; by eapply Hnq). done.
  - intros u Hu. destruct (Hrest u Hu) as [Hne Hu'].
    rewrite lookup_insert_ne by done. auto.
  - intros u l' md'. destruct (decide (u = t)) as [->|Hne]; [by rewrite lookup_insert_eq|].
    rewrite lookup_insert_ne by done. intros Hu.
    destruct (w_sleep0 u l' md' Hu) as (k' & v' & ? & ? & Hor). exists k', v'.
    do 2 (split; [done|]). rewrite Hp, elem_of_cons in Hor. naive_solver.
  - intros u l' md' k'. destruct (decide (u = t)) as [->|];
      [by rewrite lookup_insert_eq|rewrite lookup_insert_ne by done; eauto].
  - intros md' l' k' v' Hmd Hk' Hn Hc Hq Hvne.
    destruct (w_live0 md' l' k' v') as (u & Hu & Hstu); try done.
    { by intros []. }
    rewrite Hp in Hu. apply elem_of_cons in Hu as [->|Hu].
    + exfalso. apply Hn. rewrite Hst in Hstu. by injection Hstu as <- <-.
    + exists u. split; [done|]. rewrite lookup_insert_ne; [done|].
      apply not_eq_sym. by apply Hrest.
Qed.

(** The end of [do_wake_up] removes its handler and frees its memory. *)
Lemma wake_up_end_runs st w f a i info :
  ok w [] f -> waits st (Some (a, i)) no_exc w -> infos w.2 !! a = Some info ->
  (length (elems (info_sleepers info)) <= i)%nat ->
  exists w' f', do_wake_up_end run_release a w = Some w' /\ ok w' [] f' /\
    waits st None no_exc w' /\ same_threads w w' /\ locks w'.2 = locks w.2.
Proof.
  intros Hok Hw Hi Hlen.
  destruct (handler_split w [] f a) as (l1 & p & l2 & Hl & Hpa & Hne); eauto.
  destruct (ok_prepoll _ _ _ Hok p) as (i0 & Hi0 & Hh & Htree).
  { rewrite Hl. apply elem_of_app. right. by left. }
  rewrite Hpa, Hi in Hi0. injection Hi0 as <-.
  destruct (tree_front _ _ Htree) as [f1 Hf1].
  apply (ok_perm _ _ _ _ Hf1) in Hok. pose proof (ok_forest _ _ _ Hok) as Hfor.
  assert (list_find (fun p' => pp_id p' = pp_id p) (head_prepoll w.1) =
            Some (length l1, p)) as Hfind.
  { apply list_find_Some. rewrite Hl. split; [by apply list_lookup_middle|]. split; [done|].
    intros j y Hj Hlt. apply lookup_app_l with (l2 := p :: l2) in Hlt as E.
    rewrite Hj in E. symmetry in E. apply list_elem_of_lookup_2 in E. apply Hne.
    apply elem_of_app. by left. }
  unfold do_wake_up_end. rewrite Hi. simpl. unfold reactor_unregister_prepoll.
  rewrite Hh, Hfind. simpl. unfold delete_pool_w at 2.
  destruct (delete_pool (pp_pool p) (rpools w.1)) as [cs ps] eqn:Hd1.
  destruct (forest_delete_kid _ _ _ _ _ _ _ _ Hfor Hd1) as [-> Hfor1]. simpl.
  unfold on_reactor, remove_prepoll. simpl. rewrite Hfind. simpl.
  unfold delete_pool_w. simpl.
  destruct (delete_pool (info_pool info) ps) as [cs2 ps2] eqn:Hd2.
  destruct (forest_delete_root _ _ _ _ _ _ Hfor1 Hd2) as [Hcs2 Hfor2].
  apply Permutation_nil_r in Hcs2 as ->. simpl.
  assert (delete (length l1) (head_prepoll w.1) = l1 ++ l2) as Hdel
    by (rewrite Hl; apply delete_middle).
  eexists _, f1. split; [done|].
  split; [|split; [|done]].
  - destruct Hok. split; simpl; rewrite ?Hdel; try done.
    + intros t tp Ht. destruct (ok_thread0 t tp Ht) as (ks & Hin & Hks). exists ks.
      split; [|done]. apply elem_of_cons in Hin as [[= -> ->]|]; [|done].
      exfalso. destruct (proj1 (Hks (pp_pool p) (CRemovePrepoll (pp_id p))))
        as (? & ? & ? & _); [by left|done].
    + intros p' Hp'. destruct (Hne p' Hp') as [Hd Hid].
      destruct (ok_prepoll0 p') as (i' & ? & ? & Hin).
      { rewrite Hl. rewrite <- Permutation_middle. by right. }
      exists i'. rewrite lookup_delete_ne by done. do 2 (split; [done|]).
      apply elem_of_cons in Hin as [E|]; [|done]. exfalso. by injection E.
    + rewrite Hl, <- Permutation_middle in ok_ids0. by apply NoDup_cons in ok_ids0 as [_ ?].
    + rewrite Hl, <- Permutation_middle in ok_datas0.
      by apply NoDup_cons in ok_datas0 as [_ ?].
    + intros a'. destruct (decide (a' = a)) as [->|]; [rewrite lookup_delete_eq; by intros []|].
      rewrite lookup_delete_ne by done. intros Ha'. apply ok_infos0 in Ha'.
      rewrite Hl, <- Permutation_middle in Ha'. simpl in Ha'.
      apply elem_of_cons in Ha' as [?|?]; [congruence|done].
  - match goal with |- waits _ _ _ ?x => set (w' := x) end.
    assert (pending None w' ≡ₚ pending (Some (a, i)) w) as Hp.
    { rewrite (pending_split (Some (a, i)) w _ _ _ Hl). rewrite Hpa.
      unfold remaining at 1. rewrite Hi, decide_True by done. rewrite drop_ge by done. simpl.
      unfold pending. simpl. rewrite Hdel. apply reflexive_eq. f_equal.
      apply list_fmap_ext. intros j p' Hp'. apply list_elem_of_lookup_2 in Hp'.
      rewrite (remaining_other a i None) by (try apply Hne; auto).
      apply remaining_same. simpl. by rewrite lookup_delete_ne by (by apply not_eq_sym, Hne). }
    destruct Hw. split; simpl; try done.
    + by rewrite Hp.
    + intros t. rewrite Hp. apply w_pend_in0.
    + setoid_rewrite Hp. apply w_sleep0.
    + setoid_rewrite Hp. apply w_live0.
Qed.

(** ** The invariant of the machine *)

(** [waits] looks at [st] for the sleeping threads only. *)
Lemma waits_stat st st' wk exc w :
  (forall u l md, st' !! u = Some (TSleep l md) <-> st !! u = Some (TSleep l md)) ->
  waits st wk exc w -> waits st' wk exc w.
Proof.
  intros H []. split; try done; setoid_rewrite H; try done.
Qed.

Lemma sleep_insert (st : gmap pth status) t x :
  (forall l md, st !! t <> Some (TSleep l md)) -> (forall l md, x <> TSleep l md) ->
  forall u l md, <[t := x]> st !! u = Some (TSleep l md) <-> st !! u = Some (TSleep l md).
Proof.
  intros Ht Hx u l md. destruct (decide (u = t)) as [->|];
    [rewrite lookup_insert_eq|by rewrite lookup_insert_ne].
  split; intros H; [injection H as H; by apply Hx in H|by apply Ht in H].
Qed.

(** The [fired] flags matter to nothing here. *)
Lemma ok_refire w D f l :
  set_fired 0 <$> l = set_fired 0 <$> head_prepoll w.1 -> ok w D f ->
  ok (with_prepolls l w.1, w.2) D f.
Proof.
  intros E Hok.
  assert (forall (A : Type) (g : reactor_prepoll prepoll_fn loc -> A),
            (forall p, g (set_fired 0 p) = g p) -> g <$> l = g <$> head_prepoll w.1) as Hg.
  { intros A g Hg. transitivity (g <$> (set_fired 0 <$> l)).
    - rewrite <- list_fmap_compose. apply list_fmap_ext. intros; symmetry; apply Hg.
    - rewrite E, <- list_fmap_compose. apply list_fmap_ext. intros; apply Hg. }
  destruct Hok. split; simpl; try done.
  - intros p Hp. apply (list_elem_of_fmap_2 (set_fired 0)) in Hp. rewrite E in Hp.
    apply list_elem_of_fmap in Hp as (p' & Hpp & Hp').
    destruct (ok_prepoll0 p' Hp') as (i & ? & ? & ?). exists i.
    pose proof (f_equal pp_id Hpp) as E1. pose proof (f_equal pp_pool Hpp) as E2.
    pose proof (f_equal pp_data Hpp) as E3. simpl in E1, E2, E3.
    by rewrite E1, E2, E3.
  - by rewrite (Hg _ pp_id).
  - by rewrite (Hg _ pp_data).
  - intros a Ha. rewrite (Hg _ pp_data) by done. auto.
Qed.

Lemma pending_refire wk w l :
  set_fired 0 <$> l = set_fired 0 <$> head_prepoll w.1 ->
  pending wk (with_prepolls l w.1, w.2) = pending wk w.
Proof.
  intros E. unfold pending. simpl. f_equal.
  transitivity ((fun p => remaining wk w (pp_data p)) <$> (set_fired 0 <$> l)).
  - rewrite <- list_fmap_compose. done.
  - rewrite E, <- list_fmap_compose. done.
Qed.

Lemma waits_refire st wk exc w l :
  set_fired 0 <$> l = set_fired 0 <$> head_prepoll w.1 -> waits st wk exc w ->
  waits st wk exc (with_prepolls l w.1, w.2).
Proof.
  intros E []. split; simpl; try done; rewrite ?(pending_refire wk w l E); done.
Qed.

(** A sleeper taken off its queue runs. *)
Lemma erase_waits st wk w l k md v j t :
  waits st wk no_exc w -> locks w.2 !! l = Some k ->
  queues w.2 !! lock_wq md k = Some v -> elems v !! j = Some t ->
  waits (<[t := TRun]> st) wk no_exc (set_queue (lock_wq md k) (vector_erase v j) w).
Proof.
  intros Hw Hl Hv Hj. set (q := lock_wq md k) in *.
  pose proof (list_elem_of_lookup_2 _ _ _ Hj) as Htv.
  pose proof (lookup_lt_Some _ _ _ Hj) as Hlt.
  destruct (w_queue _ _ _ _ Hw q v Hv) as [Hnd Hin].
  destruct (Hin t Htv) as (l0 & md0 & k0 & Hst & Hl0 & Hq0).
  assert (forall x, x ∈ delete j (elems v) <-> x ∈ elems v /\ x <> t) as Hdel.
  { intros x. rewrite (delete_Permutation _ _ _ Hj) in Hnd.
    rewrite (delete_Permutation _ _ _ Hj) at 2.
    apply NoDup_cons in Hnd as [? _]. rewrite elem_of_cons. naive_solver. }
  assert (NoDup (delete j (elems v))) as Hnd'.
  { rewrite (delete_Permutation _ _ _ Hj) in Hnd. by apply NoDup_cons in Hnd as [_ ?]. }
  assert (t ∉ pending wk w) as Htp.
  { intros (l1 & md1 & k1 & v1 & E & ? & ? & Hn)%(w_pend_in _ _ _ _ Hw).
    rewrite Hst in E. injection E as <- <-. apply Hn. by replace v1 with v by congruence. }
  destruct Hw. split; simpl; try done.
  - intros q' v'. destruct (decide (q' = q)) as [->|Hne].
    + rewrite lookup_insert_eq. intros [= <-]. rewrite elems_erase by done.
      split; [done|]. intros u [Hu Hne]%Hdel. rewrite lookup_insert_ne by done. auto.
    + rewrite lookup_insert_ne by done. intros Hq'.
      destruct (w_queue0 q' v' Hq') as [? Hin']. split; [done|]. intros u Hu.
      destruct (Hin' u Hu) as (l1 & md1 & k1 & ? & ? & ?). exists l1, md1, k1.
      rewrite lookup_insert_ne; [done|]. intros <-. rewrite Hst in *. congruence.
  - intros u Hu. destruct (w_pend_in0 u Hu) as (l1 & md1 & k1 & v1 & ? & ? & Hq1 & Hn).
    assert (u <> t) by (by intros ->).
    exists l1, md1, k1. rewrite lookup_insert_ne by done.
    destruct (decide (lock_wq md1 k1 = q)) as [E|].
    + rewrite E, lookup_insert_eq in *. eexists. do 3 (split; [done|]).
      rewrite elems_erase by done. simplify_eq. rewrite Hdel. tauto.
    + exists v1. by rewrite lookup_insert_ne.
  - intros u l1 md1. destruct (decide (u = t)) as [->|Hne]; [by rewrite lookup_insert_eq|].
    rewrite lookup_insert_ne by done. intros Hu.
    destruct (w_sleep0 u l1 md1 Hu) as (k1 & v1 & ? & Hq1 & Hor). exists k1.
    destruct (decide (lock_wq md1 k1 = q)) as [E|].
    + rewrite E, lookup_insert_eq in *. eexists. do 2 (split; [done|]).
      rewrite elems_erase by done. simplify_eq. rewrite Hdel. tauto.
    + exists v1. by rewrite lookup_insert_ne.
  - intros u l1 md1 k1. destruct (decide (u = t)) as [->|];
      [by rewrite lookup_insert_eq|rewrite lookup_insert_ne by done; eauto].
  - intros md1 l1 k1 v1 Hmd Hk1 _ Hc Hq1 Hne.
    assert (exists v0, queues w.2 !! lock_wq md1 k1 = Some v0 /\ elems v0 <> [])
      as (v0 & Hv0 & Hne0).
    { destruct (decide (lock_wq md1 k1 = q)) as [E|];
        [|rewrite lookup_insert_ne in Hq1 by done; eauto].
      rewrite E in *. exists v. split; [done|]. intros E0. by rewrite E0 in Hj. }
    destruct (w_live0 md1 l1 k1 v0) as (u & Hu & ?); try done; [by intros []|].
    exists u. split; [done|]. rewrite lookup_insert_ne; [done|]. by intros ->.
Qed.

Record inv (s : sys) : Prop := {
  inv_ok : exists f, ok (world s) [] f;
  inv_active : active (waking s) (world s);
  inv_waits : waits (stat s) (waking s) no_exc (world s);
  inv_stack : NoDup (stack s) /\ forall t, t ∈ stack s <-> stat s !! t = Some TRun;
  inv_top : match stack s with t :: _ => current_pth (world s).2 = t | [] => True end;
  inv_alive : forall t, is_Some (stat s !! t) <-> is_Some (pth_pool (world s).2 !! t);
  inv_alarm : forall t, t ∈ alarm_received (world s).2 -> stat s !! t = None
}.

(** The two ways to make a lock abort: leaving one that is not held, and an
    alarm for a thread that [do_wake_up] has still to resume. *)
Definition misuse (a : action) (s : sys) : Prop :=
  match a, stack s, waking s with
  | Leave l, t :: _, _ =>
    exists k, locks (world s).2 !! l = Some k /\ held k !! t = None
  | Alarm t, [], None => t ∈ pending None (world s)
  | _, _, _ => False
  end.

Lemma inv_running s t st :
  inv s -> stack s = t :: st ->
  current_pth (world s).2 = t /\ stat s !! t = Some TRun /\
  (forall l md, stat s !! t <> Some (TSleep l md)) /\
  exists tp, pth_pool (world s).2 !! t = Some tp.
Proof.
  intros [_ _ _ [_ Hs] Ht Ha _] E. rewrite E in *.
  assert (stat s !! t = Some TRun) as Hr by (apply Hs; by left).
  split; [done|]. split; [done|]. split; [congruence|].
  destruct (proj1 (Ha t)) as [tp ?]; [by rewrite Hr|]. eauto.
Qed.

(** The running thread goes on. *)
Lemma inv_go_on s w' t st f :
  inv s -> stack s = t :: st -> ok w' [] f -> active (waking s) w' ->
  waits (stat s) (waking s) no_exc w' -> same_threads (world s) w' ->
  inv (Sys w' (t :: st) (waking s) (stat s)).
Proof.
  intros Hi E Hok Hact Hw (E1 & E2 & E3). destruct Hi. rewrite E in *.
  split; simpl; try done; [eauto|congruence|by rewrite E2|by rewrite E3].
Qed.

(** The running thread gives up control, to be found as [stat'] says. *)
Lemma inv_back s w' t st f stat' :
  inv s -> stack s = t :: st -> ok w' [] f -> active (waking s) w' ->
  waits stat' (waking s) no_exc w' -> stat' !! t <> Some TRun ->
  (forall u, u <> t -> stat' !! u = stat s !! u) ->
  (forall u, u <> t -> pth_pool w'.2 !! u = pth_pool (world s).2 !! u) ->
  (is_Some (stat' !! t) <-> is_Some (pth_pool w'.2 !! t)) ->
  alarm_received w'.2 = alarm_received (world s).2 ->
  inv (Sys (return_to st w') st (waking s) stat').
Proof.
  intros Hi E Hok Hact Hw Ht Hst Hpp Hal Har.
  destruct (inv_running s t st Hi E) as (_ & Hrun & _).
  assert (exists e, return_to st w' = (w'.1, e) /\
    pth_pool e = pth_pool w'.2 /\ alarm_received e = alarm_received w'.2 /\
    queues e = queues w'.2 /\ infos e = infos w'.2 /\ locks e = locks w'.2 /\
    match st with u :: _ => current_pth e = u | [] => True end)
    as (e & -> & E1 & E2 & E3 & E4 & E5 & E6).
  { destruct st; [exists w'.2; by destruct w'|by eexists]. }
  destruct Hi as [_ _ _ [Hnd Hs] _ Ha Hal'].
  rewrite E in *. apply NoDup_cons in Hnd as [Hni Hnd].
  assert (forall wk, pending wk (w'.1, e) = pending wk w') as Ep
    by (intros; by apply pending_same).
  split; simpl; rewrite ?E1, ?E2; try done.
  - exists f. destruct Hok; split; simpl; rewrite ?E1, ?E3, ?E4, ?E5; done.
  - unfold active in *. simpl. by rewrite E4.
  - destruct Hw; split; simpl; rewrite ?Ep, ?E3, ?E5; done.
  - split; [done|]. intros u. destruct (decide (u = t)) as [->|]; [naive_solver|].
    rewrite Hst, <- Hs by done. rewrite elem_of_cons. naive_solver.
  - intros u. destruct (decide (u = t)) as [->|]; [done|]. by rewrite Hst, Hpp.
  - intros u. rewrite Har. intros Hu%Hal'. rewrite Hst; [done|]. intros ->. congruence.
Qed.

Lemma step_enter_inv l md s t st :
  inv s -> stack s = t :: st -> not_inside (Enter l md) s ->
  match do_step (Enter l md) s with Next s' => inv s' | Disabled => True | Aborted => False end.
Proof.
  intros Hi E Hg. destruct (inv_running s t st Hi E) as (Hc & Hrun & Hns & tp & Htp).
  simpl in *. rewrite E in *. destruct (locks (world s).2 !! l) as [k|] eqn:Hl; [|done].
  destruct (inv_ok _ Hi) as [f Hok]. rewrite <- Hc in Htp, Hg, Hns.
  destruct (enter_round_runs (stat s) (waking s) no_exc (world s) f l k md tp)
    as (b & w' & f' & -> & Hok' & Hact' & Hw' & Hs); try done;
    [apply Hi|apply Hi|apply no_exc_dec|]. simpl.
  rewrite Hc in Hw'. destruct b; [by eapply inv_go_on|].
  destruct Hs as (Es1 & Es2 & Es3).
  eapply inv_back; try done.
  - by rewrite lookup_insert_eq.
  - intros. by rewrite lookup_insert_ne.
  - intros. by rewrite Es2.
  - rewrite lookup_insert_eq, Es2, <- Hc, Htp. done.
Qed.

Lemma step_try_inv l md s t st :
  inv s -> stack s = t :: st -> not_inside (Try l md) s ->
  match do_step (Try l md) s with Next s' => inv s' | Disabled => True | Aborted => False end.
Proof.
  intros Hi E Hg. destruct (inv_running s t st Hi E) as (Hc & Hrun & Hns & tp & Htp).
  simpl in *. rewrite E in *. destruct (locks (world s).2 !! l) as [k|] eqn:Hl; [|done].
  destruct (inv_ok _ Hi) as [f Hok]. rewrite <- Hc in Htp, Hg, Hns.
  pose proof (try_enter_runs (stat s) (waking s) no_exc (world s) f l k md tp Hok
    (inv_active _ Hi) (inv_waits _ Hi) Htp Hl Hg Hns no_exc_dec) as Ht.
  destruct (can_enter _ _ _).
  - destruct Ht as (w' & f' & -> & Hok' & Hact' & Hw' & Hs). simpl.
    eapply inv_go_on; try done. apply (waits_exc _ _ _ _ _ Hw'); [by intros ???? ?? [[]]|].
    right. by intros [[]].
  - rewrite Ht. simpl. eapply inv_go_on; try done; apply Hi.
Qed.

Lemma step_leave_inv l s t st :
  inv s -> stack s = t :: st ->
  match do_step (Leave l) s with
  | Next s' => inv s' | Disabled => True | Aborted => misuse (Leave l) s end.
Proof.
  intros Hi E. destruct (inv_running s t st Hi E) as (Hc & Hrun & Hns & tp & Htp).
  simpl. rewrite E. destruct (locks (world s).2 !! l) as [k|] eqn:Hl; [|done].
  destruct (inv_ok _ Hi) as [f Hok].
  destruct (held k !! t) as [p|] eqn:Hh.
  - rewrite <- Hc in Hh.
    destruct (leave_runs (stat s) (waking s) (world s) f l k p) as
      (w' & f' & k' & -> & ? & ? & ? & ? & _); try done; [apply Hi..|]. simpl.
    by eapply inv_go_on.
  - rewrite (leave_ok l (world s) k Hl) by apply (ok_lock _ _ _ Hok l k Hl).
    rewrite Hc, Hh. simpl. eauto.
Qed.

Lemma step_exit_inv s t st :
  inv s -> stack s = t :: st ->
  match do_step Exit s with Next s' => inv s' | Disabled => True | Aborted => False end.
Proof.
  intros Hi E. destruct (inv_running s t st Hi E) as (Hc & Hrun & Hns & tp & Htp).
  simpl. rewrite E. destruct (inv_ok _ Hi) as [f Hok]. rewrite <- Hc in Htp, Hns.
  destruct (thread_exit_runs (stat s) (waking s) (world s) f tp) as
    (w' & f' & -> & Hok' & Hact' & Hw' & Ec & Ea & Ep); try done; [apply Hi..|]. simpl.
  rewrite Hc in Hw', Ep. eapply inv_back; try done.
  - by rewrite lookup_delete_eq.
  - intros. by rewrite lookup_delete_ne.
  - intros. by rewrite Ep, lookup_delete_ne.
  - rewrite Ep, !lookup_delete_eq. split; by intros [].
Qed.

Lemma step_block_inv s t st :
  inv s -> stack s = t :: st ->
  match do_step Block s with Next s' => inv s' | Disabled => True | Aborted => False end.
Proof.
  intros Hi E. destruct (inv_running s t st Hi E) as (Hc & Hrun & Hns & tp & Htp).
  simpl. rewrite E. destruct (inv_ok _ Hi) as [f Hok]. eapply inv_back; try done.
  - apply Hi.
  - eapply waits_stat; [|apply Hi]. by apply sleep_insert.
  - by rewrite lookup_insert_eq.
  - intros. by rewrite lookup_insert_ne.
  - by rewrite lookup_insert_eq, Htp.
Qed.

(** A thread that was not running is resumed by the reactor. *)
Lemma inv_resumed s w' t f wk stat' :
  inv s -> stack s = [] -> ok w' [] f -> active wk w' ->
  waits stat' wk no_exc w' -> is_Some (stat s !! t) -> stat' !! t = Some TRun ->
  (forall u, u <> t -> stat' !! u = stat s !! u) -> current_pth w'.2 = t ->
  pth_pool w'.2 = pth_pool (world s).2 ->
  alarm_received w'.2 = alarm_received (world s).2 -> inv (Sys w' [t] wk stat').
Proof.
  intros Hi E Hok Hact Hw Hst Ht Hu Hc Hp Ha. destruct Hi as [_ _ _ [_ Hs] _ Hal Har].
  rewrite E in Hs. split; simpl; try done; [eauto|..].
  - split; [apply NoDup_singleton|]. intros u. rewrite list_elem_of_singleton.
    destruct (decide (u = t)) as [->|]; [done|]. rewrite Hu, <- Hs, elem_of_nil by done. tauto.
  - intros u. rewrite Hp, <- Hal. destruct (decide (u = t)) as [->|]; [|by rewrite Hu].
    rewrite Ht. naive_solver.
  - intros u. rewrite Ha. intros Hin%Har. rewrite Hu; [done|]. intros ->.
    rewrite Hin in Hst. by destruct Hst.
Qed.

(** The reactor goes on, no thread having been resumed for long. *)
Lemma inv_idle s w' f wk :
  inv s -> stack s = [] -> ok w' [] f -> active wk w' ->
  waits (stat s) wk no_exc w' -> pth_pool w'.2 = pth_pool (world s).2 ->
  alarm_received w'.2 = alarm_received (world s).2 -> inv (Sys w' [] wk (stat s)).
Proof.
  intros Hi E Hok Hact Hw Hp Ha. destruct Hi. rewrite E in *.
  split; simpl; try done; [eauto|by rewrite Hp|by rewrite Ha].
Qed.

Lemma step_start_inv t s :
  inv s ->
  match do_step (Start t) s with Next s' => inv s' | Disabled => True | Aborted => False end.
Proof.
  intros Hi. simpl. destruct (decide _) as [[Ht Hen]|]; [|done].
  unfold start_thread. destruct (new_pool (rpools (world s).1)) as [p ps] eqn:Hn.
  destruct (inv_ok _ Hi) as [f Hok].
  pose proof (forest_new_pool _ _ _ _ (ok_forest _ _ _ Hok) Hn) as Hfor.
  destruct Hi as [_ Hact Hw [Hnd Hs] _ Hal Har].
  assert (pth_pool (world s).2 !! t = None) as Hpt.
  { apply eq_None_not_Some. intros H%Hal. rewrite Ht in H. by destruct H. }
  assert (forall u tp, pth_pool (world s).2 !! u = Some tp -> tp <> p) as Hnp.
  { intros u tp Hu ->. destruct (ok_thread _ _ _ Hok u p Hu) as (ks & Hin & _).
    pose proof (forest_distinct _ _ Hfor) as Hd. unfold forest_pools in Hd. simpl in Hd.
    apply NoDup_cons in Hd as [Hd _]. apply Hd, elem_forest_pools.
    exists (p, ks). split; [done|by left]. }
  split; simpl; try done.
  - exists ((p, []) :: f). destruct Hok. split; simpl; try done.
    + intros u up. destruct (decide (u = t)) as [->|].
      * rewrite lookup_insert_eq. intros [= <-]. exists []. split; [by left|].
        intros p' c. rewrite elem_of_nil. split; [done|].
        intros (l & k & _ & Hni & Hk & Hh).
        destruct (ok_holder0 l k t p' Hk Hh Hni) as [? ?]. congruence.
      * rewrite lookup_insert_ne by done. intros Hu.
        destruct (ok_thread0 u up Hu) as (ks & ? & ?). exists ks. split; [by right|done].
    + intros u u' up. destruct (decide (u = t)) as [->|], (decide (u' = t)) as [->|];
        rewrite ?lookup_insert_eq, ?lookup_insert_ne by done; try done.
      * intros [= <-] H. by apply Hnp in H.
      * intros H [= <-]. by apply Hnp in H.
      * apply ok_pool_inj0.
    + intros l k u p' Hk Hh Hni. destruct (decide (u = t)) as [->|];
        [rewrite lookup_insert_eq|rewrite lookup_insert_ne by done]; eauto.
    + intros pp Hpp. destruct (ok_prepoll0 pp Hpp) as (i & ? & ? & ?).
      exists i. split; [done|]. split; [done|by right].
  - eapply (waits_stat (stat s)); [|by destruct Hw].
    apply sleep_insert; [by rewrite Ht|done].
  - split.
    + apply NoDup_cons. split; [|done]. rewrite Hs, Ht. done.
    + intros u. rewrite elem_of_cons. destruct (decide (u = t)) as [->|];
        [rewrite lookup_insert_eq|rewrite lookup_insert_ne by done]; naive_solver.
  - intros u. destruct (decide (u = t)) as [->|];
      [by rewrite !lookup_insert_eq|by rewrite !lookup_insert_ne].
  - intros u [Hu Hne]%elem_of_difference. rewrite elem_of_singleton in Hne.
    rewrite lookup_insert_ne by done. auto.
Qed.

Lemma step_resume_inv t s :
  inv s ->
  match do_step (Resume t) s with Next s' => inv s' | Disabled => True | Aborted => False end.
Proof.
  intros Hi. simpl. destruct (stack s) eqn:E; [|done]. destruct (waking s) eqn:Ew; [done|].
  destruct (stat s !! t) as [[| |]|] eqn:Ht; try done.
  destruct (inv_ok _ Hi) as [f Hok]. eapply (inv_resumed s _ t f None); try done.
  - by destruct Hok.
  - eapply (waits_stat (stat s)); [apply sleep_insert; by rewrite ?Ht|].
    destruct Hi as [_ _ Hw _ _ _ _]. rewrite Ew in Hw. by destruct Hw.
  - by rewrite lookup_insert_eq.
  - intros. by rewrite lookup_insert_ne.
Qed.

Lemma step_turn_inv s :
  inv s ->
  match do_step Turn s with Next s' => inv s' | Disabled => True | Aborted => False end.
Proof.
  intros Hi. simpl. destruct (stack s) eqn:E; [|done]. destruct (waking s) eqn:Ew; [done|].
  destruct (inv_ok _ Hi) as [f Hok].
  assert (set_fired 0 <$> (set_fired 0 <$> head_prepoll (world s).1) =
    set_fired 0 <$> head_prepoll (world s).1) as Hf by (by rewrite <- list_fmap_compose).
  eapply inv_idle; try done.
  - by apply ok_refire.
  - apply waits_refire; [done|]. destruct Hi as [_ _ Hw _ _ _ _]. by rewrite Ew in Hw.
Qed.

Lemma step_prepoll_inv s :
  inv s ->
  match do_step Prepoll s with Next s' => inv s' | Disabled => True | Aborted => False end.
Proof.
  intros Hi. simpl. destruct (stack s) eqn:E; [|done]. destruct (waking s) eqn:Ew; [done|].
  destruct (list_find _ _) as [[i p]|] eqn:Hf; [|done].
  apply list_find_Some in Hf as (Hp & _ & _).
  destruct (inv_ok _ Hi) as [f Hok].
  assert (set_fired 0 <$> alter (set_fired 1) i (head_prepoll (world s).1) =
    set_fired 0 <$> head_prepoll (world s).1) as Hfi.
  { apply list_eq. intros j. rewrite !list_lookup_fmap. destruct (decide (j = i)) as [->|].
    - rewrite list_lookup_alter_eq, Hp. done.
    - by rewrite list_lookup_alter_ne. }
  destruct (ok_prepoll _ _ _ Hok p) as (info & Hinfo & _);
    [by apply list_elem_of_lookup_2 in Hp|].
  eapply inv_idle; try done.
  - by apply ok_refire.
  - simpl. eauto.
  - apply waits_refire; [done|]. destruct Hi as [_ _ Hw _ _ _ _]. rewrite Ew in Hw.
    assert (pending (Some (pp_data p, 0%nat)) (world s) = pending None (world s)) as Ep.
    { unfold pending, remaining. f_equal. apply list_fmap_ext. intros j p' _.
      destruct (infos _ !! _); [|done]. by destruct (decide _). }
    destruct Hw. split; rewrite ?Ep; done.
Qed.

Lemma step_wake_inv s :
  inv s ->
  match do_step Wake s with Next s' => inv s' | Disabled => True | Aborted => False end.
Proof.
  intros Hi. simpl. destruct (stack s) eqn:E; [|done].
  destruct (waking s) as [[a i]|] eqn:Ew; [|done].
  destruct (inv_ok _ Hi) as [f Hok]. pose proof (inv_active _ Hi) as Hact.
  pose proof (inv_waits _ Hi) as Hw. rewrite Ew in Hact, Hw. simpl in Hact.
  destruct Hact as [info Hinfo]. rewrite Hinfo.
  rewrite size_elems. destruct (decide _) as [Hlt|Hge].
  - rewrite get_elems by done. destruct (elems (info_sleepers info) !! i) as [t|] eqn:Ht;
      [|apply lookup_ge_None in Ht; lia].
    assert (t ∈ pending (Some (a, i)) (world s)) as Hin
      by (rewrite (pending_take _ _ _ _ _ _ _ Hok Hinfo Ht); by left).
    destruct (w_pend_in _ _ _ _ Hw t Hin) as (l & md & k & v & Hst & Hl & Hv & Hnv).
    rewrite Hst. destruct (take_waits _ _ _ _ _ _ _ _ _ _ Hok Hw Hinfo Ht Hst) as [Hw1 _].
    destruct (proj1 (inv_alive _ Hi t)) as [tp Htp]; [by rewrite Hst|].
    unfold wake_thread. rewrite Hl. simpl. unfold wq_woken_up. simpl.
    rewrite decide_False by (intros Hal%(inv_alarm _ Hi); congruence). simpl.
    set (w1 := with_current t (world s)).
    assert (ok w1 [] f) as Hok1 by (by destruct Hok).
    assert (waits (<[t := TRun]> (stat s)) (Some (a, S i))
              (fun l' md' => l' = l /\ md' = md) w1) as Hw2 by (by destruct Hw1).
    destruct (enter_round_runs (<[t := TRun]> (stat s)) (Some (a, S i))
        (fun l' md' => l' = l /\ md' = md) w1 f l k md tp)
      as (b & w' & f' & -> & Hok' & Hact' & Hw' & (E1 & E2 & E3)); try done.
    { simpl. eauto. }
    { by apply (w_hold _ _ _ _ Hw t l). }
    { intros l' md'. destruct (decide (l' = l)), (decide (md' = md)); naive_solver. }
    { simpl. intros ? ?. by rewrite lookup_insert_eq. }
    simpl. destruct b.
    + apply (inv_resumed s w' t f'); try done.
      * by rewrite lookup_insert_eq.
      * intros. by rewrite lookup_insert_ne.
    + simpl in Hw'. rewrite insert_insert_eq, insert_id in Hw' by done.
      by eapply inv_idle.
  - destruct (wake_up_end_runs _ _ _ _ _ _ Hok Hw Hinfo ltac:(lia))
      as (w' & f' & -> & Hok' & Hw' & (E1 & E2 & E3) & _). simpl.
    by eapply inv_idle.
Qed.

Lemma step_alarm_inv t s :
  inv s ->
  match do_step (Alarm t) s with
  | Next s' => inv s' /\ ~ misuse (Alarm t) s
  | Disabled => True | Aborted => misuse (Alarm t) s end.
Proof.
  intros Hi. simpl. destruct (stack s) eqn:E; [|done]. destruct (waking s) eqn:Ew; [done|].
  destruct (stat s !! t) as [[| |l md]|] eqn:Ht; try done.
  destruct (inv_ok _ Hi) as [f Hok].
  pose proof (inv_waits _ Hi) as Hw. rewrite Ew in Hw.
  destruct (w_sleep _ _ _ _ Hw t l md Ht) as (k & v & Hl & Hv & Hor).
  unfold alarm_wakes. rewrite Hl. simpl. unfold wq_woken_up. simpl.
  rewrite decide_True by set_solver. rewrite Hv. simpl.
  destruct (decide (t ∈ elems v)) as [Hin|Hni].
  2:{ rewrite find_sleeper_notin by done. simpl. naive_solver. }
  destruct (find_sleeper_in v t Hin) as (j & -> & Hj). simpl.
  match goal with |- context [thread_exit ?x] => set (w1 := x) end.
  destruct (proj1 (inv_alive _ Hi t)) as [tp Htp]; [by rewrite Ht|].
  destruct (thread_exit_runs (<[t := TRun]> (stat s)) None w1 f tp) as
    (w' & f' & -> & Hok' & Hact' & Hw' & Ec & Ea & Ep); try done.
  - destruct Hok. split; simpl; try done. intros l' k' Hk'.
    destruct (ok_lock0 l' k' Hk') as [? Hq]. split; [done|]. intros md'.
    destruct (decide (lock_wq md' k' = lock_wq md k)) as [->|];
      [rewrite lookup_insert_eq|rewrite lookup_insert_ne]; eauto.
  - pose proof (erase_waits _ _ _ _ _ _ _ _ _ Hw Hl Hv Hj) as Hw1. by destruct Hw1.
  - simpl. intros. by rewrite lookup_insert_eq.
  - simpl in *. split.
    + rewrite delete_insert_eq in Hw'.
      assert (forall u, delete t (stat s) !! u = if decide (u = t) then None else stat s !! u)
        as Hd.
      { intros u. destruct (decide (u = t)) as [->|];
          [apply lookup_delete_eq|by apply lookup_delete_ne]. }
      destruct Hi as [_ _ _ [Hnd Hs] _ Hal Har]. rewrite E in *.
      split; simpl; try done; [eauto|..].
      * split; [constructor|]. intros u. rewrite Hd. destruct (decide _) as [->|].
        { split; [by intros ?%not_elem_of_nil|done]. } apply Hs.
      * intros u. rewrite Hd, Ep. destruct (decide _) as [->|].
        { rewrite lookup_delete_eq. split; by intros []. }
        rewrite lookup_delete_ne by done. apply Hal.
      * intros u. rewrite Ea, Hd. destruct (decide _); [done|].
        intros [?%elem_of_singleton|]%elem_of_union; [done|auto].
    + intros Hp. destruct (w_pend_in _ _ _ _ Hw t Hp) as (l1 & md1 & k1 & v1 & ? & ? & ? & ?).
      by simplify_eq.
Qed.

(** Every step keeps the invariant, and only a misuse aborts. *)
Lemma step_inv a s :
  inv s -> not_inside a s ->
  match do_step a s with Next s' => inv s' | Disabled => True | Aborted => misuse a s end.
Proof.
  intros Hi Hin.
  assert (forall o, match o with Next s' => inv s' | Disabled => True | Aborted => False end ->
            match o with Next s' => inv s' | Disabled => True | Aborted => misuse a s end)
    as Hmono by (intros [| |]; done).
  destruct a.
  - apply Hmono, step_start_inv, Hi.
  - apply Hmono. destruct (stack s) eqn:E; [simpl; by rewrite E|by eapply step_enter_inv].
  - apply Hmono. destruct (stack s) eqn:E; [simpl; by rewrite E|by eapply step_try_inv].
  - destruct (stack s) eqn:E; [simpl; by rewrite E|by eapply step_leave_inv].
  - apply Hmono. destruct (stack s) eqn:E; [simpl; by rewrite E|by eapply step_block_inv].
  - apply Hmono. destruct (stack s) eqn:E; [simpl; by rewrite E|by eapply step_exit_inv].
  - apply Hmono, step_resume_inv, Hi.
  - pose proof (step_alarm_inv t s Hi) as H. destruct (do_step (Alarm t) s); naive_solver.
  - apply Hmono, step_prepoll_inv, Hi.
  - apply Hmono, step_wake_inv, Hi.
  - apply Hmono, step_turn_inv, Hi.
Qed.

Lemma run_inv l s s' : inv s -> no_reentry l s -> run l s = Next s' -> inv s'.
Proof.
  revert s. induction l as [|a l IH]; intros s Hi; simpl; [by intros _ [= <-]|]. intros [Hin Hl].
  pose proof (step_inv a s Hi Hin) as Hs. destruct (do_step a s); try done. by apply IH.
Qed.

(** An alarm for a thread about to be woken aborts. *)
Lemma alarm_aborts t s :
  inv s -> stack s = [] -> waking s = None -> t ∈ pending None (world s) ->
  do_step (Alarm t) s = Aborted.
Proof.
  intros Hi E Ew Ht. pose proof (step_alarm_inv t s Hi) as H.
  pose proof (inv_waits _ Hi) as Hw. rewrite Ew in Hw.
  destruct (w_pend_in _ _ _ _ Hw t Ht) as (l & md & k & v & Hst & _).
  assert (do_step (Alarm t) s <> Disabled) as Hnd.
  { simpl. rewrite E, Ew, Hst. by destruct (alarm_wakes _ _ _ _). }
  destruct (do_step (Alarm t) s); [|done|done].
  destruct H as [_ []]. unfold misuse. by rewrite E, Ew.
Qed.

Lemma aborts_iff a s : inv s -> not_inside a s -> do_step a s = Aborted <-> misuse a s.
Proof.
  intros Hi Hin. split; [intros H; pose proof (step_inv a s Hi Hin) as Hs; by rewrite H in Hs|].
  intros Hm. destruct a; simpl in Hm; destruct (stack s) as [|t' st] eqn:E; try done;
    try (by destruct (waking s)).
  - destruct Hm as (k & Hl & Hh). simpl. rewrite E, Hl.
    destruct (inv_ok _ Hi) as [f Hok]. destruct (inv_running s t' st Hi E) as (Hc & _).
    rewrite (leave_ok l (world s) k Hl) by apply (ok_lock _ _ _ Hok l k Hl).
    by rewrite Hc, Hh.
  - destruct (waking s) eqn:Ew; [done|]. by apply alarm_aborts.
Qed.

(** The holder of a lock can leave it. *)
Lemma leave_step s t st l k :
  inv s -> stack s = t :: st -> locks (world s).2 !! l = Some k -> is_Some (held k !! t) ->
  exists s' k', do_step (Leave l) s = Next s' /\ locks (world s').2 !! l = Some k' /\
    held k' = delete t (held k).
Proof.
  intros Hi E Hl [p Hp]. destruct (inv_ok _ Hi) as [f Hok].
  destruct (inv_running s t st Hi E) as (Hc & _). rewrite <- Hc in Hp.
  destruct (leave_runs (stat s) (waking s) (world s) f l k p) as
    (w' & f' & k' & Hlv & _ & _ & _ & _ & Hk' & Hd); try done; [apply Hi..|].
  simpl. rewrite E, Hl, Hlv. simpl. eexists _, k'. split; [done|]. simpl.
  rewrite Hk', lookup_insert_eq, <- Hc. done.
Qed.

(** When the lock can be entered, a thread asleep for it in an exclusive mode
    is about to be woken, or another one asleep for the same is. *)
Lemma inv_no_lost_wakeup s t l md k :
  inv s -> exclusive md = true -> stat s !! t = Some (TSleep l md) ->
  locks (world s).2 !! l = Some k -> can_enter md k (fun _ => O) = true ->
  exists u, u ∈ pending (waking s) (world s) /\ stat s !! u = Some (TSleep l md).
Proof.
  intros Hi Hmd Ht Hl Hc. pose proof (inv_waits _ Hi) as Hw.
  destruct (w_sleep _ _ _ _ Hw t l md Ht) as (k' & v & Hk' & Hv & [Hin|Hin]); [|eauto].
  rewrite Hl in Hk'. injection Hk' as <-.
  apply (w_live _ _ _ _ Hw md l k v); try done; [by intros []|].
  intros E. rewrite E in Hin. by apply not_elem_of_nil in Hin.
Qed.

(** A thread that exits leaves no lock held. *)
Lemma exit_holds_nothing s t st s' :
  inv s -> stack s = t :: st -> do_step Exit s = Next s' ->
  inv s' /\ stack s' = st /\ forall l k, locks (world s').2 !! l = Some k -> held k !! t = None.
Proof.
  intros Hi E Hs. pose proof (step_inv Exit s Hi I) as Hi'. rewrite Hs in Hi'.
  split; [done|]. simpl in Hs. rewrite E in Hs.
  destruct (thread_exit (world s)) as [w'|]; simpl in Hs; [|done]. injection Hs as <-.
  split; [done|]. intros l k Hl. destruct (inv_ok _ Hi') as [f Hok]. simpl in *.
  apply eq_None_not_Some. intros [p Hp].
  destruct (ok_holder _ _ _ Hok l k t p Hl Hp) as [tp Htp]; [apply not_elem_of_nil|].
  destruct (proj2 (inv_alive _ Hi' t)) as [x Hx]; [by exists tp|]. simpl in Hx.
  by rewrite lookup_delete_eq in Hx.
Qed.

(** Only live threads hold locks. *)
Lemma inv_holder_alive s l k t :
  inv s -> locks (world s).2 !! l = Some k -> is_Some (held k !! t) ->
  is_Some (stat s !! t).
Proof.
  intros Hi Hl [p Hp]. destruct (inv_ok _ Hi) as [f Hok].
  apply (inv_alive _ Hi). apply (ok_holder _ _ _ Hok l k t p Hl Hp), not_elem_of_nil.
Qed.

(** ** The initial state *)

(** Before any thread is started: the queues of the locks are there and
    empty, nobody holds a lock. *)
Definition initial (w : W) : sys := Sys w [] None ∅.

Lemma initial_inv (w : W) :
  forest (rpools w.1) [] -> head_prepoll w.1 = [] ->
  pth_pool w.2 = ∅ -> infos w.2 = ∅ ->
  (forall q v, queues w.2 !! q = Some v -> elems v = []) ->
  (forall l k, locks w.2 !! l = Some k -> lock_wf k /\ held k = ∅ /\
     forall md, is_Some (queues w.2 !! lock_wq md k)) ->
  (forall l l' k k' md md', locks w.2 !! l = Some k ->
    locks w.2 !! l' = Some k' -> lock_wq md k = lock_wq md' k' -> l = l' /\ md = md') ->
  inv (initial w).
Proof.
  intros Hf Hpre Hpp Hinf Hq Hl Hinj.
  assert (forall wk, pending wk w = []) as Hpend.
  { intros wk. unfold pending. by rewrite Hpre. }
  split; simpl; try done.
  - exists []. split; simpl; rewrite ?Hpre, ?Hpp, ?Hinf; try done.
    + intros l k t p Hk Hh. destruct (Hl l k Hk) as (_ & E & _). by rewrite E in Hh.
    + split; [constructor|]. by intros ? ? ?%not_elem_of_nil.
    + intros l k Hk. destruct (Hl l k Hk) as (? & _ & ?). done.
    + by intros ? ?%not_elem_of_nil.
    + constructor.
    + constructor.
    + intros a [? H]. done.
  - split; rewrite ?Hpend; try done.
    + intros q v Hv. rewrite (Hq q v Hv). split; [constructor|]. by intros ? ?%not_elem_of_nil.
    + constructor.
    + by intros ? ?%not_elem_of_nil.
    + intros md l k v _ _ _ _ Hv Hne. by rewrite (Hq _ _ Hv) in Hne.
  - split; [constructor|]. intros t. rewrite elem_of_nil. done.
  - intros t. rewrite Hpp. split; by intros [].
Qed.

End machine.

(** An address that no wake-up and no prepoll handler has. *)
Definition unused {L X : Type} {vec : Type -> Type} `{PL : Pools (cleanup X)}
    (w : reactor prepoll_fn loc (X := X) * env L X vec) : loc :=
  fresh (elements (dom (infos w.2)) ++ (pp_id <$> head_prepoll w.1)).

Lemma unused_new {L X : Type} {vec : Type -> Type} `{PL : Pools (cleanup X)}
    (w : reactor prepoll_fn loc (X := X) * env L X vec) :
  infos w.2 !! unused w = None /\ unused w ∉ pp_id <$> head_prepoll w.1.
Proof.
  pose proof (infinite_is_fresh (elements (dom (infos w.2)) ++ (pp_id <$> head_prepoll w.1)))
    as Hf. fold (unused w) in Hf. apply not_elem_of_app in Hf as [H1 H2]. split; [|done].
  rewrite elem_of_elements in H1. by apply not_elem_of_dom in H1.
Qed.
