(* ===== verification/Mutex.v ===== *)
(** * Mutexes ([src/pthr_mutex.c])

    The operations of the source, the instance of the lock interface they
    give, and what the threads of the lock machine can rely on. *)

From stdpp Require Import base list gmap.
From S2P Require Import Prelude C2lib Forest ReactorHandles ReactorTimers Reactor WaitQueue Locks.

(** Clean-up functions of mutexes. *)
Inductive mutex_cleanup := DoRelease (m : loc) | DeleteMutex (m : loc).

Section mutex.
Context {vec : Type -> Type} `{VL : Vector vec} `{PL : Pools (cleanup mutex_cleanup)}.

Record mutex := Mutex {
  m_pth : option pth;
  m_wq : loc;
  m_pool : option pool
}.

Abbreviation W :=
  (reactor prepoll_fn loc (X := mutex_cleanup) * env mutex mutex_cleanup vec)%type.

Context (pmalloc : W -> loc) (junk : loc -> Z).

(** [m] and [q] are the addresses of the mutex and of its queue. *)
Definition new_mutex (m q : loc) (p : pool) (w : W) : W :=
  let w1 := new_wait_queue q w in
  let w2 := set_lock m (Mutex None q None) w1 in
  (with_pools (pool_register_cleanup_fn p (COther (DeleteMutex m)) (rpools w2.1)) w2.1, w2.2).

Definition delete_mutex (m : loc) (w : W) : option W :=
  k ← locks w.2 !! m;
  if m_pth k is Some _ then None else Some w.

Definition mutex_try_enter (m : loc) (w : W) : option (bool * W) :=
  k ← locks w.2 !! m;
  if m_pth k is Some _ then Some (false, w)
  else
    tp ← pth_pool w.2 !! current_pth w.2;
    let '(p, ps) := new_subpool tp (rpools w.1) in
    let ps := pool_register_cleanup_fn p (COther (DoRelease m)) ps in
    Some (true, set_lock m (Mutex (Some (current_pth w.2)) (m_wq k) (Some p))
                  (with_pools ps w.1, w.2)).

Definition do_release (m : loc) (w : W) : option W :=
  k ← locks w.2 !! m;
  let w1 := set_lock m (Mutex None (m_wq k) None) w in
  if decide (0 < wq_nr_sleepers (m_wq k) w1)%nat
  then wq_wake_up_one pmalloc junk (m_wq k) w1 else Some w1.

Definition run_mutex_cleanup (c : mutex_cleanup) : W -> option W :=
  match c with DoRelease m => do_release m | DeleteMutex m => delete_mutex m end.

Definition mutex_leave (m : loc) (w : W) : option W :=
  k ← locks w.2 !! m;
  if decide (m_pth k = Some (current_pth w.2)) then
    p ← m_pool k; delete_pool_w run_mutex_cleanup p w
  else None.

Definition mutex_nr_sleepers (m : loc) (w : W) : option nat :=
  k ← locks w.2 !! m; Some (wq_nr_sleepers (m_wq k) w).

(** ** The instance of the interface *)

Definition mutex_wf (k : mutex) : Prop := is_Some (m_pth k) <-> is_Some (m_pool k).

Definition mutex_held (k : mutex) : gmap pth pool :=
  match m_pth k, m_pool k with Some t, Some p => {[t := p]} | _, _ => ∅ end.

Definition mutex_free (k : mutex) : bool := if m_pth k is Some _ then false else true.

Definition mutex_released (k : mutex) (ns : loc -> nat) : mutex * option loc :=
  (Mutex None (m_wq k) None, if decide (0 < ns (m_wq k))%nat then Some (m_wq k) else None).

Lemma mutex_held_some k t :
  mutex_wf k -> is_Some (mutex_held k !! t) <-> m_pth k = Some t.
Proof.
  unfold mutex_wf, mutex_held. destruct (m_pth k) as [u|], (m_pool k) as [p|]; simpl.
  - intros _. rewrite lookup_singleton_is_Some. naive_solver.
  - intros [H _]. by destruct H.
  - rewrite lookup_empty. split; [by intros []|done].
  - rewrite lookup_empty. split; [by intros []|done].
Qed.

#[export] Instance mutex_lock : Lock (L := mutex) (M := unit) pmalloc junk.
Proof.
  refine {|
    lock_wq _ := m_wq;
    try_enter _ := mutex_try_enter;
    leave := mutex_leave;
    run_release := run_mutex_cleanup;
    held := mutex_held;
    can_enter _ k _ := mutex_free k;
    enter_lock _ t p k := Mutex (Some t) (m_wq k) (Some p);
    release_lock _ := mutex_released;
    rel_of _ := DoRelease;
    lock_wf := mutex_wf;
    exclusive _ := true
  |}; unfold mutex_free.
  - intros _ l w k tp Hl Ht. unfold mutex_try_enter. rewrite Hl. simpl.
    destruct (m_pth k); [done|]. rewrite Ht. simpl. by destruct (new_subpool _ _).
  - intros l w k Hl Hwf. unfold mutex_leave. rewrite Hl. simpl.
    unfold mutex_held, mutex_wf in *.
    destruct (m_pth k) as [t|], (m_pool k) as [p|]; simpl; try done.
    + destruct (decide (t = current_pth w.2)) as [->|Hne].
      * by rewrite decide_True, lookup_singleton_eq.
      * rewrite decide_False by congruence. by rewrite lookup_singleton_ne.
    + by destruct (decide (Some t = _)).
  - intros t l w k Hl Hwf Hh. unfold run_mutex_cleanup, do_release, mutex_released.
    rewrite Hl. simpl. by destruct (decide _).
  - intros t l l' [=]. done.
  - intros _ t p k ns _ _ _. split; eauto.
  - intros _ t p k ns Hwf Hf. unfold mutex_held. simpl. by destruct (m_pth k).
  - done.
  - intros t k ns _ _. split; by intros [].
  - intros t k ns Hwf Hh. pose proof Hh as Ht. apply mutex_held_some in Ht; [|done].
    unfold mutex_held in *. rewrite Ht in *. simpl.
    destruct (m_pool k); [by rewrite delete_singleton_eq|by rewrite delete_empty].
  - done.
  - intros t k ns q. unfold mutex_released. simpl. destruct (decide _); [|done].
    intros [= <-]. split; [done|by exists ()].
  - done.
  - intros _ k ns t _ Hwf Hh. apply mutex_held_some in Hh; [|done]. by rewrite Hh.
  - intros _ t k ns _ _ _ _ H. unfold mutex_released. simpl. by rewrite decide_True.
Defined.

(** One round of the loop of [mutex_enter]: the mutex is taken ([true]), or
    the thread is on the queue and switches to the reactor ([false]); the next
    round follows its return. *)
Definition mutex_enter (m : loc) : W -> option (bool * W) := enter_round pmalloc junk m tt.

(** ** What threads can rely on *)

(** The program after the mutexes at [ms] (with their queues) were made in
    the global pool, before any thread runs. *)
Definition mutex_world (ms : list (loc * loc)) : W :=
  foldl (fun w x => new_mutex x.1 x.2 global_pool w)
    (reactor_init 0 0, Env 1%positive ∅ ∅ ∅ ∅ ∅) ms.

Record mutexes_made (w : W) (ms : list (loc * loc)) : Prop := {
  made_forest : forest (rpools w.1) [];
  made_prepoll : head_prepoll w.1 = [];
  made_threads : pth_pool w.2 = ∅;
  made_infos : infos w.2 = ∅;
  made_queues : forall q v, queues w.2 !! q = Some v -> elems v = [];
  made_locks : forall l k, locks w.2 !! l = Some k ->
    (l, m_wq k) ∈ ms /\ k = Mutex None (m_wq k) None /\ is_Some (queues w.2 !! m_wq k)
}.

Lemma mutex_world_made ms : mutexes_made (mutex_world ms) ms.
Proof.
  induction ms as [|[m q] ms IH] using rev_ind.
  - split; simpl; try done. apply forest_init.
  - unfold mutex_world. rewrite foldl_app. fold (mutex_world ms).
    set (w := mutex_world ms) in *. destruct IH. split; simpl; try done.
    + by apply forest_register_global.
    + intros q' v. destruct (decide (q' = q)) as [->|];
        [rewrite lookup_insert_eq|rewrite lookup_insert_ne by done; eauto].
      intros [= <-]. apply elems_new.
    + intros l k. destruct (decide (l = m)) as [->|].
      * rewrite lookup_insert_eq. intros [= <-]. simpl. split.
        { apply elem_of_app. right. by left. }
        split; [done|]. by rewrite lookup_insert_eq.
      * rewrite lookup_insert_ne by done. intros Hk.
        destruct (made_locks0 l k Hk) as (? & ? & [v Hv]). split; [apply elem_of_app; by left|].
        split; [done|]. destruct (decide (m_wq k = q)) as [->|];
          [rewrite lookup_insert_eq|rewrite lookup_insert_ne]; eauto.
Qed.

Context (pmalloc_new : forall w : W,
  infos w.2 !! pmalloc w = None /\ pmalloc w ∉ pp_id <$> head_prepoll w.1).

Lemma mutex_world_inv ms :
  NoDup ms.*2 -> inv pmalloc junk (initial (mutex_world ms)).
Proof.
  intros Hnd. destruct (mutex_world_made ms). apply initial_inv; try done.
  - intros l k Hk. destruct (made_locks0 l k Hk) as (_ & -> & Hq). simpl.
    split; [split; by intros []|]. done.
  - intros l l' k k' [] [] Hk Hk' E. simpl in E.
    destruct (made_locks0 l k Hk) as (Hin & _). destruct (made_locks0 l' k' Hk') as (Hin' & _).
    rewrite <- E in Hin'. split; [|done].
    apply list_elem_of_lookup in Hin as [i Hi]. apply list_elem_of_lookup in Hin' as [j Hj].
    assert (i = j) as ->.
    { apply (NoDup_lookup _ i j (m_wq k) Hnd); by rewrite list_lookup_fmap, ?Hi, ?Hj. }
    congruence.
Qed.

(** C8: in every state the program can reach, when a mutex is free and a
    thread is asleep in [mutex_enter] for it, [do_wake_up] is about to resume
    a thread that waits for this mutex: a wake-up is never lost. *)
Theorem mutex_no_lost_wakeup ms acts s m k t :
  NoDup ms.*2 -> run pmalloc junk acts (initial (mutex_world ms)) = Next s ->
  locks (world s).2 !! m = Some k -> m_pth k = None ->
  stat s !! t = Some (TSleep m tt) ->
  exists u, u ∈ pending (waking s) (world s) /\ stat s !! u = Some (TSleep m tt).
Proof.
  intros Hnd Hr Hm Hk Ht. apply (run_inv pmalloc junk pmalloc_new) in Hr;
    [|by apply mutex_world_inv|by apply exclusive_no_reentry].
  apply (inv_no_lost_wakeup pmalloc junk s t m tt k); try done.
  simpl. unfold mutex_free. by rewrite Hk.
Qed.

(** C28: whatever threads do with mutexes, the program stops in an assertion
    or [abort] exactly when a thread leaves a mutex it does not hold, or an
    alarm fires for a thread taken off the wait queue but not yet resumed.  Of
    the functions that threads do not reach by entering and leaving mutexes, the
    check made when the pool of a mutex is deleted stops the program exactly when
    the mutex is held, [wq_wake_up_one] exactly on a queue nobody sleeps on, and
    [wq_wake_up] never does. *)
Theorem mutex_aborts_exactly_on_misuse ms acts s :
  NoDup ms.*2 -> run pmalloc junk acts (initial (mutex_world ms)) = Next s ->
  (forall a, do_step pmalloc junk a s = Aborted <-> misuse pmalloc junk a s) /\
  (forall m k, locks (world s).2 !! m = Some k ->
     delete_mutex m (world s) = None <-> exists t, m_pth k = Some t) /\
  (forall q v, queues (world s).2 !! q = Some v ->
     (wq_wake_up_one pmalloc junk q (world s) = None <-> elems v = []) /\
     is_Some (wq_wake_up pmalloc junk q (world s))).
Proof.
  intros Hnd Hr. apply (run_inv pmalloc junk pmalloc_new) in Hr;
    [|by apply mutex_world_inv|by apply exclusive_no_reentry].
  split; [intros a; apply aborts_iff; [done..|by apply exclusive_not_inside]|]. split.
  - intros m k Hm. unfold delete_mutex. rewrite Hm. simpl. destruct (m_pth k) as [t|]; [split; [by exists t|done]|].
    split; [done|by intros [t ?]].
  - intros q v Hq. split; [by apply wake_up_one_aborts|by eapply wake_up_all_runs].
Qed.

(** C29: mutual exclusion.  In every reachable state the running thread takes a
    free mutex and becomes its owner; when the mutex has an owner, that
    thread is alive, trying again changes nothing, leaving it frees it if
    the running thread is the owner and aborts otherwise. *)
Theorem mutex_exclusion ms acts s t st m k :
  NoDup ms.*2 -> run pmalloc junk acts (initial (mutex_world ms)) = Next s ->
  stack s = t :: st -> locks (world s).2 !! m = Some k ->
  match m_pth k with
  | None => do_step pmalloc junk (Leave m) s = Aborted /\ exists s' p,
      do_step pmalloc junk (Try m tt) s = Next s' /\
      locks (world s').2 !! m = Some (Mutex (Some t) (m_wq k) (Some p))
  | Some u => is_Some (stat s !! u) /\ do_step pmalloc junk (Try m tt) s = Next s /\
      if decide (u = t) then exists s' k', do_step pmalloc junk (Leave m) s = Next s' /\
        locks (world s').2 !! m = Some k' /\ m_pth k' = None
      else do_step pmalloc junk (Leave m) s = Aborted
  end.
Proof.
  intros Hnd Hr E Hm. apply (run_inv pmalloc junk pmalloc_new) in Hr as Hi;
    [|by apply mutex_world_inv|by apply exclusive_no_reentry].
  destruct (inv_running pmalloc junk s t st Hi E) as (Hc & _ & _ & tp & Htp).
  destruct (inv_ok _ _ _ Hi) as [f Hok]. destruct (ok_lock _ _ _ _ _ Hok m k Hm) as [Hwf _].
  pose proof (mutex_held_some k) as Hheld. simpl in Hwf.
  destruct (m_pth k) as [u|] eqn:Hp.
  - split.
    { apply (inv_holder_alive pmalloc junk s m k u Hi Hm). simpl. by apply Hheld. }
    split.
    { simpl. rewrite E, Hm. unfold mutex_try_enter. rewrite Hm. simpl.
      rewrite Hp. simpl. destruct s. simpl in *. by subst. }
    destruct (decide (u = t)) as [->|Hne].
    + destruct (leave_step pmalloc junk pmalloc_new s t st m k Hi E Hm) as (s' & k' & Hs & Hk' & Hd).
      { simpl. by apply Hheld. }
      exists s', k'. split; [done|]. split; [done|].
      pose proof (step_inv pmalloc junk pmalloc_new (Leave m) s Hi I) as Hi'. rewrite Hs in Hi'.
      destruct (inv_ok _ _ _ Hi') as [f' Hok'].
      destruct (ok_lock _ _ _ _ _ Hok' m k' Hk') as [Hwf' _].
      destruct (m_pth k') as [u|] eqn:Hp'; [|done].
      apply (mutex_held_some k') in Hp' as Hs'; [|done]. simpl in Hd. rewrite Hd in Hs'.
      apply lookup_delete_is_Some in Hs' as [Hne Hs']. apply Hheld in Hs'; [|done].
      congruence.
    + apply aborts_iff; [done..|]. simpl. rewrite E. exists k. split; [done|].
      apply eq_None_not_Some. intros Hs%Hheld; [|done]. congruence.
  - split.
    + apply aborts_iff; [done..|]. simpl. rewrite E. exists k. split; [done|].
      apply eq_None_not_Some. intros Hs%Hheld; [|done]. congruence.
    + simpl. rewrite E, Hm. unfold mutex_try_enter. rewrite Hm. simpl.
      rewrite Hp, Hc, Htp. simpl. destruct (new_subpool tp _) as [p ps]. simpl.
      eexists _, p. split; [done|]. simpl. by rewrite lookup_insert_eq.
Qed.

(** C30: a thread can exit while it holds mutexes: deleting its pool releases
    them all (waking a waiter of each) and afterwards it owns none. *)
Theorem mutex_released_on_exit ms acts s t st :
  NoDup ms.*2 -> run pmalloc junk acts (initial (mutex_world ms)) = Next s ->
  stack s = t :: st ->
  exists s', do_step pmalloc junk Exit s = Next s' /\ stack s' = st /\
    forall m k, locks (world s').2 !! m = Some k -> m_pth k <> Some t.
Proof.
  intros Hnd Hr E. apply (run_inv pmalloc junk pmalloc_new) in Hr as Hi;
    [|by apply mutex_world_inv|by apply exclusive_no_reentry].
  pose proof (step_exit_inv pmalloc junk pmalloc_new s t st Hi E) as Hs.
  destruct (do_step pmalloc junk Exit s) as [s'| |] eqn:Hex; [|by simpl in Hex; rewrite E in Hex;
    destruct (thread_exit _ _ _)|done].
  destruct (exit_holds_nothing pmalloc junk pmalloc_new s t st s' Hi E Hex) as (Hi' & Hst & Hno).
  exists s'. split; [done|]. split; [done|]. intros m k Hk Hp.
  destruct (inv_ok _ _ _ Hi') as [f' Hok'].
  destruct (ok_lock _ _ _ _ _ Hok' m k Hk) as [Hwf' _].
  apply mutex_held_some in Hp; [|done]. specialize (Hno m k Hk). simpl in Hno.
  rewrite Hno in Hp. by destruct Hp.
Qed.

End mutex.

(** ** On concrete threads *)

(** Thread 1 enters the mutex at 10 and blocks elsewhere; thread 2 sleeps for
    it; thread 1 leaves it. *)
Definition mutex_story : list (action (M := unit)) :=
  [Start 1%positive; Enter 10%positive tt; Block;
   Start 2%positive; Enter 10%positive tt;
   Resume 1%positive; Leave 10%positive; Block].

Definition mutex_run (l : list action) : outcome :=
  run (vec := list) unused (fun _ => 0) l (initial (mutex_world [(10%positive, 11%positive)])).

(** What a run ends in: the owner of the mutex at 10, the threads asleep on
    its queue and those about to be woken. *)
Definition mutex_view (o : outcome (L := mutex) (M := unit) (X := mutex_cleanup) (vec := list))
  : option (option pth * list pth * list pth * list pth) :=
  match o with
  | Next s => k ← locks (world s).2 !! 10%positive;
      q ← queues (world s).2 !! m_wq k;
      Some (m_pth k, q, pending (waking s) (world s), stack s)
  | _ => None
  end.

Example mutex_story_view :
  mutex_view (mutex_run mutex_story) = Some (None, [], [2%positive], []).
Proof. vm_compute. done. Qed.

(** An alarm that fires for a thread between [wq_wake_up_one] and the
    prepoll handler that would resume it finds the thread on no sleepers list,
    and [wq_sleep_on] calls [abort]: thread 2 waits for the mutex, thread 1
    leaves it, and the alarm of thread 2 stops the whole program. *)
Theorem mutex_wakeup_then_alarm_aborts :
  mutex_view (mutex_run mutex_story) = Some (None, [], [2%positive], []) /\
  mutex_run (mutex_story ++ [Alarm 2%positive]) = Aborted.
Proof. split; vm_compute; reflexivity. Qed.

(** The state a story ends in. *)
Definition mutex_end (l : list action) : sys (L := mutex) (M := unit) (vec := list) :=
  match mutex_run l with Next s => s | _ => initial (mutex_world []) end.

Lemma mutex_end_run l :
  (if mutex_run l is Next _ then true else false) = true ->
  mutex_run l = Next (mutex_end l).
Proof. unfold mutex_end. by destruct (mutex_run l). Qed.

Definition mutex_at (s : sys (L := mutex) (M := unit) (X := mutex_cleanup) (vec := list))
  (m : loc) : mutex := default (Mutex None m None) (locks (world s).2 !! m).

Lemma mutex_at_lookup s m :
  (if locks (world s).2 !! m is Some _ then true else false) = true ->
  locks (world s).2 !! m = Some (mutex_at s m).
Proof. unfold mutex_at. by destruct (locks (world s).2 !! m). Qed.

Lemma mutex_no_lost_wakeup_witness :
  exists u, u ∈ pending (waking (mutex_end mutex_story)) (world (mutex_end mutex_story)) /\
    stat (mutex_end mutex_story) !! u = Some (TSleep 10%positive tt).
Proof.
  apply (mutex_no_lost_wakeup unused (fun _ => 0) unused_new
    [(10%positive, 11%positive)] mutex_story (mutex_end mutex_story) 10%positive
    (Mutex None 11%positive None) 2%positive).
  - apply NoDup_singleton.
  - change (mutex_run mutex_story = Next (mutex_end mutex_story)).
    apply mutex_end_run. vm_compute. reflexivity.
  - vm_compute. reflexivity.
  - reflexivity.
  - vm_compute. reflexivity.
Defined.

Lemma mutex_aborts_exactly_on_misuse_witness :
  do_step unused (fun _ => 0) (Alarm 2%positive) (mutex_end mutex_story) = Aborted <->
  misuse unused (fun _ => 0) (Alarm 2%positive) (mutex_end mutex_story).
Proof.
  apply (mutex_aborts_exactly_on_misuse unused (fun _ => 0) unused_new
    [(10%positive, 11%positive)] mutex_story).
  - apply NoDup_singleton.
  - change (mutex_run mutex_story = Next (mutex_end mutex_story)).
    apply mutex_end_run. vm_compute. reflexivity.
Defined.

(** Thread 1 holds the mutex and runs. *)
Definition mutex_inside : list action :=
  [Start 1%positive; Enter 10%positive tt; Block;
   Start 2%positive; Enter 10%positive tt; Resume 1%positive].

Lemma mutex_exclusion_witness :
  exists s' k', do_step unused (fun _ => 0) (Leave 10%positive) (mutex_end mutex_inside) =
      Next s' /\
    locks (world s').2 !! 10%positive = Some k' /\ m_pth k' = None.
Proof.
  assert (m_pth (mutex_at (mutex_end mutex_inside) 10%positive) = Some 1%positive) as Hp
    by (vm_compute; reflexivity).
  assert (run unused (fun _ => 0) mutex_inside
            (initial (mutex_world [(10%positive, 11%positive)])) =
          Next (mutex_end mutex_inside)) as Hr.
  { change (mutex_run mutex_inside = Next (mutex_end mutex_inside)).
    apply mutex_end_run. vm_compute. reflexivity. }
  assert (stack (mutex_end mutex_inside) = [1%positive]) as Hs by (vm_compute; reflexivity).
  assert (locks (world (mutex_end mutex_inside)).2 !! 10%positive =
          Some (mutex_at (mutex_end mutex_inside) 10%positive)) as Hk.
  { apply mutex_at_lookup. vm_compute. reflexivity. }
  pose proof (mutex_exclusion unused (fun _ => 0) unused_new
    [(10%positive, 11%positive)] _ _ _ _ _ _ (NoDup_singleton _) Hr Hs Hk) as H.
  rewrite Hp in H. exact (proj2 (proj2 H)).
Defined.

Lemma mutex_released_on_exit_witness :
  exists s', do_step unused (fun _ => 0) Exit (mutex_end mutex_inside) = Next s' /\
    stack s' = [] /\
    forall m k, locks (world s').2 !! m = Some k -> m_pth k <> Some 1%positive.
Proof.
  apply (mutex_released_on_exit unused (fun _ => 0) unused_new
    [(10%positive, 11%positive)] mutex_inside).
  - apply NoDup_singleton.
  - change (mutex_run mutex_inside = Next (mutex_end mutex_inside)).
    apply mutex_end_run. vm_compute. reflexivity.
  - vm_compute. reflexivity.
Defined.
