(* ===== verification/Rwlock.v ===== *)
(** * Readers/writers locks ([src/pthr_rwlock.c])

    The operations of the source, the instance of the lock interface they
    give, and what readers and writers can rely on. *)

From stdpp Require Import base list gmap.
From S2P Require Import Prelude C2lib Forest ReactorHandles ReactorTimers Reactor WaitQueue Locks.

(** Clean-up functions: [rw_do_release] with its [cleanup_data], and
    [_delete_rwlock]. *)
Inductive rwlock_cleanup := RwRelease (t : pth) (rw : loc) | DeleteRwlock (rw : loc).

(** The mode of [rwlock_enter_read] and of [rwlock_enter_write]. *)
Inductive rw_mode := Read | Write.

#[export] Instance rw_mode_eq_dec : EqDecision rw_mode.
Proof. solve_decision. Defined.

Section rwlock.
Context {vec : Type -> Type} `{VL : Vector vec} {hash : Type -> Type} `{HL : Hash hash}.
Context `{PL : Pools (cleanup rwlock_cleanup)}.

Record rwlock := Rwlock {
  rw_n : Z;
  writers_wq : loc;
  readers_wq : loc;
  rw_pools : hash pool;
  writers_have_priority : bool
}.

Abbreviation W :=
  (reactor prepoll_fn loc (X := rwlock_cleanup) * env rwlock rwlock_cleanup vec)%type.

Context (pmalloc : W -> loc) (junk : loc -> Z).

(** [rw], [rq] and [wq] are the addresses of the lock and of its queues. *)
Definition new_rwlock (rw rq wq : loc) (p : pool) (w : W) : W :=
  let w1 := new_wait_queue wq (new_wait_queue rq w) in
  let w2 := set_lock rw (Rwlock 0 wq rq new_hash true) w1 in
  (with_pools (pool_register_cleanup_fn p (COther (DeleteRwlock rw)) (rpools w2.1)) w2.1, w2.2).

Definition delete_rwlock (rw : loc) (w : W) : option W :=
  k ← locks w.2 !! rw;
  if decide (rw_n k = 0) then Some w else None.

Definition set_priority (b : bool) (rw : loc) (w : W) : option W :=
  k ← locks w.2 !! rw;
  Some (set_lock rw (Rwlock (rw_n k) (writers_wq k) (readers_wq k) (rw_pools k) b) w).

Definition rwlock_writers_have_priority : loc -> W -> option W := set_priority true.

Definition rwlock_readers_have_priority : loc -> W -> option W := set_priority false.

(** The subpool of the current thread and its clean-up function. *)
Definition rw_do_enter (rw : loc) (w : W) : option W :=
  k ← locks w.2 !! rw;
  tp ← pth_pool w.2 !! current_pth w.2;
  let '(p, ps) := new_subpool tp (rpools w.1) in
  let k1 := Rwlock (rw_n k) (writers_wq k) (readers_wq k)
              (hash_insert (rw_pools k) (current_pth w.2) p) (writers_have_priority k) in
  let ps := pool_register_cleanup_fn p (COther (RwRelease (current_pth w.2) rw)) ps in
  Some (set_lock rw k1 (with_pools ps w.1, w.2)).

Definition set_n (n : Z) (k : rwlock) : rwlock :=
  Rwlock n (writers_wq k) (readers_wq k) (rw_pools k) (writers_have_priority k).

Definition rwlock_try_enter_read (rw : loc) (w : W) : option (bool * W) :=
  k ← locks w.2 !! rw;
  if (0 <=? rw_n k) && (negb (writers_have_priority k) ||
       (wq_nr_sleepers (writers_wq k) w =? 0)%nat)
  then
    w1 ← rw_do_enter rw w;
    k1 ← locks w1.2 !! rw;
    Some (true, set_lock rw (set_n (rw_n k1 + 1) k1) w1)
  else Some (false, w).

Definition rwlock_try_enter_write (rw : loc) (w : W) : option (bool * W) :=
  k ← locks w.2 !! rw;
  if rw_n k =? 0 then
    w1 ← rw_do_enter rw w;
    k1 ← locks w1.2 !! rw;
    Some (true, set_lock rw (set_n (-1) k1) w1)
  else Some (false, w).

Definition rw_do_release (t : pth) (rw : loc) (w : W) : option W :=
  k ← locks w.2 !! rw;
  if decide (rw_n k = 0) then None
  else
    h ← hash_erase (rw_pools k) t;
    let k1 := Rwlock (rw_n k) (writers_wq k) (readers_wq k) h (writers_have_priority k) in
    if decide (0 < rw_n k) then
      let w1 := set_lock rw (set_n (rw_n k - 1) k1) w in
      if decide (rw_n k - 1 = 0) then
        if decide (0 < wq_nr_sleepers (writers_wq k) w1)%nat
        then wq_wake_up_one pmalloc junk (writers_wq k) w1 else Some w1
      else Some w1
    else
      let w1 := set_lock rw (set_n 0 k1) w in
      if decide (0 < wq_nr_sleepers (writers_wq k) w1)%nat
      then wq_wake_up_one pmalloc junk (writers_wq k) w1
      else if decide (0 < wq_nr_sleepers (readers_wq k) w1)%nat
      then wq_wake_up_one pmalloc junk (readers_wq k) w1 else Some w1.

Definition run_rwlock_cleanup (c : rwlock_cleanup) : W -> option W :=
  match c with RwRelease t rw => rw_do_release t rw | DeleteRwlock rw => delete_rwlock rw end.

Definition rwlock_leave (rw : loc) (w : W) : option W :=
  k ← locks w.2 !! rw;
  p ← hash_get (rw_pools k) (current_pth w.2);
  delete_pool_w run_rwlock_cleanup p w.

(** ** The instance of the interface *)

(** [n] counts the threads in the critical section, -1 standing for one
    writer. *)
Definition rwlock_wf (k : rwlock) : Prop :=
  (rw_n k = -1 /\ size (entries (rw_pools k)) = 1%nat) \/
  rw_n k = Z.of_nat (size (entries (rw_pools k))).

Definition rw_can_enter (md : rw_mode) (k : rwlock) (ns : loc -> nat) : bool :=
  match md with
  | Read => (0 <=? rw_n k) && (negb (writers_have_priority k) || (ns (writers_wq k) =? 0)%nat)
  | Write => rw_n k =? 0
  end.

Definition rw_entered (md : rw_mode) (t : pth) (p : pool) (k : rwlock) : rwlock :=
  Rwlock (match md with Read => rw_n k + 1 | Write => -1 end) (writers_wq k) (readers_wq k)
    (hash_insert (rw_pools k) t p) (writers_have_priority k).

Definition rw_released (t : pth) (k : rwlock) (ns : loc -> nat) : rwlock * option loc :=
  let n := if decide (0 < rw_n k) then rw_n k - 1 else 0 in
  (Rwlock n (writers_wq k) (readers_wq k) (default (rw_pools k) (hash_erase (rw_pools k) t))
     (writers_have_priority k),
   if decide (n = 0) then
     if decide (0 < ns (writers_wq k))%nat then Some (writers_wq k)
     else if decide (rw_n k <= 0 /\ (0 < ns (readers_wq k))%nat) then Some (readers_wq k)
     else None
   else None).

Definition rw_queue (md : rw_mode) (k : rwlock) : loc :=
  match md with Read => readers_wq k | Write => writers_wq k end.

Lemma rw_erase_held k t :
  is_Some (entries (rw_pools k) !! t) -> exists h, hash_erase (rw_pools k) t = Some h /\
    entries h = delete t (entries (rw_pools k)) /\
    size (entries (rw_pools k)) = S (size (entries h)).
Proof.
  intros [p Hp]. pose proof (erase_entries _ (rw_pools k) t) as He.
  destruct (hash_erase (rw_pools k) t) as [h|]; [|congruence].
  destruct He as [_ He]. exists h. split; [done|]. split; [done|].
  rewrite He, <- (insert_delete_id _ _ _ Hp) at 1.
  by rewrite map_size_insert_None by apply lookup_delete_eq.
Qed.

(** A lock that somebody holds is not free. *)
Lemma rw_held_n k t :
  rwlock_wf k -> is_Some (entries (rw_pools k) !! t) ->
  rw_n k <> 0 /\ (0 < rw_n k \/ rw_n k = -1).
Proof.
  intros Hwf Hp. destruct (rw_erase_held k t Hp) as (h & _ & _ & Hs).
  destruct Hwf as [[Hn Hsz]|Hn]; lia.
Qed.

#[export] Instance rw_lock : Lock (L := rwlock) (M := rw_mode) pmalloc junk.
Proof.
  refine {|
    mode_eq_dec := rw_mode_eq_dec;
    lock_wq := rw_queue;
    try_enter md := match md with Read => rwlock_try_enter_read
                                | Write => rwlock_try_enter_write end;
    leave := rwlock_leave;
    run_release := run_rwlock_cleanup;
    held k := entries (rw_pools k);
    can_enter := rw_can_enter;
    enter_lock := rw_entered;
    release_lock := rw_released;
    rel_of := RwRelease;
    lock_wf := rwlock_wf;
    exclusive md := match md with Read => false | Write => true end
  |}.
  - intros md l w k tp Hl Ht. destruct md; simpl;
      [unfold rwlock_try_enter_read|unfold rwlock_try_enter_write]; rewrite Hl; simpl;
      (destruct (_ : bool); [|done]); unfold rw_do_enter; rewrite Hl, Ht; simpl;
      destruct (new_subpool _ _) as [p ps]; simpl; rewrite lookup_insert_eq; simpl;
      unfold set_lock; simpl; by rewrite insert_insert_eq.
  - intros l w k Hl Hwf. unfold rwlock_leave. rewrite Hl. simpl. rewrite get_entries.
    by destruct (entries _ !! _).
  - intros t l w k Hl Hwf Hh. simpl. unfold rw_do_release, rw_released. rewrite Hl. simpl.
    destruct (rw_held_n k t Hwf Hh) as (Hn0 & Hn). rewrite decide_False by done.
    destruct (rw_erase_held k t Hh) as (h & -> & _). simpl.
    destruct (decide (0 < rw_n k)) as [Hpos|Hneg].
    + destruct (decide (rw_n k - 1 = 0)); [|done].
      change (wq_nr_sleepers (writers_wq k) (set_lock l _ w)) with
        (wq_nr_sleepers (writers_wq k) w).
      destruct (decide (0 < wq_nr_sleepers (writers_wq k) w)%nat); [done|].
      by rewrite decide_False by lia.
    + rewrite (decide_True (P := 0 = 0)) by done.
      change (wq_nr_sleepers (writers_wq k) (set_lock l _ w)) with
        (wq_nr_sleepers (writers_wq k) w).
      change (wq_nr_sleepers (readers_wq k) (set_lock l _ w)) with
        (wq_nr_sleepers (readers_wq k) w).
      destruct (decide (0 < wq_nr_sleepers (writers_wq k) w)%nat); [done|].
      destruct (decide (0 < wq_nr_sleepers (readers_wq k) w)%nat);
        [rewrite decide_True by (split; [lia|done])|rewrite decide_False by naive_solver];
        done.
  - intros t l l' [=]. done.
  - intros md t p k ns Hwf Hh Hc. unfold rwlock_wf, rw_entered. simpl.
    rewrite entries_insert, map_size_insert_None by done.
    destruct md; simpl in Hc; [|left; destruct Hwf as [[]|]; lia].
    apply andb_true_iff in Hc as [Hc _]. right. destruct Hwf as [[]|]; lia.
  - intros md t p k ns _ _. apply entries_insert.
  - by intros [] [] t p k.
  - intros t k ns Hwf Hh. destruct (rw_erase_held k t Hh) as (h & He & Hd & Hs).
    unfold rwlock_wf, rw_released. simpl. rewrite He. simpl.
    destruct (rw_held_n k t Hwf Hh) as (Hn0 & Hn).
    right. destruct Hwf as [[Hn1 Hsz]|Hn1]; destruct (decide _); lia.
  - intros t k ns Hwf Hh. destruct (rw_erase_held k t Hh) as (h & He & Hd & Hs).
    unfold rw_released. simpl. by rewrite He.
  - by intros [] t k ns.
  - intros t k ns q. unfold rw_released. simpl.
    destruct (decide (_ = 0)); [|done].
    destruct (decide (0 < ns (writers_wq k))%nat); [intros [= <-]; split; [done|by exists Write]|].
    destruct (decide (rw_n k <= 0 /\ _)) as [[_ ?]|]; [|done]. intros [= <-]. split; [done|by exists Read].
  - by intros [] k ns ns'.
  - intros [] k ns t Hex Hwf Hh; [done|]. simpl.
    destruct (rw_held_n k t Hwf Hh) as (Hn0 & _). lia.
  - intros [] t k ns Hex Hwf Hh; [done|]. unfold rw_released. simpl. intros Hc Hns.
    rewrite decide_True by lia. by rewrite decide_True.
Defined.

(** One round of the loops of [rwlock_enter_read] and [rwlock_enter_write]. *)
Definition rwlock_enter_read (rw : loc) : W -> option (bool * W) :=
  enter_round pmalloc junk rw Read.

Definition rwlock_enter_write (rw : loc) : W -> option (bool * W) :=
  enter_round pmalloc junk rw Write.

(** ** What threads can rely on *)

(** A lock, its readers' queue, its writers' queue and who has priority. *)
Abbreviation rw_spec := (loc * loc * loc * bool)%type.

Definition make_rwlock (w : W) (x : rw_spec) : W :=
  let '(rw, rq, wq, b) := x in
  let w1 := new_rwlock rw rq wq global_pool w in
  default w1 (if b : bool then rwlock_writers_have_priority rw w1
              else rwlock_readers_have_priority rw w1).

(** The program after the locks [rws] were made in the global pool, before
    any thread runs. *)
Definition rwlock_world (rws : list rw_spec) : W :=
  foldl make_rwlock (reactor_init 0 0, Env 1%positive ∅ ∅ ∅ ∅ ∅) rws.

Definition rw_queues (x : rw_spec) : list loc := let '(_, rq, wq, _) := x in [rq; wq].

Record rwlocks_made (w : W) (rws : list rw_spec) : Prop := {
  made_forest : forest (rpools w.1) [];
  made_prepoll : head_prepoll w.1 = [];
  made_threads : pth_pool w.2 = ∅;
  made_infos : infos w.2 = ∅;
  made_queues : forall q v, queues w.2 !! q = Some v -> elems v = [];
  made_locks : forall l k, locks w.2 !! l = Some k ->
    (exists b, (l, readers_wq k, writers_wq k, b) ∈ rws) /\
    rw_n k = 0 /\ entries (rw_pools k) = ∅ /\
    forall md, is_Some (queues w.2 !! rw_queue md k)
}.

Lemma rwlock_world_made rws : rwlocks_made (rwlock_world rws) rws.
Proof.
  induction rws as [|[[[rw rq] wq] b] rws IH] using rev_ind.
  - split; simpl; try done. apply forest_init.
  - unfold rwlock_world. rewrite foldl_app. fold (rwlock_world rws).
    set (w := rwlock_world rws) in *.
    assert (exists w1, foldl make_rwlock w [(rw, rq, wq, b)] = w1 /\
      w1.1 = with_pools (pool_register_cleanup_fn global_pool (COther (DeleteRwlock rw))
               (rpools w.1)) w.1 /\
      pth_pool w1.2 = pth_pool w.2 /\ infos w1.2 = infos w.2 /\
      queues w1.2 = <[wq := new_vector]> (<[rq := new_vector]> (queues w.2)) /\
      locks w1.2 = <[rw := Rwlock 0 wq rq new_hash b]> (locks w.2))
      as (w1 & -> & E1 & E2 & E3 & E4 & E5).
    { eexists. split; [done|]. simpl. unfold rwlock_writers_have_priority,
        rwlock_readers_have_priority, set_priority. simpl. rewrite lookup_insert_eq.
      destruct b; simpl; by rewrite insert_insert_eq. }
    destruct IH. split; rewrite ?E1, ?E2, ?E3, ?E4, ?E5; simpl; try done.
    + by apply forest_register_global.
    + intros q v [[<- <-]|[_ [[<- <-]|[_ Hq]]%lookup_insert_Some]]%lookup_insert_Some;
        [apply elems_new..|eauto].
    + assert (forall q, is_Some (queues w.2 !! q) ->
        is_Some (<[wq := new_vector]> (<[rq := new_vector]> (queues w.2)) !! q)) as Hq.
      { intros q Hq. rewrite !lookup_insert_is_Some. destruct (decide (wq = q)); [by left|].
        destruct (decide (rq = q)); naive_solver. }
      intros l k [[<- <-]|[Hne Hk]]%lookup_insert_Some.
      * simpl. split; [exists b; apply elem_of_app; right; by left|].
        split; [done|]. split; [apply entries_new|]. intros md.
        rewrite !lookup_insert_is_Some. destruct md; simpl; [|by left].
        destruct (decide (wq = rq)); [by left|right; split; [done|by left]].
      * destruct (made_locks0 l k Hk) as ([b' Hin] & ? & ? & Hwq).
        split; [exists b'; apply elem_of_app; by left|]. auto.
Qed.

Context (pmalloc_new : forall w : W,
  infos w.2 !! pmalloc w = None /\ pmalloc w ∉ pp_id <$> head_prepoll w.1).

(** A queue belongs to one lock and one mode. *)
Lemma rw_queues_inj rws (x x' : rw_spec) md md' :
  let queue (x : rw_spec) (md : rw_mode) :=
    match md with Read => x.1.1.2 | Write => x.1.2 end in
  NoDup (concat (rw_queues <$> rws)) -> x ∈ rws -> x' ∈ rws ->
  queue x md = queue x' md' -> x = x' /\ md = md'.
Proof.
  intros queue. induction rws as [|y rws IH]; simpl; [by intros _ ?%not_elem_of_nil|].
  intros (Hy & Hd & Hnd)%NoDup_app.
  assert (forall z md, z ∈ rws -> queue z md ∈ concat (rw_queues <$> rws)) as Hin.
  { intros z md0 Hz. apply list_elem_of_In, in_concat. exists (rw_queues z).
    split; [apply list_elem_of_In; by apply list_elem_of_fmap_2|].
    destruct z as [[[rw rq] wq] b], md0; simpl; auto. }
  assert (forall md, queue y md ∈ rw_queues y) as Hyin.
  { intros md0. destruct y as [[[rw rq] wq] b], md0; set_solver. }
  intros [->|Hx]%elem_of_cons [->|Hx']%elem_of_cons Hq.
  - split; [done|]. destruct y as [[[rw rq] wq] b]. simpl in *.
    apply NoDup_cons in Hy as [Hy _]. rewrite list_elem_of_singleton in Hy.
    destruct md, md'; simpl in Hq; congruence.
  - exfalso. apply (Hd _ (Hyin md)). rewrite Hq. auto.
  - exfalso. apply (Hd _ (Hyin md')). rewrite <- Hq. auto.
  - eauto.
Qed.

Lemma rwlock_world_inv rws :
  NoDup (concat (rw_queues <$> rws)) -> inv pmalloc junk (initial (rwlock_world rws)).
Proof.
  intros Hnd. destruct (rwlock_world_made rws). apply initial_inv; try done.
  - intros l k Hk. destruct (made_locks0 l k Hk) as (_ & Hn & He & Hq). simpl.
    split; [|done]. right. rewrite He, map_size_empty. done.
  - intros l l' k k' md md' Hk Hk' E. simpl in E.
    destruct (made_locks0 l k Hk) as ([b Hin] & _).
    destruct (made_locks0 l' k' Hk') as ([b' Hin'] & _).
    destruct (rw_queues_inj rws _ _ md md' Hnd Hin Hin') as [Heq ->].
    { by destruct md, md'. }
    split; [congruence|done].
Qed.

Lemma rwlock_reachable rws acts s :
  NoDup (concat (rw_queues <$> rws)) ->
  run pmalloc junk acts (initial (rwlock_world rws)) = Next s ->
  no_reentry pmalloc junk acts (initial (rwlock_world rws)) -> inv pmalloc junk s.
Proof.
  intros Hnd Hr Hno. eapply (run_inv pmalloc junk pmalloc_new); [|done|done].
  by apply rwlock_world_inv.
Qed.

(** C23: in every state the program can reach without a thread entering for reading
    a lock it is already inside, when nobody is in the critical
    section of a readers/writers lock and a thread is asleep in
    [rwlock_enter_write] for it, [do_wake_up] is about to resume a writer of
    this lock. *)
Theorem rwlock_no_lost_writer rws acts s rw k t :
  NoDup (concat (rw_queues <$> rws)) ->
  run pmalloc junk acts (initial (rwlock_world rws)) = Next s ->
  no_reentry pmalloc junk acts (initial (rwlock_world rws)) ->
  locks (world s).2 !! rw = Some k -> rw_n k = 0 ->
  stat s !! t = Some (TSleep rw Write) ->
  exists u, u ∈ pending (waking s) (world s) /\ stat s !! u = Some (TSleep rw Write).
Proof.
  intros Hnd Hr Hno Hk Hn Ht. apply rwlock_reachable in Hr; [|done..].
  apply (inv_no_lost_wakeup pmalloc junk s t rw Write k); try done.
  simpl. by rewrite Hn.
Qed.

(** C22: readers and writers exclude each other.  In every state reachable without a
    thread entering for reading a lock it is already inside (see
    [rwlock_reentry_aborts] for what happens then), the counter is -1 with one thread
    inside, or it is the number of threads inside, all of them alive; a thread that is
    not inside gets in as a writer exactly when nobody is inside, and as a reader
    exactly when no writer is inside and, if writers have priority, none is asleep. *)
Theorem rwlock_exclusion rws acts s t st rw k :
  NoDup (concat (rw_queues <$> rws)) ->
  run pmalloc junk acts (initial (rwlock_world rws)) = Next s ->
  no_reentry pmalloc junk acts (initial (rwlock_world rws)) ->
  stack s = t :: st -> locks (world s).2 !! rw = Some k ->
  entries (rw_pools k) !! t = None ->
  (rw_n k = -1 /\ size (entries (rw_pools k)) = 1%nat \/
   rw_n k = Z.of_nat (size (entries (rw_pools k)))) /\
  (forall u, is_Some (entries (rw_pools k) !! u) -> is_Some (stat s !! u)) /\
  (exists s' k', do_step pmalloc junk (Try rw Write) s = Next s' /\
     locks (world s').2 !! rw = Some k' /\
     if decide (entries (rw_pools k) = ∅)
     then rw_n k' = -1 /\ exists p, entries (rw_pools k') = {[t := p]} else s' = s) /\
  (exists s' k', do_step pmalloc junk (Try rw Read) s = Next s' /\
     locks (world s').2 !! rw = Some k' /\
     if decide (rw_n k <> -1 /\ (writers_have_priority k = true ->
                  wq_nr_sleepers (writers_wq k) (world s) = 0%nat))
     then rw_n k' = rw_n k + 1 /\
          exists p, entries (rw_pools k') = <[t := p]> (entries (rw_pools k))
     else s' = s).
Proof.
  intros Hnd Hr Hno E Hk Ht. apply rwlock_reachable in Hr as Hi; [|done..].
  destruct (inv_running pmalloc junk s t st Hi E) as (Hc & _ & _ & tp & Htp).
  destruct (inv_ok _ _ _ Hi) as [f Hok]. destruct (ok_lock _ _ _ _ _ Hok rw k Hk) as [Hwf _].
  simpl in Hwf. split; [exact Hwf|]. split.
  { intros u Hu. by apply (inv_holder_alive pmalloc junk s rw k u Hi Hk). }
  assert (Sys (world s) (t :: st) (waking s) (stat s) = s) as Es
    by (destruct s; simpl in *; by subst).
  assert (forall md, do_step pmalloc junk (Try rw md) s = Next (if rw_can_enter md k
            (fun q => wq_nr_sleepers q (world s)) then
      let '(p, ps) := new_subpool tp (rpools (world s).1) in
      Sys (set_lock rw (rw_entered md t p k) (with_pools (pool_register_cleanup_fn p
        (COther (RwRelease t rw)) ps) (world s).1, (world s).2)) (t :: st) (waking s) (stat s)
      else s)) as Hstep.
  { intros md. pose proof (try_enter_ok md rw (world s) k tp Hk) as Htry. rewrite Hc in Htry.
    specialize (Htry Htp). simpl in Htry. simpl.
    rewrite E, Hk. rewrite Htry.
    destruct (rw_can_enter _ _ _); [by destruct (new_subpool _ _)|]. simpl. by rewrite Es. }
  split; rewrite Hstep.
  - simpl. destruct (rw_n k =? 0) eqn:Hn.
    + destruct (new_subpool _ _) as [p ps]. eexists _, _. split; [done|]. simpl.
      rewrite lookup_insert_eq. split; [done|].
      assert (entries (rw_pools k) = ∅) as Hem.
      { apply map_size_empty_inv. destruct Hwf as [[]|]; lia. }
      rewrite decide_True by done. split; [done|]. exists p. simpl.
      by rewrite entries_insert, Hem.
    + exists s, k. split; [done|]. split; [done|]. rewrite decide_False; [done|].
      intros Hem. destruct Hwf as [[_ Hs]|Hs]; rewrite Hem, map_size_empty in Hs; lia.
  - simpl. destruct (_ && _) eqn:Hn.
    + destruct (new_subpool _ _) as [p ps]. eexists _, _. split; [done|]. simpl.
      rewrite lookup_insert_eq. split; [done|]. rewrite decide_True.
      * split; [done|]. exists p. simpl. by rewrite entries_insert.
      * apply andb_true_iff in Hn as [Hn1 Hn2]. split; [lia|]. intros Hp.
        rewrite Hp in Hn2. simpl in Hn2. by apply Nat.eqb_eq in Hn2.
    + exists s, k. split; [done|]. split; [done|]. rewrite decide_False; [done|].
      intros [Hn1 Hp]. apply andb_false_iff in Hn as [Hn|Hn];
        [destruct Hwf as [[]|]; lia|].
      apply orb_false_iff in Hn as [Hn Hz]. apply Nat.eqb_neq in Hz. apply Hz, Hp.
      by destruct (writers_have_priority k).
Qed.

(** A thread that exits inside the critical sections of readers/writers
    locks leaves them all: deleting its pool runs the releases without
    aborting, and afterwards it is inside none. *)
Theorem rwlock_released_on_exit rws acts s t st :
  NoDup (concat (rw_queues <$> rws)) ->
  run pmalloc junk acts (initial (rwlock_world rws)) = Next s ->
  no_reentry pmalloc junk acts (initial (rwlock_world rws)) ->
  stack s = t :: st ->
  exists s', do_step pmalloc junk Exit s = Next s' /\ stack s' = st /\
    forall rw k, locks (world s').2 !! rw = Some k -> entries (rw_pools k) !! t = None.
Proof.
  intros Hnd Hr Hre E. apply rwlock_reachable in Hr as Hi; [|done..].
  pose proof (step_exit_inv pmalloc junk pmalloc_new s t st Hi E) as Hs.
  destruct (do_step pmalloc junk Exit s) as [s'| |] eqn:Hex; [|by simpl in Hex; rewrite E in Hex;
    destruct (thread_exit _ _ _)|done].
  destruct (exit_holds_nothing pmalloc junk pmalloc_new s t st s' Hi E Hex) as (_ & Hst & Hno).
  exists s'. split; [done|]. split; [done|]. exact Hno.
Qed.

End rwlock.

(** ** On concrete threads *)

Definition rw_run (l : list (action (M := rw_mode))) : outcome :=
  run (vec := list) (L := rwlock (hash := gmap positive)) unused (fun _ => 0) l
    (initial (rwlock_world [(10%positive, 11%positive, 12%positive, true)])).

(** The state a run ends in. *)
Definition rw_end (l : list action)
  : sys (L := rwlock (hash := gmap positive)) (M := rw_mode) (vec := list) :=
  match rw_run l with Next s => s | _ => initial (rwlock_world []) end.

Lemma rw_end_run l :
  (if rw_run l is Next _ then true else false) = true -> rw_run l = Next (rw_end l).
Proof. unfold rw_end. by destruct (rw_run l). Qed.

Definition rw_at (s : sys (L := rwlock (hash := gmap positive)) (M := rw_mode)
    (X := rwlock_cleanup) (vec := list)) (rw : loc) : rwlock :=
  default (Rwlock 0 rw rw ∅ true) (locks (world s).2 !! rw).

Lemma rw_at_lookup s rw :
  (if locks (world s).2 !! rw is Some _ then true else false) = true ->
  locks (world s).2 !! rw = Some (rw_at s rw).
Proof. unfold rw_at. by destruct (locks (world s).2 !! rw). Qed.

(** The counter of the lock at 10, its sleeping writers and readers, the
    threads about to be woken, the live threads. *)
Definition rw_view (s : sys (L := rwlock (hash := gmap positive)) (M := rw_mode)
    (X := rwlock_cleanup) (vec := list)) : Z * list pth * list pth * list pth * list pth :=
  let k := rw_at s 10%positive in
  (rw_n k, default [] (queues (world s).2 !! writers_wq k),
   default [] (queues (world s).2 !! readers_wq k),
   pending (waking s) (world s), (map_to_list (stat s)).*1).

(** A writer is inside, two readers wait; the writer leaves, which wakes one
    reader; that reader enters and leaves; both exit. *)
Definition two_readers : list action :=
  [Start 1%positive; Enter 10%positive Write; Block;
   Start 2%positive; Enter 10%positive Read;
   Start 3%positive; Enter 10%positive Read;
   Resume 1%positive; Leave 10%positive; Exit;
   Turn; Prepoll; Wake; Leave 10%positive; Exit; Wake].

(** A waiting reader can be forgotten.  A writer that leaves wakes only
    one of the waiting readers, and a reader that leaves wakes none: the
    other reader stays asleep although the lock is free, nobody is inside, no
    wake-up is pending and no other thread exists. *)
Theorem rwlock_reader_forgotten :
  rw_run two_readers = Next (rw_end two_readers) /\
  rw_view (rw_end two_readers) = (0, [], [3%positive], [], [3%positive]) /\
  stack (rw_end two_readers) = [] /\
  do_step unused (fun _ => 0) Prepoll (rw_end two_readers) = Disabled /\
  do_step unused (fun _ => 0) Wake (rw_end two_readers) = Disabled.
Proof.
  split; [apply rw_end_run; vm_compute; reflexivity|].
  split; [vm_compute; reflexivity|]. split; [vm_compute; reflexivity|].
  split; vm_compute; reflexivity.
Qed.

(** A thread may enter a lock twice for reading, which counts twice, but the hash of
    the lock keeps one subpool for it: its second [rwlock_leave] aborts the program,
    and so does the end of the thread, in [_do_release]. *)
Theorem rwlock_reentry_aborts :
  rw_view (rw_end [Start 1%positive; Enter 10%positive Read; Enter 10%positive Read]) =
    (2, [], [], [], [1%positive]) /\
  size (entries (rw_pools (rw_at
    (rw_end [Start 1%positive; Enter 10%positive Read; Enter 10%positive Read]) 10%positive))) = 1%nat /\
  rw_run [Start 1%positive; Enter 10%positive Read; Enter 10%positive Read; Leave 10%positive;
          Leave 10%positive] = Aborted /\
  rw_run [Start 1%positive; Enter 10%positive Read; Enter 10%positive Read; Exit] = Aborted.
Proof. split_and!; vm_compute; reflexivity. Qed.

(** A writer waits for a reader; the reader leaves. *)
Definition writer_woken : list action :=
  [Start 1%positive; Enter 10%positive Read; Block;
   Start 2%positive; Enter 10%positive Write;
   Resume 1%positive; Leave 10%positive; Block].

Lemma one_lock_queues :
  NoDup (concat (rw_queues <$> [(10%positive, 11%positive, 12%positive, true)])).
Proof. vm_compute. apply (bool_decide_unpack _). vm_compute. exact I. Qed.

Lemma rwlock_no_lost_writer_witness :
  exists u, u ∈ pending (waking (rw_end writer_woken)) (world (rw_end writer_woken)) /\
    stat (rw_end writer_woken) !! u = Some (TSleep 10%positive Write).
Proof.
  assert (locks (world (rw_end writer_woken)).2 !! 10%positive =
          Some (rw_at (rw_end writer_woken) 10%positive)) as Hk.
  { apply rw_at_lookup. vm_compute. reflexivity. }
  apply (rwlock_no_lost_writer unused (fun _ => 0) unused_new
    [(10%positive, 11%positive, 12%positive, true)] writer_woken (rw_end writer_woken)
    10%positive (rw_at (rw_end writer_woken) 10%positive) 2%positive one_lock_queues); [| |exact Hk|..].
  - change (rw_run writer_woken = Next (rw_end writer_woken)).
    apply rw_end_run. vm_compute. reflexivity.
  - apply (bool_decide_unpack _). vm_compute. exact I.
  - vm_compute. reflexivity.
  - vm_compute. reflexivity.
Defined.

(** Thread 1 reads, thread 2 runs. *)
Definition one_reader : list action :=
  [Start 1%positive; Enter 10%positive Read; Block; Start 2%positive].

Lemma rwlock_exclusion_witness :
  exists s' k', do_step unused (fun _ => 0) (Try 10%positive Read) (rw_end one_reader) =
      Next s' /\
    locks (world s').2 !! 10%positive = Some k' /\ rw_n k' = 2.
Proof.
  assert (locks (world (rw_end one_reader)).2 !! 10%positive =
          Some (rw_at (rw_end one_reader) 10%positive)) as Hk.
  { apply rw_at_lookup. vm_compute. reflexivity. }
  assert (run unused (fun _ => 0) one_reader (initial (rwlock_world
            [(10%positive, 11%positive, 12%positive, true)])) = Next (rw_end one_reader)) as Hr.
  { change (rw_run one_reader = Next (rw_end one_reader)).
    apply rw_end_run. vm_compute. reflexivity. }
  assert (no_reentry unused (fun _ => 0) one_reader (initial (rwlock_world
            [(10%positive, 11%positive, 12%positive, true)]))) as Hno.
  { apply (bool_decide_unpack _). vm_compute. exact I. }
  assert (stack (rw_end one_reader) = [2%positive]) as Hs by (vm_compute; reflexivity).
  assert (entries (rw_pools (rw_at (rw_end one_reader) 10%positive)) !! 2%positive = None)
    as He by (vm_compute; reflexivity).
  assert (rw_n (rw_at (rw_end one_reader) 10%positive) = 1) as Hn by (vm_compute; reflexivity).
  destruct (rwlock_exclusion unused (fun _ => 0) unused_new
    [(10%positive, 11%positive, 12%positive, true)] _ _ _ _ _ _ one_lock_queues Hr Hno Hs Hk He)
    as (_ & _ & _ & s' & k' & Hst & Hk' & Hif).
  rewrite decide_True in Hif.
  - exists s', k'. rewrite Hn in Hif. destruct Hif as [-> _]. split; [exact Hst|].
    split; [exact Hk'|reflexivity].
  - split; [rewrite Hn; discriminate|]. intros _. vm_compute. reflexivity.
Defined.

Lemma rwlock_released_on_exit_witness :
  exists s', do_step unused (fun _ => 0) Exit (rw_end
      [Start 1%positive; Enter 10%positive Read]) = Next s' /\ stack s' = [] /\
    forall rw k, locks (world s').2 !! rw = Some k -> entries (rw_pools k) !! 1%positive = None.
Proof.
  apply (rwlock_released_on_exit unused (fun _ => 0) unused_new
    [(10%positive, 11%positive, 12%positive, true)]
    [Start 1%positive; Enter 10%positive Read] _ _ _ one_lock_queues).
  - change (rw_run [Start 1%positive; Enter 10%positive Read] =
            Next (rw_end [Start 1%positive; Enter 10%positive Read])).
    apply rw_end_run. vm_compute. reflexivity.
  - apply (bool_decide_unpack _). vm_compute. exact I.
  - vm_compute. reflexivity.
Defined.
