(* ===== verification/Prog.v ===== *)
(** * Bytes and thread programs

    C characters are [Byte.byte]; a C string is the list of its characters
    before the terminating NUL.  Code that runs in a pseudothread is a function
    of the state that ends in one of the ways a C function of pthrlib can. *)

From stdpp Require Import base list gmap.
From Stdlib Require Import Strings.Byte.
From Stdlib Require Strings.String.
Export String.StringSyntax.
From S2P Require Import Prelude.

(** ** Bytes *)

Abbreviation bytes := (list byte).

#[export] Instance byte_eq_dec : EqDecision byte.
Proof.
  refine (fun a b => match Byte.eqb a b as x return Byte.eqb a b = x -> _ with
    | true => fun H => left (Byte.byte_dec_bl a b H)
    | false => fun H => right _ end eq_refl).
  intros E. by rewrite (Byte.byte_dec_lb E) in H.
Defined.

(** String literals as bytes. *)
Definition lit (s : String.string) : bytes := String.list_byte_of_string s.
Arguments lit s%_string_scope.

Definition byte_val (b : byte) : Z := Z.of_N (Byte.to_N b).

(** The value of a [char], which is signed, converted to [int]. *)
Definition char_val (b : byte) : Z := to_char (byte_val b).

(** The conversion of an [int] to a [char]. *)
Definition to_byte (z : Z) : byte :=
  match Byte.of_N (Z.to_N (z mod 256)) with Some b => b | None => x00 end.

Definition all_bytes : bytes :=
  omap (fun n => Byte.of_N (N.of_nat n)) (seq 0 256).

Lemma elem_all_bytes b : b ∈ all_bytes.
Proof. destruct b; vm_compute; repeat (first [by left|right]). Qed.

(** A decidable property of bytes is checked on the 256 of them. *)
Lemma byte_forall (P : byte -> bool) : forallb P all_bytes = true -> forall b, P b = true.
Proof.
  intros H b. rewrite forallb_forall in H. apply H, list_elem_of_In, elem_all_bytes.
Qed.

Lemma byte_prop (P : byte -> Prop) `{HP : !forall b, Decision (P b)} :
  forallb (fun b => bool_decide (P b)) all_bytes = true -> forall b, P b.
Proof.
  intros H b. apply (bool_decide_eq_true (P b)).
  exact (byte_forall (fun b => bool_decide (P b)) H b).
Qed.

Lemma to_byte_char_val b : to_byte (char_val b) = b.
Proof.
  apply Byte.byte_dec_bl, (byte_forall (fun b => Byte.eqb (to_byte (char_val b)) b)).
  vm_compute. reflexivity.
Qed.

Lemma byte_val_range b : 0 <= byte_val b < 256.
Proof.
  assert ((0 <=? byte_val b) && (byte_val b <? 256) = true) as H.
  { apply (byte_forall (fun b => (0 <=? byte_val b) && (byte_val b <? 256))).
    vm_compute. reflexivity. }
  lia.
Qed.

Lemma to_byte_val b : to_byte (byte_val b) = b.
Proof.
  apply Byte.byte_dec_bl, (byte_forall (fun b => Byte.eqb (to_byte (byte_val b)) b)).
  vm_compute. reflexivity.
Qed.

(** Characters of the source text. *)
Definition CR : byte := x0d.
Definition LF : byte := x0a.

(** ** Programs

    [Ret]: the function returns; [Die]: it calls [pth_die]; [PthExit]: it calls
    [pth_exit]; [Abort]: it calls [abort], fails an assertion or accesses
    memory outside an object; [NoFuel]: a loop was cut off by the model. *)

Inductive result (S A : Type) :=
  | Ret (a : A) (s : S)
  | Die (msg : bytes) (s : S)
  | PthExit (s : S)
  | Abort
  | NoFuel.
Arguments Ret {S A}.
Arguments Die {S A}.
Arguments PthExit {S A}.
Arguments Abort {S A}.
Arguments NoFuel {S A}.

Definition prog (S A : Type) : Type := S -> result S A.

#[export] Instance prog_ret S : MRet (prog S) := fun A a s => Ret a s.

#[export] Instance prog_bind S : MBind (prog S) := fun A B k m s =>
  match m s with
  | Ret a s' => k a s'
  | Die msg s' => Die msg s'
  | PthExit s' => PthExit s'
  | Abort => Abort
  | NoFuel => NoFuel
  end.

Section prog.
Context {S : Type}.

Definition pth_die {A} (msg : bytes) : prog S A := fun s => Die msg s.
Definition pth_exit {A} : prog S A := fun s => PthExit s.
Definition abort {A} : prog S A := fun s => Abort.
Definition get_state : prog S S := fun s => Ret s s.
Definition put_state (s : S) : prog S unit := fun _ => Ret tt s.

(** [≫=] with a continuation that takes the state. *)
Definition andthen {A B} (m : prog S A) (k : A -> S -> result S B) : prog S B := m ≫= k.

(** A value that must be there. *)
Definition expect {A} (o : option A) : prog S A :=
  match o with Some a => mret a | None => abort end.

Lemma bind_ret {A B} (m : prog S A) (k : A -> prog S B) s a s' :
  m s = Ret a s' -> (m ≫= k) s = k a s'.
Proof. unfold mbind, prog_bind. by intros ->. Qed.

Lemma bind_exit {A B} (m : prog S A) (k : A -> prog S B) s s' :
  m s = PthExit s' -> (m ≫= k) s = PthExit s'.
Proof. unfold mbind, prog_bind. by intros ->. Qed.

Lemma bind_assoc {A B C} (m : prog S A) (f : A -> prog S B) (g : B -> prog S C) s :
  ((m ≫= f) ≫= g) s = (m ≫= (fun a => f a ≫= g)) s.
Proof. unfold mbind, prog_bind. by destruct (m s). Qed.
End prog.

(** Doing the same to each element in order. *)
Fixpoint for_each {S A : Type} (f : A -> prog S unit) (l : list A) : prog S unit :=
  match l with
  | [] => mret tt
  | a :: l => f a ≫= fun _ => for_each f l
  end.
