(* ===== verification/Cstring.v ===== *)
(** * C strings and the string functions of c2lib

    The functions of [string.h], [ctype.h] and [stdio.h] that the HTTP, CGI,
    FTP and database code uses, in the C locale, and the interface of c2lib's
    string functions and string hashes ([pstring.h], [hash.h]).  A string is
    the list of its characters before the NUL. *)

From stdpp Require Import base list gmap.
From Stdlib Require Import Strings.Byte.
From S2P Require Import Prelude C2lib Prog.

#[export] Instance byte_countable : Countable byte.
Proof.
  refine (inj_countable' Byte.to_nat (fun n => default x00 (Byte.of_nat n)) _).
  intros b. by rewrite Byte.of_to_nat.
Defined.

Definition NUL : byte := x00.

(** ** Buffers *)

(** The string at the start of a buffer. *)
Fixpoint cstr (buf : bytes) : bytes :=
  match buf with
  | [] => []
  | b :: t => if decide (b = NUL) then [] else b :: cstr t
  end.

(** Storing a character in a buffer, [None] outside it. *)
Definition poke (j : nat) (b : byte) (buf : bytes) : option bytes :=
  if decide (j < length buf)%nat then Some (<[j := b]> buf) else None.

(** ** [ctype.h] *)

Definition between (lo hi : byte) (b : byte) : bool :=
  (byte_val lo <=? byte_val b) && (byte_val b <=? byte_val hi).

Definition isdigit (b : byte) : bool := between "0" "9" b.
Definition isupper (b : byte) : bool := between "A" "Z" b.
Definition islower (b : byte) : bool := between "a" "z" b.
Definition isalnum (b : byte) : bool := isdigit b || isupper b || islower b.
Definition isspace (b : byte) : bool := between x09 x0d b || bool_decide (b = " "%byte).
Definition tolower (b : byte) : byte := if isupper b then to_byte (byte_val b + 32) else b.

(** ** [string.h] *)

(** The parts before and after the first [c]. *)
Fixpoint strchr (s : bytes) (c : byte) : option (bytes * bytes) :=
  match s with
  | [] => None
  | b :: t =>
    if decide (b = c) then Some ([], t)
    else '(l, r) ← strchr t c; Some (b :: l, r)
  end.

(** [strncmp (s, p, n) == 0] and [strncasecmp (s, p, n) == 0] *)
Definition strncmp_eq (s p : bytes) (n : nat) : bool := bool_decide (take n s = take n p).
Definition strcasecmp_eq (s p : bytes) : bool :=
  bool_decide (tolower <$> s = tolower <$> p).
Definition strncasecmp_eq (s p : bytes) (n : nat) : bool :=
  strcasecmp_eq (take n s) (take n p).

Lemma strchr_app a b c : (c ∉ a) -> strchr (a ++ c :: b) c = Some (a, b).
Proof.
  induction a as [|x a IH]; simpl; [by rewrite decide_True|]. rewrite not_elem_of_cons.
  intros [Hx Ha]. by rewrite decide_False, IH by done.
Qed.

Lemma strchr_none a c : (c ∉ a) -> strchr a c = None.
Proof.
  induction a as [|x a IH]; simpl; [done|]. rewrite not_elem_of_cons.
  intros [Hx Ha]. by rewrite decide_False, IH by done.
Qed.

Lemma strchr_none_inv a c : strchr a c = None -> c ∉ a.
Proof.
  induction a as [|x a IH]; simpl; [intros _; apply not_elem_of_nil|].
  destruct (decide (x = c)); [done|]. destruct (strchr a c) as [[l r]|]; simpl; [done|].
  intros _. rewrite not_elem_of_cons. auto.
Qed.

Lemma strchr_some s c a b : strchr s c = Some (a, b) -> s = a ++ c :: b /\ (c ∉ a).
Proof.
  revert a b. induction s as [|x s IH]; intros a b; simpl; [done|].
  destruct (decide (x = c)) as [->|Hx].
  - intros [= <- <-]. split; [done|]. apply not_elem_of_nil.
  - destruct (strchr s c) as [[l r]|]; simpl; [|done]. intros [= <- <-].
    destruct (IH l r eq_refl) as [-> Hc]. split; [done|]. rewrite not_elem_of_cons. auto.
Qed.

(** ** Numbers *)

Definition digit_char (d : Z) : byte :=
  to_byte (if decide (d < 10) then 48 + d else 55 + d).

Fixpoint digits (base : Z) (fuel : nat) (n : Z) (acc : bytes) : bytes :=
  match fuel with
  | O => acc
  | S k =>
    let acc := digit_char (n mod base) :: acc in
    if decide (n / base = 0) then acc else digits base k (n / base) acc
  end.

(** [%X] and [%d] *)
Definition print_uint (base n : Z) : bytes := digits base (S (Z.to_nat (Z.log2 n))) n [].
Definition print_int (n : Z) : bytes :=
  if decide (n < 0) then "-"%byte :: print_uint 10 (- n) else print_uint 10 n.

Definition digit_val (b : byte) : option Z :=
  if isdigit b then Some (byte_val b - 48)
  else if between "A" "F" b then Some (byte_val b - 55)
  else if between "a" "f" b then Some (byte_val b - 87)
  else None.

(** The number at the front of the string, in the given base; [None] without a
    digit. *)
Fixpoint scan_digits (base : Z) (s : bytes) (v : Z) : Z * bytes :=
  match s with
  | b :: t =>
    match digit_val b with
    | Some d => if decide (d < base) then scan_digits base t (base * v + d) else (v, s)
    | None => (v, s)
    end
  | [] => (v, s)
  end.

Definition scan_uint (base : Z) (s : bytes) : option (Z * bytes) :=
  match s with
  | b :: _ =>
    match digit_val b with
    | Some d => if decide (d < base) then Some (scan_digits base s 0) else None
    | None => None
    end
  | [] => None
  end.

Fixpoint skip_spaces (s : bytes) : bytes :=
  match s with
  | b :: t => if isspace b then skip_spaces t else s
  | [] => []
  end.

(** [sscanf] with [%d]: white space, a sign, digits; a number that does not fit
    a [long] becomes the nearest that does. *)
Definition scan_int (s : bytes) : option (Z * bytes) :=
  let clamp v := Z.max INT_MIN (Z.min INT_MAX v) in
  match skip_spaces s with
  | b :: t =>
    if decide (b = "-"%byte) then '(v, r) ← scan_uint 10 t; Some (clamp (- v), r)
    else if decide (b = "+"%byte) then '(v, r) ← scan_uint 10 t; Some (clamp v, r)
    else '(v, r) ← scan_uint 10 (b :: t); Some (clamp v, r)
  | [] => None
  end.

(** Reading a printed number. *)

Lemma digit_val_char d : 0 <= d < 16 -> digit_val (digit_char d) = Some d.
Proof.
  intros Hd.
  assert (forallb (fun d => bool_decide (digit_val (digit_char d) = Some d)) (seqZ 0 16) = true)
    as H by (vm_compute; reflexivity).
  rewrite forallb_forall in H.
  eapply bool_decide_eq_true, H, list_elem_of_In, elem_of_seqZ. lia.
Qed.

Lemma digits_spec base fuel n acc :
  2 <= base <= 16 -> 0 <= n -> n < base ^ Z.of_nat fuel -> (0 < fuel)%nat ->
  exists d ds, digits base fuel n acc = (d :: ds) ++ acc /\ (length ds < fuel)%nat /\
    (exists x, 0 <= x < base /\ d = digit_char x) /\
    forall v tail, scan_digits base ((d :: ds) ++ tail) v =
      scan_digits base tail (v * base ^ Z.of_nat (S (length ds)) + n).
Proof.
  intros Hb. revert n acc. induction fuel as [|k IH]; intros n acc Hn Hlt Hf; [lia|].
  cbn [digits]. assert (0 <= n mod base < base) as Hm by (apply Z.mod_pos_bound; lia).
  assert (forall v tail, scan_digits base (digit_char (n mod base) :: tail) v =
    scan_digits base tail (base * v + n mod base)) as Hone.
  { intros v tail. cbn [scan_digits]. rewrite digit_val_char by lia. by rewrite decide_True by lia. }
  destruct (decide (n / base = 0)) as [Hz|Hz].
  - exists (digit_char (n mod base)), []. split; [done|]. split; [simpl; lia|].
    split; [by eexists|]. intros v tail. cbn [app]. rewrite Hone. f_equal. simpl length.
    rewrite (Z.div_mod n base) at 2 by lia. rewrite Hz. change (Z.of_nat 1) with 1. lia.
  - assert (0 < n / base) as Hpos by (pose proof (Z.div_pos n base); lia).
    rewrite Nat2Z.inj_succ, Z.pow_succ_r in Hlt by lia.
    assert (0 < k)%nat as Hk.
    { destruct k; [|lia]. change (base ^ Z.of_nat 0) with 1 in Hlt.
      rewrite Z.div_small in Hz by lia. done. }
    destruct (IH (n / base) (digit_char (n mod base) :: acc)) as (d & ds & -> & Hl & Hd & Hs);
      [lia|apply Z.div_lt_upper_bound; lia|done|].
    exists d, (ds ++ [digit_char (n mod base)]). rewrite length_app. simpl.
    split; [by rewrite <- app_assoc|]. split; [lia|]. split; [done|].
    intros v tail. rewrite <- app_assoc. cbn [app].
    transitivity (scan_digits base ((d :: ds) ++ digit_char (n mod base) :: tail) v); [done|].
    rewrite Hs, Hone. f_equal. pose proof (Z.div_mod n base ltac:(lia)) as Hdm.
    set (q := n / base) in *. set (m := n mod base) in *. clearbody q m. rewrite Hdm.
    replace (Z.of_nat (S (length ds + 1))) with (Z.succ (Z.of_nat (S (length ds)))) by lia.
    rewrite Z.pow_succ_r by lia. ring.
Qed.

Lemma print_uint_spec base n :
  2 <= base <= 16 -> 0 <= n ->
  (length (print_uint base n) <= S (Z.to_nat (Z.log2 n)))%nat /\
  (exists x ds, 0 <= x < base /\ print_uint base n = digit_char x :: ds) /\
  forall tail, (forall b, head tail = Some b -> digit_val b = None) ->
    scan_uint base (print_uint base n ++ tail) = Some (n, tail).
Proof.
  intros Hb Hn. unfold print_uint.
  assert (n < base ^ Z.of_nat (S (Z.to_nat (Z.log2 n)))) as Hlt.
  { rewrite Nat2Z.inj_succ, Z2Nat.id by apply Z.log2_nonneg.
    apply Z.lt_le_trans with (2 ^ Z.succ (Z.log2 n)).
    - destruct (Z.eq_dec n 0) as [->|Hn0]; [done|]. apply Z.log2_spec. lia.
    - apply Z.pow_le_mono_l. lia. }
  destruct (digits_spec base _ n [] Hb Hn Hlt) as (d & ds & -> & Hl & (x & Hx & ->) & Hs); [lia|].
  rewrite app_nil_r. split; [simpl; lia|]. split; [by exists x, ds|]. intros tail Ht. unfold scan_uint. cbn [app].
  rewrite digit_val_char by lia. rewrite decide_True by lia.
  f_equal. specialize (Hs 0 tail). cbn [app] in Hs. rewrite Hs. simpl. destruct tail as [|b tail]; [done|]. simpl.
  by rewrite (Ht b).
Qed.

Lemma scan_int_print n tail :
  0 <= n <= INT_MAX -> (forall b, head tail = Some b -> digit_val b = None) ->
  scan_int (print_int n ++ tail) = Some (n, tail).
Proof.
  intros Hn Ht. unfold print_int. rewrite decide_False by lia.
  destruct (print_uint_spec 10 n) as (_ & (x & ds & Hx & Hp) & Hs); [lia|lia|].
  specialize (Hs tail Ht). rewrite Hp in *. unfold scan_int. cbn [app skip_spaces] in *.
  assert (isspace (digit_char x) = false /\ digit_char x <> "-"%byte /\ digit_char x <> "+"%byte)
    as (H1 & H2 & H3).
  { assert (forallb (fun x => bool_decide (isspace (digit_char x) = false /\
      digit_char x <> "-"%byte /\ digit_char x <> "+"%byte)) (seqZ 0 10) = true) as H
      by (vm_compute; reflexivity).
    rewrite forallb_forall in H.
    eapply bool_decide_eq_true, H, list_elem_of_In, elem_of_seqZ. lia. }
  rewrite H1, !decide_False by done. rewrite Hs. cbn [mbind option_bind].
  unfold INT_MAX, INT_MIN in *. do 2 f_equal. lia.
Qed.

(** ** [pstring.h] *)

Fixpoint join (c : byte) (l : list bytes) : bytes :=
  match l with
  | [] => []
  | [s] => s
  | s :: l => s ++ c :: join c l
  end.

Class Pstring := {
  pstrlwr : bytes -> bytes;
  ptrim : bytes -> bytes;
  pstrcsplit : bytes -> byte -> list bytes;
  (** the regular expression is its source text *)
  pstrresplit : bytes -> bytes -> list bytes;
  pstrlwr_law : forall s, pstrlwr s = tolower <$> s;
  ptrim_law : forall a s b,
    Forall (fun c => isspace c = true) a -> Forall (fun c => isspace c = true) b ->
    (forall c, head s = Some c -> isspace c = false) ->
    (forall c, last s = Some c -> isspace c = false) ->
    ptrim (a ++ s ++ b) = s;
  pstrcsplit_law : forall c l,
    l <> [] -> Forall (fun s => s <> [] /\ (c ∉ s)) l -> pstrcsplit (join c l) c = l
}.

(** ** [hash.h]

    Hashes whose keys are strings. *)

Class Shash (shash : Type -> Type) := {
  sentries : forall {V}, shash V -> gmap bytes V;
  new_shash : forall {V}, shash V;
  shash_get : forall {V}, shash V -> bytes -> option V;
  shash_insert : forall {V}, shash V -> bytes -> V -> shash V;
  shash_erase : forall {V}, shash V -> bytes -> bool * shash V;
  shash_keys : forall {V}, shash V -> list bytes;
  sentries_new : forall V, sentries (@new_shash V) = ∅;
  get_sentries : forall V (h : shash V) k, shash_get h k = sentries h !! k;
  sentries_insert : forall V (h : shash V) k v,
    sentries (shash_insert h k v) = <[k := v]> (sentries h);
  erase_sentries : forall V (h : shash V) k,
    (shash_erase h k).1 = bool_decide (is_Some (sentries h !! k)) /\
    sentries (shash_erase h k).2 = delete k (sentries h);
  keys_sentries : forall V (h : shash V), shash_keys h ≡ₚ (map_to_list (sentries h)).*1
}.

Create Rewrite HintDb shash.
#[export] Hint Rewrite @sentries_new @get_sentries @sentries_insert : shash.

#[export] Program Instance map_shash : Shash (gmap bytes) := {|
  sentries V h := h;
  new_shash V := ∅;
  shash_get V h k := h !! k;
  shash_insert V h k v := <[k := v]> h;
  shash_erase V h k := (bool_decide (is_Some (h !! k)), delete k h);
  shash_keys V h := (map_to_list h).*1 |}.
Solve All Obligations with done.

(** An executable instance of the string functions. *)

Fixpoint split_at (c : byte) (s : bytes) : list bytes :=
  match s with
  | [] => [[]]
  | b :: t =>
    if decide (b = c) then [] :: split_at c t
    else match split_at c t with p :: l => (b :: p) :: l | [] => [[b]] end
  end.

(** Splitting at runs of white space, commas and semi-colons. *)
Fixpoint split_cookies (cur s : bytes) : list bytes :=
  match s with
  | [] => [cur]
  | b :: t =>
    if decide (b ∈ [" "%byte; x09; LF; ","%byte; ";"%byte])
    then match cur with [] => split_cookies [] t | _ => cur :: split_cookies [] t end
    else split_cookies (cur ++ [b]) t
  end.

Lemma skip_spaces_app a s :
  Forall (fun c => isspace c = true) a -> (forall c, head s = Some c -> isspace c = false) ->
  skip_spaces (a ++ s) = s.
Proof.
  induction 1 as [|x a Hx _ IH]; simpl.
  - destruct s as [|b s]; [done|]. intros H. simpl. by rewrite (H b).
  - by rewrite Hx.
Qed.

Lemma list_trim_law a s b :
  Forall (fun c => isspace c = true) a -> Forall (fun c => isspace c = true) b ->
  (forall c, head s = Some c -> isspace c = false) ->
  (forall c, last s = Some c -> isspace c = false) ->
  reverse (skip_spaces (reverse (skip_spaces (a ++ s ++ b)))) = s.
Proof.
  intros Ha Hb Hh Hl. destruct s as [|c s].
  - simpl. assert (skip_spaces (a ++ b) = []) as ->; [|done].
    rewrite <- (app_nil_r (a ++ b)). apply skip_spaces_app; [by apply Forall_app|done].
  - rewrite skip_spaces_app; [|done|by intros ? [= <-]; apply Hh].
    rewrite reverse_app, skip_spaces_app.
    + apply reverse_involutive.
    + by apply Forall_reverse.
    + intros d. rewrite head_reverse. apply Hl.
Qed.

Lemma split_at_piece c s : (c ∉ s) -> split_at c s = [s].
Proof.
  induction s as [|b s IH]; [done|]. rewrite not_elem_of_cons. intros [Hb Hs]. simpl.
  by rewrite decide_False, IH by done.
Qed.

Lemma split_at_sep c s t : (c ∉ s) -> split_at c (s ++ c :: t) = s :: split_at c t.
Proof.
  induction s as [|b s IH]; simpl; [by rewrite decide_True|]. rewrite not_elem_of_cons.
  intros [Hb Hs]. by rewrite decide_False, IH by done.
Qed.

Lemma split_at_law c l :
  l <> [] -> Forall (fun s => s <> [] /\ (c ∉ s)) l -> split_at c (join c l) = l.
Proof.
  intros Hl H. induction H as [|s l [_ Hs] H IH]; [done|]. destruct l as [|s' l].
  - by apply split_at_piece.
  - cbn [join]. rewrite split_at_sep by done. f_equal. by apply IH.
Qed.

#[export] Instance list_pstring : Pstring := {|
  pstrlwr s := tolower <$> s;
  ptrim s := reverse (skip_spaces (reverse (skip_spaces s)));
  pstrcsplit s c := split_at c s;
  pstrresplit s re := split_cookies [] s;
  pstrlwr_law s := eq_refl;
  ptrim_law := list_trim_law;
  pstrcsplit_law := split_at_law |}.
