(* ===== verification/Environ.v ===== *)
(** * Environment variables without [setenv] ([src/pthr_pseudothread.c])

    Where the C library has no [setenv], LANGUAGE and TZ of a thread are set with
    [putenv], which keeps pointers to the strings it is given.  The strings are in a
    store, the environment is a list of addresses, and the buffer of an entry of
    [putenv_map] would be changed in place while the environment points to it; but the
    new entries are not linked into that list. *)

From stdpp Require Import base list gmap.
From Stdlib Require Import Strings.Byte.
From S2P Require Import Prelude ReactorTimers Prog Cstring.

Record environment := Env {
  strings : gmap loc bytes;
  environ : list loc;
  (** names and the addresses of their buffers, the newest entry first *)
  putenv_map : list (bytes * loc)
}.

(** The name and the value of the string at an address. *)
Definition variable (strs : gmap loc bytes) (p : loc) : option (bytes * bytes) :=
  s ← strs !! p; strchr s "=".

Definition has_name (strs : gmap loc bytes) (n : bytes) (p : loc) : bool :=
  match variable strs p with Some (m, _) => bool_decide (m = n) | None => false end.

Fixpoint find_variable (strs : gmap loc bytes) (ps : list loc) (n : bytes) : option bytes :=
  match ps with
  | [] => None
  | p :: ps =>
    match variable strs p with
    | Some (m, v) => if decide (m = n) then Some v else find_variable strs ps n
    | None => find_variable strs ps n
    end
  end.

Definition getenv (n : bytes) (e : environment) : option bytes := find_variable (strings e) (environ e) n.

(** [putenv] of a string with an equals sign: its address takes the place of the
    first with that name, or is added. *)
Fixpoint put_pointer (strs : gmap loc bytes) (n : bytes) (p : loc) (ps : list loc) : list loc :=
  match ps with
  | [] => [p]
  | q :: ps => if has_name strs n q then p :: ps else q :: put_pointer strs n p ps
  end.

Definition putenv (p : loc) (e : environment) : environment :=
  match variable (strings e) p with
  | Some (n, _) => Env (strings e) (put_pointer (strings e) n p (environ e)) (putenv_map e)
  | None => e
  end.

(** Here [do_unsetenv (name)] is [putenv] of a string without an equals sign, which
    removes the variable of that name in the GNU C library. *)
Definition do_unsetenv (n : bytes) (e : environment) : environment :=
  Env (strings e) (filter (fun p => has_name (strings e) n p = false) (environ e)) (putenv_map e).

Definition ENV_SIZE : nat := 256.

(** [snprintf] into a buffer of that size. *)
Definition write_buffer (p : loc) (text : bytes) (e : environment) : environment :=
  Env (<[p := take (ENV_SIZE - 1) text]> (strings e)) (environ e) (putenv_map e).

Fixpoint find_entry (n : bytes) (l : list (bytes * loc)) : option loc :=
  match l with
  | [] => None
  | (m, p) :: l => if decide (m = n) then Some p else find_entry n l
  end.

(** The label [finish]. *)
Definition finish (p : loc) (n v : bytes) (e : environment) : environment :=
  putenv p (write_buffer p (n ++ lit "=" ++ v) e).

(** The new entry gets [next] and [name], but [putenv_map] is not set to it. *)
Definition do_setenv (n v : bytes) (e : environment) : environment :=
  match find_entry n (putenv_map e) with
  | Some p => finish p n v e
  | None => finish (fresh (dom (strings e))) n v e
  end.

(** [_restore_lang] and [_restore_tz]; [o] is the field of the thread. *)
Definition restore_variable (n : bytes) (o : option bytes) (e : environment) : environment :=
  match o with
  | None => do_unsetenv n e
  | Some v => do_setenv n v e
  end.

(** ** What programs see *)

Inductive env_call := SetEnv (n v : bytes) | UnsetEnv (n : bytes).

Definition call_env (c : env_call) (e : environment) : environment :=
  match c with
  | SetEnv n v => do_setenv n v e
  | UnsetEnv n => do_unsetenv n e
  end.

(** The variables as a function, and what [setenv] and [unsetenv] do; values are cut
    to what fits the buffer. *)
Definition cut (n v : bytes) : bytes := take (ENV_SIZE - 2 - length n) v.

Definition set_variable (c : env_call) (f : bytes -> option bytes) (m : bytes) : option bytes :=
  match c with
  | SetEnv n v => if decide (m = n) then Some (cut n v) else f m
  | UnsetEnv n => if decide (m = n) then None else f m
  end.

Definition name_ok (n : bytes) : Prop := ("="%byte ∉ n) /\ (length n < ENV_SIZE - 1)%nat.

Definition call_ok (c : env_call) : Prop :=
  match c with SetEnv n _ | UnsetEnv n => name_ok n end.

(** The environment points to strings; each buffer holds a variable of its name and
    belongs to one entry. *)
Record env_ok (e : environment) : Prop := {
  eo_strings : forall p, p ∈ environ e -> is_Some (strings e !! p);
  eo_map : forall n p, (n, p) ∈ putenv_map e -> exists v, variable (strings e) p = Some (n, v);
  eo_own : NoDup (putenv_map e).*2
}.

Lemma find_entry_elem n l p : find_entry n l = Some p -> (n, p) ∈ l.
Proof.
  induction l as [|[m q] l IH]; cbn [find_entry]; [done|]. destruct (decide (m = n)) as [->|Hne].
  - intros [= ->]. by left.
  - intros H%IH. by right.
Qed.

Lemma buffer_text n v :
  name_ok n -> strchr (take (ENV_SIZE - 1) (n ++ lit "=" ++ v)) "=" = Some (n, cut n v).
Proof.
  intros [Hn Hl]. unfold cut, ENV_SIZE in *. rewrite take_app_ge by lia.
  change (lit "=" ++ v) with ("="%byte :: v).
  replace (256 - 1 - length n)%nat with (S (256 - 2 - length n)) by lia. cbn [take]. by apply strchr_app.
Qed.

Lemma variable_insert strs p q s :
  variable (<[p := s]> strs) q = if decide (q = p) then strchr s "=" else variable strs q.
Proof.
  unfold variable. destruct (decide (q = p)) as [->|Hne]; [by rewrite lookup_insert_eq|].
  by rewrite lookup_insert_ne.
Qed.

(** The environment after the buffer [p] was written and put. *)
Section put.
Context (strs : gmap loc bytes) (p : loc) (n v : bytes) (s : bytes).
Context (Hs : strchr s "=" = Some (n, v)).

(** The buffer was not in use, or it was this variable. *)
Definition own_buffer (ps : list loc) : Prop := p ∈ ps -> exists v0, variable strs p = Some (n, v0).

Lemma put_same ps : find_variable (<[p := s]> strs) (put_pointer (<[p := s]> strs) n p ps) n = Some v.
Proof.
  assert (variable (<[p := s]> strs) p = Some (n, v)) as Hp by (by rewrite variable_insert, decide_True).
  induction ps as [|q ps IH]; cbn [put_pointer find_variable].
  - by rewrite Hp, decide_True.
  - unfold has_name. destruct (variable (<[p := s]> strs) q) as [[m w]|] eqn:Hq.
    + case_bool_decide as Hm; cbn [find_variable]; [by rewrite Hp, decide_True|].
      by rewrite Hq, decide_False by done.
    + cbn [find_variable]. by rewrite Hq.
Qed.

Lemma put_other ps m :
  own_buffer ps -> m <> n ->
  find_variable (<[p := s]> strs) (put_pointer (<[p := s]> strs) n p ps) m = find_variable strs ps m.
Proof.
  intros Hown Hm. assert (variable (<[p := s]> strs) p = Some (n, v)) as Hp by (by rewrite variable_insert, decide_True).
  assert (forall ps, own_buffer ps -> find_variable (<[p := s]> strs) ps m = find_variable strs ps m) as Hfind.
  { clear ps Hown. induction ps as [|q ps IH]; intros Ho; [done|]. cbn [find_variable].
    rewrite IH by (intros Hin; apply Ho; by right). rewrite variable_insert.
    destruct (decide (q = p)) as [->|Hne]; [|done]. destruct Ho as [v0 ->]; [by left|].
    by rewrite Hs, !decide_False by done. }
  induction ps as [|q ps IH]; cbn [put_pointer].
  - cbn [find_variable]. by rewrite Hp, decide_False by done.
  - assert (own_buffer ps) as Hown' by (intros Hin; apply Hown; by right).
    unfold has_name. destruct (variable (<[p := s]> strs) q) as [[m' w]|] eqn:Hq.
    + assert (m' = n -> find_variable strs (q :: ps) m = find_variable strs ps m) as Hskip.
      { intros ->. cbn [find_variable]. rewrite variable_insert in Hq. destruct (decide (q = p)) as [->|].
        - destruct Hown as [v0 ->]; [by left|]. by rewrite decide_False.
        - by rewrite Hq, decide_False. }
      case_bool_decide as Hmn.
      * rewrite Hskip by done. cbn [find_variable]. rewrite Hp, decide_False by done. by apply Hfind.
      * cbn [find_variable]. rewrite IH by done. rewrite Hq. rewrite variable_insert in Hq.
        destruct (decide (q = p)) as [->|]; [congruence|]. by rewrite Hq.
    + cbn [find_variable]. rewrite IH by done. rewrite Hq. rewrite variable_insert in Hq.
      destruct (decide (q = p)) as [->|]; [congruence|]. by rewrite Hq.
Qed.

Lemma put_elem ps q : q ∈ put_pointer (<[p := s]> strs) n p ps -> q = p \/ q ∈ ps.
Proof.
  induction ps as [|r ps IH]; cbn [put_pointer]; [rewrite list_elem_of_singleton; auto|].
  destruct (has_name _ n r); rewrite !elem_of_cons; naive_solver.
Qed.
End put.

Lemma finish_unfold p n v e :
  name_ok n ->
  let s := take (ENV_SIZE - 1) (n ++ lit "=" ++ v) in
  finish p n v e = Env (<[p := s]> (strings e)) (put_pointer (<[p := s]> (strings e)) n p (environ e)) (putenv_map e).
Proof.
  intros Hn s. unfold finish, putenv, write_buffer. cbn [strings environ putenv_map].
  rewrite variable_insert, decide_True by done. fold s. unfold s at 1. by rewrite buffer_text.
Qed.

Lemma finish_spec p n v e :
  name_ok n -> own_buffer (strings e) p n (environ e) ->
  forall m, getenv m (finish p n v e) = if decide (m = n) then Some (cut n v) else getenv m e.
Proof.
  intros Hn Hown m. rewrite finish_unfold by done. unfold getenv. cbn [strings environ].
  pose proof (buffer_text n v Hn) as Hs. destruct (decide (m = n)) as [->|Hne].
  - by eapply put_same.
  - by eapply put_other.
Qed.

Lemma finish_ok p n v e :
  name_ok n -> (forall q, q ∈ environ e -> is_Some (strings e !! q)) ->
  (forall m q, (m, q) ∈ putenv_map e -> q = p /\ m = n \/ q <> p /\ exists v0, variable (strings e) q = Some (m, v0)) ->
  NoDup (putenv_map e).*2 -> env_ok (finish p n v e).
Proof.
  intros Hn Hst Hmap Hnd. rewrite finish_unfold by done. split; cbn [strings environ putenv_map]; [| |done].
  - intros q Hq. apply put_elem in Hq as [->|Hq]; [rewrite lookup_insert_eq; by eexists|].
    destruct (decide (q = p)) as [->|Hne]; [rewrite lookup_insert_eq; by eexists|].
    rewrite lookup_insert_ne by done. by apply Hst.
  - intros m q Hq. rewrite variable_insert. destruct (Hmap m q Hq) as [[-> ->]|[Hne Hv]].
    + rewrite decide_True by done. eexists. by apply buffer_text.
    + by rewrite decide_False.
Qed.

Lemma setenv_step n v e :
  env_ok e -> name_ok n ->
  env_ok (do_setenv n v e) /\
  forall m, getenv m (do_setenv n v e) = if decide (m = n) then Some (cut n v) else getenv m e.
Proof.
  intros [Hst Hmap Hnd] Hn. unfold do_setenv. destruct (find_entry n (putenv_map e)) as [p|] eqn:Hf.
  - apply find_entry_elem in Hf. split.
    + apply finish_ok; try done. intros m q Hq. destruct (decide (q = p)) as [->|Hne]; [left|right; by auto].
      split; [done|]. destruct (Hmap _ _ Hf) as [v1 H1], (Hmap _ _ Hq) as [v2 H2]. congruence.
    + apply finish_spec; [done|]. intros _. by apply Hmap.
  - set (p := fresh (dom (strings e))).
    assert (strings e !! p = None) as Hp by (apply not_elem_of_dom, is_fresh).
    assert (p ∉ environ e) as Hpe by (intros [s Hs]%Hst; congruence).
    split.
    + apply finish_ok; try done. intros m q Hq. right. destruct (Hmap _ _ Hq) as [v0 Hv].
      split; [|by exists v0]. intros ->. unfold variable in Hv. by rewrite Hp in Hv.
    + apply finish_spec; [done|]. by intros ?.
Qed.

(** The list of entries never grows, and without entries every call takes a new
    buffer. *)
Definition sets (c : env_call) : nat := match c with SetEnv _ _ => 1 | UnsetEnv _ => 0 end.

Lemma call_env_buffers c e :
  call_ok c -> putenv_map (call_env c e) = putenv_map e /\
  (putenv_map e = [] -> size (strings (call_env c e)) = (size (strings e) + sets c)%nat).
Proof.
  intros Hc. destruct c as [n v|n]; cbn [call_env sets]; [|split; [done|intros _; cbn; lia]].
  unfold do_setenv. split.
  - destruct (find_entry n (putenv_map e)); by rewrite finish_unfold.
  - intros ->. cbn [find_entry]. rewrite finish_unfold by done. cbn [strings].
    rewrite map_size_insert_None; [lia|]. apply not_elem_of_dom, is_fresh.
Qed.

Lemma unsetenv_step n e :
  env_ok e -> env_ok (do_unsetenv n e) /\
  forall m, getenv m (do_unsetenv n e) = if decide (m = n) then None else getenv m e.
Proof.
  intros [Hst Hmap Hnd]. split.
  - split; [|done|done]. intros p Hp. apply list_elem_of_filter in Hp as [_ Hp]. by apply Hst.
  - intros m. unfold getenv, do_unsetenv. cbn [strings environ]. clear. induction (environ e) as [|p ps IH].
    { by destruct (decide (m = n)). }
    rewrite filter_cons. cbn [find_variable].
    assert (has_name (strings e) n p =
      match variable (strings e) p with Some (k, _) => bool_decide (k = n) | None => false end) as Hh by done.
    destruct (variable (strings e) p) as [[k v]|] eqn:Hv.
    + case_bool_decide as Hk; [rewrite decide_False by congruence|rewrite decide_True by done].
      * rewrite IH. subst k. destruct (decide (m = n)) as [->|Hne]; [done|]. by rewrite decide_False.
      * cbn [find_variable]. rewrite Hv, IH. destruct (decide (k = m)) as [->|]; [by rewrite decide_False|done].
    + rewrite decide_True by done. cbn [find_variable]. by rewrite Hv.
Qed.

Definition call_all (cs : list env_call) (e : environment) : environment :=
  foldl (fun e c => call_env c e) e cs.

Lemma call_step c e f :
  env_ok e -> call_ok c -> (forall m, getenv m e = f m) ->
  env_ok (call_env c e) /\ forall m, getenv m (call_env c e) = set_variable c f m.
Proof.
  intros He Hc Hf. destruct c as [n v|n]; cbn [call_env set_variable].
  - destruct (setenv_step n v e He Hc) as [? H]. split; [done|]. intros m. by rewrite H, Hf.
  - destruct (unsetenv_step n e He) as [? H]. split; [done|]. intros m. by rewrite H, Hf.
Qed.

(** C38: with [putenv] and buffers of its own, any sequence of calls has the effect of
    [setenv] and [unsetenv] on every variable, except that a value is cut to what fits a
    buffer of 256 bytes with the name.  No buffer is used a second time: beginning
    without entries, each call that sets a variable takes a new buffer for good, although
    the list of entries is meant to avoid this. *)
Theorem putenv_as_setenv cs e :
  env_ok e -> Forall call_ok cs ->
  env_ok (call_all cs e) /\
  (forall m, getenv m (call_all cs e) = foldl (fun f c => set_variable c f) (fun m => getenv m e) cs m) /\
  (putenv_map e = [] -> putenv_map (call_all cs e) = [] /\
    size (strings (call_all cs e)) = (size (strings e) + sum_list_with sets cs)%nat).
Proof.
  intros He Hcs. remember (fun m => getenv m e) as f eqn:Ef.
  assert (forall m, getenv m e = f m) as Hf by (by subst f). clear Ef. revert e f He Hf. unfold call_all.
  induction Hcs as [|c cs Hc _ IH]; intros e f He Hf; cbn [foldl sum_list_with].
  - split; [done|]. split; [done|]. intros. split; [done|lia].
  - destruct (call_step c e f He Hc Hf) as [He' Hf'], (call_env_buffers c e Hc) as [Hm Hs].
    destruct (IH _ _ He' Hf') as (I1 & I2 & I3). split; [done|]. split; [done|].
    intros Hnil. destruct I3 as [I3 ->]; [by rewrite Hm|]. rewrite Hs by done. split; [done|lia].
Qed.

(** ** Example *)

Definition sample_env : environment :=
  Env {[1%positive := lit "PATH=/bin"; 2%positive := lit "TZ=GMT"]} [1%positive; 2%positive] [].

Definition sample_env_calls : list env_call :=
  [SetEnv (lit "TZ") (lit "CET"); SetEnv (lit "LANGUAGE") (lit "de"); UnsetEnv (lit "TZ");
   SetEnv (lit "TZ") (lit "EST5EDT"); SetEnv (lit "LANGUAGE") (lit "cy")].

Lemma sample_env_ok : env_ok sample_env.
Proof.
  split; [|by intros n p ?%not_elem_of_nil|constructor]. intros p. cbn [sample_env environ].
  rewrite !elem_of_cons. intros [->|[->|?%not_elem_of_nil]]; [| |done].
  - by exists (lit "PATH=/bin").
  - by exists (lit "TZ=GMT").
Qed.

Lemma sample_env_calls_ok : Forall call_ok sample_env_calls.
Proof.
  unfold sample_env_calls. rewrite !Forall_cons. repeat split; try (by apply (bool_decide_unpack _)); try done;
    unfold ENV_SIZE; simpl; lia.
Qed.

Lemma putenv_as_setenv_witness :
  getenv (lit "TZ") (call_all sample_env_calls sample_env) = Some (lit "EST5EDT") /\
  getenv (lit "LANGUAGE") (call_all sample_env_calls sample_env) = Some (lit "cy") /\
  getenv (lit "PATH") (call_all sample_env_calls sample_env) = Some (lit "/bin") /\
  size (strings (call_all sample_env_calls sample_env)) = 6%nat.
Proof.
  destruct (putenv_as_setenv sample_env_calls sample_env sample_env_ok sample_env_calls_ok) as (_ & H & Hs).
  split; [|split; [|split]]; [etransitivity; [apply H|reflexivity]..|]. by apply Hs.
Defined.
