(* ===== verification/CgiEscape.v ===== *)
(** * Escaping of CGI arguments ([cgi_escape], [cgi_unescape] of [src/pthr_cgi.c])

    Both functions compute the size of a buffer, allocate it and fill it; a
    store outside the buffer is an error of the model.  The theorems show that
    there is none and that unescaping reverses escaping. *)

From stdpp Require Import base list gmap.
From Stdlib Require Import Strings.Byte.
From S2P Require Import Prelude Prog Cstring.

Section escape.
(** What a new block of memory holds. *)
Context (junk : nat -> byte).

(** [None]: a request for 2 GB or more, or for a negative size. *)
Definition pmalloc (n : Z) : option bytes :=
  if decide (0 <= n) then Some (junk <$> seq 0 (Z.to_nat n)) else None.

Definition hexdigits : bytes := lit "0123456789abcdef".

Definition is_plain (b : byte) : bool :=
  isalnum b || bool_decide (b = ","%byte) || bool_decide (b = "-"%byte).

(** The first loop: the length of the escaped string. *)
Fixpoint escaped_len (str : bytes) (new_len : Z) : Z :=
  match str with
  | [] => new_len
  | b :: str =>
    escaped_len str
      (to_int (new_len + if is_plain b || bool_decide (b = " "%byte) then 1 else 3))
  end.

(** The second loop. *)
Fixpoint escape_loop (str : bytes) (j : nat) (new_str : bytes) : option (nat * bytes) :=
  match str with
  | [] => Some (j, new_str)
  | b :: str =>
    if is_plain b then
      new_str ← poke j b new_str; escape_loop str (S j) new_str
    else if decide (b = " "%byte) then
      new_str ← poke j "+" new_str; escape_loop str (S j) new_str
    else
      hi ← hexdigits !! Z.to_nat (Z.land (Z.shiftr (char_val b) 4) 15);
      lo ← hexdigits !! Z.to_nat (Z.land (char_val b) 15);
      new_str ← poke j "%" new_str;
      new_str ← poke (S j) hi new_str;
      new_str ← poke (S (S j)) lo new_str;
      escape_loop str (S (S (S j))) new_str
  end.

Definition cgi_escape (str : bytes) : option bytes :=
  new_str ← pmalloc (to_int (escaped_len str 0 + 1));
  '(j, new_str) ← escape_loop str 0 new_str;
  new_str ← poke j NUL new_str;
  Some (cstr new_str).

Definition hex_to_int (c : byte) : Z :=
  if between "0" "9" c then char_val c - 48
  else if between "a" "f" c then char_val c - 97 + 10
  else if between "A" "F" c then char_val c - 65 + 10
  else -1.

(** The loop from [str[i]] on; [i + 2 < len] when two more characters follow. *)
Fixpoint unescape_loop (str : bytes) (j : nat) (new_str : bytes) : option (nat * bytes) :=
  match str with
  | [] => Some (j, new_str)
  | c :: t =>
    if decide (c = "%"%byte) then
      match t with
      | x :: y :: u =>
        let a := hex_to_int x in
        let b := hex_to_int y in
        if decide (a >= 0 /\ b >= 0) then
          new_str ← poke j (to_byte (Z.lor (Z.shiftl a 4) b)) new_str;
          unescape_loop u (S j) new_str
        else new_str ← poke j c new_str; unescape_loop t (S j) new_str
      | _ => new_str ← poke j c new_str; unescape_loop t (S j) new_str
      end
    else if decide (c = "+"%byte) then
      new_str ← poke j " " new_str; unescape_loop t (S j) new_str
    else new_str ← poke j c new_str; unescape_loop t (S j) new_str
  end.

Definition cgi_unescape (str : bytes) : option bytes :=
  new_str ← pmalloc (to_int (Z.of_nat (length str) + 1));
  '(j, new_str) ← unescape_loop str 0 new_str;
  new_str ← poke j NUL new_str;
  Some (cstr new_str).
End escape.

(** ** Reference definitions *)

Definition hex_of (n : Z) : byte := default x00 (hexdigits !! Z.to_nat n).

Definition escape_char (b : byte) : bytes :=
  if is_plain b then [b]
  else if decide (b = " "%byte) then ["+"%byte]
  else ["%"%byte; hex_of (byte_val b / 16); hex_of (byte_val b mod 16)].

Definition escaped (str : bytes) : bytes := str ≫= escape_char.

Fixpoint unescaped (str : bytes) : bytes :=
  match str with
  | [] => []
  | c :: t =>
    if decide (c = "%"%byte) then
      match t with
      | x :: y :: u =>
        if decide (hex_to_int x >= 0 /\ hex_to_int y >= 0)
        then to_byte (16 * hex_to_int x + hex_to_int y) :: unescaped u
        else c :: unescaped t
      | _ => c :: unescaped t
      end
    else (if decide (c = "+"%byte) then " "%byte else c) :: unescaped t
  end.

(** ** Buffers being filled *)

(** [buf] after [data] has been stored from index [j] on. *)
Definition filled (j : nat) (data buf : bytes) : bytes :=
  take j buf ++ data ++ drop (j + length data) buf.

Lemma filled_nil j buf : (j <= length buf)%nat -> filled j [] buf = buf.
Proof. intros. unfold filled. simpl. by rewrite Nat.add_0_r, take_drop. Qed.

Lemma filled_cons j b data buf :
  (j < length buf)%nat -> filled (S j) data (<[j := b]> buf) = filled j (b :: data) buf.
Proof.
  intros Hj. unfold filled. simpl. rewrite drop_insert_lt by lia.
  rewrite (take_S_r _ _ b) by (by apply list_lookup_insert_eq).
  rewrite take_insert_ge by lia. rewrite <- app_assoc. simpl. by rewrite Nat.add_succ_r.
Qed.

Lemma poke_some j b buf : (j < length buf)%nat -> poke j b buf = Some (<[j := b]> buf).
Proof. intros. unfold poke. by rewrite decide_True. Qed.

Lemma cstr_app s t : (NUL ∉ s) -> cstr (s ++ NUL :: t) = s.
Proof.
  induction s as [|b s IH]; simpl; [done|]. rewrite not_elem_of_cons. intros [Hb Hs].
  by rewrite decide_False, IH by done.
Qed.

Lemma cstr_cut s t : cstr (s ++ NUL :: t) = cstr s.
Proof.
  induction s as [|b s IH]; simpl; [done|]. destruct (decide (b = NUL)); [done|]. by rewrite IH.
Qed.

Lemma cstr_id s : (NUL ∉ s) -> cstr s = s.
Proof.
  induction s as [|b s IH]; simpl; [done|]. rewrite not_elem_of_cons. intros [Hb Hs].
  by rewrite decide_False, IH by done.
Qed.

(** The string in a buffer that was filled from its start and terminated. *)
Lemma cstr_filled data buf :
  (length data < length buf)%nat ->
  (buf ← poke (length data) NUL (filled 0 data buf); Some (cstr buf)) = Some (cstr data).
Proof.
  intros Hl. unfold filled. simpl.
  destruct (drop (length data) buf) as [|x t] eqn:Hd.
  { apply (f_equal length) in Hd. rewrite length_drop in Hd. simpl in Hd. lia. }
  rewrite poke_some by (rewrite length_app; simpl; lia). simpl.
  rewrite insert_app_r_alt by lia. rewrite Nat.sub_diag. simpl. by rewrite cstr_cut.
Qed.

Lemma pmalloc_some junk n :
  0 <= n -> exists buf, pmalloc junk n = Some buf /\ length buf = Z.to_nat n.
Proof.
  intros Hn. unfold pmalloc. rewrite decide_True by done. eexists. split; [done|].
  by rewrite length_fmap, length_seq.
Qed.

(** ** Escaping *)

Lemma hex_digits_of b :
  hexdigits !! Z.to_nat (Z.land (Z.shiftr (char_val b) 4) 15) = Some (hex_of (byte_val b / 16)) /\
  hexdigits !! Z.to_nat (Z.land (char_val b) 15) = Some (hex_of (byte_val b mod 16)).
Proof.
  revert b. apply (byte_prop (fun b =>
    hexdigits !! Z.to_nat (Z.land (Z.shiftr (char_val b) 4) 15) = Some (hex_of (byte_val b / 16)) /\
    hexdigits !! Z.to_nat (Z.land (char_val b) 15) = Some (hex_of (byte_val b mod 16)))).
  vm_compute. reflexivity.
Qed.

Lemma escape_loop_spec str j buf :
  (j + length (escaped str) <= length buf)%nat ->
  escape_loop str j buf = Some ((j + length (escaped str))%nat, filled j (escaped str) buf).
Proof.
  revert j buf. induction str as [|b str IH]; intros j buf Hl.
  { simpl in *. rewrite Nat.add_0_r, filled_nil by lia. done. }
  unfold escaped in *. cbn [mbind list_bind] in *. rewrite length_app in Hl.
  rewrite length_app. cbn [escape_loop]. unfold escape_char in *.
  destruct (is_plain b); [|destruct (decide (b = " "%byte))]; cbn [length app] in *.
  - rewrite poke_some by lia. cbn [mbind option_bind].
    rewrite IH by (rewrite length_insert; lia). rewrite filled_cons by lia. do 2 f_equal. lia.
  - rewrite poke_some by lia. cbn [mbind option_bind].
    rewrite IH by (rewrite length_insert; lia). rewrite filled_cons by lia. do 2 f_equal. lia.
  - destruct (hex_digits_of b) as [-> ->]. cbn [mbind option_bind].
    rewrite (poke_some j) by lia. cbn [mbind option_bind].
    rewrite (poke_some (S j)) by (rewrite length_insert; lia). cbn [mbind option_bind].
    rewrite (poke_some (S (S j))) by (rewrite !length_insert; lia). cbn [mbind option_bind].
    rewrite IH by (rewrite !length_insert; lia).
    rewrite !filled_cons by (rewrite ?length_insert; lia). do 2 f_equal. lia.
Qed.

Lemma escaped_len_spec str n :
  0 <= n -> n + 3 * Z.of_nat (length str) < 2 ^ 31 ->
  escaped_len str n = n + Z.of_nat (length (escaped str)).
Proof.
  unfold escaped. revert n. induction str as [|b str IH]; intros n Hn Hl; [simpl; lia|].
  cbn [escaped_len mbind list_bind]. rewrite length_app. cbn [length] in Hl.
  assert (length (escape_char b) =
          if is_plain b || bool_decide (b = " "%byte) then 1%nat else 3%nat) as Hc.
  { unfold escape_char. destruct (is_plain b); [done|]. simpl.
    by case_bool_decide; destruct (decide _). }
  rewrite Hc. destruct (is_plain b || bool_decide (b = " "%byte));
    rewrite wraps_small by lia; rewrite IH by lia; lia.
Qed.

Lemma escape_char_no_nul b : NUL ∉ escape_char b.
Proof.
  revert b. apply (byte_prop (fun b => NUL ∉ escape_char b)). vm_compute. reflexivity.
Qed.

(** The characters an escaped string can hold. *)
Definition query_safe (b : byte) : bool :=
  is_plain b || bool_decide (b = "+"%byte) || bool_decide (b = "%"%byte).

Lemma escape_char_safe b : Forall (fun c => query_safe c = true) (escape_char b).
Proof.
  revert b. apply (byte_prop (fun b => Forall (fun c => query_safe c = true) (escape_char b))).
  vm_compute. reflexivity.
Qed.

Lemma escaped_safe str : Forall (fun c => query_safe c = true) (escaped str).
Proof.
  apply Forall_forall. intros c (b & Hc & _)%list_elem_of_bind.
  pose proof (escape_char_safe b) as H. rewrite Forall_forall in H. auto.
Qed.

Lemma escaped_no_nul str : NUL ∉ escaped str.
Proof. intros (b & Hc & _)%list_elem_of_bind. by apply escape_char_no_nul in Hc. Qed.

Lemma escaped_length s : (length (escaped s) <= 3 * length s)%nat.
Proof.
  unfold escaped. induction s as [|b s IH]; [done|]. cbn [mbind list_bind length].
  rewrite length_app. assert (length (escape_char b) <= 3)%nat; [|lia].
  unfold escape_char. destruct (is_plain b); [simpl; lia|]. destruct (decide _); simpl; lia.
Qed.

Lemma escape_spec junk str :
  3 * Z.of_nat (length str) + 1 < 2 ^ 31 -> cgi_escape junk str = Some (escaped str).
Proof.
  intros Hl. unfold cgi_escape. rewrite escaped_len_spec by lia.
  pose proof (escaped_length str).
  rewrite wraps_small by lia.
  destruct (pmalloc_some junk (0 + Z.of_nat (length (escaped str)) + 1)) as (buf & -> & Hbuf);
    [lia|]. cbn [mbind option_bind].
  rewrite escape_loop_spec by lia. cbn [mbind option_bind].
  etransitivity; [apply (cstr_filled (escaped str)); lia|]. f_equal.
  apply cstr_id, escaped_no_nul.
Qed.

(** ** Unescaping *)

Lemma hex_to_int_range x : -1 <= hex_to_int x < 16.
Proof.
  revert x. apply (byte_prop (fun x => -1 <= hex_to_int x < 16)). vm_compute. reflexivity.
Qed.

Lemma hex_pair a b : 0 <= a < 16 -> 0 <= b < 16 -> Z.lor (Z.shiftl a 4) b = 16 * a + b.
Proof.
  intros Ha Hb.
  assert (forallb (fun a => forallb (fun b =>
    Z.lor (Z.shiftl a 4) b =? 16 * a + b) (seqZ 0 16)) (seqZ 0 16) = true) as H
    by (vm_compute; reflexivity).
  rewrite forallb_forall in H. specialize (H a). rewrite forallb_forall in H.
  apply Z.eqb_eq, H; apply list_elem_of_In, elem_of_seqZ; lia.
Qed.

Lemma hex_of_to n : 0 <= n < 16 -> hex_to_int (hex_of n) = n.
Proof.
  intros Hn.
  assert (forallb (fun n => hex_to_int (hex_of n) =? n) (seqZ 0 16) = true) as H
    by (vm_compute; reflexivity).
  rewrite forallb_forall in H. apply Z.eqb_eq, H, list_elem_of_In, elem_of_seqZ. lia.
Qed.

(** Induction by the steps of the loop. *)
Lemma unescape_ind (P : bytes -> Prop) :
  P [] -> (forall c t, P t -> (forall x y u, t = x :: y :: u -> P u) -> P (c :: t)) ->
  forall s, P s.
Proof.
  intros H0 Hc s. remember (length s) as n eqn:Hn. revert s Hn.
  induction (lt_wf n) as [n _ IH]. intros [|c t] ->; [done|]. apply Hc.
  - apply (IH (length t)); simpl; lia.
  - intros x y u ->. apply (IH (length u)); simpl; lia.
Qed.

Lemma unescaped_length str : (length (unescaped str) <= length str)%nat.
Proof.
  induction str as [|c t IH IHu] using unescape_ind; [done|]. cbn [unescaped].
  destruct (decide (c = "%"%byte)); [|cbn [length]; lia].
  destruct t as [|x [|y u]]; [cbn [length] in *; lia..|].
  specialize (IHu x y u eq_refl).
  destruct (decide (hex_to_int x >= 0 /\ hex_to_int y >= 0)); cbn [length] in *; lia.
Qed.

Lemma unescape_loop_spec str j buf :
  (j + length str <= length buf)%nat ->
  unescape_loop str j buf = Some ((j + length (unescaped str))%nat, filled j (unescaped str) buf).
Proof.
  revert j buf. induction str as [|c t IH IHu] using unescape_ind; intros j buf Hl.
  { simpl in *. rewrite Nat.add_0_r, filled_nil by lia. done. }
  assert (forall b, (new_str ← poke j b buf; unescape_loop t (S j) new_str) =
    Some ((j + length (b :: unescaped t))%nat, filled j (b :: unescaped t) buf)) as Hone.
  { intros b. simpl in Hl. rewrite poke_some by lia. cbn [mbind option_bind].
    rewrite IH by (rewrite length_insert; lia). rewrite filled_cons by lia.
    do 2 f_equal. simpl. lia. }
  cbn [unescape_loop unescaped].
  destruct (decide (c = "%"%byte)) as [->|]; [|by destruct (decide (c = "+"%byte))].
  destruct t as [|x [|y u]]; [apply Hone..|]. cbv zeta.
  destruct (decide (hex_to_int x >= 0 /\ hex_to_int y >= 0)) as [[Hx Hy]|]; [|apply Hone].
  pose proof (hex_to_int_range x). pose proof (hex_to_int_range y).
  rewrite hex_pair by lia. simpl in Hl. rewrite poke_some by lia. cbn [mbind option_bind].
  rewrite (IHu x y u eq_refl) by (rewrite length_insert; lia). rewrite filled_cons by lia.
  do 2 f_equal. simpl. lia.
Qed.

Lemma unescape_spec junk str :
  Z.of_nat (length str) + 1 < 2 ^ 31 ->
  cgi_unescape junk str = Some (cstr (unescaped str)).
Proof.
  intros Hl. unfold cgi_unescape. rewrite wraps_small by lia.
  destruct (pmalloc_some junk (Z.of_nat (length str) + 1)) as (buf & -> & Hbuf); [lia|].
  cbn [mbind option_bind]. rewrite unescape_loop_spec by lia. cbn [mbind option_bind].
  pose proof (unescaped_length str). apply (cstr_filled (unescaped str)). lia.
Qed.

Lemma unescaped_escape_char b t : unescaped (escape_char b ++ t) = b :: unescaped t.
Proof.
  assert (is_plain b = true -> b <> "%"%byte /\ b <> "+"%byte) as Hp.
  { revert b. apply (byte_prop (fun b => is_plain b = true -> b <> "%"%byte /\ b <> "+"%byte)).
    vm_compute. reflexivity. }
  unfold escape_char. destruct (is_plain b).
  { destruct Hp as [H1 H2]; [done|]. simpl. by rewrite !decide_False. }
  destruct (decide (b = " "%byte)) as [->|_]; [done|]. pose proof (byte_val_range b) as Hr.
  cbn [app unescaped]. rewrite decide_True by done.
  assert (0 <= byte_val b / 16 < 16) as Hd
    by (split; [apply Z.div_pos; lia|apply Z.div_lt_upper_bound; lia]).
  assert (0 <= byte_val b mod 16 < 16) as Hm by (apply Z.mod_pos_bound; lia).
  rewrite !hex_of_to by done. rewrite decide_True by lia.
  rewrite <- Z.div_mod by lia. by rewrite to_byte_val.
Qed.

Lemma unescaped_escaped s : unescaped (escaped s) = s.
Proof.
  unfold escaped. induction s as [|b s IH]; [done|]. cbn [mbind list_bind].
  by rewrite unescaped_escape_char, IH.
Qed.

(** Unescaping an escaped string gives the string back, for any string
    of less than 2^31/3 characters; neither function stores outside the buffer
    it allocated, and the escaped string is all letters, digits and
    [,-+%]. *)
Theorem cgi_unescape_escape junk junk' str :
  NUL ∉ str -> 3 * Z.of_nat (length str) + 1 < 2 ^ 31 ->
  exists e, cgi_escape junk str = Some e /\ Forall (fun c => query_safe c = true) e /\
    cgi_unescape junk' e = Some str.
Proof.
  intros Hn Hl. exists (escaped str). split; [by apply escape_spec|].
  split; [apply escaped_safe|]. pose proof (escaped_length str).
  rewrite unescape_spec by lia. by rewrite unescaped_escaped, cstr_id.
Qed.

Lemma cgi_unescape_escape_witness :
  exists e, cgi_escape (fun _ => xff) (lit "a b&c=100%") = Some e /\
    Forall (fun c => query_safe c = true) e /\
    cgi_unescape (fun _ => x41) e = Some (lit "a b&c=100%").
Proof. apply cgi_unescape_escape; [by apply (bool_decide_unpack _)|simpl; lia]. Defined.

(** On any string that fits an [int], well formed or not, [cgi_unescape]
    stays inside its buffer and returns the text with [+] read as a space and
    [%hh] as the character with that code, other [%] kept, cut at the first
    NUL that [%00] stands for. *)
Theorem cgi_unescape_total junk str :
  Z.of_nat (length str) + 1 < 2 ^ 31 ->
  cgi_unescape junk str = Some (cstr (unescaped str)) /\
  (length (unescaped str) <= length str)%nat.
Proof. intros Hl. split; [by apply unescape_spec|apply unescaped_length]. Qed.

Lemma cgi_unescape_total_witness :
  cgi_unescape (fun _ => x41) (lit "50%+%4g%41%00b") = Some (lit "50% %4gA").
Proof. apply (cgi_unescape_total (fun _ => x41) (lit "50%+%4g%41%00b")). simpl. lia. Defined.
