(* ===== verification/Stack.v ===== *)
(** * Thread stacks ([src/pthr_stack.c])

    A thread that exits is still running on its stack when it returns it, so
    the stack is kept until the next call.  The address space is the map from
    the bases of mapped stacks to their sizes. *)

From stdpp Require Import base list gmap.
From S2P Require Import Prelude ReactorTimers.

Section stack.
(** [mmap]: the base of a new mapping of this size, if there is room; [mprotect]: if
    the first bytes from an address on can be protected. *)
Context (mmap : gmap loc Z -> Z -> option loc) (mprotect : loc -> Z -> bool).

Definition GUARD_PAGE_SIZE : Z := 8192.

Record stacks := Stacks {
  mapped : gmap loc Z;
  pending_stack_base : option loc;
  pending_stack_size : Z
}.

(** [None]: the guard page cannot be protected, [abort]. *)
Definition alloc_stack (size : Z) (s : stacks) : option (option loc * stacks) :=
  match mmap (mapped s) size with
  | Some b =>
    if mprotect b GUARD_PAGE_SIZE
    then Some (Some b, Stacks (<[b := size]> (mapped s)) (pending_stack_base s) (pending_stack_size s))
    else None
  | None => Some (None, s)
  end.

(** [munmap] of what is not mapped with this size is an error ([None]). *)
Definition free_stack (b : loc) (size : Z) (s : stacks) : option stacks :=
  if decide (mapped s !! b = Some size)
  then Some (Stacks (delete b (mapped s)) (pending_stack_base s) (pending_stack_size s))
  else None.

Definition free_pending (s : stacks) : option stacks :=
  match pending_stack_base s with
  | Some b =>
    s1 ← free_stack b (pending_stack_size s) s;
    Some (Stacks (mapped s1) None (pending_stack_size s1))
  | None => Some s
  end.

Definition pth_get_stack (size : Z) (s : stacks) : option (option loc * stacks) :=
  s1 ← free_pending s; alloc_stack size s1.

Definition pth_return_stack (b : loc) (size : Z) (s : stacks) : option stacks :=
  s1 ← free_pending s; Some (Stacks (mapped s1) (Some b) size).

Definition no_stacks : stacks := Stacks ∅ None 0.

(** ** Correctness *)

(** [use]: the stacks that threads have, with their sizes. *)
Record stacks_ok (s : stacks) (use : gmap loc Z) : Prop := {
  so_pending : match pending_stack_base s with
    | Some b => use !! b = None /\ mapped s = <[b := pending_stack_size s]> use
    | None => mapped s = use
    end
}.

Inductive stack_op := GetStack (size : Z) | ReturnStack (b : loc).

(** What threads do with stacks: one that is returned is one they have. *)
Definition stack_step (o : stack_op) (s : stacks) (use : gmap loc Z)
  : option (stacks * gmap loc Z) :=
  match o with
  | GetStack size =>
    '(r, s1) ← pth_get_stack size s;
    Some (s1, match r with Some b => <[b := size]> use | None => use end)
  | ReturnStack b =>
    size ← use !! b;
    s1 ← pth_return_stack b size s;
    Some (s1, delete b use)
  end.

Definition stack_op_ok (o : stack_op) (use : gmap loc Z) : Prop :=
  match o with GetStack _ => True | ReturnStack b => is_Some (use !! b) end.

Lemma free_pending_ok s use :
  stacks_ok s use -> exists s1, free_pending s = Some s1 /\
    mapped s1 = use /\ pending_stack_base s1 = None.
Proof.
  intros [Hp]. unfold free_pending, free_stack.
  destruct (pending_stack_base s) as [b|] eqn:Hb; [|eauto].
  destruct Hp as [Hn Hm]. rewrite decide_True by (rewrite Hm; apply lookup_insert_eq).
  simpl. eexists. split; [done|]. split; [|done]. simpl.
  by rewrite Hm, delete_insert_id.
Qed.

(** C33: a stack is unmapped exactly once and never while it is in use: every
    sequence of calls in which threads return stacks they have succeeds, the
    mapped stacks are always those in use and at most one more, and the stack
    just returned is still mapped when [_pth_return_stack] returns; except that
    the program aborts when the guard page of a new stack cannot be protected. *)
Theorem stack_calls_safe
  (mmap_new : forall m size b, mmap m size = Some b -> m !! b = None) o s use :
  stacks_ok s use -> stack_op_ok o use ->
  (exists s' use', stack_step o s use = Some (s', use') /\ stacks_ok s' use' /\
    match o with
    | GetStack size => mapped s' = use' /\
        (use' = use \/ exists b, use !! b = None /\ use' = <[b := size]> use)
    | ReturnStack b => use' = delete b use /\ mapped s' = use
    end) \/
  exists size b, o = GetStack size /\ mmap use size = Some b /\ mprotect b GUARD_PAGE_SIZE = false /\
    stack_step o s use = None.
Proof.
  intros Hok Ho. destruct (free_pending_ok s use Hok) as (s1 & Hf & Hm & Hp).
  destruct o as [size|b]; cbn [stack_step].
  - unfold pth_get_stack. rewrite Hf. cbn [mbind option_bind]. unfold alloc_stack. rewrite Hm.
    destruct (mmap use size) as [b|] eqn:Hb; [destruct (mprotect b GUARD_PAGE_SIZE) eqn:Hg|].
    + apply mmap_new in Hb. left. eexists _, _. split; [done|]. split; [|split; [done|eauto]].
      split. simpl. by rewrite Hp.
    + right. exists size, b. done.
    + left. eexists _, _. split; [done|]. split; [|auto]. split. by rewrite Hp.
  - left. destruct Ho as [size Hb]. rewrite Hb. simpl. unfold pth_return_stack. rewrite Hf. simpl.
    eexists _, _. split; [done|]. split; [|done]. split. simpl.
    split; [apply lookup_delete_eq|]. rewrite Hm. by rewrite insert_delete_id.
Qed.
End stack.

Lemma stack_calls_safe_witness :
  exists s' use', stack_step (fun m _ => Some (fresh (dom m))) (fun _ _ => true) (ReturnStack 1%positive)
      (Stacks {[1%positive := 65536]} None 0) {[1%positive := 65536]} = Some (s', use') /\
    stacks_ok s' use' /\ use' = delete 1%positive {[1%positive := 65536]} /\
    mapped s' = {[1%positive := 65536]}.
Proof.
  destruct (stack_calls_safe (fun m _ => Some (fresh (dom m))) (fun _ _ => true)
    ltac:(intros m size b [= <-]; apply not_elem_of_dom, is_fresh) (ReturnStack 1%positive)
    (Stacks {[1%positive := 65536]} None 0) {[1%positive := 65536]}) as [H|(size & b & H & _)].
  - split. reflexivity.
  - vm_compute. eexists. reflexivity.
  - exact H.
  - discriminate H.
Defined.
