(* ===== verification/Threads.v ===== *)
(** * The table of pseudothreads ([src/pthr_pseudothread.c])

    Creation and end of threads with the global list of threads and their
    stacks, and the functions that list the threads. *)

From stdpp Require Import base list gmap.
From S2P Require Import Prelude C2lib ReactorTimers Prog Stack.

(** ** The table *)

Section threads.
Context {vec : Type -> Type} `{VL : Vector vec}.
(** Start functions and their argument, and pools. *)
Context {F D P : Type}.
Context (mmap : gmap loc Z -> Z -> option loc) (mprotect : loc -> Z -> bool).

Record pseudothread := Pth {
  pth_n : nat;
  pth_stack : loc;
  pth_stack_size : Z;
  pth_alarm : bool;
  pth_pool : P;
  pth_name : option bytes;
  pth_run : F;
  pth_data : D;
  pth_lang : option bytes;
  pth_tz : option bytes
}.

(** [threads] holds null for a free slot. *)
Record tstate := TState {
  threads : vec (option loc);
  pths : gmap loc pseudothread;
  tstacks : stacks;
  default_stack_size : Z
}.

Definition pseudothread_init : tstate := TState new_vector ∅ no_stacks 65536.

Definition pseudothread_set_stack_size (size : Z) (s : tstate) : Z * tstate :=
  (size, TState (threads s) (pths s) (tstacks s) size).

Definition pseudothread_get_stack_size (s : tstate) : Z := default_stack_size s.

(** The loop looking for a free slot from [i]. *)
Fixpoint find_slot (fuel i : nat) (v : vec (option loc)) : option nat :=
  match fuel with
  | O => None
  | S k =>
    p ← vector_get v i;
    match p with None => Some i | Some _ => find_slot k (S i) v end
  end.

(** [a] is the address of the new structure, which [pcalloc] clears. *)
Definition new_pseudothread (a : loc) (pool : P) (run : F) (data : D) (name : option bytes)
    (s : tstate) : option tstate :=
  let size := default_stack_size s in
  '(base, ss) ← pth_get_stack mmap mprotect size (tstacks s);
  stack ← base;
  let pth n := Pth n stack size false pool name run data None None in
  match find_slot (vector_size (threads s)) 0 (threads s) with
  | Some i =>
    Some (TState (vector_replace (threads s) i (Some a)) (<[a := pth i]> (pths s)) ss size)
  | None =>
    Some (TState (vector_push_back (threads s) (Some a))
            (<[a := pth (vector_size (threads s))]> (pths s)) ss size)
  end.

(** [thread_trampoline] after the start function has returned or the thread
    has called [pth_exit]. *)
Definition end_thread (a : loc) (s : tstate) : option tstate :=
  p ← pths s !! a;
  ss ← pth_return_stack (pth_stack p) (pth_stack_size p) (tstacks s);
  Some (TState (vector_replace (threads s) (pth_n p) None) (delete a (pths s)) ss
          (default_stack_size s)).

Definition pth_set_name (a : loc) (name : option bytes) (s : tstate) : option tstate :=
  p ← pths s !! a;
  Some (TState (threads s)
    (<[a := Pth (pth_n p) (pth_stack p) (pth_stack_size p) (pth_alarm p) (pth_pool p) name
              (pth_run p) (pth_data p) (pth_lang p) (pth_tz p)]> (pths s))
    (tstacks s) (default_stack_size s)).

(** The loops over the slots of the table. *)
Fixpoint count_from (fuel i : nat) (v : vec (option loc)) : option nat :=
  match fuel with
  | O => Some 0%nat
  | S k =>
    p ← vector_get v i;
    n ← count_from k (S i) v;
    Some (match p with Some _ => S n | None => n end)
  end.

Definition pseudothread_count_threads (s : tstate) : option nat :=
  count_from (vector_size (threads s)) 0 (threads s).

(** The copies are values: their strings are duplicated in the target pool. *)
Fixpoint copy_threads (fuel i : nat) (s : tstate) (v : vec pseudothread)
  : option (vec pseudothread) :=
  match fuel with
  | O => Some v
  | S k =>
    p ← vector_get (threads s) i;
    match p with
    | Some a => pth ← pths s !! a; copy_threads k (S i) s (vector_push_back v pth)
    | None => copy_threads k (S i) s v
    end
  end.

Definition pseudothread_get_threads (s : tstate) : option (vec pseudothread) :=
  copy_threads (vector_size (threads s)) 0 s new_vector.

(** ** Invariant *)

(** Slot [i] holds a thread exactly when that thread's number is [i]; the
    stacks in use are those of the threads. *)
Record threads_ok (s : tstate) (use : gmap loc Z) : Prop := {
  th_slot : forall i a, elems (threads s) !! i = Some (Some a) <->
    exists p, pths s !! a = Some p /\ pth_n p = i;
  th_stacks : stacks_ok (tstacks s) use;
  th_use : forall a p, pths s !! a = Some p -> use !! pth_stack p = Some (pth_stack_size p);
  th_own : forall a a' p p', pths s !! a = Some p -> pths s !! a' = Some p' ->
    pth_stack p = pth_stack p' -> a = a'
}.

Lemma find_slot_spec fuel i v :
  (i + fuel = length (elems v))%nat ->
  match find_slot fuel i v with
  | Some j => elems v !! j = Some None /\ (i <= j)%nat /\
      forall j', (i <= j' < j)%nat -> exists a, elems v !! j' = Some (Some a)
  | None => forall j', (i <= j' < length (elems v))%nat ->
      exists a, elems v !! j' = Some (Some a)
  end.
Proof.
  revert i. induction fuel as [|k IH]; intros i Hi; simpl; [lia|].
  rewrite get_elems by lia.
  destruct (lookup_lt_is_Some_2 (elems v) i) as [[a|] Hp]; [lia|..]; rewrite Hp; simpl.
  - specialize (IH (S i) ltac:(lia)). destruct (find_slot k (S i) v) as [j|].
    + destruct IH as (? & ? & Hb). split; [done|]. split; [lia|]. intros j' Hj'.
      destruct (decide (j' = i)) as [->|]; [eauto|]. apply Hb. lia.
    + intros j' Hj'. destruct (decide (j' = i)) as [->|]; [eauto|]. apply IH. lia.
  - split; [done|]. split; [lia|]. lia.
Qed.

(** The slot given to a new thread, and the table with it. *)
Definition first_free (l : list (option loc)) (n : nat) : Prop :=
  (n <= length l)%nat /\ (forall i, (i < n)%nat -> exists a, l !! i = Some (Some a)) /\
  forall x, l !! n = Some x -> x = None.

Lemma put_slot l n a :
  first_free l n -> forall i x,
  (if decide (n < length l)%nat then <[n := Some a]> l else l ++ [Some a]) !! i = Some (Some x)
  <-> (i = n /\ x = a) \/ l !! i = Some (Some x).
Proof.
  intros (Hlen & Hbelow & Hfree) i x. destruct (decide (n < length l)%nat) as [Hlt|Hge].
  - rewrite list_lookup_insert_Some. split; [naive_solver|].
    intros [[-> ->]|Hi]; [naive_solver|]. right. split; [|done]. intros ->.
    by apply Hfree in Hi.
  - assert (n = length l) as -> by lia. destruct (decide (i < length l)%nat).
    + rewrite lookup_app_l by done. split; [auto|]. intros [[-> _]|?]; [lia|done].
    + rewrite lookup_app_r by lia. rewrite (lookup_ge_None_2 l i) by lia.
      rewrite list_lookup_singleton_Some. split; [|naive_solver lia].
      intros [? [= ->]]. left. split; [lia|done].
Qed.

Lemma new_pseudothread_spec
  (mmap_new : forall m size b, mmap m size = Some b -> m !! b = None)
  a pool run data name s use :
  threads_ok s use -> pths s !! a = None ->
  match mmap use (default_stack_size s) with
  | None => new_pseudothread a pool run data name s = None
  | Some b => if negb (mprotect b GUARD_PAGE_SIZE) then new_pseudothread a pool run data name s = None else
      exists s' n, first_free (elems (threads s)) n /\
      new_pseudothread a pool run data name s = Some s' /\
      threads_ok s' (<[b := default_stack_size s]> use) /\
      pths s' = <[a := Pth n b (default_stack_size s) false pool name run data None None]>
                  (pths s)
  end.
Proof.
  intros [Hslot Hst Huse Hown] Ha. set (size := default_stack_size s).
  destruct (free_pending_ok _ _ Hst) as (ss & Hf & Hm & Hp).
  unfold new_pseudothread, pth_get_stack. fold size. rewrite Hf. simpl.
  unfold alloc_stack. rewrite Hm. destruct (mmap use size) as [b|] eqn:Hb; [|done].
  destruct (mprotect b GUARD_PAGE_SIZE); [|done]. cbn [negb].
  apply mmap_new in Hb. simpl.
  assert (stacks_ok (Stacks (<[b := size]> use) (pending_stack_base ss)
            (pending_stack_size ss)) (<[b := size]> use)) as Hst'
    by (split; simpl; by rewrite Hp).
  assert (exists n, first_free (elems (threads s)) n /\
    elems (match find_slot (vector_size (threads s)) 0 (threads s) with
           | Some i => vector_replace (threads s) i (Some a)
           | None => vector_push_back (threads s) (Some a) end) =
      (if decide (n < length (elems (threads s)))%nat
       then <[n := Some a]> (elems (threads s)) else elems (threads s) ++ [Some a]) /\
    n = match find_slot (vector_size (threads s)) 0 (threads s) with
        | Some i => i | None => vector_size (threads s) end)
    as (n & Hff & Hel & Hn).
  { rewrite size_elems. pose proof (find_slot_spec (length (elems (threads s))) 0 (threads s)
      eq_refl) as Hfs. destruct (find_slot _ _ _) as [i|].
    - destruct Hfs as (Hi & _ & Hbel). pose proof (lookup_lt_Some _ _ _ Hi) as Hlt.
      exists i. split; [split; [lia|split; [intros; apply Hbel; lia|congruence]]|].
      rewrite elems_replace by done. by rewrite decide_True.
    - exists (length (elems (threads s))).
      split; [split; [lia|split; [intros; apply Hfs; lia|]]|].
      + intros x Hx. apply lookup_lt_Some in Hx. lia.
      + rewrite elems_push_back, decide_False by lia. done. }
  exists (TState
    (match find_slot (vector_size (threads s)) 0 (threads s) with
           | Some i => vector_replace (threads s) i (Some a)
           | None => vector_push_back (threads s) (Some a) end)
    (<[a := Pth n b size false pool name run data None None]> (pths s))
    (Stacks (<[b := size]> use) (pending_stack_base ss) (pending_stack_size ss)) size), n.
  split; [done|]. split; [subst n; by destruct (find_slot _ _ _)|]. split; [|done]. split; simpl.
  - intros i x. rewrite Hel, (put_slot _ _ a Hff), Hslot. split.
    + intros [[-> ->]|(p & Hpx & Hi)]; [rewrite lookup_insert_eq; eauto|].
      exists p. rewrite lookup_insert_ne by congruence. done.
    + intros (p & Hpx & Hi). destruct (decide (x = a)) as [->|].
      * rewrite lookup_insert_eq in Hpx. injection Hpx as <-. simpl in Hi. auto.
      * rewrite lookup_insert_ne in Hpx by done. eauto.
  - done.
  - intros x p. destruct (decide (x = a)) as [->|].
    + rewrite lookup_insert_eq. intros [= <-]. simpl. by rewrite lookup_insert_eq.
    + rewrite lookup_insert_ne by done. intros Hx. apply Huse in Hx as Hu.
      rewrite lookup_insert_ne; [done|]. intros ->. congruence.
  - intros x x' p p'. rewrite !lookup_insert_Some.
    intros [[<- <-]|[Hxa Hx]] [[<- <-]|[Hxa' Hx']] E; simpl in *; try done.
    + apply Huse in Hx'. congruence.
    + apply Huse in Hx. congruence.
    + eauto.
Qed.

Lemma end_thread_spec a s use p :
  threads_ok s use -> pths s !! a = Some p ->
  exists s', end_thread a s = Some s' /\ threads_ok s' (delete (pth_stack p) use) /\
    pths s' = delete a (pths s).
Proof.
  intros [Hslot Hst Huse Hown] Ha. unfold end_thread. rewrite Ha. simpl.
  destruct (free_pending_ok _ _ Hst) as (ss & Hf & Hm & Hp).
  unfold pth_return_stack. rewrite Hf. simpl. eexists. split; [done|]. split; [|done].
  pose proof (Huse a p Ha) as Hu.
  assert (elems (threads s) !! pth_n p = Some (Some a)) as Hn by (apply Hslot; eauto).
  split; simpl.
  - intros i x. rewrite elems_replace by (by apply lookup_lt_Some in Hn).
    rewrite list_lookup_insert_Some. split.
    + intros [(_ & [=] & _)|[Hne Hi]]. apply Hslot in Hi as (p' & Hx & Hi).
      exists p'. rewrite lookup_delete_ne; [done|]. intros ->. congruence.
    + intros (p' & Hx & Hi). apply lookup_delete_Some in Hx as [Hne Hx]. right.
      assert (elems (threads s) !! i = Some (Some x)) by (apply Hslot; eauto).
      split; [|done]. intros <-. congruence.
  - split. simpl. split; [apply lookup_delete_eq|]. rewrite Hm. by rewrite insert_delete_id.
  - intros x p' Hx. apply lookup_delete_Some in Hx as [Hne Hx].
    rewrite lookup_delete_ne; [eauto|]. intros E. apply Hne. by eapply Hown.
  - intros x x' p1 p2 H1 H2. apply lookup_delete_Some in H1 as [_ H1].
    apply lookup_delete_Some in H2 as [_ H2]. eauto.
Qed.

(** The threads in the slots from [i] on. *)
Definition slots_from (i : nat) (v : vec (option loc)) : list loc :=
  omap id (drop i (elems v)).

Lemma count_from_spec fuel i v :
  (i + fuel = length (elems v))%nat ->
  count_from fuel i v = Some (length (slots_from i v)).
Proof.
  revert i. induction fuel as [|k IH]; intros i Hi; simpl.
  - unfold slots_from. by rewrite drop_ge by lia.
  - rewrite get_elems by lia. destruct (lookup_lt_is_Some_2 (elems v) i) as [x Hp]; [lia|].
    rewrite Hp. simpl. rewrite IH by lia. simpl. unfold slots_from.
    rewrite (drop_S _ _ _ Hp). by destruct x.
Qed.

Lemma copy_threads_spec use fuel i s (v : vec pseudothread) :
  threads_ok s use -> (i + fuel = length (elems (threads s)))%nat ->
  exists v', copy_threads fuel i s v = Some v' /\
    elems v' = elems v ++ omap (fun a => pths s !! a) (slots_from i (threads s)).
Proof.
  intros Hok. revert i v. induction fuel as [|k IH]; intros i v Hi; simpl.
  - unfold slots_from. rewrite drop_ge by lia. exists v. by rewrite app_nil_r.
  - rewrite get_elems by lia.
    destruct (lookup_lt_is_Some_2 (elems (threads s)) i) as [x Hp]; [lia|].
    rewrite Hp. simpl. unfold slots_from. rewrite (drop_S _ _ _ Hp).
    destruct x as [a|]; simpl; [|apply IH; lia].
    apply (th_slot _ _ Hok) in Hp as (p & Ha & _). rewrite Ha. simpl.
    destruct (IH (S i) (vector_push_back v p)) as (v' & Hv' & E); [lia|].
    exists v'. split; [done|]. rewrite E, elems_push_back, <- app_assoc. done.
Qed.

(** The table lists every thread once. *)
Lemma slots_threads s use :
  threads_ok s use -> slots_from 0 (threads s) ≡ₚ (map_to_list (pths s)).*1.
Proof.
  intros Hok. unfold slots_from. rewrite drop_0. apply NoDup_Permutation.
  - assert (forall l, (forall i j a, l !! i = Some (Some a) -> l !! j = Some (Some a) -> i = j) ->
              NoDup (omap (@id (option loc)) l)) as H.
    { induction l as [|[a|] l IH]; intros Hl; simpl; [constructor| |].
      - constructor.
        + intros Hin. apply list_elem_of_omap in Hin as (x & Hx & Hxa). unfold id in Hxa. subst x.
          apply list_elem_of_lookup in Hx as [j Hj]. by specialize (Hl 0%nat (S j) a eq_refl Hj).
        + apply IH. intros i j b Hi Hj. specialize (Hl (S i) (S j) b Hi Hj). lia.
      - apply IH. intros i j b Hi Hj. specialize (Hl (S i) (S j) b Hi Hj). lia. }
    apply H. intros i j a Hi Hj. apply (th_slot _ _ Hok) in Hi as (p & ? & ?).
    apply (th_slot _ _ Hok) in Hj as (p' & ? & ?). by simplify_eq.
  - apply NoDup_fst_map_to_list.
  - intros a. rewrite list_elem_of_omap. rewrite list_elem_of_fmap. split.
    + intros (x & Hx & Hxa). unfold id in Hxa. subst x.
      apply list_elem_of_lookup in Hx as [i Hi].
      apply (th_slot _ _ Hok) in Hi as (p & Ha & _). exists (a, p).
      split; [done|]. by apply elem_of_map_to_list.
    + intros ([x p] & -> & Hx%elem_of_map_to_list). exists (Some x). split; [|done].
      apply list_elem_of_lookup. exists (pth_n p). apply (th_slot _ _ Hok). eauto.
Qed.
Lemma listed_threads s use :
  threads_ok s use ->
  omap (fun a => pths s !! a) (slots_from 0 (threads s)) ≡ₚ (map_to_list (pths s)).*2.
Proof.
  intros Hok. rewrite (slots_threads s use Hok). apply reflexive_eq.
  assert (forall l, (forall x, x ∈ l -> pths s !! x.1 = Some x.2) ->
    omap (fun a => pths s !! a) l.*1 = l.*2) as H.
  { induction l as [|[a p] l IH]; intros Hl; simpl; [done|].
    pose proof (Hl (a, p) ltac:(by left)) as Ha. simpl in Ha. rewrite Ha. f_equal.
    apply IH. intros x Hx. apply Hl. by right. }
  apply H. intros [a p] Hx. by apply elem_of_map_to_list in Hx.
Qed.

(** Threads come and go: a new structure is at an unused address, and a
    thread that ends is one that lives. *)
Inductive thread_op :=
  | TNew (a : loc) (pool : P) (run : F) (data : D) (name : option bytes)
  | TEnd (a : loc)
  | TRename (a : loc) (name : option bytes).

Definition thread_op_step (o : thread_op) (s : tstate) : option tstate :=
  match o with
  | TNew a pool run data name =>
    if pths s !! a is Some _ then None else new_pseudothread a pool run data name s
  | TEnd a => end_thread a s
  | TRename a name => pth_set_name a name s
  end.

Fixpoint run_threads (l : list thread_op) (s : tstate) : option tstate :=
  match l with
  | [] => Some s
  | o :: l => s1 ← thread_op_step o s; run_threads l s1
  end.

Context (mmap_new : forall m size b, mmap m size = Some b -> m !! b = None).

Lemma rename_ok a name s s' use :
  threads_ok s use -> pth_set_name a name s = Some s' -> threads_ok s' use.
Proof.
  intros [Hslot Hst Huse Hown]. unfold pth_set_name.
  destruct (pths s !! a) as [p|] eqn:Ha; [|done]. simpl. intros [= <-].
  assert (forall x q, <[a := Pth (pth_n p) (pth_stack p) (pth_stack_size p) (pth_alarm p)
      (pth_pool p) name (pth_run p) (pth_data p) (pth_lang p) (pth_tz p)]> (pths s) !! x = Some q ->
    exists q', pths s !! x = Some q' /\ pth_n q' = pth_n q /\ pth_stack q' = pth_stack q /\
      pth_stack_size q' = pth_stack_size q) as Hold.
  { intros x q [[<- <-]|[_ Hx]]%lookup_insert_Some; eauto. }
  split; simpl; [|done|..].
  - intros i x. rewrite Hslot. split.
    + intros (q & Hq & Hn). destruct (decide (x = a)) as [->|].
      * rewrite lookup_insert_eq. eexists. split; [done|]. simpl. congruence.
      * rewrite lookup_insert_ne by done. eauto.
    + intros (q & (q' & ? & ? & _)%Hold & Hn). exists q'. split; [done|congruence].
  - intros x q (q' & Hq & _ & E1 & E2)%Hold. rewrite <- E1, <- E2. eauto.
  - intros x x' q q' (r & Hr & _ & E & _)%Hold (r' & Hr' & _ & E' & _)%Hold Heq.
    apply (Hown x x' r r'); congruence.
Qed.

Lemma run_threads_ok l s use s' :
  threads_ok s use -> run_threads l s = Some s' -> exists use', threads_ok s' use'.
Proof.
  revert s use. induction l as [|o l IH]; intros s use Hok; simpl; [intros [= <-]; eauto|].
  destruct (thread_op_step o s) as [s1|] eqn:Ho; simpl; [|done]. intros Hr.
  assert (exists use1, threads_ok s1 use1) as [use1 Hok1]; [|by eapply IH].
  destruct o as [a pool run data name|a|a name]; simpl in Ho.
  - destruct (pths s !! a) eqn:Ha; [done|].
    pose proof (new_pseudothread_spec mmap_new a pool run data name s use Hok Ha) as Hn.
    destruct (mmap use (default_stack_size s)) as [b|]; [|congruence];
    destruct (negb (mprotect b GUARD_PAGE_SIZE)); [congruence|].
    destruct Hn as (s2 & n & _ & Hs2 & Hok2 & _). rewrite Hs2 in Ho. injection Ho as <-. eauto.
  - destruct (pths s !! a) as [p|] eqn:Ha.
    + destruct (end_thread_spec a s use p Hok Ha) as (s2 & Hs2 & Hok2 & _).
      rewrite Hs2 in Ho. injection Ho as <-. eauto.
    + unfold end_thread in Ho. by rewrite Ha in Ho.
  - exists use. by eapply rename_ok.
Qed.

Lemma init_ok : threads_ok pseudothread_init ∅.
Proof.
  split; simpl; try done.
  - intros i a. rewrite elems_new, lookup_nil. split; [done|]. intros (? & ? & _). done.
Qed.

(** C10: however threads are created, renamed and ended, the count is the
    number of live threads, the list has each of them once, a thread is in
    the slot of its number, no two share a slot or a stack, every live thread
    can end, and the next one gets the lowest free slot. *)
Theorem thread_table_refines l s :
  run_threads l pseudothread_init = Some s ->
  pseudothread_count_threads s = Some (size (pths s)) /\
  (exists v, pseudothread_get_threads s = Some v /\
     elems v ≡ₚ (map_to_list (pths s)).*2) /\
  (forall a p, pths s !! a = Some p -> elems (threads s) !! pth_n p = Some (Some a) /\
     exists s', end_thread a s = Some s' /\ pths s' = delete a (pths s)) /\
  (forall a a' p p', pths s !! a = Some p -> pths s !! a' = Some p' ->
     pth_n p = pth_n p' \/ pth_stack p = pth_stack p' -> a = a') /\
  (forall a pool run data name s' p, pths s !! a = None ->
     new_pseudothread a pool run data name s = Some s' -> pths s' !! a = Some p ->
     first_free (elems (threads s)) (pth_n p) /\ pths s' = <[a := p]> (pths s)).
Proof.
  intros Hr. destruct (run_threads_ok _ _ _ _ init_ok Hr) as [use Hok].
  split; [|split; [|split; [|split]]].
  - unfold pseudothread_count_threads. rewrite size_elems, count_from_spec by done.
    rewrite (Permutation_length (slots_threads s use Hok)), length_fmap.
    by rewrite length_map_to_list.
  - unfold pseudothread_get_threads. rewrite size_elems.
    destruct (copy_threads_spec use _ 0 s new_vector Hok eq_refl) as (v & Hv & E).
    exists v. split; [done|]. rewrite E, elems_new. simpl. by apply (listed_threads s use).
  - intros a p Ha. split; [apply (th_slot _ _ Hok); eauto|].
    destruct (end_thread_spec a s use p Hok Ha) as (s' & ? & _ & ?). eauto.
  - intros a a' p p' Ha Ha' [E|E]; [|by eapply th_own].
    assert (elems (threads s) !! pth_n p = Some (Some a)) by (apply (th_slot _ _ Hok); eauto).
    assert (elems (threads s) !! pth_n p' = Some (Some a')) by (apply (th_slot _ _ Hok); eauto).
    congruence.
  - intros a pool run data name s' p Ha Hs' Hp.
    pose proof (new_pseudothread_spec mmap_new a pool run data name s use Hok Ha) as Hn.
    destruct (mmap use (default_stack_size s)) as [b|]; [|congruence];
    destruct (negb (mprotect b GUARD_PAGE_SIZE)); [congruence|].
    destruct Hn as (s2 & n & Hff & Hs2 & _ & Hp2). rewrite Hs2 in Hs'. injection Hs' as <-.
    rewrite Hp2, lookup_insert_eq in Hp. injection Hp as <-. done.
Qed.
End threads.

Arguments pseudothread F D P : clear implicits.
Arguments tstate vec F D P : clear implicits.

Lemma thread_table_refines_witness :
  exists s, run_threads (vec := list) (fun m _ => Some (fresh (dom m))) (fun _ _ => true)
      [TNew 5%positive tt tt tt None; TNew 6%positive tt tt tt None; TEnd 5%positive;
       TNew 7%positive tt tt tt None] pseudothread_init = Some s /\
    pseudothread_count_threads s = Some (size (pths s)).
Proof.
  destruct (run_threads (vec := list) (fun m _ => Some (fresh (dom m))) (fun _ _ => true)
      [TNew 5%positive tt tt tt None; TNew 6%positive tt tt tt None; TEnd 5%positive;
       TNew 7%positive tt tt tt None] pseudothread_init) as [s|] eqn:Hr.
  - exists s. split; [reflexivity|].
    apply (thread_table_refines (fun m _ => Some (fresh (dom m))) (fun _ _ => true)
      ltac:(intros m size b [= <-]; apply not_elem_of_dom, is_fresh) _ s Hr).
  - assert ((if run_threads (vec := list) (fun m _ => Some (fresh (dom m))) (fun _ _ => true)
      [TNew 5%positive tt tt tt None; TNew 6%positive tt tt tt None; TEnd 5%positive;
       TNew 7%positive tt tt tt None] pseudothread_init is Some _ then true else false) = true)
      as H by (vm_compute; reflexivity).
    rewrite Hr in H. discriminate H.
Defined.
