(* ===== verification/Context.v ===== *)
(** * Register contexts ([src/pthr_context.c], [src/pthr_context.h])

    The contexts made of [setjmp] and [longjmp] (on i386), with the functions of
    [src/pthr_pseudothread.c] that switch between threads and their callers.  They
    implement coroutines: an abstract machine in which the registers and the stack
    of a thread, and of the code that called it, are put back when it goes on. *)

From stdpp Require Import base list gmap.
From S2P Require Import Prelude ReactorTimers.

(** The registers that [setjmp] saves: the program counter, the stack pointer,
    [restores] for the local variable [old_pth] of [pth_start] ([None] in a frame
    of another function), and the other callee-saved ones; [ret] is the register of
    results. *)
Record regs := Regs {
  pc : Z;
  sp : Z;
  restores : option (option loc);
  callee : list Z;
  ret : Z
}.

Definition with_ret v (r : regs) : regs := Regs (pc r) (sp r) (restores r) (callee r) v.
Definition with_restores o (r : regs) : regs := Regs (pc r) (sp r) o (callee r) (ret r).

(** The buffers: [inl p] is [p->thread_ctx], [inr p] is [p->calling_ctx].  Memory
    is addressed by words. *)
Record machine := Machine {
  cpu : regs;
  memory : gmap Z Z;
  ctxs : gmap (loc + loc) regs;
  current_pth : option loc
}.

Definition with_cpu r (m : machine) : machine := Machine r (memory m) (ctxs m) (current_pth m).
Definition with_ctx c r (m : machine) : machine := Machine (cpu m) (memory m) (<[c := r]> (ctxs m)) (current_pth m).
Definition with_current p (m : machine) : machine := Machine (cpu m) (memory m) (ctxs m) p.
Definition store (a v : Z) (m : machine) : machine :=
  Machine (cpu m) (<[a := v]> (memory m)) (ctxs m) (current_pth m).

(** [setjmp]: the registers are saved, the result is 0. *)
Definition mctx_save (c : loc + loc) (m : machine) : machine :=
  with_cpu (with_ret 0 (cpu m)) (with_ctx c (cpu m) m).

(** [longjmp (jb, 1)]: execution goes on where the buffer was filled, with the
    result 1; a buffer that was never filled is an error. *)
Definition mctx_restore (c : loc + loc) (m : machine) : option machine :=
  r ← ctxs m !! c; Some (with_cpu (with_ret 1 r) m).

Definition mctx_switch (old new : loc + loc) (m : machine) : option machine :=
  let m1 := mctx_save old m in
  if decide (ret (cpu m1) = 0) then mctx_restore new m1 else Some m1.

Section context.
Context (openbsd : bool).

(** [*--stack_ptr = v] *)
Definition push (v : Z) (s : Z * machine) : Z * machine :=
  let a := wrapu 32 (s.1 - 4) in (a, store a (wrapu 32 v) s.2).

Definition BAD_RETURN : Z := 0xfafafafa.

Definition mctx_set (c : loc + loc) (sf_addr sf_arg sk_addr sk_size : Z) (m : machine) : machine :=
  let s := push BAD_RETURN (push sf_arg (wrapu 32 (sk_addr + sk_size), m)) in
  let '(stack_ptr, m1) := if openbsd then push 0 s else s in
  let m2 := mctx_save c m1 in
  match ctxs m2 !! c with
  | Some jb => with_ctx c (Regs sf_addr stack_ptr (restores jb) (callee jb) (ret jb)) m2
  | None => m2
  end.

Definition mctx_get_PC (c : loc + loc) (m : machine) : option Z := (fun r => wrapu 32 (pc r)) <$> ctxs m !! c.
Definition mctx_get_SP (c : loc + loc) (m : machine) : option Z := (fun r => wrapu 32 (sp r)) <$> ctxs m !! c.

(** ** Threads

    The code before the switch; what follows it is [after_switch], which depends on
    the function whose frame was restored. *)

Definition pth_start (p : loc) (m : machine) : option machine :=
  mctx_switch (inr p) (inl p) (with_cpu (with_restores (Some (current_pth m)) (cpu m)) m).

Definition switch_thread_to_calling_context (m : machine) : option machine :=
  p ← current_pth m; mctx_switch (inl p) (inr p) m.

Definition switch_calling_to_thread_context (p : loc) (m : machine) : option machine :=
  mctx_switch (inr p) (inl p)
    (with_cpu (with_restores None (cpu m)) (with_current (Some p) m)).

(** [pth_start] restores [current_pth] when it is returned to. *)
Definition after_switch (m : machine) : machine :=
  match restores (cpu m) with
  | Some old => with_current old m
  | None => m
  end.

(** The end of [thread_trampoline]: the calling context is copied, then the thread
    is freed with its two buffers. *)
Definition thread_end (m : machine) : option machine :=
  p ← current_pth m;
  r ← ctxs m !! inr p;
  let m1 := Machine (cpu m) (memory m) (delete (inl p) (delete (inr p) (ctxs m))) (current_pth m) in
  Some (with_cpu (with_ret 1 r) m1).

(** ** Coroutines

    [pths] are the addresses at which there can be threads, [stack_of] gives the
    address and the size of a thread's stack, [main_stack] those of the stack on
    which the reactor runs. *)
Context (pths : gset loc) (stack_of : loc -> Z * Z) (main_stack : Z * Z) (trampoline : Z).

(** [Work]: the running thread computes, with the registers [r] and the memory
    [mem] as the result; [Create]: the part of [new_pseudothread] that makes the
    context, the argument of the trampoline being the thread. *)
Inductive op :=
  | Work (r : regs) (mem : gmap Z Z)
  | Create (p : loc)
  | Start (p : loc)
  | Resume (p : loc)
  | Yield
  | Exit.

Definition step (o : op) (m : machine) : option machine :=
  match o with
  | Work r mem => Some (Machine r mem (ctxs m) (current_pth m))
  | Create p => Some (mctx_set (inl p) trampoline (Z.pos p) (stack_of p).1 (stack_of p).2 m)
  | Start p => m1 ← pth_start p m; Some (with_current (Some p) m1)
  | Resume p => switch_calling_to_thread_context p m
  | Yield => m1 ← switch_thread_to_calling_context m; Some (after_switch m1)
  | Exit => m1 ← thread_end m; Some (after_switch m1)
  end.

Fixpoint run (os : list op) (m : machine) : option machine :=
  match os with
  | [] => Some m
  | o :: os => m1 ← step o m; run os m1
  end.

(** A thread that is not running: its registers, the memory when it stopped, and
    whether it has run before. *)
Record parked := Parked { p_regs : regs; p_memory : gmap Z Z; p_started : bool }.

(** [active]: the threads started from one another that have not given up control,
    the running one first, each with the registers of the code that called it and
    the memory when it was called. *)
Record coroutines := Coroutines {
  now : regs;
  mem_now : gmap Z Z;
  waiting : gmap loc parked;
  active : list (loc * (regs * gmap Z Z))
}.

(** The code that called the thread of frame [i]: another thread, or the reactor. *)
Definition caller (c : coroutines) (i : nat) : option loc := fst <$> active c !! S i.

(** The address is on the stack of a thread, or of the reactor. *)
Definition in_stack (u : option loc) (a : Z) : Prop :=
  match u with
  | Some p => p ∈ pths /\ (stack_of p).1 <= a < (stack_of p).1 + (stack_of p).2
  | None => main_stack.1 <= a < main_stack.1 + main_stack.2
  end.

#[export] Instance in_stack_dec u a : Decision (in_stack u a).
Proof. destruct u; apply _. Defined.

(** The memory is the same on the stack of [u]. *)
Definition agree (u : option loc) (mem mem' : gmap Z Z) : Prop := forall a, in_stack u a -> mem' !! a = mem !! a.

(** The stack of [u] as it was in [old], the rest as it is in [mem]. *)
Definition restored (u : option loc) (old mem : gmap Z Z) : gmap Z Z :=
  filter (fun x => in_stack u x.1) old ∪ filter (fun x => ~ in_stack u x.1) mem.

(** Without the local variable of [pth_start], which the coroutines do not have. *)
Definition erase (r : regs) : regs := with_restores None r.

(** The first registers of a thread; the others are what they were. *)
Definition first_regs (p : loc) (r : regs) : regs :=
  Regs trampoline ((stack_of p).1 + (stack_of p).2 - (if openbsd then 12 else 8)) None (callee r) (ret r).

(** The memory with the first frame of a thread. *)
Definition first_frame (p : loc) (mem : gmap Z Z) : gmap Z Z :=
  let top := (stack_of p).1 + (stack_of p).2 in
  let mem := <[top - 8 := BAD_RETURN]> (<[top - 4 := Z.pos p]> mem) in
  if openbsd then <[top - 12 := 0]> mem else mem.

(** What the running code computes must leave the stacks of all the others alone. *)
Inductive corun : op -> coroutines -> coroutines -> Prop :=
  | corun_work c r mem :
      (forall q, is_Some (waiting c !! q) -> agree (Some q) (mem_now c) mem) ->
      (forall i, is_Some (active c !! i) -> agree (caller c i) (mem_now c) mem) ->
      corun (Work r mem) c (Coroutines (erase r) mem (waiting c) (active c))
  | corun_create c p :
      p ∈ pths -> waiting c !! p = None -> p ∉ (active c).*1 ->
      corun (Create p) c (Coroutines (with_ret 0 (now c)) (first_frame p (mem_now c))
        (<[p := Parked (first_regs p (now c)) (first_frame p (mem_now c)) false]> (waiting c)) (active c))
  | corun_start c p k :
      waiting c !! p = Some k -> p_started k = false ->
      corun (Start p) c (Coroutines (with_ret 1 (p_regs k)) (restored (Some p) (p_memory k) (mem_now c))
        (delete p (waiting c)) ((p, (now c, mem_now c)) :: active c))
  | corun_resume c p k :
      waiting c !! p = Some k -> p_started k = true -> active c = [] ->
      corun (Resume p) c (Coroutines (with_ret 1 (p_regs k)) (restored (Some p) (p_memory k) (mem_now c))
        (delete p (waiting c)) [(p, (now c, mem_now c))])
  | corun_yield c p r mem l :
      active c = (p, (r, mem)) :: l ->
      corun Yield c (Coroutines (with_ret 1 r) (restored (caller c 0) mem (mem_now c))
        (<[p := Parked (now c) (mem_now c) true]> (waiting c)) l)
  | corun_exit c p r mem l :
      active c = (p, (r, mem)) :: l ->
      corun Exit c (Coroutines (with_ret 1 r) (restored (caller c 0) mem (mem_now c)) (waiting c) l).

Inductive coruns : list op -> coroutines -> coroutines -> Prop :=
  | coruns_nil c : coruns [] c c
  | coruns_cons o os c c1 c2 : corun o c c1 -> coruns os c1 c2 -> coruns (o :: os) c c2.

(** ** Refinement *)

Context (stacks_fit : forall p, p ∈ pths -> 0 <= (stack_of p).1 /\ 16 <= (stack_of p).2 /\
  (stack_of p).1 + (stack_of p).2 <= 2 ^ 32 /\ Z.pos p < 2 ^ 32).
Context (stacks_disjoint : forall u v a, in_stack u a -> in_stack v a -> u = v).

(** The buffer of a frame, given the thread below it. *)
Definition frame_ok (m : machine) (below : option loc) (pr : loc * (regs * gmap Z Z)) : Prop :=
  exists r, ctxs m !! inr pr.1 = Some r /\ erase r = pr.2.1 /\
    match below with Some q => restores r = Some (Some q) | None => True end.

Record implements (m : machine) (c : coroutines) : Prop := {
  im_cpu : erase (cpu m) = now c;
  im_memory : memory m = mem_now c;
  im_waiting : forall p k, waiting c !! p = Some k ->
    (exists r, ctxs m !! inl p = Some r /\ erase r = p_regs k) /\ agree (Some p) (p_memory k) (mem_now c);
  im_frames : forall i pr, active c !! i = Some pr -> frame_ok m (caller c i) pr;
  im_stacks : forall i pr, active c !! i = Some pr -> agree (caller c i) pr.2.2 (mem_now c);
  im_nodup : NoDup (active c).*1;
  im_disjoint : forall p, p ∈ (active c).*1 -> waiting c !! p = None;
  im_current : forall p, head (active c).*1 = Some p -> current_pth m = Some p
}.

Lemma restored_agree u old mem : agree u old mem -> restored u old mem = mem.
Proof.
  intros H. apply map_eq. intros a. unfold restored. destruct (decide (in_stack u a)) as [Hin|Hout].
  - rewrite lookup_union_l, (H a Hin).
    + destruct (old !! a) as [v|] eqn:E; [by apply map_lookup_filter_Some|].
      apply map_lookup_filter_None. by left.
    + apply map_lookup_filter_None. right. intros v _ Hn. by apply Hn.
  - rewrite lookup_union_r.
    + destruct (mem !! a) as [v|] eqn:E; [by apply map_lookup_filter_Some|].
      apply map_lookup_filter_None. by left.
    + apply map_lookup_filter_None. by right.
Qed.

Lemma agree_trans p m1 m2 m3 : agree p m1 m2 -> agree p m2 m3 -> agree p m1 m3.
Proof. intros H1 H2 a Ha. rewrite H2 by done. by apply H1. Qed.

Lemma mctx_set_spec p m :
  p ∈ pths ->
  mctx_set (inl p) trampoline (Z.pos p) (stack_of p).1 (stack_of p).2 m =
  Machine (with_ret 0 (cpu m)) (first_frame p (memory m))
    (<[inl p := Regs trampoline ((stack_of p).1 + (stack_of p).2 - (if openbsd then 12 else 8))
                 (restores (cpu m)) (callee (cpu m)) (ret (cpu m))]> (ctxs m)) (current_pth m).
Proof.
  intros Hin. destruct (stacks_fit p Hin) as (H1 & H2 & H3 & H4). unfold mctx_set, push, first_frame.
  set (top := (stack_of p).1 + (stack_of p).2) in *. assert (0 <= top <= 2 ^ 32) as Ht by (unfold top; lia).
  assert (forall k, 0 < k <= 12 -> wrapu 32 (top - k) = top - k) as Hw.
  { intros k Hk. unfold wrapu. apply Z.mod_small. unfold top in *. lia. }
  assert (wrapu 32 (wrapu 32 top - 4) = top - 4) as E4.
  { unfold wrapu. rewrite Zminus_mod_idemp_l. apply (Hw 4). lia. }
  cbn [fst snd]. rewrite E4. replace (top - 4 - 4) with (top - 8) by lia. rewrite (Hw 8) by lia.
  replace (top - 8 - 4) with (top - 12) by lia. rewrite (Hw 12) by lia.
  assert (wrapu 32 (Z.pos p) = Z.pos p) as -> by (apply Z.mod_small; lia).
  change (wrapu 32 BAD_RETURN) with BAD_RETURN. change (wrapu 32 0) with 0.
  destruct openbsd; unfold mctx_save, with_cpu, with_ctx, store; cbn [ctxs cpu memory current_pth];
    rewrite lookup_insert_eq; cbn [ctxs cpu memory current_pth]; by rewrite insert_insert_eq.
Qed.

Lemma first_frame_other p u mem : p ∈ pths -> Some p <> u -> agree u mem (first_frame p mem).
Proof.
  intros Hin Hne a Ha. destruct (stacks_fit p Hin) as (H1 & H2 & H3 & H4). unfold first_frame.
  assert (forall k, 0 < k <= 12 -> (stack_of p).1 + (stack_of p).2 - k <> a) as Hk.
  { intros k Hk <-. apply Hne. apply (stacks_disjoint _ _ _) with (2 := Ha). split; [done|lia]. }
  destruct openbsd; rewrite !lookup_insert_ne by (apply Hk; lia); done.
Qed.

Lemma switch_spec old new m r :
  ctxs (mctx_save old m) !! new = Some r ->
  mctx_switch old new m = Some (Machine (with_ret 1 r) (memory m) (<[old := cpu m]> (ctxs m)) (current_pth m)).
Proof. intros Hr. unfold mctx_switch. rewrite decide_True by done. unfold mctx_restore. by rewrite Hr. Qed.

Lemma frame_ok_ctxs m m' below pr :
  ctxs m' !! inr pr.1 = ctxs m !! inr pr.1 -> frame_ok m below pr -> frame_ok m' below pr.
Proof. intros E. unfold frame_ok. by rewrite E. Qed.

Lemma lookup_active c i pr : active c !! i = Some pr -> pr.1 ∈ (active c).*1.
Proof. intros H. apply list_elem_of_fmap. exists pr. split; [done|]. by eapply list_elem_of_lookup_2. Qed.

Lemma step_work m c r mem :
  implements m c -> (forall q, is_Some (waiting c !! q) -> agree (Some q) (mem_now c) mem) ->
  (forall i, is_Some (active c !! i) -> agree (caller c i) (mem_now c) mem) ->
  implements (Machine r mem (ctxs m) (current_pth m)) (Coroutines (erase r) mem (waiting c) (active c)).
Proof.
  intros [Hc Hm Hw Hf Hst Hn Hd Hcur] Hag Hac. split; try done.
  - intros p k Hk. destruct (Hw p k Hk) as [Hr Ha]. split; [done|]. eapply agree_trans; [exact Ha|].
    apply Hag. by exists k.
  - intros i pr Hi. eapply agree_trans; [by apply Hst|]. apply Hac. by exists pr.
Qed.

Lemma step_create m c p :
  implements m c -> p ∈ pths -> waiting c !! p = None -> p ∉ (active c).*1 ->
  implements (mctx_set (inl p) trampoline (Z.pos p) (stack_of p).1 (stack_of p).2 m)
    (Coroutines (with_ret 0 (now c)) (first_frame p (mem_now c))
      (<[p := Parked (first_regs p (now c)) (first_frame p (mem_now c)) false]> (waiting c)) (active c)).
Proof.
  intros [Hc Hm Hw Hf Hst Hn Hd Hcur] Hin Hp Hpa. rewrite mctx_set_spec by done.
  split; cbn [cpu memory ctxs current_pth now mem_now waiting active]; try done.
  - by rewrite <- Hc.
  - by rewrite Hm.
  - intros q k. destruct (decide (q = p)) as [->|Hne].
    + rewrite !lookup_insert_eq. intros [= <-]. split; [|done]. eexists. split; [done|]. by rewrite <- Hc.
    + rewrite !lookup_insert_ne by congruence. intros Hk. destruct (Hw q k Hk) as [Hr Ha]. split; [done|].
      eapply agree_trans; [exact Ha|]. apply first_frame_other; congruence.
  - intros i pr Hi. eapply frame_ok_ctxs; [|by apply Hf]. cbn [ctxs]. by rewrite lookup_insert_ne.
  - intros i pr Hi. eapply agree_trans; [by apply Hst|]. apply first_frame_other; [done|].
    intros E. apply Hpa. unfold caller in E. cbn [active] in E.
    destruct (active c !! S i) as [x|] eqn:Hx; [|done]. injection E as ->. by eapply lookup_active.
  - intros q Hq. rewrite lookup_insert_ne; [by apply Hd|]. by intros ->.
Qed.

(** A thread goes on; [b] is what the caller's frame will restore. *)
Lemma step_enter m c p k b :
  implements m c -> waiting c !! p = Some k ->
  (forall qr, active c !! 0%nat = Some qr -> b = Some (Some qr.1)) ->
  exists r, ctxs m !! inl p = Some r /\
  implements (Machine (with_ret 1 r) (memory m) (<[inr p := with_restores b (cpu m)]> (ctxs m)) (Some p))
    (Coroutines (with_ret 1 (p_regs k)) (restored (Some p) (p_memory k) (mem_now c)) (delete p (waiting c))
      ((p, (now c, mem_now c)) :: active c)).
Proof.
  intros [Hc Hm Hw Hf Hst Hn Hd Hcur] Hk Hb. destruct (Hw p k Hk) as [(r & Hr & Er) Ha]. exists r. split; [done|].
  rewrite (restored_agree _ _ _ Ha).
  assert (p ∉ (active c).*1) as Hpa by (intros Hp%Hd; congruence).
  split; cbn [cpu memory ctxs current_pth now mem_now waiting active]; try done.
  - by rewrite <- Er.
  - intros q j Hj. apply lookup_delete_Some in Hj as [Hne Hj]. rewrite lookup_insert_ne by done. by apply Hw.
  - intros [|i] pr; unfold caller; cbn [lookup list_lookup active].
    + intros [= <-]. eexists. cbn [ctxs fst snd]. rewrite lookup_insert_eq. split; [done|].
      split; [by rewrite <- Hc|]. destruct (active c) as [|qr l]; [done|]. by apply (Hb qr).
    + intros Hi. eapply frame_ok_ctxs; [|by apply (Hf i)]. cbn [ctxs]. rewrite lookup_insert_ne; [done|].
      intros [= ->]. apply Hpa. by eapply lookup_active.
  - intros [|i] pr; unfold caller; cbn [lookup list_lookup active].
    + intros [= <-] a _. done.
    + intros Hi. by apply (Hst i).
  - cbn [fmap list_fmap fst]. by constructor.
  - intros q. cbn [fmap list_fmap fst]. rewrite elem_of_cons. intros [->|Hq]; [apply lookup_delete_eq|].
    apply lookup_delete_None. right. by apply Hd.
Qed.

(** Back to the caller of [p], whose frame is [r]; [ws] and [cs] are the threads
    that wait and the buffers afterwards. *)
Lemma step_back m c p r mem l cs ws :
  implements m c -> active c = (p, (r, mem)) :: l ->
  (forall q, q <> p -> cs !! inl q = ctxs m !! inl q /\ cs !! inr q = ctxs m !! inr q /\ ws !! q = waiting c !! q) ->
  (forall k, ws !! p = Some k -> cs !! inl p = Some (cpu m) /\ k = Parked (now c) (mem_now c) true) ->
  exists r', ctxs m !! inr p = Some r' /\
  implements (after_switch (Machine (with_ret 1 r') (memory m) cs (current_pth m)))
    (Coroutines (with_ret 1 r) (restored (caller c 0) mem (mem_now c)) ws l).
Proof.
  intros Him Ha Hq Hp. pose proof Him as [Hc Hm Hw Hf Hst Hn Hd Hcur].
  assert (active c !! 0%nat = Some (p, (r, mem))) as H0 by (by rewrite Ha).
  pose proof (Hst _ _ H0) as Hag. cbn [snd] in Hag. rewrite (restored_agree _ _ _ Hag).
  destruct (Hf _ _ H0) as (r' & Hr & Er & Hres). unfold caller in *. rewrite Ha in *.
  cbn [fmap list_fmap fst snd lookup list_lookup] in *.
  exists r'. split; [done|]. apply NoDup_cons in Hn as [Hnp Hn].
  assert (forall m0, ctxs m0 = cs -> forall i pr, l !! i = Some pr -> frame_ok m0 (fst <$> l !! S i) pr) as Hfr.
  { intros m0 E i pr Hi. eapply frame_ok_ctxs; [|apply (Hf (S i) pr Hi)]. rewrite E.
    apply Hq. intros E'. apply Hnp. rewrite <- E'. apply list_elem_of_fmap. exists pr. split; [done|].
    by eapply list_elem_of_lookup_2. }
  assert (forall q k, ws !! q = Some k ->
    (exists r0, cs !! inl q = Some r0 /\ erase r0 = p_regs k) /\ agree (Some q) (p_memory k) (mem_now c)) as Hws.
  { intros q k Hk. destruct (decide (q = p)) as [->|Hne].
    - destruct (Hp k Hk) as [Hcs ->]. split; [|done]. by exists (cpu m).
    - destruct (Hq q Hne) as (E1 & _ & E2). rewrite E2 in Hk. rewrite E1. by apply Hw. }
  assert (forall q, q ∈ l.*1 -> ws !! q = None) as Hdl.
  { intros q Hql. assert (q <> p) as Hne by (by intros ->). rewrite (proj2 (proj2 (Hq q Hne))).
    apply Hd. by right. }
  assert (forall i pr, l !! i = Some pr -> agree (fst <$> l !! S i) pr.2.2 (mem_now c)) as Hsl
    by (intros i pr Hi; apply (Hst (S i) pr Hi)).
  unfold after_switch. cbn [cpu with_ret restores]. destruct (restores r') as [old|] eqn:Hold;
    (split; unfold caller; cbn [cpu memory ctxs current_pth with_current now mem_now waiting active]; try done;
     [by rewrite <- Er|by apply Hfr|]); intros q Hh; destruct l as [|[q' r2] l]; simplify_eq/=; congruence.
Qed.

Lemma step_simulates o m c c' :
  implements m c -> corun o c c' -> exists m', step o m = Some m' /\ implements m' c'.
Proof.
  intros Him Hs. pose proof (im_current _ _ Him) as Hcur.
  destruct Hs as [c r mem Hag Hac|c p Hin Hp Hpa|c p k Hk _|c p k Hk _ He|c p r mem l Ha|c p r mem l Ha].
  - eexists. split; [done|]. by apply step_work.
  - eexists. split; [done|]. by apply step_create.
  - destruct (step_enter m c p k (Some (current_pth m)) Him Hk) as (r & Hr & Him').
    { intros qr Hq. rewrite (Hcur qr.1); [done|]. destruct (active c) as [|x l]; [done|]. by injection Hq as ->. }
    eexists. split; [|exact Him']. cbn [step]. unfold pth_start. rewrite (switch_spec _ _ _ r); [done|].
    cbn. by rewrite lookup_insert_ne.
  - destruct (step_enter m c p k None Him Hk) as (r & Hr & Him').
    { by rewrite He. }
    rewrite He in Him'. eexists. split; [|exact Him']. cbn [step]. unfold switch_calling_to_thread_context.
    rewrite (switch_spec _ _ _ r); [done|]. cbn. by rewrite lookup_insert_ne.
  - destruct (step_back m c p r mem l (<[inl p := cpu m]> (ctxs m))
      (<[p := Parked (now c) (mem_now c) true]> (waiting c)) Him Ha) as (r' & Hr & Him').
    + intros q Hne. by rewrite !lookup_insert_ne by congruence.
    + intros k. rewrite !lookup_insert_eq. by intros [= <-].
    + eexists. split; [|exact Him']. cbn [step]. unfold switch_thread_to_calling_context.
      rewrite (Hcur p) by (by rewrite Ha). simpl. rewrite (switch_spec _ _ _ r'); [by rewrite (Hcur p) by (by rewrite Ha)|].
      cbn. by rewrite lookup_insert_ne.
  - destruct (step_back m c p r mem l (delete (inl p) (delete (inr p) (ctxs m))) (waiting c) Him Ha) as (r' & Hr & Him').
    + intros q Hne. by rewrite !lookup_delete_ne by congruence.
    + intros k Hk. rewrite (im_disjoint _ _ Him p) in Hk; [done|]. rewrite Ha. by left.
    + eexists. split; [|exact Him']. cbn [step]. unfold thread_end.
      rewrite (Hcur p) by (by rewrite Ha). simpl. by rewrite Hr.
Qed.

(** C4: the contexts implement coroutines: whatever threads are created, started from
    one another, resumed by the reactor, give up control or end, a thread that goes on
    does so with the registers it had and with its stack put back as it left it, and
    so does the code that had started or resumed it, another thread or the reactor,
    although all stacks are in one memory and nothing but registers is saved;
    [current_pth] is the running thread. *)
Theorem contexts_are_coroutines os m c c' :
  implements m c -> coruns os c c' -> exists m', run os m = Some m' /\ implements m' c'.
Proof.
  intros Him Hs. revert m Him. induction Hs as [c|o os c c1 c2 Ho _ IH]; intros m Him; [by exists m|].
  destruct (step_simulates o m c c1 Him Ho) as (m1 & Hm1 & Him1). destruct (IH m1 Him1) as (m2 & Hm2 & Him2).
  exists m2. split; [|done]. cbn [run]. rewrite Hm1. exact Hm2.
Qed.

(** A new thread that waits stays as it was made until it is started. *)
Lemma corun_keeps_new o c c' p k :
  corun o c c' -> waiting c !! p = Some k -> p_started k = false -> o <> Start p -> p ∉ (active c).*1 ->
  waiting c' !! p = Some k.
Proof.
  intros Ho Hk Hst Hne Hpa.
  destruct Ho as [c r mem _ _|c q _ Hq _|c q j Hj _|c q j Hj Hjs _|c q r mem l Ha|c q r mem l Ha]; cbn [waiting]; try done.
  - rewrite lookup_insert_ne; [done|]. intros ->. congruence.
  - rewrite lookup_delete_ne; [done|]. by intros ->.
  - rewrite lookup_delete_ne; [done|]. intros ->. rewrite Hk in Hj. injection Hj as ->. congruence.
  - rewrite lookup_insert_ne; [done|]. intros ->. apply Hpa. rewrite Ha. by left.
Qed.

Lemma implements_waiting m c p k : implements m c -> waiting c !! p = Some k -> p ∉ (active c).*1.
Proof. intros Him Hk Hp%(im_disjoint _ _ Him). congruence. Qed.

Lemma coruns_keep_new os m c c' p k :
  implements m c -> coruns os c c' -> waiting c !! p = Some k -> p_started k = false -> (Start p ∉ os) ->
  exists m', run os m = Some m' /\ implements m' c' /\ waiting c' !! p = Some k.
Proof.
  intros Him Hs Hk Hst. revert m Him Hk. induction Hs as [c|o os c c1 c2 Ho _ IH]; intros m Him Hk Hno; [by exists m|].
  rewrite not_elem_of_cons in Hno. destruct Hno as [Hne Hno].
  destruct (step_simulates o m c c1 Him Ho) as (m1 & Hm1 & Him1).
  destruct (IH m1 Him1) as (m2 & Hm2 & Him2 & Hk2); [|done|].
  - apply (corun_keeps_new o c c1 p k Ho Hk Hst); [congruence|]. by eapply implements_waiting.
  - exists m2. split; [|done]. cbn [run]. by rewrite Hm1.
Qed.

(** C32: how a thread begins: when it is started, however much later than it was
    created and whatever ran in between, the processor is at the first instruction of
    [thread_trampoline], the stack pointer is inside the stack of the thread, below it
    lie the return address that must not be used and the thread itself as the argument,
    and [current_pth] is the thread (on OpenBSD there is one more word). *)
Theorem thread_starts_in_trampoline m c p os c1 :
  openbsd = false ->
  implements m c -> p ∈ pths -> waiting c !! p = None -> (p ∉ (active c).*1) ->
  coruns os (Coroutines (with_ret 0 (now c)) (first_frame p (mem_now c))
    (<[p := Parked (first_regs p (now c)) (first_frame p (mem_now c)) false]> (waiting c)) (active c)) c1 ->
  Start p ∉ os ->
  exists m', run (Create p :: os ++ [Start p]) m = Some m' /\ pc (cpu m') = trampoline /\
    in_stack (Some p) (sp (cpu m')) /\ memory m' !! sp (cpu m') = Some BAD_RETURN /\
    memory m' !! (sp (cpu m') + 4) = Some (Z.pos p) /\ current_pth m' = Some p.
Proof.
  intros Hbsd Him Hin Hp Hpa Hrun Hno. destruct (stacks_fit p Hin) as (F1 & F2 & F3 & F4).
  destruct (step_simulates (Create p) m c _ Him (corun_create c p Hin Hp Hpa)) as (m1 & Hm1 & Him1).
  destruct (coruns_keep_new os m1 _ c1 p _ Him1 Hrun (lookup_insert_eq _ _ _) eq_refl Hno)
    as (m2 & Hm2 & Him2 & Hk2).
  destruct (step_simulates (Start p) m2 c1 _ Him2 (corun_start c1 p _ Hk2 eq_refl)) as (m3 & Hm3 & Him3).
  exists m3. split.
  { cbn [run]. rewrite Hm1. simpl. clear -Hm2 Hm3. revert m1 Hm2. induction os as [|o os IH]; intros m1; cbn [run app].
    - intros [= ->]. by rewrite Hm3.
    - destruct (step o m1) as [m1'|]; [|done]. simpl. apply IH. }
  destruct Him3 as [Hc Hmem _ _ _ _ _ Hcur]. cbn [now mem_now active fmap list_fmap fst head p_regs p_memory] in *.
  destruct (im_waiting _ _ Him2 p _ Hk2) as [_ Ha]. cbn [p_memory] in Ha.
  rewrite (restored_agree _ _ _ Ha) in Hmem. rewrite <- Hmem in Ha.
  assert (pc (cpu m3) = pc (erase (cpu m3)) /\ sp (cpu m3) = sp (erase (cpu m3))) as [-> ->] by done.
  rewrite Hc. unfold first_regs. cbn [pc sp with_ret]. rewrite Hbsd.
  set (top := (stack_of p).1 + (stack_of p).2) in *.
  assert (in_stack (Some p) (top - 8) /\ in_stack (Some p) (top - 4)) as [I8 I4] by (unfold in_stack, top; split; (split; [done|lia])).
  split; [done|]. split; [exact I8|]. replace (top - 8 + 4) with (top - 4) by lia.
  rewrite (Ha _ I8), (Ha _ I4). unfold first_frame. rewrite Hbsd. fold top.
  rewrite lookup_insert_eq, lookup_insert_ne, lookup_insert_eq by lia. auto.
Qed.
End context.

(** ** Example

    Two threads with stacks of a page each, the reactor on a third; the first thread
    starts the second, both give up control, and the first is resumed. *)

Definition two_pths : gset loc := {[1%positive; 2%positive]}.
Definition two_stacks (p : loc) : Z * Z := (4096 * Z.pos p, 4096).
Definition reactor_stack : Z * Z := (61440, 4096).

Lemma two_stacks_fit p : p ∈ two_pths -> 0 <= (two_stacks p).1 /\ 16 <= (two_stacks p).2 /\
  (two_stacks p).1 + (two_stacks p).2 <= 2 ^ 32 /\ Z.pos p < 2 ^ 32.
Proof. unfold two_pths. rewrite elem_of_union, !elem_of_singleton. intros [->| ->]; simpl; lia. Qed.

Lemma two_stacks_disjoint u v a :
  in_stack two_pths two_stacks reactor_stack u a -> in_stack two_pths two_stacks reactor_stack v a -> u = v.
Proof.
  assert (forall p, p ∈ two_pths -> Z.pos p <= 2) as Hp.
  { intros p. unfold two_pths. rewrite elem_of_union, !elem_of_singleton. intros [->| ->]; lia. }
  unfold in_stack, two_stacks, reactor_stack. destruct u as [p|], v as [q|]; simpl.
  - intros [_ ?] [_ ?]. f_equal. lia.
  - intros [Hin ?] ?. apply Hp in Hin. lia.
  - intros ? [Hin ?]. apply Hp in Hin. lia.
  - done.
Qed.

Definition main_regs : regs := Regs 10 65000 None [7; 8] 0.
Definition main_machine : machine := Machine main_regs ∅ ∅ None.
Definition main_coroutines : coroutines := Coroutines main_regs ∅ ∅ [].

Lemma main_implements : implements two_pths two_stacks reactor_stack main_machine main_coroutines.
Proof. split; try done; constructor. Qed.

Definition first_regs_now : regs := Regs 55 8100 None [1; 2] 0.
Definition first_memory : gmap Z Z := <[8100 := 99]> (first_frame false two_stacks 2 (first_frame false two_stacks 1 ∅)).

Definition sample_switches : list op :=
  [Create 1; Create 2; Start 1; Work first_regs_now first_memory; Start 2; Yield; Yield; Resume 1].

Lemma first_memory_others u :
  u <> Some 1%positive -> agree two_pths two_stacks reactor_stack u
    (first_frame false two_stacks 2 (first_frame false two_stacks 1 ∅)) first_memory.
Proof.
  intros Hu a Ha. unfold first_memory. rewrite lookup_insert_ne; [done|]. intros <-. apply Hu.
  apply (two_stacks_disjoint _ _ 8100 Ha). split; [by apply (bool_decide_unpack _)|simpl; lia].
Qed.

Lemma first_started : restored two_pths two_stacks reactor_stack (Some 1%positive) (first_frame false two_stacks 1 ∅)
  (first_frame false two_stacks 2 (first_frame false two_stacks 1 ∅)) =
  first_frame false two_stacks 2 (first_frame false two_stacks 1 ∅).
Proof.
  apply restored_agree. apply (first_frame_other false two_pths two_stacks reactor_stack two_stacks_fit two_stacks_disjoint);
    [set_solver|done].
Qed.

Lemma sample_coruns : exists c, coruns false two_pths two_stacks reactor_stack 77 sample_switches main_coroutines c /\
  now c = with_ret 1 (with_ret 1 first_regs_now) /\ mem_now c !! 8100 = Some 99.
Proof.
  eexists. split.
  - unfold sample_switches.
    eapply coruns_cons; [by apply corun_create; [set_solver|..]; [done|apply not_elem_of_nil]|].
    eapply coruns_cons; [by apply corun_create; [set_solver|..]; [done|apply not_elem_of_nil]|].
    eapply coruns_cons; [by eapply corun_start|].
    eapply coruns_cons; [apply corun_work|].
    { cbn [waiting mem_now]. intros q [k Hq]. cbn [p_memory main_coroutines Context.mem_now]. rewrite first_started. apply first_memory_others.
      intros [= ->]. by rewrite lookup_delete_eq in Hq. }
    { cbn [active mem_now]. intros i [pr Hi]. cbn [p_memory main_coroutines Context.mem_now]. rewrite first_started. apply first_memory_others.
      by destruct i as [|[|i]]. }
    eapply coruns_cons; [by eapply corun_start|].
    eapply coruns_cons; [by eapply corun_yield|].
    eapply coruns_cons; [by eapply corun_yield|].
    eapply coruns_cons; [by eapply corun_resume|].
    apply coruns_nil.
  - split; [reflexivity|]. vm_compute. reflexivity.
Qed.

Lemma contexts_are_coroutines_witness :
  exists m', run false two_stacks 77 sample_switches main_machine = Some m' /\
    erase (cpu m') = with_ret 1 (with_ret 1 first_regs_now) /\ memory m' !! 8100 = Some 99.
Proof.
  destruct sample_coruns as (c & Hc & Hn & Hmem).
  destruct (contexts_are_coroutines false two_pths two_stacks reactor_stack 77 two_stacks_fit two_stacks_disjoint
    sample_switches main_machine main_coroutines c main_implements Hc) as (m' & Hr & Hi).
  exists m'. split; [exact Hr|]. rewrite (im_cpu _ _ _ _ _ Hi), (im_memory _ _ _ _ _ Hi). split; [exact Hn|exact Hmem].
Defined.

Lemma thread_starts_in_trampoline_witness :
  exists m', run false two_stacks 77 [Create 1; Create 2; Start 1] main_machine = Some m' /\
    pc (cpu m') = 77 /\ in_stack two_pths two_stacks reactor_stack (Some 1%positive) (sp (cpu m')) /\
    memory m' !! sp (cpu m') = Some BAD_RETURN /\ memory m' !! (sp (cpu m') + 4) = Some 1 /\
    current_pth m' = Some 1%positive.
Proof.
  eapply (thread_starts_in_trampoline false two_pths two_stacks reactor_stack 77 two_stacks_fit two_stacks_disjoint
    main_machine main_coroutines 1 [Create 2] _ eq_refl main_implements).
  - set_solver.
  - done.
  - apply not_elem_of_nil.
  - eapply coruns_cons; [by apply corun_create; [set_solver|..]; [done|apply not_elem_of_nil]|].
    apply coruns_nil.
  - by intros ?%list_elem_of_singleton.
Defined.
