(* ===== verification/Exceptions.v ===== *)
(** * Exceptions ([pth_catch], [_pth_die] and [pth_exit] of
    [src/pthr_pseudothread.c])

    A thread's code is a command; [setjmp] saves the point of return, that is
    the control stack and what is run there.  The machine keeps the vector
    [exception_jmp_vec] of saved points as the source does; it is shown to
    behave as nested handlers do. *)

From stdpp Require Import base list gmap relations.
From S2P Require Import Prelude C2lib Prog.

Section exceptions.
Context {vec : Type -> Type} `{VL : Vector vec}.
(** The effects of a thread's code. *)
Context {St : Type}.

(** [CCatch fn h]: call [pth_catch (fn)], then [h] with what it returned. *)
Inductive cmd :=
  | CSkip
  | CDo (f : St -> St)
  | CSeq (c1 c2 : cmd)
  | CDie (msg : bytes)
  | CExit
  | CCatch (fn : cmd) (h : option bytes -> cmd).

(** What is left to do when the command at hand is done: the rest of a
    function, or the end of a call of [pth_catch]. *)
Inductive frame := KSeq (c : cmd) | KCatch (h : option bytes -> cmd).

(** A [jmp_buf]: the caller of [pth_catch] and its continuation. *)
Record jmp_buf := JmpBuf { jb_then : option bytes -> cmd; jb_stack : list frame }.

(** [exception_jmp_vec] is null until the first [pth_catch]. *)
Record thread := Thread {
  exception_jmp_vec : option (vec jmp_buf);
  exception_msg : bytes;
  st : St
}.

Inductive config :=
  | Running (c : cmd) (k : list frame) (t : thread)
  | Exited (printed : option bytes) (t : thread)
  | Crashed.

Definition pth_catch (fn : cmd) (h : option bytes -> cmd) (k : list frame) (t : thread)
  : config :=
  let v := match exception_jmp_vec t with Some v => v | None => new_vector end in
  Running fn (KCatch h :: k)
    (Thread (Some (vector_push_back v (JmpBuf h k))) (exception_msg t) (st t)).

(** The return of [fn]: the handler is popped and [pth_catch] returns 0. *)
Definition pth_catch_return (h : option bytes -> cmd) (k : list frame) (t : thread) : config :=
  match exception_jmp_vec t with
  | Some v =>
    match vector_pop_back v with
    | Some (_, v') => Running (h None) k (Thread (Some v') (exception_msg t) (st t))
    | None => Crashed
    end
  | None => Crashed
  end.

Definition pth_die_machine (msg : bytes) (t : thread) : config :=
  match exception_jmp_vec t with
  | Some v =>
    if decide (0 < vector_size v)%nat then
      match vector_pop_back v with
      | Some (jb, v') =>
        (* longjmp: pth_catch returns exception_msg *)
        Running (jb_then jb (Some msg)) (jb_stack jb) (Thread (Some v') msg (st t))
      | None => Crashed
      end
    else Exited (Some msg) t
  | None => Exited (Some msg) t
  end.

Definition mstep (x : config) : config :=
  match x with
  | Running (CSeq c1 c2) k t => Running c1 (KSeq c2 :: k) t
  | Running (CDo f) k t =>
    Running CSkip k (Thread (exception_jmp_vec t) (exception_msg t) (f (st t)))
  | Running (CDie msg) _ t => pth_die_machine msg t
  | Running CExit _ t => Exited None t
  | Running (CCatch fn h) k t => pth_catch fn h k t
  | Running CSkip (KSeq c :: k) t => Running c k t
  | Running CSkip (KCatch h :: k) t => pth_catch_return h k t
  | Running CSkip [] t => Exited None t
  | _ => x
  end.

(** ** Structured exceptions *)

Inductive ending := Done (s : St) | Died (msg : bytes) (s : St) | Left (s : St).

Fixpoint eval (c : cmd) (s : St) : ending :=
  match c with
  | CSkip => Done s
  | CDo f => Done (f s)
  | CSeq c1 c2 => match eval c1 s with Done s' => eval c2 s' | e => e end
  | CDie msg => Died msg s
  | CExit => Left s
  | CCatch fn h =>
    match eval fn s with
    | Done s' => eval (h None) s'
    | Died msg s' => eval (h (Some msg)) s'
    | Left s' => Left s'
    end
  end.

(** What is registered, innermost first. *)
Definition handlers (t : thread) : list jmp_buf :=
  match exception_jmp_vec t with Some v => reverse (elems v) | None => [] end.

Abbreviation steps := (rtc (fun x y => mstep x = y)).

Lemma steps_trans x y z : steps x y -> steps y z -> steps x z.
Proof. intros. by etrans. Qed.

Lemma die_steps msg t :
  match handlers t with
  | [] => pth_die_machine msg t = Exited (Some msg) t
  | jb :: hs => exists t', handlers t' = hs /\ st t' = st t /\
      pth_die_machine msg t = Running (jb_then jb (Some msg)) (jb_stack jb) t'
  end.
Proof.
  unfold handlers, pth_die_machine. destruct (exception_jmp_vec t) as [v|]; [|done].
  rewrite size_elems. destruct (reverse (elems v)) as [|jb hs] eqn:E.
  - apply (f_equal reverse) in E. rewrite reverse_involutive in E. rewrite E.
    by rewrite decide_False by (simpl; lia).
  - apply (f_equal reverse) in E. rewrite reverse_involutive, reverse_cons in E.
    rewrite decide_True by (rewrite E, length_app; simpl; lia).
    destruct (pop_back_elems _ _ _ _ E) as (v' & -> & Hv').
    eexists. split; [|split; [|done]]; simpl; [|done].
    by rewrite Hv', reverse_involutive.
Qed.

(** The machine agrees with [eval], whatever handlers are registered. *)
Lemma eval_steps c k t :
  match eval c (st t) with
  | Done s => exists t', steps (Running c k t) (Running CSkip k t') /\
      handlers t' = handlers t /\ st t' = s
  | Died msg s => exists k' t', steps (Running c k t) (Running (CDie msg) k' t') /\
      handlers t' = handlers t /\ st t' = s
  | Left s => exists t', steps (Running c k t) (Exited None t') /\ st t' = s
  end.
Proof.
  revert k t. induction c as [|f|c1 IH1 c2 IH2|msg| |fn IHf h IHh]; intros k t; simpl.
  - exists t. split; [apply rtc_refl|done].
  - eexists. split; [by apply rtc_once|done].
  - specialize (IH1 (KSeq c2 :: k) t). destruct (eval c1 (st t)) as [s|msg s|s].
    + destruct IH1 as (t1 & Hs & Hh & <-). specialize (IH2 k t1). rewrite <- Hh.
      assert (steps (Running (CSeq c1 c2) k t) (Running c2 k t1)) as Hpre.
      { eapply rtc_l; [done|]. etrans; [exact Hs|]. by apply rtc_once. }
      destruct (eval c2 (st t1)); naive_solver eauto using steps_trans.
    + destruct IH1 as (k' & t1 & Hs & ? & ?). exists k', t1. split; [|done].
      by eapply rtc_l.
    + destruct IH1 as (t1 & Hs & ?). exists t1. split; [|done]. by eapply rtc_l.
  - exists k, t. split; [apply rtc_refl|done].
  - exists t. split; [by apply rtc_once|done].
  - set (t0 := Thread (Some (vector_push_back (match exception_jmp_vec t with
      Some v => v | None => new_vector end) (JmpBuf h k))) (exception_msg t) (st t)).
    assert (handlers t0 = JmpBuf h k :: handlers t) as Hh0.
    { unfold handlers. simpl. rewrite elems_push_back, reverse_snoc. f_equal.
      destruct (exception_jmp_vec t); [done|]. by rewrite elems_new. }
    specialize (IHf (KCatch h :: k) t0). simpl in IHf.
    assert (mstep (Running (CCatch fn h) k t) = Running fn (KCatch h :: k) t0) as H0 by done.
    destruct (eval fn (st t)) as [s|msg s|s].
    + destruct IHf as (t1 & Hs & Hh & <-). rewrite Hh0 in Hh.
      assert (exists t2, mstep (Running CSkip (KCatch h :: k) t1) = Running (h None) k t2 /\
                handlers t2 = handlers t /\ st t2 = st t1) as (t2 & Hr & Hh2 & Es).
      { simpl. unfold pth_catch_return. unfold handlers in Hh at 1.
        destruct (exception_jmp_vec t1) as [v|]; [|done].
        apply (f_equal reverse) in Hh. rewrite reverse_involutive, reverse_cons in Hh.
        destruct (pop_back_elems _ _ _ _ Hh) as (v' & -> & Hv').
        eexists. split; [done|]. split; [|done]. unfold handlers at 1. simpl.
        by rewrite Hv', reverse_involutive. }
      assert (steps (Running (CCatch fn h) k t) (Running (h None) k t2)) as Hpre.
      { eapply rtc_l; [exact H0|]. etrans; [exact Hs|]. by apply rtc_once. }
      specialize (IHh None k t2). rewrite Es in IHh. rewrite <- Hh2.
      destruct (eval (h None) (st t1)); naive_solver eauto using steps_trans.
    + destruct IHf as (k' & t1 & Hs & Hh & <-). rewrite Hh0 in Hh.
      pose proof (die_steps msg t1) as Hd. rewrite Hh in Hd.
      destruct Hd as (t2 & Hh2 & Es & Hd). simpl in Hd.
      assert (steps (Running (CCatch fn h) k t) (Running (h (Some msg)) k t2)) as Hpre.
      { eapply rtc_l; [exact H0|]. etrans; [exact Hs|]. by apply rtc_once. }
      specialize (IHh (Some msg) k t2). rewrite Es in IHh. rewrite <- Hh2.
      destruct (eval (h (Some msg)) (st t1)); naive_solver eauto using steps_trans.
    + destruct IHf as (t1 & Hs & ?). exists t1. split; [|done]. by eapply rtc_l.
Qed.

(** C11: [pth_catch] and [pth_die] are structured exceptions: a thread that
    starts with no handler ends as the nested evaluation of its code says;
    [pth_die] reaches the innermost surrounding [pth_catch], which returns
    its message and is then gone, and only an exception outside all of them is
    printed and ends the thread. *)
Theorem exceptions_nest c s msg0 :
  exists t', steps (Running c [] (Thread None msg0 s))
    (Exited (match eval c s with Died msg _ => Some msg | _ => None end) t') /\
    st t' = match eval c s with Done s' | Died _ s' | Left s' => s' end.
Proof.
  pose proof (eval_steps c [] (Thread None msg0 s)) as H. simpl in H.
  destruct (eval c s) as [s'|msg s'|s'].
  - destruct H as (t' & Hs & _ & ?). exists t'. split; [|done].
    etrans; [exact Hs|]. by apply rtc_once.
  - destruct H as (k' & t' & Hs & Hh & ?). exists t'. split; [|done].
    etrans; [exact Hs|]. apply rtc_once. simpl.
    pose proof (die_steps msg t') as Hd. by rewrite Hh in Hd.
  - destruct H as (t' & Hs & ?). eauto.
Qed.
End exceptions.
