(* ===== verification/Blocking.v ===== *)
(** * Blocking calls of a pseudothread ([src/pthr_pseudothread.c])

    A blocking call registers the thread with the reactor and switches to it;
    what everybody else does until the thread is resumed is the parameter
    [switch].  System calls are those of an operating system [OS]. *)

From stdpp Require Import base list gmap.
From S2P Require Import Prelude C2lib ReactorHandles ReactorTimers Reactor Prog.

(** The functions that resume a thread; the argument of each is the thread. *)
Inductive pth_fn :=
  ReturnFromBlock | ReturnFromSleep | ReturnFromPoll | ReturnFromPollTimeout | ReturnFromAlarm.

Definition POLLIN : Z := 1.
Definition POLLOUT : Z := 4.
Definition POLLERR : Z := 8.
Definition REACTOR_READ : Z := POLLIN.
Definition REACTOR_WRITE : Z := POLLOUT.
Definition EWOULDBLOCK : Z := 11.
Definition EINPROGRESS : Z := 115.

(** ** The sets of [pth_select] *)

(** A set of descriptors that may be the null pointer. *)
Abbreviation fds_arg := (option (gset Z)).

Definition fd_isset (i : Z) (a : fds_arg) : bool :=
  match a with Some x => bool_decide (i ∈ x) | None => false end.

(** The poll descriptors made of the three sets. *)
Definition select_fds (n : nat) (readfds writefds exceptfds : fds_arg) : list pollfd :=
  concat ((fun j => let i := Z.of_nat j in
    (if fd_isset i readfds then [Pollfd i POLLIN 0] else []) ++
    (if fd_isset i writefds then [Pollfd i POLLOUT 0] else []) ++
    (if fd_isset i exceptfds then [Pollfd i POLLERR 0] else [])) <$> seq 0 n).

Definition event (rev bit : Z) : bool := negb (Z.land rev bit =? 0).

(** [FD_SET] through a null pointer fails ([None]). *)
Definition fd_set_if (b : bool) (i : Z) (a : fds_arg) : option fds_arg :=
  if b then x ← a; Some (Some ({[i]} ∪ x)) else Some a.

(** The loop over the returned events. *)
Fixpoint select_sets (l : list (pollfd * Z)) (r w e : fds_arg)
  : option (fds_arg * fds_arg * fds_arg) :=
  match l with
  | [] => Some (r, w, e)
  | (p, rev) :: l =>
    r ← fd_set_if (event rev POLLIN) (fd p) r;
    w ← fd_set_if (event rev POLLOUT) (fd p) w;
    e ← fd_set_if (event rev POLLERR) (fd p) e;
    select_sets l r w e
  end.

Definition fd_zero (a : fds_arg) : fds_arg := (fun _ => ∅) <$> a.

Lemma select_fds_elem n r w e p :
  p ∈ select_fds n r w e <-> exists j, (j < n)%nat /\ fd p = Z.of_nat j /\ revents p = 0 /\
    (events p = POLLIN /\ fd_isset (fd p) r = true \/
     events p = POLLOUT /\ fd_isset (fd p) w = true \/
     events p = POLLERR /\ fd_isset (fd p) e = true).
Proof.
  unfold select_fds. rewrite list_elem_of_In, in_concat. split.
  - intros (l & Hl & Hp). apply list_elem_of_In, list_elem_of_fmap in Hl as (j & -> & Hj).
    apply list_elem_of_In in Hp. apply elem_of_seq in Hj. exists j. split; [lia|].
    rewrite !elem_of_app in Hp. destruct Hp as [Hp|[Hp|Hp]];
      (destruct (fd_isset _ _) eqn:Hs; [|by apply not_elem_of_nil in Hp]);
      apply list_elem_of_singleton in Hp as ->; simpl; auto 10.
  - intros (j & Hj & Hfd & Hrev & Hor). eexists. split.
    + apply list_elem_of_In, list_elem_of_fmap. exists j. split; [done|].
      apply elem_of_seq. lia.
    + apply list_elem_of_In. rewrite <- Hfd, !elem_of_app.
      destruct p as [i ev rv]. simpl in *. subst i rv.
      destruct Hor as [[-> ->]|[[-> ->]|[-> ->]]];
        [left|right; left|right; right]; by left.
Qed.

(** [x] is in the set or one of the descriptors has the event. *)
Definition adds (l : list (pollfd * Z)) (bit : Z) (a a' : gset Z) : Prop :=
  forall x, x ∈ a' <-> x ∈ a \/ exists p rev, (p, rev) ∈ l /\ event rev bit = true /\ fd p = x.

Lemma adds_step (p : pollfd) rev l bit a a' :
  adds l bit (if event rev bit then {[fd p]} ∪ a else a) a' -> adds ((p, rev) :: l) bit a a'.
Proof.
  intros H x. unfold adds in H. rewrite (H x). setoid_rewrite elem_of_cons. split.
  - intros [Hx|(p' & rev' & ? & ? & ?)]; [|eauto 10].
    destruct (event rev bit) eqn:E; [|by left].
    apply elem_of_union in Hx as [->%elem_of_singleton|?]; [|by left].
    right. exists p, rev. auto.
  - intros [Hx|(p' & rev' & [E|?] & He & Hf)]; [|injection E as -> ->|eauto 10].
    + left. destruct (event rev bit); [|done]. apply elem_of_union. by right.
    + left. rewrite He. apply elem_of_union_l, elem_of_singleton. done.
Qed.

Lemma select_sets_some l r w e :
  exists r' w' e', select_sets l (Some r) (Some w) (Some e) = Some (Some r', Some w', Some e') /\
    adds l POLLIN r r' /\ adds l POLLOUT w w' /\ adds l POLLERR e e'.
Proof.
  revert r w e. induction l as [|[p rev] l IH]; intros r w e; simpl.
  - exists r, w, e. split; [done|].
    repeat split; try (by left); intros [|(? & ? & H & _)]; try done;
      by apply not_elem_of_nil in H.
  - destruct (IH (if event rev POLLIN then {[fd p]} ∪ r else r)
      (if event rev POLLOUT then {[fd p]} ∪ w else w)
      (if event rev POLLERR then {[fd p]} ∪ e else e)) as (r' & w' & e' & Hs & H1 & H2 & H3).
    exists r', w', e'. split; [|auto using adds_step].
    unfold fd_set_if. by destruct (event rev POLLIN), (event rev POLLOUT), (event rev POLLERR).
Qed.

Lemma select_sets_null_except l r w :
  Exists (fun x => event x.2 POLLERR = true) l -> select_sets l (Some r) (Some w) None = None.
Proof.
  revert r w. induction l as [|[p rev] l IH]; intros r w H; simpl.
  - by apply Exists_nil in H.
  - apply Exists_cons in H. simpl in H. unfold fd_set_if.
    destruct (event rev POLLERR) eqn:E, (event rev POLLIN), (event rev POLLOUT); simpl;
      (try done); apply IH; naive_solver.
Qed.

Lemma zip_elem {A B : Type} (l : list A) (k : list B) x y :
  length l = length k -> (x, y) ∈ zip l k <-> exists j, l !! j = Some x /\ k !! j = Some y.
Proof.
  intros _. rewrite list_elem_of_lookup. split; intros [j Hj]; exists j.
  - apply lookup_zip_with_Some in Hj as (a & b & [= <- <-] & ? & ?). done.
  - apply lookup_zip_with_Some. naive_solver.
Qed.

Section blocking.
Context {X OS : Type} `{PL : Pools (cleanup X)} {MC : Memcpy}.
Abbreviation R := (reactor pth_fn loc (X := X)).
Context (jh : nat -> reactor_handle pth_fn loc) (jp : nat -> pollfd).

(** The current thread and its pool. *)
Context (current_pth : loc) (pth_pool : pool).

(** The reactor, the fields of the current thread that the calls use, the
    process environment (LANGUAGE and TZ) and the operating system. *)
Record pstate := PState {
  rct : R;
  alarm_received : bool;
  alarm_timer : option loc;
  poll_timeout : bool;
  lang : option bytes;
  tz : option bytes;
  environ : option bytes * option bytes;
  os : OS
}.

Definition with_rct r (s : pstate) : pstate :=
  PState r (alarm_received s) (alarm_timer s) (poll_timeout s) (lang s) (tz s) (environ s) (os s).
Definition with_os o (s : pstate) : pstate :=
  PState (rct s) (alarm_received s) (alarm_timer s) (poll_timeout s) (lang s) (tz s)
    (environ s) o.
Definition with_alarm_timer a (s : pstate) : pstate :=
  PState (rct s) (alarm_received s) a (poll_timeout s) (lang s) (tz s) (environ s) (os s).
Definition with_poll_timeout b (s : pstate) : pstate :=
  PState (rct s) (alarm_received s) (alarm_timer s) b (lang s) (tz s) (environ s) (os s).
Definition with_lang l (s : pstate) : pstate :=
  PState (rct s) (alarm_received s) (alarm_timer s) (poll_timeout s) l (tz s) (environ s) (os s).
Definition with_tz l (s : pstate) : pstate :=
  PState (rct s) (alarm_received s) (alarm_timer s) (poll_timeout s) (lang s) l (environ s) (os s).

(** [setenv] and [unsetenv] of the two variables. *)
Definition restore_lang (s : pstate) : pstate :=
  PState (rct s) (alarm_received s) (alarm_timer s) (poll_timeout s) (lang s) (tz s)
    (lang s, (environ s).2) (os s).
Definition restore_tz (s : pstate) : pstate :=
  PState (rct s) (alarm_received s) (alarm_timer s) (poll_timeout s) (lang s) (tz s)
    ((environ s).1, tz s) (os s).

Definition pth_set_language (l : bytes) (s : pstate) : pstate :=
  restore_lang (with_lang (Some l) s).
Definition pth_set_tz (l : bytes) (s : pstate) : pstate := restore_tz (with_tz (Some l) s).

(** From the switch to the calling context until the thread is resumed. *)
Context (switch : pstate -> pstate).

(** Clean-up functions other than the reactor's. *)
Context (run_other : X -> R * unit -> option (R * unit)).

Definition unset_timer (t : loc) (s : pstate) : option pstate :=
  '(r, _) ← reactor_unset_timer_early run_other t (rct s, tt); Some (with_rct r s).

Definition register (sock ops : Z) (f : pth_fn) (s : pstate) : nat * pstate :=
  let '(h, t) := reactor_register jh jp (table (rct s)) sock ops f current_pth in
  (h, with_rct (with_table t (rct s)) s).

Definition unregister (h : nat) (s : pstate) : option pstate :=
  t ← reactor_unregister (table (rct s)) h; Some (with_rct (with_table t (rct s)) s).

Definition block (sock operations : Z) : prog pstate unit := fun s =>
  let '(h, s1) := register sock operations ReturnFromBlock s in
  match unregister h (switch s1) with
  | None => Abort
  | Some s2 => if alarm_received s2 then PthExit s2 else Ret tt (restore_tz (restore_lang s2))
  end.

(** The shape of the calls that try, and block while the system call would:
    [call] gives the result, [errno] and what was transferred. *)
Fixpoint retry {B : Type} (fuel : nat) (call : OS -> Z * Z * B * OS) (sock ops : Z)
  : prog pstate (Z * B) := fun s =>
  match fuel with
  | O => NoFuel
  | S k =>
    let '(r, errno, b, o) := call (os s) in
    if decide (r = -1 /\ errno = EWOULDBLOCK)
    then (block sock ops ≫= fun _ => retry k call sock ops) (with_os o s)
    else Ret (r, b) (with_os o s)
  end.

(** The system calls. *)
Context (sys_read sys_recv : Z -> Z -> OS -> Z * Z * bytes * OS).
Context (sys_write sys_send : Z -> bytes -> OS -> Z * Z * unit * OS).
(** Addresses, and messages with their control data. *)
Context {Addr Msg : Type}.
Context (sys_sendto : Z -> bytes -> Addr -> OS -> Z * Z * unit * OS).
Context (sys_recvfrom : Z -> Z -> OS -> Z * Z * (bytes * Addr) * OS).
Context (sys_sendmsg : Z -> Msg -> OS -> Z * Z * unit * OS).
Context (sys_recvmsg : Z -> Msg -> OS -> Z * Z * Msg * OS).
Context (sys_accept : Z -> OS -> Z * Z * unit * OS).
Context (sys_connect : Z -> Z -> OS -> Z * Z * OS).
Context (sys_so_error : Z -> OS -> option Z * OS).
Context (sys_poll : list pollfd -> Z -> OS -> Z * list Z * OS).

Definition pth_read (fuel : nat) (s count : Z) : prog pstate (Z * bytes) :=
  retry fuel (sys_read s count) s REACTOR_READ.
Definition pth_write (fuel : nat) (s : Z) (buf : bytes) : prog pstate (Z * unit) :=
  retry fuel (sys_write s buf) s REACTOR_WRITE.
Definition pth_send (fuel : nat) (s : Z) (msg : bytes) : prog pstate (Z * unit) :=
  retry fuel (sys_send s msg) s REACTOR_WRITE.
Definition pth_recv (fuel : nat) (s len : Z) : prog pstate (Z * bytes) :=
  retry fuel (sys_recv s len) s REACTOR_READ.

Definition pth_sendto (fuel : nat) (s : Z) (msg : bytes) (to : Addr) : prog pstate (Z * unit) :=
  retry fuel (sys_sendto s msg to) s REACTOR_WRITE.
Definition pth_sendmsg (fuel : nat) (s : Z) (msg : Msg) : prog pstate (Z * unit) :=
  retry fuel (sys_sendmsg s msg) s REACTOR_WRITE.
Definition pth_recvfrom (fuel : nat) (s len : Z) : prog pstate (Z * (bytes * Addr)) :=
  retry fuel (sys_recvfrom s len) s REACTOR_READ.
Definition pth_recvmsg (fuel : nat) (s : Z) (msg : Msg) : prog pstate (Z * Msg) :=
  retry fuel (sys_recvmsg s msg) s REACTOR_READ.

(** [pth_accept] blocks first. *)
Fixpoint pth_accept (fuel : nat) (s : Z) : prog pstate Z := fun st =>
  match fuel with
  | O => NoFuel
  | S k =>
    andthen (block s REACTOR_READ) (fun _ st1 =>
      let '(r, errno, _, o) := sys_accept s (os st1) in
      if decide (r = -1 /\ errno = EWOULDBLOCK) then pth_accept k s (with_os o st1)
      else Ret r (with_os o st1)) st
  end.

(** The result and [errno]. *)
Definition pth_connect (s addr : Z) : prog pstate (Z * Z) := fun st =>
  let '(r, errno, o) := sys_connect s addr (os st) in
  let st1 := with_os o st in
  if decide (r = 0) then Ret (0, errno) st1
  else if decide (errno = EINPROGRESS) then
    andthen (block s REACTOR_WRITE) (fun _ st2 =>
      let '(e, o) := sys_so_error s (os st2) in
      match e with
      | None => Ret (-1, errno) (with_os o st2)
      | Some e => Ret (if decide (e = 0) then 0 else -1, e) (with_os o st2)
      end) st1
  else Ret (-1, errno) st1.

(** [t] is the address of the timer. *)
Definition sleep_ (t : loc) (timeout : Z) : prog pstate unit := fun s =>
  match reactor_set_timer t pth_pool timeout ReturnFromSleep current_pth (rct s) with
  | None => Abort
  | Some r =>
    let s1 := switch (with_rct r s) in
    if alarm_received s1 then
      match unset_timer t s1 with Some s2 => PthExit s2 | None => Abort end
    else Ret tt (restore_tz (restore_lang s1))
  end.

Definition pth_sleep (t : loc) (seconds : Z) : prog pstate Z :=
  sleep_ t (to_int (seconds * 1000)) ≫= fun _ => mret seconds.

Definition pth_nanosleep (t : loc) (tv_sec tv_nsec : Z) : prog pstate Z :=
  sleep_ t (to_int (tv_sec * 1000 + tv_nsec `quot` 1000000)) ≫= fun _ => mret 0.

Definition pth_millisleep (t : loc) (millis : Z) : prog pstate Z :=
  sleep_ t millis ≫= fun _ => mret 0.

Definition pth_timeout (t : loc) (seconds : Z) : prog pstate unit := fun s =>
  match (match alarm_timer s with Some a => unset_timer a s | None => Some s end) with
  | None => Abort
  | Some s1 =>
    let s2 := with_alarm_timer None s1 in
    if decide (seconds = 0) then Ret tt s2
    else
      match reactor_set_timer t pth_pool (to_int (seconds * 1000)) ReturnFromAlarm current_pth
              (rct s2) with
      | Some r => Ret tt (with_alarm_timer (Some t) (with_rct r s2))
      | None => Abort
      end
  end.

Fixpoint register_all (fds : list pollfd) (s : pstate) : list nat * pstate :=
  match fds with
  | [] => ([], s)
  | p :: fds =>
    let '(h, s1) := register (fd p) (events p) ReturnFromPoll s in
    let '(hs, s2) := register_all fds s1 in (h :: hs, s2)
  end.

Fixpoint unregister_all (hs : list nat) (s : pstate) : option pstate :=
  match hs with
  | [] => Some s
  | h :: hs => s1 ← unregister h s; unregister_all hs s1
  end.

Definition poll_ (t : loc) (fds : list pollfd) (timeout : Z) : prog pstate unit := fun s =>
  let '(hs, s1) := register_all fds (with_poll_timeout false s) in
  match (if decide (0 <= timeout)
         then reactor_set_timer t pth_pool timeout ReturnFromPollTimeout current_pth (rct s1)
         else Some (rct s1)) with
  | None => Abort
  | Some r =>
    match unregister_all hs (switch (with_rct r s1)) with
    | None => Abort
    | Some s2 =>
      match (if decide (0 <= timeout /\ poll_timeout s2 = false)
             then unset_timer t s2 else Some s2) with
      | None => Abort
      | Some s3 =>
        if alarm_received s3 then PthExit s3 else Ret tt (restore_tz (restore_lang s3))
      end
    end
  end.

(** The result of [poll] and the [revents] it wrote. *)
Fixpoint pth_poll (fuel : nat) (t : loc) (fds : list pollfd) (timeout : Z)
  : prog pstate (Z * list Z) := fun s =>
  match fuel with
  | O => NoFuel
  | S k =>
    let '(r, rs, o) := sys_poll fds 0 (os s) in
    if decide (r = 0) then
      andthen (poll_ t fds timeout) (fun _ s1 =>
        if poll_timeout s1 then Ret (0, rs) s1 else pth_poll k t fds timeout s1) (with_os o s)
    else Ret (r, rs) (with_os o s)
  end.

(** The result and the three sets as they are left. *)
Definition pth_select (fuel : nat) (t : loc) (n : nat) (readfds writefds exceptfds : fds_arg)
    (timeout : option (Z * Z)) : prog pstate (Z * (fds_arg * fds_arg * fds_arg)) :=
  let v := select_fds n readfds writefds exceptfds in
  let to := match timeout with
            | Some (sec, usec) => to_int (sec * 1000 + usec `quot` 1000)
            | None => -1
            end in
  '(r, revs) ← pth_poll fuel t v to;
  if decide (r = -1) then mret (-1, (readfds, writefds, exceptfds))
  else
    let z := (fd_zero readfds, fd_zero writefds, fd_zero exceptfds) in
    if decide (r = 0) then mret (0, z)
    else x ← expect (select_sets (zip v revs) z.1.1 z.1.2 z.2); mret (r, x).

(** [pth_wait_readable] and [pth_wait_writable]; the timeout given to [poll]
    is -1. *)
Fixpoint pth_wait (fuel : nat) (fd ev : Z) : prog pstate Z := fun s =>
  match fuel with
  | O => NoFuel
  | S k =>
    let '(r, _, o) := sys_poll [Pollfd fd ev 0] (-1) (os s) in
    if decide (r = 0) then (block fd ev ≫= fun _ => pth_wait k fd ev) (with_os o s)
    else Ret (if decide (0 <= r) then 1 else -1) (with_os o s)
  end.

Definition pth_wait_readable (fuel : nat) (fd : Z) : prog pstate Z := pth_wait fuel fd POLLIN.
Definition pth_wait_writable (fuel : nat) (fd : Z) : prog pstate Z := pth_wait fuel fd POLLOUT.

(** What the handlers that resume the thread do before they switch to it. *)
Definition return_from_poll_timeout (s : pstate) : pstate := with_poll_timeout true s.

Definition return_from_alarm (s : pstate) : pstate :=
  PState (rct s) true None (poll_timeout s) (lang s) (tz s) (environ s) (os s).

(** ** What the thread leaves behind

    The thread's own registrations. *)
Definition mine (m : gmap nat (registration pth_fn loc)) : gmap nat (registration pth_fn loc) :=
  filter (fun x => r_data x.2 = current_pth) m.

Definition my_handles (s : pstate) (m : gmap nat (registration pth_fn loc)) : Prop :=
  table_wf (table (rct s)) /\
  exists m0, models (table (rct s)) m0 /\ mine m0 = m.

Lemma register_mine s m sock ops f h s' :
  my_handles s m -> to_short ops = ops -> register sock ops f s = (h, s') ->
  my_handles s' (<[h := Reg sock ops f current_pth]> m) /\ m !! h = None /\
  s' = with_rct (with_table (table (rct s')) (rct s)) s.
Proof.
  intros (Hwf & m0 & Hm0 & <-) Hops. unfold register.
  destruct (reactor_register _ _ _ _ _ _ _) as [h' t] eqn:Hr. intros [= <- <-].
  destruct (run_op_refines jh jp (ORegister sock ops f current_pth) (table (rct s)) m0 h' t)
    as [Hwf' Hm']; try done; [simpl; by rewrite Hr|]. simpl in Hm'.
  split; [|split; [|done]].
  - split; [done|]. eexists. split; [done|]. unfold mine.
    by rewrite map_filter_insert_True.
  - unfold mine. apply map_lookup_filter_None. left. rewrite (Hm0 h').
    by eapply register_lookup in Hr as (? & _).
Qed.

(** [reactor_unregister] relies on this property of the C library. *)
Context `{CF : !CopiesForward}.

Lemma unregister_mine s m h :
  my_handles s m -> is_Some (m !! h) ->
  exists s', unregister h s = Some s' /\ my_handles s' (delete h m) /\
    s' = with_rct (with_table (table (rct s')) (rct s)) s.
Proof.
  intros (Hwf & m0 & Hm0 & <-) [r Hh]. apply map_lookup_filter_Some in Hh as [Hh _].
  assert (h < length (handles (table (rct s))))%nat as Hlt.
  { rewrite (Hm0 h) in Hh. unfold lookup_reg in Hh.
    destruct (handles _ !! h) eqn:E; [by apply lookup_lt_Some in E|done]. }
  destruct (unregister_defined _ _ Hlt) as [t Ht].
  unfold unregister. rewrite Ht. simpl. eexists. split; [done|]. split; [|done].
  destruct (run_op_refines jh jp (OUnregister h) (table (rct s)) m0 h t) as [Hwf' Hm'];
    try done; [by left|simpl; by rewrite Ht|]. simpl in Hm'.
  split; [done|]. eexists. split; [done|]. unfold mine. by rewrite map_filter_delete.
Qed.

Lemma table_only s s' :
  s' = with_rct (with_table (table (rct s')) (rct s)) s ->
  os s' = os s /\ alarm_received s' = alarm_received s /\ poll_timeout s' = poll_timeout s /\
  rct s' = with_table (table (rct s')) (rct s).
Proof. intros ->. done. Qed.

(** The others leave this thread's registrations alone. *)
Context (switch_mine : forall s m, my_handles s m -> my_handles (switch s) m).

(** What neither the thread's bookkeeping nor the others change. *)
Definition stable (P : pstate -> Prop) : Prop :=
  (forall s r, P s -> P (with_rct r s)) /\ (forall s, P s -> P (switch s)) /\
  (forall s, P s -> P (restore_tz (restore_lang s))).

Lemma block_runs P s m sock ops :
  stable P -> P s -> my_handles s m -> to_short ops = ops ->
  exists s1, os s1 = os s /\
  match block sock ops s with
  | Ret _ s' => my_handles s' m /\ P s' /\ os s' = os (switch s1) /\
      environ s' = (lang s', tz s')
  | PthExit s' => my_handles s' m /\ P s' /\ os s' = os (switch s1) /\ alarm_received s' = true
  | _ => False
  end.
Proof.
  intros (Pr & Psw & Penv) HP Hm Hops. unfold block.
  destruct (register sock ops ReturnFromBlock s) as [h s1] eqn:Hr.
  destruct (register_mine _ _ _ _ _ _ _ Hm Hops Hr) as (Hm1 & Hh & E1).
  exists s1. split; [by apply table_only in E1 as (? & _)|].
  destruct (unregister_mine _ _ h (switch_mine _ _ Hm1)) as (s2 & -> & Hm2 & E2);
    [rewrite lookup_insert_eq; eauto|].
  assert (P s2) as HP2 by (rewrite E2; apply Pr, Psw; rewrite E1; by apply Pr).
  rewrite delete_insert_id in Hm2 by done.
  assert (os s2 = os (switch s1)) as Eo2 by (by apply table_only in E2 as (? & _)).
  destruct (alarm_received s2) eqn:Ha; [done|]. split; [done|]. split; [auto|]. split; done.
Qed.

(** The calls of [call] before the last one: each answered that it would block,
    after which the others ran.  The operating system goes from the first state
    to the second. *)
Inductive waits {B : Type} (call : OS -> Z * Z * B * OS) : OS -> OS -> Prop :=
  | waits_no_more o : waits call o o
  | waits_again o b s1 o' : call o = (-1, EWOULDBLOCK, b, os s1) ->
      waits call (os (switch s1)) o' -> waits call o o'.

(** The last call would have blocked as well, and an alarm came. *)
Definition waits_in_vain {B : Type} (call : OS -> Z * Z * B * OS) (o o' : OS) : Prop :=
  exists o1 b s1, waits call o o1 /\ call o1 = (-1, EWOULDBLOCK, b, os s1) /\ o' = os (switch s1).

(** A blocking call ends with the first answer that is not that it would block,
    given in a state with [P]. *)
Lemma retry_keeps {B : Type} (call : OS -> Z * Z * B * OS) (delay : OS -> nat)
    (peer_acts : forall s b o, call (os s) = (-1, EWOULDBLOCK, b, o) ->
       forall s1, os s1 = o -> (delay (os (switch s1)) < delay (os s))%nat)
    (P : pstate -> Prop) (HP : stable P)
    (tried : forall s b o, P s -> call (os s) = (-1, EWOULDBLOCK, b, o) -> P (with_os o s))
    fuel sock ops s m :
  P s -> my_handles s m -> to_short ops = ops -> (delay (os s) < fuel)%nat ->
  match retry fuel call sock ops s with
  | Ret (r, b) s' => my_handles s' m /\
      (environ s = (lang s, tz s) -> environ s' = (lang s', tz s')) /\
      exists s0 errno, P s0 /\ call (os s0) = (r, errno, b, os s') /\ s' = with_os (os s') s0 /\
        ~ (r = -1 /\ errno = EWOULDBLOCK) /\ waits call (os s) (os s0)
  | PthExit s' => my_handles s' m /\ P s' /\ alarm_received s' = true /\
      waits_in_vain call (os s) (os s')
  | _ => False
  end.
Proof.
  revert s. induction fuel as [|k IH]; intros s Hs Hm Hops Hf; [lia|]. simpl.
  destruct (call (os s)) as [[[r errno] b] o] eqn:Hc.
  destruct (decide _) as [[-> ->]|Hne].
  - destruct (block_runs P (with_os o s) m sock ops) as (s1 & Eo & Hb);
      [done|by eapply tried|done..|].
    specialize (peer_acts _ _ _ Hc s1 Eo). cbn [os with_os] in Eo. subst o. unfold mbind, prog_bind.
    destruct (block sock ops (with_os (os s1) s)) as [[] s2| |s2| |]; [|done| |done..].
    2:{ destruct Hb as (? & ? & Eo2 & ?). split; [done|]. split; [done|]. split; [done|].
        exists (os s), b, s1. split; [constructor|done]. }
    destruct Hb as (Hm2 & HP2 & Eo2 & He2). rewrite <- Eo2 in peer_acts.
    specialize (IH s2 HP2 Hm2 Hops ltac:(lia)).
    assert (forall o', waits call (os s2) o' -> waits call (os s) o') as Hw.
    { rewrite Eo2. intros o'. by apply (waits_again call _ b s1). }
    destruct (retry k call sock ops s2) as [[r b'] s'| |s'| |]; [|done| |done..].
    + destruct IH as (? & He & s0 & errno & ? & ? & ? & ? & ?). split; [done|]. split; [auto|].
      exists s0, errno. auto 10.
    + destruct IH as (? & ? & ? & o1 & b1 & s3 & ? & ? & ?). split; [done|]. split; [done|]. split; [done|].
      exists o1, b1, s3. auto.
  - split; [done|]. split; [done|]. exists s, errno. split; [done|]. split; [done|]. split; [done|].
    split; [done|constructor].
Qed.

(** C34: a call such as [pth_read] or [pth_write] ends as soon as the system
    call stops answering that it would block; it then returns that answer, the
    system call having been made once for each time it would block and once more,
    and nothing being done to the operating system in between but what the others
    did, in the thread's own environment; or the thread exits because of an alarm
    that came while it was blocked.  Either way the thread's registrations with the
    reactor are those it had before.  The C library's [memcpy] copies overlapping
    cells to lower addresses ([CopiesForward]). *)
Theorem retry_returns {B : Type} (call : OS -> Z * Z * B * OS) (delay : OS -> nat)
    (peer_acts : forall s b o, call (os s) = (-1, EWOULDBLOCK, b, o) ->
       forall s1, os s1 = o -> (delay (os (switch s1)) < delay (os s))%nat)
    fuel sock ops s m :
  my_handles s m -> to_short ops = ops -> environ s = (lang s, tz s) ->
  (delay (os s) < fuel)%nat ->
  match retry fuel call sock ops s with
  | Ret (r, b) s' => my_handles s' m /\ environ s' = (lang s', tz s') /\
      exists o errno, waits call (os s) o /\ call o = (r, errno, b, os s') /\
        ~ (r = -1 /\ errno = EWOULDBLOCK)
  | PthExit s' => my_handles s' m /\ alarm_received s' = true /\ waits_in_vain call (os s) (os s')
  | _ => False
  end.
Proof.
  intros Hm Hops He Hf.
  pose proof (retry_keeps call delay peer_acts (fun _ => True)
    (conj (fun _ _ _ => I) (conj (fun _ _ => I) (fun _ _ => I))) (fun _ _ _ _ _ => I)
    fuel sock ops s m I Hm Hops Hf) as H.
  destruct (retry fuel call sock ops s) as [[r b] s'| |s'| |]; [|done|by destruct H as (? & _ & ?)|done|done].
  destruct H as (? & He' & s0 & errno & _ & Hc & _ & ? & ?).
  split; [done|]. split; [auto|]. by exists (os s0), errno.
Qed.

Lemma register_all_mine fds s m hs s' :
  my_handles s m -> Forall (fun p => to_short (events p) = events p) fds ->
  register_all fds s = (hs, s') ->
  exists new, my_handles s' (new ∪ m) /\ new ##ₘ m /\ NoDup hs /\
    (forall h, h ∈ hs <-> is_Some (new !! h)) /\
    s' = with_rct (with_table (table (rct s')) (rct s)) s.
Proof.
  revert s m hs. induction fds as [|p fds IH]; intros s m hs Hm Hev; simpl.
  - intros [= <- <-]. exists ∅. rewrite map_empty_union. split; [done|].
    split; [apply map_disjoint_empty_l|]. split; [constructor|].
    split; [intros h; rewrite elem_of_nil; split; [done|by intros []]|].
    by destruct s as [[] ? ? ? ? ? ? ?].
  - apply Forall_cons in Hev as [Hp Hev].
    destruct (register _ _ _ _) as [h s1] eqn:Hr.
    destruct (register_mine _ _ _ _ _ _ _ Hm Hp Hr) as (Hm1 & Hh & E1).
    destruct (register_all fds s1) as [hs' s2] eqn:Hra. intros [= <- <-].
    destruct (IH _ _ _ Hm1 Hev Hra) as (new & Hm2 & Hd & Hnd & Hin & E2).
    apply map_disjoint_insert_r in Hd as [Hnh Hd].
    exists (<[h := Reg (fd p) (events p) ReturnFromPoll current_pth]> new).
    split; [|split; [|split; [|split]]].
    + rewrite <- insert_union_r in Hm2 by done. by rewrite <- insert_union_l.
    + apply map_disjoint_insert_l. done.
    + constructor; [|done]. rewrite Hin, Hnh. by intros [].
    + intros h'. rewrite elem_of_cons, Hin, lookup_insert_is_Some. split.
      * intros [->|?]; [by left|]. destruct (decide (h = h')); [by left|by right].
      * intros [->|[_ ?]]; auto.
    + rewrite E2, E1. done.
Qed.

Lemma unregister_all_mine hs s m new :
  my_handles s (new ∪ m) -> new ##ₘ m -> NoDup hs ->
  (forall h, h ∈ hs <-> is_Some (new !! h)) ->
  exists s', unregister_all hs s = Some s' /\ my_handles s' m /\
    s' = with_rct (with_table (table (rct s')) (rct s)) s.
Proof.
  revert s new. induction hs as [|h hs IH]; intros s new Hm Hd Hnd Hin; simpl.
  - assert (new = ∅) as ->.
    { apply map_empty. intros i. apply eq_None_not_Some. intros Hi%Hin.
      by apply not_elem_of_nil in Hi. }
    rewrite map_empty_union in Hm. eexists. split; [done|]. split; [done|].
    by destruct s as [[] ? ? ? ? ? ? ?].
  - apply NoDup_cons in Hnd as [Hni Hnd].
    assert (is_Some (new !! h)) as [r Hr] by (apply Hin; by left).
    assert (m !! h = None) as Hmh by (by eapply map_disjoint_Some_r).
    destruct (unregister_mine s (new ∪ m) h Hm) as (s1 & -> & Hm1 & E1).
    { rewrite (lookup_union_Some_l _ _ _ _ Hr). eauto. }
    simpl. rewrite delete_union, (delete_id m) in Hm1 by done.
    destruct (IH s1 (delete h new) Hm1) as (s2 & -> & Hm2 & E2); [|done| |].
    { by apply map_disjoint_delete_l. }
    { intros h'. rewrite lookup_delete_is_Some, <- Hin, elem_of_cons. naive_solver. }
    exists s2. split; [done|]. split; [done|]. by rewrite E2, E1.
Qed.

Lemma switch_rep_handles s m :
  my_handles s m -> table_wf (table (rct (switch s))).
Proof. intros Hm. by apply switch_mine in Hm as [? _]. Qed.

(** C35: [_poll] leaves nothing behind: when it returns, or the thread exits
    because of an alarm, every descriptor it registered is unregistered, the
    other registrations of the thread are as before, and the timer for its
    timeout is not in the schedule, whether it fired or not.  The C library's
    [memcpy] copies overlapping cells to lower addresses ([CopiesForward]). *)
Theorem poll_leaves_nothing
    (switch_timers : forall s q, reactor_rep (rct s) q ->
       exists q', reactor_rep (rct (switch s)) q' /\
         forall t b, (t, b) ∈ q -> tfn b = ReturnFromPollTimeout -> tdata b = current_pth ->
           if poll_timeout (switch s) then t ∉ q'.*1
           else exists q1 b' q2, q' = q1 ++ (t, b') :: q2)
    t fds timeout s m q :
  my_handles s m -> reactor_rep (rct s) q -> client_pool (rct s) pth_pool ->
  theap (timers (rct s)) !! t = None -> reactor_time (rct s) + timeout < 2 ^ 64 ->
  0 <= reactor_time (rct s) -> Forall (fun p => to_short (events p) = events p) fds ->
  match poll_ t fds timeout s with
  | Ret _ s' | PthExit s' => my_handles s' m /\ exists q', reactor_rep (rct s') q' /\
      (0 <= timeout -> t ∉ q'.*1)
  | _ => False
  end.
Proof.
  intros Hm Hrep Hcp Hth Hov Hpos Hev. unfold poll_.
  destruct (register_all fds (with_poll_timeout false s)) as [hs s1] eqn:Hra.
  destruct (register_all_mine fds (with_poll_timeout false s) m hs s1 Hm Hev Hra)
    as (new & Hm1 & Hd & Hnd & Hin & E1).
  apply table_only in E1 as (_ & _ & _ & E1). simpl in E1.
  assert (reactor_rep (rct s1) q) as Hrep1.
  { rewrite E1. apply rep_with_table; [apply Hm1|done]. }
  assert (exists r q1, (if decide (0 <= timeout)
      then reactor_set_timer t pth_pool timeout ReturnFromPollTimeout current_pth (rct s1)
      else Some (rct s1)) = Some r /\ reactor_rep r q1 /\ table r = table (rct s1) /\
      (0 <= timeout -> exists b, (t, b) ∈ q1 /\ tfn b = ReturnFromPollTimeout /\
         tdata b = current_pth)) as (r & q1 & -> & Hrep2 & Et & Htm).
  { destruct (decide (0 <= timeout)) as [H0|]; [|exists (rct s1), q; by auto].
    destruct (set_timer_rep (rct s1) q t pth_pool timeout ReturnFromPollTimeout current_pth)
      as (r & sp & Hs & Hr & Et & _); [done|rewrite E1; done|rewrite E1; done|rewrite E1; simpl; lia|].
    exists r. eexists. split; [exact Hs|]. split; [exact Hr|]. split; [exact Et|].
    intros _. eexists. split; [apply sched_insert_elem; by left|done]. }
  assert (my_handles (with_rct r s1) (new ∪ m)) as Hm2.
  { destruct Hm1 as [Hw Hx]. unfold my_handles. simpl. by rewrite Et. }
  destruct (switch_timers (with_rct r s1) q1 Hrep2) as (q2 & Hrep3 & Hq2).
  apply switch_mine in Hm2. set (s2 := switch (with_rct r s1)) in *.
  destruct (unregister_all_mine hs s2 m new Hm2 Hd Hnd Hin) as (s3 & -> & Hm3 & E3).
  apply table_only in E3 as (_ & _ & Ep & E3).
  assert (reactor_rep (rct s3) q2) as Hrep4.
  { rewrite E3. apply rep_with_table; [apply Hm3|done]. }
  assert (exists s4, (if decide (0 <= timeout /\ poll_timeout s3 = false)
      then unset_timer t s3 else Some s3) = Some s4 /\ my_handles s4 m /\
      exists q', reactor_rep (rct s4) q' /\ (0 <= timeout -> t ∉ q'.*1))
    as (s4 & -> & Hm4 & q' & Hrep5 & Hq').
  { destruct (decide (0 <= timeout)) as [H0|H0].
    - destruct (Htm H0) as (b & Hb1 & Hb2 & Hb3). specialize (Hq2 t b Hb1 Hb2 Hb3).
      rewrite Ep in *. destruct (poll_timeout s2) eqn:Hpt.
      + rewrite decide_False by (by intros [_ ?]). eauto 10.
      + rewrite decide_True by done. destruct Hq2 as (l1 & b' & l2 & ->).
        destruct (unset_timer_rep run_other (rct s3) tt l1 t b' l2 Hrep4)
          as (r' & Hu & Hr' & Er & _).
        unfold unset_timer. rewrite Hu. simpl. eexists. split; [done|].
        split; [unfold my_handles; simpl; by rewrite Er|].
        exists (l1 ++ l2). split; [done|]. intros _.
        pose proof (sched_NoDup _ _ (rep_sched _ _ Hrep4)) as Hs.
        rewrite fmap_app in *. simpl in Hs. rewrite <- Permutation_middle in Hs.
        by apply NoDup_cons in Hs as [? _].
    - rewrite decide_False by (by intros [? _]). exists s3. split; [done|].
      split; [done|]. exists q2. done. }
  destruct (alarm_received s4); eauto.
Qed.

(** When [pth_poll] reports events, [pth_select] leaves in each of the
    three sets the descriptors for which the event of that set was reported;
    as [poll] reports readability and writability only where they were asked
    for, the first two are subsets of the sets given, below [n]. *)
Theorem pth_select_ready fuel t n r w e timeout s k revs s' :
  let v := select_fds n (Some r) (Some w) (Some e) in
  pth_poll fuel t v (match timeout with
      | Some (sec, usec) => to_int (sec * 1000 + usec `quot` 1000) | None => -1 end) s =
    Ret (k, revs) s' ->
  0 < k -> length revs = length v ->
  (forall j p rev bit, v !! j = Some p -> revs !! j = Some rev -> event rev bit = true ->
     bit = POLLIN \/ bit = POLLOUT -> events p = bit) ->
  exists r' w' e',
    pth_select fuel t n (Some r) (Some w) (Some e) timeout s =
      Ret (k, (Some r', Some w', Some e')) s' /\
    (forall x, x ∈ r' <-> x ∈ r /\ 0 <= x < Z.of_nat n /\ exists j rev,
       v !! j = Some (Pollfd x POLLIN 0) /\ revs !! j = Some rev /\ event rev POLLIN = true) /\
    (forall x, x ∈ w' <-> x ∈ w /\ 0 <= x < Z.of_nat n /\ exists j rev,
       v !! j = Some (Pollfd x POLLOUT 0) /\ revs !! j = Some rev /\ event rev POLLOUT = true) /\
    (forall x, x ∈ e' <-> exists j p rev,
       v !! j = Some p /\ fd p = x /\ revs !! j = Some rev /\ event rev POLLERR = true).
Proof using Type.
  clear sys_read sys_recv sys_write sys_send sys_sendto sys_recvfrom sys_sendmsg sys_recvmsg
    sys_accept sys_connect sys_so_error switch_mine.
  intros v Hp Hk Hlen Hask. unfold pth_select. fold v. rewrite (bind_ret _ _ _ _ _ Hp).
  rewrite decide_False by lia. rewrite decide_False by lia. simpl.
  destruct (select_sets_some (zip v revs) ∅ ∅ ∅) as (r' & w' & e' & -> & H1 & H2 & H3).
  exists r', w', e'. split; [done|].
  assert (forall bit a x, bit = POLLIN /\ a = r \/ bit = POLLOUT /\ a = w ->
    (exists p rev, (p, rev) ∈ zip v revs /\ event rev bit = true /\ fd p = x) <->
    x ∈ a /\ 0 <= x < Z.of_nat n /\ exists j rev,
       v !! j = Some (Pollfd x bit 0) /\ revs !! j = Some rev /\ event rev bit = true) as H.
  { intros bit a x Hba. setoid_rewrite zip_elem; [|done]. split.
    - intros (p & rev & (j & Hj & Hr) & He & <-).
      assert (events p = bit) as Hev by (apply (Hask j p rev bit); naive_solver).
      apply list_elem_of_lookup_2 in Hj as Hin.
      apply select_fds_elem in Hin as (i & Hi & Hfd & Hrv & Hor).
      assert (fd_isset (fd p) (Some a) = true) as Hs.
      { unfold POLLIN, POLLOUT, POLLERR in *.
        destruct Hba as [[-> ->]|[-> ->]], Hor as [[? ?]|[[? ?]|[? ?]]]; try lia; done. }
      simpl in Hs. apply bool_decide_eq_true in Hs. split; [done|]. split; [lia|].
      exists j, rev. destruct p. simpl in *. subst. done.
    - intros (_ & _ & j & rev & Hj & Hr & He). eexists _, rev. split; [eauto|]. done. }
  split; [|split].
  - intros x. rewrite (H1 x), <- (H POLLIN r) by auto. rewrite elem_of_empty. tauto.
  - intros x. rewrite (H2 x), <- (H POLLOUT w) by auto. rewrite elem_of_empty. tauto.
  - intros x. rewrite (H3 x), elem_of_empty. setoid_rewrite zip_elem; [|done]. naive_solver.
Qed.

(** With a null [exceptfds], an error condition reported for any of the
    descriptors, which [poll] does without being asked, makes [pth_select]
    store through the null pointer. *)
Theorem pth_select_null_exceptfds fuel t n r w timeout s k revs s' :
  let v := select_fds n (Some r) (Some w) None in
  pth_poll fuel t v (match timeout with
      | Some (sec, usec) => to_int (sec * 1000 + usec `quot` 1000) | None => -1 end) s =
    Ret (k, revs) s' ->
  0 < k -> (exists j rev, (j < length v)%nat /\ revs !! j = Some rev /\
              event rev POLLERR = true) ->
  pth_select fuel t n (Some r) (Some w) None timeout s = Abort.
Proof using Type.
  clear sys_read sys_recv sys_write sys_send sys_sendto sys_recvfrom sys_sendmsg sys_recvmsg
    sys_accept sys_connect sys_so_error switch_mine.
  intros v Hp Hk (j & rev & Hj & Hr & He). unfold pth_select. fold v.
  rewrite (bind_ret _ _ _ _ _ Hp). rewrite decide_False by lia.
  rewrite decide_False by lia. simpl. rewrite select_sets_null_except; [done|].
  apply Exists_exists. destruct (lookup_lt_is_Some_2 _ _ Hj) as [p Hpj].
  exists (p, rev). split; [|done]. apply list_elem_of_lookup. exists j.
  apply lookup_zip_with_Some. eauto.
Qed.
End blocking.

(** ** On a small system *)

(** The operating system counts how often a call would still block; it
    passes while others run. *)
Definition demo_switch (s : pstate (X := Empty_set) (OS := nat)) : pstate :=
  with_poll_timeout false (with_os (pred (os s)) s).

Definition demo_call (o : nat) : Z * Z * bytes * nat :=
  if decide (o = 0%nat) then (2, 0, lit "hi", o) else (-1, EWOULDBLOCK, [], o).

Definition demo_jh (i : nat) : reactor_handle pth_fn loc := Handle 0 ReturnFromBlock 1%positive.
Definition demo_jp (i : nat) : pollfd := Pollfd 0 0 0.

Definition demo_state (n : nat) : pstate (X := Empty_set) (OS := nat) :=
  PState (reactor_init 5 0) false None false None None (None, None) n.

Lemma demo_handles n : my_handles 1%positive (demo_state n) ∅.
Proof. split; [apply empty_table_wf|]. exists ∅. split; [done|apply map_filter_empty]. Qed.

Lemma demo_switch_mine s m :
  my_handles 1%positive s m -> my_handles 1%positive (demo_switch s) m.
Proof. done. Qed.

Lemma retry_returns_witness :
  match retry demo_jh demo_jp 1%positive demo_switch 3 demo_call 7 REACTOR_READ (demo_state 2)
  with
  | Ret (r, b) s' => my_handles 1%positive s' ∅ /\ environ s' = (lang s', tz s') /\
      exists o errno, waits demo_switch demo_call 2%nat o /\ demo_call o = (r, errno, b, os s') /\
        ~ (r = -1 /\ errno = EWOULDBLOCK)
  | PthExit s' => my_handles 1%positive s' ∅ /\ alarm_received s' = true /\
      waits_in_vain demo_switch demo_call 2%nat (os s')
  | _ => False
  end.
Proof.
  apply (retry_returns demo_jh demo_jp 1%positive demo_switch demo_switch_mine demo_call
    (fun o => o)).
  - intros s b o H s1 E. unfold demo_call in H.
    destruct (decide (os s = 0%nat)); [discriminate H|]. injection H as _ <-. simpl.
    rewrite E. lia.
  - apply demo_handles.
  - reflexivity.
  - reflexivity.
  - simpl. lia.
Defined.

Lemma poll_leaves_nothing_witness :
  match poll_ demo_jh demo_jp 1%positive global_pool demo_switch (fun _ w => Some w)
          2%positive [Pollfd 7 POLLIN 0; Pollfd 8 POLLOUT 0] 250 (demo_state 0) with
  | Ret _ s' | PthExit s' => my_handles 1%positive s' ∅ /\ exists q', reactor_rep (rct s') q' /\
      (0 <= 250 -> 2%positive ∉ q'.*1)
  | _ => False
  end.
Proof.
  apply (poll_leaves_nothing demo_jh demo_jp 1%positive global_pool demo_switch
    (fun _ w => Some w) demo_switch_mine) with (q := []).
  - intros s q Hq. exists q. split; [exact Hq|]. intros t b Hin _ _. simpl.
    apply list_elem_of_split in Hin as (q1 & q2 & ->). eauto.
  - apply demo_handles.
  - apply init_rep.
  - split; [apply init_global|]. intros c [Hc _]. discriminate Hc.
  - reflexivity.
  - vm_compute. reflexivity.
  - vm_compute. discriminate.
  - repeat constructor.
Defined.

Definition demo_poll (revs : list Z) (fds : list pollfd) (timeout : Z) (o : nat)
  : Z * list Z * nat := (1, revs, o).

Lemma pth_select_ready_witness :
  exists r' w' e',
    pth_select demo_jh demo_jp 1%positive global_pool demo_switch (fun _ w => Some w)
      (demo_poll [1; 0]) 1 2%positive 8 (Some {[5; 6]}) (Some ∅) (Some ∅) None (demo_state 0) =
      Ret (1, (Some r', Some w', Some e')) (demo_state 0) /\
    (forall x, x ∈ r' <-> x ∈ ({[5; 6]} : gset Z) /\ 0 <= x < 8 /\ exists j rev,
       select_fds 8 (Some {[5; 6]}) (Some ∅) (Some ∅) !! j = Some (Pollfd x POLLIN 0) /\
       [1; 0] !! j = Some rev /\ event rev POLLIN = true).
Proof.
  destruct (pth_select_ready demo_jh demo_jp 1%positive global_pool demo_switch
    (fun _ w => Some w) (demo_poll [1; 0]) 1 2%positive 8 {[5; 6]} ∅ ∅ None (demo_state 0)
    1 [1; 0] (demo_state 0)) as (r' & w' & e' & Hs & Hr & _).
  - reflexivity.
  - lia.
  - vm_compute. reflexivity.
  - intros [|[|j]] p rev bit Hp Hr He Hb; vm_compute in Hp; vm_compute in Hr;
      [| |discriminate Hr]; injection Hp as <-; injection Hr as <-;
      destruct Hb as [->| ->]; (reflexivity || (vm_compute in He; discriminate He)).
  - exists r', w', e'. split; [exact Hs|exact Hr].
Defined.

Lemma pth_select_null_exceptfds_witness :
  pth_select demo_jh demo_jp 1%positive global_pool demo_switch (fun _ w => Some w)
      (demo_poll [8]) 1 2%positive 8 (Some {[5]}) (Some ∅) None None (demo_state 0) = Abort.
Proof.
  apply (pth_select_null_exceptfds demo_jh demo_jp 1%positive global_pool demo_switch
    (fun _ w => Some w) (demo_poll [8]) 1 2%positive 8 {[5]} ∅ None (demo_state 0)
    1 [8] (demo_state 0)).
  - reflexivity.
  - lia.
  - exists 0%nat, 8. split; [vm_compute; lia|]. split; reflexivity.
Defined.
