(* ===== verification/Listener.v ===== *)
(** * The listener thread ([src/pthr_listener.c])

    The thread that waits for connections and hands each of them to the
    processor function, on the blocking calls of [Blocking.v]. *)

From stdpp Require Import base list gmap.
From S2P Require Import Prelude C2lib ReactorHandles ReactorTimers Reactor Prog Blocking.

(** What the operating system has for a listening socket.  [arrivals]: the results
    of [accept] still to come, in order (a new descriptor, or -1 for an error);
    [handed]: the connections given to the processor function. *)
Class Accepting (OS : Type) := {
  arrivals : OS -> Z -> list Z;
  nonblocking : OS -> gset Z;
  handed : OS -> list Z;
  sys_accept : Z -> OS -> Z * Z * unit * OS;
  fcntl_nonblock : Z -> OS -> Z * OS;
  accept_law : forall s o,
    let '(r, errno, _, o') := sys_accept s o in
    (r = -1 /\ errno = EWOULDBLOCK /\ arrivals o' s = arrivals o s \/
     ~ (r = -1 /\ errno = EWOULDBLOCK) /\ arrivals o s = r :: arrivals o' s) /\
    handed o' = handed o;
  fcntl_law : forall fd o, 0 <= fd ->
    let '(r, o') := fcntl_nonblock fd o in
    0 <= r /\ nonblocking o' = {[fd]} ∪ nonblocking o /\ handed o' = handed o /\
    forall s, arrivals o' s = arrivals o s
}.

Section listener.
Context {X OS : Type} `{PL : Pools (cleanup X)} `{AC : Accepting OS} {MC : Memcpy} `{CF : !CopiesForward}.
Abbreviation pstate := (pstate (X := X) (OS := OS)).
Context (jh : nat -> reactor_handle pth_fn loc) (jp : nat -> pollfd) (current_pth : loc).
Context (switch : pstate -> pstate).

Record listener {D : Type} := Listener {
  sock : Z;
  processor_fn : Z -> D -> prog pstate unit;
  data : D
}.
Arguments listener : clear implicits.

Definition on_os {A} (f : OS -> A * OS) : prog pstate A := fun s =>
  let '(a, o) := f (os s) in Ret a (with_os o s).

(** The body of the loop. *)
Definition round {D} (fuel : nat) (p : listener D) : prog pstate unit :=
  ns ← pth_accept jh jp current_pth switch sys_accept fuel (sock p);
  if decide (ns < 0) then mret tt
  else
    r ← on_os (fcntl_nonblock ns);
    if decide (r < 0) then abort else processor_fn p ns (data p).

(** The first [n] rounds of [run], which does not end. *)
Fixpoint run {D} (n fuel : nat) (p : listener D) : prog pstate unit :=
  match n with
  | O => mret tt
  | S n => round fuel p ≫= fun _ => run n fuel p
  end.

(** ** Every connection is handed on *)

(** While the thread is away: the others leave its registrations alone, take no
    connections, and there is no alarm, as the listener sets none. *)
Context (switch_mine : forall s m, my_handles current_pth s m -> my_handles current_pth (switch s) m).
Context (switch_queue : forall st s, arrivals (os (switch st)) s = arrivals (os st) s /\
  handed (os (switch st)) = handed (os st)).
Context (switch_alarm : forall st, alarm_received (switch st) = alarm_received st).
(** A connection that is to come comes after fewer than [turns] turns of the others. *)
Context (delay : Z -> OS -> nat) (turns : nat).
Context (served : forall s st b o, arrivals (os st) s <> [] ->
  sys_accept s (os st) = (-1, EWOULDBLOCK, b, o) ->
  forall st1, os st1 = o -> (delay s (os (switch st1)) < delay s (os st))%nat).
Context (delay_bound : forall s o, (delay s o < turns)%nat).

Definition quietly (st st' : pstate) : Prop :=
  (forall s, arrivals (os st') s = arrivals (os st) s) /\ handed (os st') = handed (os st) /\
  alarm_received st' = alarm_received st.

Lemma quietly_stable st : stable switch (quietly st).
Proof.
  split; [by intros s r H|]. split; [|by intros s H]. intros s1 (Hq & Hh & Ha). split; [|split].
  - intros s. by rewrite (proj1 (switch_queue s1 s)).
  - by rewrite (proj2 (switch_queue s1 0)).
  - by rewrite switch_alarm.
Qed.

Lemma accept_next fuel s st m a l :
  my_handles current_pth st m -> alarm_received st = false -> arrivals (os st) s = a :: l ->
  (forall st1, os st1 = os st -> (delay s (os (switch st1)) < fuel)%nat) ->
  exists st', pth_accept jh jp current_pth switch sys_accept fuel s st = Ret a st' /\
    my_handles current_pth st' m /\ alarm_received st' = false /\ arrivals (os st') s = l /\
    handed (os st') = handed (os st).
Proof.
  revert st. induction fuel as [|k IH]; intros st Hm Ha Hq Hf; [specialize (Hf st eq_refl); lia|].
  cbn [pth_accept].
  destruct (block_runs jh jp current_pth switch switch_mine (quietly st) st m s REACTOR_READ)
    as (s1 & Eo & Hb); [apply quietly_stable|done|done|done|].
  unfold andthen, mbind, prog_bind. destruct (block _ _ _ _ _ _ _) as [[] st2| |st2| |]; try done.
  2:{ destruct Hb as (_ & (_ & _ & Hal) & _ & Ht). congruence. }
  destruct Hb as (Hm2 & (Hq2 & Hh2 & Ha2) & Eo2 & _). specialize (Hf s1 Eo). rewrite <- Eo2 in Hf.
  pose proof (accept_law s (os st2)) as Hl. destruct (sys_accept s (os st2)) as [[[r errno] b] o] eqn:Hc.
  rewrite Hq2, Hq in Hl. destruct Hl as [[(-> & -> & E)|[Hn [= -> E]]] Hh].
  - rewrite decide_True by done.
    assert (arrivals (os st2) s <> []) as Hne by (rewrite Hq2, Hq; done).
    destruct (IH (with_os o st2)) as (st' & Hr & ? & ? & ? & Hh'); try done.
    + simpl. congruence.
    + intros st1 E1. pose proof (served s st2 b o Hne Hc st1 E1). lia.
    + exists st'. split; [done|]. simpl in Hh'. split; [done|]. split; [done|]. split; [done|]. congruence.
  - rewrite decide_False by done. eexists. split; [done|]. split; [done|]. simpl. split_and!; congruence.
Qed.

Section processor.
Context {D : Type} (p : listener D).
(** The processor function gets a non-blocking socket, and returns. *)
Context (processor_law : forall ns st m,
  my_handles current_pth st m -> alarm_received st = false -> ns ∈ nonblocking (os st) ->
  exists st', processor_fn p ns (data p) st = Ret tt st' /\ my_handles current_pth st' m /\
    alarm_received st' = false /\ arrivals (os st') (sock p) = arrivals (os st) (sock p) /\
    handed (os st') = handed (os st) ++ [ns]).

(** C21: the listener hands every connection to the processor function, once, in the
    order of their arrival and made non-blocking; failed calls of [accept] are
    skipped; the thread leaves nothing registered and goes on as long as connections
    come.  The C library's [memcpy] copies overlapping cells to lower addresses
    ([CopiesForward]). *)
Theorem listener_hands_on n st m :
  my_handles current_pth st m -> alarm_received st = false ->
  (n <= length (arrivals (os st) (sock p)))%nat ->
  exists st', run n turns p st = Ret tt st' /\ my_handles current_pth st' m /\
    alarm_received st' = false /\
    arrivals (os st') (sock p) = drop n (arrivals (os st) (sock p)) /\
    handed (os st') = handed (os st) ++ filter (fun ns => 0 <= ns) (take n (arrivals (os st) (sock p))).
Proof.
  revert st. induction n as [|n IH]; intros st Hm Ha Hn.
  { exists st. rewrite take_0, app_nil_r. done. }
  destruct (arrivals (os st) (sock p)) as [|a l] eqn:Hq; [simpl in Hn; lia|].
  destruct (accept_next turns (sock p) st m a l Hm Ha Hq) as (st1 & Hr1 & Hm1 & Ha1 & Hq1 & Hh1);
    [intros; apply delay_bound|].
  assert (exists st2, round turns p st = Ret tt st2 /\ my_handles current_pth st2 m /\
    alarm_received st2 = false /\ arrivals (os st2) (sock p) = l /\
    handed (os st2) = handed (os st) ++ filter (fun ns => 0 <= ns) [a]) as (st2 & Hr2 & Hm2 & Ha2 & Hq2 & Hh2).
  { unfold round. rewrite (bind_ret _ _ _ _ _ Hr1). rewrite filter_cons. destruct (decide (a < 0)).
    - rewrite decide_False by lia. exists st1. rewrite app_nil_r. done.
    - rewrite decide_True by lia. pose proof (fcntl_law a (os st1) ltac:(lia)) as Hf.
      unfold mbind, prog_bind, on_os. destruct (fcntl_nonblock a (os st1)) as [r o].
      destruct Hf as (Hr & Hnb & Hh & Hq'). rewrite decide_False by lia.
      destruct (processor_law a (with_os o st1) m Hm1 Ha1) as (st2 & -> & Hm2 & Ha2 & Hq2 & Hh2).
      { simpl. rewrite Hnb. by apply elem_of_union_l, elem_of_singleton. }
      exists st2. simpl in Hq2, Hh2. rewrite Hq', Hq1 in Hq2. rewrite Hh, Hh1 in Hh2. done. }
  cbn [run length] in *. rewrite (bind_ret _ _ _ _ _ Hr2).
  destruct (IH st2 Hm2 Ha2) as (st' & Hr & Hm' & Ha' & Hq' & Hh'); [rewrite Hq2; lia|].
  exists st'. split; [done|]. split; [done|]. split; [done|]. rewrite Hq2 in Hq', Hh'. split; [done|].
  rewrite Hh', Hh2, <- app_assoc. f_equal. cbn [take]. by rewrite !filter_cons; case_decide.
Qed.
End processor.
End listener.

Arguments Listener {X OS PL D}.

(** ** Example

    Connections on socket 7, each of which is waited for. *)

Record lnet := LNet { to_come : list Z; none_yet : bool; nb : gset Z; given : list Z }.

Definition lnet_accept (s : Z) (o : lnet) : Z * Z * unit * lnet :=
  match (if decide (s = 7) then to_come o else []) with
  | r :: l => if none_yet o then (-1, EWOULDBLOCK, tt, o) else (r, 0, tt, LNet l true (nb o) (given o))
  | [] => (-1, EWOULDBLOCK, tt, o)
  end.

#[export] Program Instance lnet_accepting : Accepting lnet := {
  arrivals := fun o s => if decide (s = 7) then to_come o else [];
  nonblocking := nb;
  handed := given;
  sys_accept := lnet_accept;
  fcntl_nonblock := fun fd o => (0, LNet (to_come o) (none_yet o) ({[fd]} ∪ nb o) (given o))
}.
Next Obligation.
  intros s o. unfold lnet_accept. destruct (decide (s = 7)) as [->|]; [|by split; [left|]].
  destruct (to_come o) as [|r l] eqn:Hc; [by split; [left|]|].
  destruct (none_yet o); [by split; [left; rewrite Hc|]|]. split; [right|done]. simpl. by split; [intros []|].
Qed.
Next Obligation. by intros fd o Hfd. Qed.

Definition lnet_switch (st : pstate (X := Empty_set) (OS := lnet)) : pstate :=
  with_os (LNet (to_come (os st)) false (nb (os st)) (given (os st))) st.

Definition lnet_state : pstate (X := Empty_set) (OS := lnet) :=
  PState (reactor_init 5 0) false None false None None (None, None) (LNet [9; -1; 12; 10] true ∅ []).

(** A processor that notes the connection if the socket is non-blocking. *)
Definition note_connection (ns : Z) (_ : unit) : prog (pstate (X := Empty_set) (OS := lnet)) unit := fun st =>
  let o := os st in
  if decide (ns ∈ nb o) then Ret tt (with_os (LNet (to_come o) (none_yet o) (nb o) (given o ++ [ns])) st)
  else Abort.

Lemma listener_hands_on_witness :
  exists st', run demo_jh demo_jp 1%positive lnet_switch 3 2 (Listener 7 note_connection tt) lnet_state = Ret tt st' /\
    my_handles 1%positive st' ∅ /\ alarm_received st' = false /\
    arrivals (os st') 7 = [10] /\ handed (os st') = [9; 12].
Proof.
  edestruct (listener_hands_on demo_jh demo_jp 1%positive lnet_switch) with
    (p := Listener 7 note_connection tt) (delay := fun (s : Z) o => if none_yet o then 1%nat else 0%nat)
    (turns := 2%nat) (n := 3%nat) (st := lnet_state) (m := ∅ : gmap nat (registration pth_fn loc))
    as (st' & Hr & Hm & Ha & Hq & Hh).
  - done.
  - done.
  - done.
  - intros s st b o Hne Hc st1 <-. simpl in *. unfold lnet_accept in Hc.
    destruct (decide (s = 7)) as [->|]; [|done]. destruct (to_come (os st)); [done|].
    destruct (none_yet (os st)); [simpl; lia|]. discriminate Hc.
  - intros s o. destruct (none_yet o); lia.
  - intros ns st m Hm Ha Hnb. simpl in *. unfold note_connection. rewrite decide_True by done.
    by eexists.
  - split; [apply empty_table_wf|]. exists ∅. split; [done|apply map_filter_empty].
  - done.
  - simpl. lia.
  - exists st'. split; [exact Hr|]. split; [exact Hm|]. split; [exact Ha|]. split; [exact Hq|exact Hh].
Defined.
