(* ===== verification/Descriptors.v ===== *)
(** * The descriptors of a process

    A new descriptor is the lowest that is free. *)

From stdpp Require Import base list gmap.
From Stdlib Require Import Strings.Byte.
From S2P Require Import Prelude Prog.

(** What a descriptor refers to. *)
Inductive file :=
  | FSocket (bound : option (Z * Z)) (listening nonblocking : bool)
  | FPipe (write_end nonblocking : bool)
  | FDevNull
  | FFile (name : bytes)
  | FSyslog
  | FOther (n : nat).

Abbreviation fdtable := (gmap Z file).

Fixpoint lowest_from (fuel : nat) (i : Z) (t : fdtable) : Z :=
  match fuel with
  | O => i
  | S k => match t !! i with None => i | Some _ => lowest_from k (i + 1) t end
  end.

Definition lowest (t : fdtable) : Z := lowest_from (S (size t)) 0 t.

Lemma lowest_from_spec fuel i t :
  let r := lowest_from fuel i t in
  i <= r <= i + Z.of_nat fuel /\ (forall j, i <= j < r -> is_Some (t !! j)) /\
  (t !! r = None \/ r = i + Z.of_nat fuel).
Proof.
  revert i. induction fuel as [|k IH]; intros i; cbn [lowest_from].
  - split; [lia|]. split; [lia|]. right. lia.
  - destruct (t !! i) eqn:Hi; [|split; [lia|]; split; [lia|by left]].
    destruct (IH (i + 1)) as (H1 & H2 & H3). cbv zeta in *. split; [lia|]. split.
    + intros j Hj. destruct (decide (j = i)) as [->|]; [by rewrite Hi|]. apply H2. lia.
    + destruct H3; [by left|right; lia].
Qed.

Lemma lowest_spec t :
  0 <= lowest t /\ t !! lowest t = None /\ forall j, 0 <= j < lowest t -> is_Some (t !! j).
Proof.
  unfold lowest. destruct (lowest_from_spec (S (size t)) 0 t) as (H1 & H2 & H3). cbv zeta in *.
  split; [lia|]. split; [|done]. destruct H3 as [H3|H3]; [done|]. exfalso.
  assert (list_to_set (seqZ 0 (Z.of_nat (S (size t)))) ⊆ dom t) as Hsub.
  { intros j Hj. apply elem_of_list_to_set, elem_of_seqZ in Hj. apply elem_of_dom, H2. lia. }
  apply subseteq_size in Hsub. rewrite size_dom, size_list_to_set, length_seqZ in Hsub by apply NoDup_seqZ. lia.
Qed.

Lemma lowest_unique t fd : 0 <= fd -> t !! fd = None -> (forall j, 0 <= j < fd -> is_Some (t !! j)) -> lowest t = fd.
Proof.
  intros H0 Hn Hb. destruct (lowest_spec t) as (H1 & H2 & H3).
  destruct (Z.lt_trichotomy (lowest t) fd) as [Hl|[He|Hg]]; [|done|].
  - destruct (Hb (lowest t)) as [x Hx]; [lia|congruence].
  - destruct (H3 fd) as [x Hx]; [lia|congruence].
Qed.
