(* ===== verification/Server.v ===== *)
(** * Start-up of a server ([src/pthr_server.c])

    From the command line to the listening socket: options, the socket, the
    change of root and user, the standard descriptors, the background process.
    The table of descriptors is that of [Descriptors.v]. *)

From stdpp Require Import base list gmap.
From Stdlib Require Import Strings.Byte.
From S2P Require Import Prelude ReactorTimers Prog Cstring Descriptors.

(** ** The process *)

Record process := Process {
  fds : fdtable;
  euid : Z;
  egid : Z;
  groups : option (bytes * Z);
  root_dir : bytes;
  (** the working directory is below the root directory *)
  cwd_inside : bool;
  session : bool;
  messages : list (bytes * Z);
  segv_handler : bool
}.

Definition with_fds t (p : process) : process :=
  Process t (euid p) (egid p) (groups p) (root_dir p) (cwd_inside p) (session p) (messages p) (segv_handler p).
Definition with_root r (p : process) : process :=
  Process (fds p) (euid p) (egid p) (groups p) r false (session p) (messages p) (segv_handler p).
Definition with_ids u g gs (p : process) : process :=
  Process (fds p) u g gs (root_dir p) (cwd_inside p) (session p) (messages p) (segv_handler p).
Definition with_cwd b (p : process) : process :=
  Process (fds p) (euid p) (egid p) (groups p) (root_dir p) b (session p) (messages p) (segv_handler p).
Definition with_session b (p : process) : process :=
  Process (fds p) (euid p) (egid p) (groups p) (root_dir p) (cwd_inside p) b (messages p) (segv_handler p).
Definition with_message m (p : process) : process :=
  Process (fds p) (euid p) (egid p) (groups p) (root_dir p) (cwd_inside p) (session p) (messages p ++ [m])
    (segv_handler p).
Definition with_segv b (p : process) : process :=
  Process (fds p) (euid p) (egid p) (groups p) (root_dir p) (cwd_inside p) (session p) (messages p) b.

(** What the system answers. *)
Class System := {
  fd_limit : Z;
  inet_addr : bytes -> Z;
  bind_ok : Z * Z -> bool;
  listen_ok : bool;
  nonblock_ok : bool;
  chroot_ok : bytes -> bool;
  (** of the user and the root directory *)
  chdir_ok : Z -> bytes -> bool;
  (** the user database is a file below the root directory *)
  getpwnam : bytes -> bytes -> option (Z * Z);
  initgroups_ok : bytes -> Z -> bool;
  setgid_ok : Z -> bool;
  setuid_ok : Z -> bool;
  open_ok : bytes -> bytes -> bool;
  syslog_ok : bytes -> bool;
  fork_result : Z;
  can_catch_sigsegv : bool;
  posixly_correct : bool
}.

(** ** Ways to go on *)

Inductive outcome (A : Type) := Next (a : A) | Exit (code : Z) | Aborted.
Arguments Next {A} _.
Arguments Exit {A} _.
Arguments Aborted {A}.

Definition M (A : Type) : Type := process -> outcome A * process.

#[export] Instance M_ret : MRet M := fun A a p => (Next a, p).
#[export] Instance M_bind : MBind M := fun A B k m p =>
  match m p with
  | (Next a, p') => k a p'
  | (Exit c, p') => (Exit c, p')
  | (Aborted, p') => (Aborted, p')
  end.

Definition leave {A} (c : Z) : M A := fun p => (Exit c, p).
Definition stop {A} : M A := fun p => (Aborted, p).
Definition now {A} (f : process -> A) : M A := fun p => (Next (f p), p).
Definition change (f : process -> process) : M unit := fun p => (Next tt, f p).

Section server.
Context `{SY : System}.

(** A new descriptor, or -1. *)
Definition new_fd (f : file) : M Z := fun p =>
  let fd := lowest (fds p) in
  if decide (fd < fd_limit) then (Next fd, with_fds (<[fd := f]> (fds p)) p) else (Next (-1), p).

Definition set_fd (fd : Z) (f : file) : M unit := change (fun p => with_fds (<[fd := f]> (fds p)) p).
Definition close (fd : Z) : M unit := change (fun p => with_fds (delete fd (fds p)) p).

Definition sys_open (name : bytes) (f : file) : M Z :=
  r ← now root_dir; if open_ok r name then new_fd f else mret (-1).

(** [dup2 (from, to)]; nothing happens if [from] is not open. *)
Definition dup2 (from to : Z) : M unit := change (fun p =>
  match fds p !! from with Some f => with_fds (<[to := f]> (fds p)) p | None => p end).

(** ** Settings *)

Record settings := Settings {
  default_port : Z;
  port_option_name : byte;
  default_address : Z;
  address_option_name : byte;
  disable_syslog : bool;
  package_name : bytes;
  disable_fork : bool;
  disable_chdir : bool;
  disable_close : bool;
  root : option bytes;
  username : option bytes;
  stderr_file : option bytes;
  startup_fn : option (list bytes -> M unit);
  enable_stack_trace_on_segv : bool
}.

Definition INADDR_ANY : Z := 0.
Definition INADDR_NONE : Z := 2 ^ 32 - 1.

Definition initial_settings (package : bytes) : settings :=
  Settings 80 "p" INADDR_ANY "a" false package false false false None None None None false.

Definition pthr_server_default_port (port : Z) (s : settings) : settings :=
  Settings port (port_option_name s) (default_address s) (address_option_name s) (disable_syslog s)
    (package_name s) (disable_fork s) (disable_chdir s) (disable_close s) (root s) (username s)
    (stderr_file s) (startup_fn s) (enable_stack_trace_on_segv s).

Definition pthr_server_port_option_name (c : byte) (s : settings) : settings :=
  Settings (default_port s) c (default_address s) (address_option_name s) (disable_syslog s)
    (package_name s) (disable_fork s) (disable_chdir s) (disable_close s) (root s) (username s)
    (stderr_file s) (startup_fn s) (enable_stack_trace_on_segv s).

Definition pthr_server_default_address (a : Z) (s : settings) : settings :=
  Settings (default_port s) (port_option_name s) a (address_option_name s) (disable_syslog s)
    (package_name s) (disable_fork s) (disable_chdir s) (disable_close s) (root s) (username s)
    (stderr_file s) (startup_fn s) (enable_stack_trace_on_segv s).

Definition pthr_server_address_option_name (c : byte) (s : settings) : settings :=
  Settings (default_port s) (port_option_name s) (default_address s) c (disable_syslog s)
    (package_name s) (disable_fork s) (disable_chdir s) (disable_close s) (root s) (username s)
    (stderr_file s) (startup_fn s) (enable_stack_trace_on_segv s).

Definition pthr_server_disable_syslog (s : settings) : settings :=
  Settings (default_port s) (port_option_name s) (default_address s) (address_option_name s) true
    (package_name s) (disable_fork s) (disable_chdir s) (disable_close s) (root s) (username s)
    (stderr_file s) (startup_fn s) (enable_stack_trace_on_segv s).

Definition pthr_server_package_name (name : bytes) (s : settings) : settings :=
  Settings (default_port s) (port_option_name s) (default_address s) (address_option_name s)
    (disable_syslog s) name (disable_fork s) (disable_chdir s) (disable_close s) (root s) (username s)
    (stderr_file s) (startup_fn s) (enable_stack_trace_on_segv s).

Definition pthr_server_disable_fork (s : settings) : settings :=
  Settings (default_port s) (port_option_name s) (default_address s) (address_option_name s)
    (disable_syslog s) (package_name s) true (disable_chdir s) (disable_close s) (root s) (username s)
    (stderr_file s) (startup_fn s) (enable_stack_trace_on_segv s).

Definition pthr_server_disable_chdir (s : settings) : settings :=
  Settings (default_port s) (port_option_name s) (default_address s) (address_option_name s)
    (disable_syslog s) (package_name s) (disable_fork s) true (disable_close s) (root s) (username s)
    (stderr_file s) (startup_fn s) (enable_stack_trace_on_segv s).

Definition pthr_server_disable_close (s : settings) : settings :=
  Settings (default_port s) (port_option_name s) (default_address s) (address_option_name s)
    (disable_syslog s) (package_name s) (disable_fork s) (disable_chdir s) true (root s) (username s)
    (stderr_file s) (startup_fn s) (enable_stack_trace_on_segv s).

Definition pthr_server_chroot (dir : option bytes) (s : settings) : settings :=
  Settings (default_port s) (port_option_name s) (default_address s) (address_option_name s)
    (disable_syslog s) (package_name s) (disable_fork s) (disable_chdir s) (disable_close s) dir
    (username s) (stderr_file s) (startup_fn s) (enable_stack_trace_on_segv s).

Definition pthr_server_username (name : option bytes) (s : settings) : settings :=
  Settings (default_port s) (port_option_name s) (default_address s) (address_option_name s)
    (disable_syslog s) (package_name s) (disable_fork s) (disable_chdir s) (disable_close s) (root s)
    name (stderr_file s) (startup_fn s) (enable_stack_trace_on_segv s).

Definition pthr_server_stderr_file (path : option bytes) (s : settings) : settings :=
  Settings (default_port s) (port_option_name s) (default_address s) (address_option_name s)
    (disable_syslog s) (package_name s) (disable_fork s) (disable_chdir s) (disable_close s) (root s)
    (username s) path (startup_fn s) (enable_stack_trace_on_segv s).

Definition pthr_server_startup_fn (f : option (list bytes -> M unit)) (s : settings) : settings :=
  Settings (default_port s) (port_option_name s) (default_address s) (address_option_name s)
    (disable_syslog s) (package_name s) (disable_fork s) (disable_chdir s) (disable_close s) (root s)
    (username s) (stderr_file s) f (enable_stack_trace_on_segv s).

Definition pthr_server_enable_stack_trace_on_segv (s : settings) : settings :=
  Settings (default_port s) (port_option_name s) (default_address s) (address_option_name s)
    (disable_syslog s) (package_name s) (disable_fork s) (disable_chdir s) (disable_close s) (root s)
    (username s) (stderr_file s) (startup_fn s) true.

(** ** The command line *)

(** The results of [getopt] with two options that take an argument; [None]: the
    question mark.  Without [posixly_correct], arguments that are not options are
    skipped. *)
Fixpoint getopts (takes : byte -> bool) (args : list bytes) : list (option (byte * bytes)) :=
  match args with
  | [] => []
  | arg :: rest =>
    if decide (arg = lit "--") then []
    else
      match arg with
      | "-"%byte :: c :: cs =>
        (fix cluster (cs : bytes) : list (option (byte * bytes)) :=
           match cs with
           | [] => getopts takes rest
           | c :: cs' =>
             if takes c then
               match cs' with
               | [] =>
                 match rest with
                 | [] => [None]
                 | v :: rest' => Some (c, v) :: getopts takes rest'
                 end
               | _ => Some (c, cs') :: getopts takes rest
               end
             else None :: cluster cs'
           end) (c :: cs)
      | _ => if posixly_correct then [] else getopts takes rest
      end
  end.

Definition takes (s : settings) (c : byte) : bool :=
  bool_decide (c <> ":"%byte /\ (c = port_option_name s \/ c = address_option_name s)).

(** The loop over the options; the argument of an option that is not known is
    unspecified. *)
Fixpoint read_options (s : settings) (os : list (option (byte * bytes))) (port address : Z) : M (Z * Z) :=
  match os with
  | [] => mret (port, address)
  | None :: os =>
    if decide (port_option_name s = "?"%byte \/ address_option_name s = "?"%byte) then stop
    else read_options s os port address
  | Some (c, optarg) :: os =>
    if decide (port_option_name s = c) then
      match scan_int optarg with
      | Some (port, _) => read_options s os port address
      | None => leave 1
      end
    else if decide (address_option_name s = c) then
      if decide (INADDR_NONE = inet_addr optarg) then leave 1
      else read_options s os port (inet_addr optarg)
    else read_options s os port address
  end.

(** ** The steps *)

Definition htons_port (port : Z) : Z := wrapu 16 port.

Definition open_socket (port address : Z) : M Z :=
  sock ← new_fd (FSocket None false false);
  if decide (sock < 0) then stop
  else if negb (bind_ok (address, htons_port port)) then leave 1
  else
    set_fd sock (FSocket (Some (address, htons_port port)) false false) ≫= fun _ =>
    if negb listen_ok then stop
    else
      set_fd sock (FSocket (Some (address, htons_port port)) true false) ≫= fun _ =>
      if negb nonblock_ok then stop
      else
        set_fd sock (FSocket (Some (address, htons_port port)) true true) ≫= fun _ =>
        mret sock.

Definition change_root (s : settings) : M unit :=
  uid ← now euid;
  match root s with
  | Some dir =>
    if decide (uid = 0) then
      if chroot_ok dir then change (with_root dir) else leave 1
    else mret tt
  | None => mret tt
  end.

Definition change_user (s : settings) : M unit :=
  uid ← now euid;
  r ← now root_dir;
  match username s with
  | Some u =>
    if decide (uid = 0) then
      match getpwnam r u with
      | None => leave 1
      | Some (pw_uid, pw_gid) =>
        if negb (initgroups_ok u pw_gid) then leave 1
        else
          change (fun p => with_ids (euid p) (egid p) (Some (u, pw_gid)) p) ≫= fun _ =>
          if negb (setgid_ok pw_gid) then leave 1
          else
            change (fun p => with_ids (euid p) pw_gid (groups p) p) ≫= fun _ =>
            if negb (setuid_ok pw_uid) then leave 1
            else change (fun p => with_ids pw_uid (egid p) (groups p) p)
      end
    else mret tt
  | None => mret tt
  end.

Definition close_terminal : M unit :=
  close 0 ≫= fun _ => close 1 ≫= fun _ => close 2 ≫= fun _ =>
  sys_open (lit "/dev/null") FDevNull ≫= fun _ =>
  dup2 0 1 ≫= fun _ => dup2 0 2 ≫= fun _ =>
  change (with_session true).

Definition open_stderr (file : bytes) : M unit :=
  close 2 ≫= fun _ =>
  r ← sys_open file (FFile file);
  if decide (r = -1) then stop else mret tt.

Definition go_background : M unit :=
  if decide (fork_result < 0) then leave 1
  else if decide (0 < fork_result) then leave 0
  else mret tt.

Definition open_syslog (s : settings) (port : Z) : M unit :=
  r ← now root_dir;
  (if syslog_ok r then new_fd FSyslog ≫= fun _ => mret tt else mret tt) ≫= fun _ =>
  change (with_message (package_name s, port)).

Definition when (b : bool) (m : M unit) : M unit := if b then m else mret tt.

(** [chdir ("/")], whose result is ignored. *)
Definition go_to_root : M unit := change (fun p => if chdir_ok (euid p) (root_dir p) then with_cwd true p else p).

(** Everything before the startup function; the result is the socket. *)
Definition start (s : settings) (argv : list bytes) : M Z :=
  '(port, address) ← read_options s (getopts (takes s) (tail argv)) (default_port s) (default_address s);
  sock ← open_socket port address;
  change_root s ≫= fun _ =>
  change_user s ≫= fun _ =>
  when (negb (disable_chdir s)) go_to_root ≫= fun _ =>
  when (negb (disable_close s)) close_terminal ≫= fun _ =>
  match stderr_file s with Some f => open_stderr f | None => mret tt end ≫= fun _ =>
  when (negb (disable_fork s)) go_background ≫= fun _ =>
  when (negb (disable_syslog s)) (open_syslog s port) ≫= fun _ =>
  when (enable_stack_trace_on_segv s && can_catch_sigsegv) (change (with_segv true)) ≫= fun _ =>
  mret sock.

(** [n] bounds the number of turns of the loop; [new_listener],
    [pseudothread_count_threads] and [reactor_invoke] are parameters. *)
Section main_loop.
Context (new_listener : Z -> M unit) (count_threads : process -> nat) (reactor_invoke : M unit).

Fixpoint turn_reactor (n : nat) : M bool :=
  match n with
  | O => mret false
  | S n =>
    k ← now count_threads;
    if decide (0 < k)%nat then reactor_invoke ≫= fun _ => turn_reactor n else mret true
  end.

Definition pthr_server_main_loop (n : nat) (s : settings) (argv : list bytes) : M bool :=
  sock ← start s argv;
  match startup_fn s with Some f => f argv | None => mret tt end ≫= fun _ =>
  new_listener sock ≫= fun _ =>
  turn_reactor n.
End main_loop.
End server.
