(* ===== verification/ServerSpec.v ===== *)
(** * What a server has when it starts ([src/pthr_server.c])

    The descriptors, the user and the root directory with which the startup
    function and the processors run. *)

From stdpp Require Import base list gmap.
From Stdlib Require Import Strings.Byte.
From S2P Require Import Prelude ReactorTimers Prog Cstring Descriptors Server.

(** ** The command line *)

Inductive option_given := PortGiven (n : Z) | AddressGiven (a : bytes).

Section options.
Context `{SY : System} (s : settings).

Definition option_args (o : option_given) : list bytes :=
  match o with
  | PortGiven n => [["-"%byte; port_option_name s]; print_int n]
  | AddressGiven a => [["-"%byte; address_option_name s]; a]
  end.

Definition option_ok (o : option_given) : Prop :=
  match o with
  | PortGiven n => 0 <= n <= INT_MAX
  | AddressGiven a => inet_addr a <> INADDR_NONE
  end.

(** The last port and the last address. *)
Definition apply_option (pa : Z * Z) (o : option_given) : Z * Z :=
  match o with
  | PortGiven n => (n, pa.2)
  | AddressGiven a => (pa.1, inet_addr a)
  end.

Definition names_ok : Prop :=
  port_option_name s <> address_option_name s /\
  (port_option_name s <> "-"%byte) /\ (address_option_name s <> "-"%byte) /\
  (port_option_name s <> ":"%byte) /\ (address_option_name s <> ":"%byte).

Lemma getopts_given tk c v rest :
  c <> "-"%byte -> tk c = true ->
  getopts tk (["-"%byte; c] :: v :: rest) = Some (c, v) :: getopts tk rest.
Proof.
  intros Hc Ht. cbn [getopts]. rewrite decide_False by (intros [= ->]; done).
  by rewrite Ht.
Qed.

Lemma options_read opts p pa :
  names_ok -> Forall option_ok opts ->
  read_options s (getopts (takes s) (concat (option_args <$> opts))) pa.1 pa.2 p =
    (Next (foldl apply_option pa opts), p).
Proof.
  intros (Hd & Hp1 & Ha1 & Hp2 & Ha2) Hok. revert pa.
  induction Hok as [|o opts Ho _ IH]; intros pa; [by destruct pa|].
  assert (takes s (port_option_name s) = true) as Tp by (apply bool_decide_true; auto).
  assert (takes s (address_option_name s) = true) as Ta by (apply bool_decide_true; auto).
  cbn [fmap list_fmap concat foldl]. destruct o as [n|a]; cbn [option_args app].
  - rewrite getopts_given by done. cbn [read_options]. rewrite decide_True by done.
    pose proof (scan_int_print n [] Ho ltac:(done)) as Hs. rewrite app_nil_r in Hs. rewrite Hs.
    apply (IH (n, pa.2)).
  - rewrite getopts_given by done. cbn [read_options]. rewrite decide_False by done.
    rewrite decide_True by done. rewrite decide_False by congruence. apply (IH (pa.1, inet_addr a)).
Qed.
End options.

(** ** The steps *)

Section start.
Context `{SY : System} (s : settings).

Definition new_root (p : process) : bytes :=
  if decide (euid p = 0) then default (root_dir p) (root s) else root_dir p.

(** Nothing goes wrong, and this is the process that stays. *)
Record fine (p : process) (port address : Z) : Prop := {
  fine_bind : bind_ok (address, htons_port port) = true;
  fine_listen : listen_ok = true;
  fine_nonblock : nonblock_ok = true;
  fine_limit : lowest (fds p) < fd_limit;
  fine_root : forall dir, euid p = 0 -> root s = Some dir -> chroot_ok dir = true;
  fine_user : forall u, euid p = 0 -> username s = Some u -> exists uid gid,
    getpwnam (new_root p) u = Some (uid, gid) /\ initgroups_ok u gid = true /\ setgid_ok gid = true /\
    setuid_ok uid = true;
  fine_stderr : forall f, stderr_file s = Some f -> open_ok (new_root p) f = true;
  fine_fork : disable_fork s = true \/ fork_result = 0
}.

(** [m] goes on with [Q], unless [F] fails. *)
Definition goes {A} (F : Prop) (m : M A) (p : process) (Q : A -> process -> Prop) : Prop :=
  match m p with
  | (Next a, p') => Q a p'
  | _ => ~ F
  end.

Lemma goes_bind {A B} F (m : M A) (k : A -> M B) p Q :
  goes F m p (fun a p' => goes F (k a) p' Q) -> goes F (m ≫= k) p Q.
Proof. unfold goes, mbind, M_bind. by destruct (m p) as [[] p']. Qed.

Lemma goes_mono {A} F (m : M A) p (Q Q' : A -> process -> Prop) :
  goes F m p Q -> (forall a p', Q a p' -> Q' a p') -> goes F m p Q'.
Proof. unfold goes. destruct (m p) as [[] p']; auto. Qed.

Lemma goes_assoc {A B C} F (a : M A) (b : A -> M B) (k : B -> M C) p Q :
  goes F ((a ≫= b) ≫= k) p Q -> goes F (a ≫= fun x => b x ≫= k) p Q.
Proof. unfold goes, mbind, M_bind. by destruct (a p) as [[] p']. Qed.

Lemma goes_when F b (m : M unit) p Q :
  (b = true -> goes F m p Q) -> (b = false -> Q tt p) -> goes F (when b m) p Q.
Proof. destruct b; simpl; intros H1 H2; [by apply H1|by apply H2]. Qed.

(** Same process but for the descriptors. *)
Definition same_but_fds (p p' : process) : Prop := p' = with_fds (fds p') p.

(** Descriptors from 3 on stay as they are. *)
Definition upper (t t' : fdtable) : Prop := forall fd, 3 <= fd -> is_Some (t !! fd) -> t' !! fd = t !! fd.

Lemma upper_refl t : upper t t.
Proof. done. Qed.

Lemma upper_trans t1 t2 t3 : upper t1 t2 -> upper t2 t3 -> upper t1 t3.
Proof. intros H1 H2 fd Hfd Hs. rewrite H2; [by apply H1|done|by rewrite H1]. Qed.

Lemma upper_insert t fd f : fd < 3 \/ t !! fd = None -> upper t (<[fd := f]> t).
Proof.
  intros H fd' Hfd [x Hx]. rewrite lookup_insert_ne; [done|]. intros ->. destruct H; [lia|congruence].
Qed.

Lemma upper_low t t' fd f : fd < 3 -> upper t t' -> upper t (<[fd := f]> t').
Proof. intros Hfd H. eapply upper_trans; [exact H|]. apply upper_insert. by left. Qed.

Lemma upper_delete t fd : fd < 3 -> upper t (delete fd t).
Proof. intros H fd' Hfd _. by rewrite lookup_delete_ne by lia. Qed.

Lemma open_socket_goes p port address :
  goes (fine p port address) (open_socket port address) p (fun sock p' =>
    sock = lowest (fds p) /\
    p' = with_fds (<[sock := FSocket (Some (address, htons_port port)) true true]> (fds p)) p).
Proof.
  destruct (lowest_spec (fds p)) as (H0 & _ & _). unfold open_socket. apply goes_bind. unfold goes at 1, new_fd.
  destruct (decide (lowest (fds p) < fd_limit)) as [Hl|Hl].
  - rewrite decide_False by lia. destruct (bind_ok _) eqn:Hb; [|intros F; destruct F; congruence].
    destruct listen_ok eqn:Hli; [|intros F; destruct F; congruence].
    destruct nonblock_ok eqn:Hnb; [|intros F; destruct F; congruence].
    unfold goes. simpl. rewrite !insert_insert_eq. by destruct p.
  - rewrite decide_True by lia. intros F. destruct F. lia.
Qed.

Lemma change_root_goes F p :
  (F -> forall dir, euid p = 0 -> root s = Some dir -> chroot_ok dir = true) ->
  goes F (change_root s) p (fun _ p' => fds p' = fds p /\ euid p' = euid p /\ egid p' = egid p /\
    groups p' = groups p /\ root_dir p' = new_root p /\
    (cwd_inside p' = cwd_inside p \/ cwd_inside p' = false)).
Proof.
  intros Hf. unfold change_root, new_root. apply goes_bind. unfold goes, now.
  destruct (root s) as [dir|] eqn:Hr; simpl.
  - destruct (decide (euid p = 0)) as [Hz|Hz]; simpl; [|by auto 10].
    destruct (chroot_ok dir) eqn:Hc; simpl; [by auto 10|]. intros HF. specialize (Hf HF dir Hz eq_refl). congruence.
  - destruct (decide (euid p = 0)); by auto 10.
Qed.

(** The user and the groups the server runs with. *)
Definition user_of (p p' : process) : Prop :=
  match username s with
  | Some u =>
    if decide (euid p = 0) then getpwnam (new_root p) u = Some (euid p', egid p') /\ groups p' = Some (u, egid p')
    else euid p' = euid p /\ egid p' = egid p /\ groups p' = groups p
  | None => euid p' = euid p /\ egid p' = egid p /\ groups p' = groups p
  end.

Lemma change_user_goes F r p :
  root_dir p = r ->
  (F -> forall u, euid p = 0 -> username s = Some u -> exists uid gid,
     getpwnam r u = Some (uid, gid) /\ initgroups_ok u gid = true /\ setgid_ok gid = true /\ setuid_ok uid = true) ->
  goes F (change_user s) p (fun _ p' => fds p' = fds p /\ root_dir p' = root_dir p /\
    cwd_inside p' = cwd_inside p /\
    match username s with
    | Some u =>
      if decide (euid p = 0) then getpwnam r u = Some (euid p', egid p') /\ groups p' = Some (u, egid p')
      else euid p' = euid p /\ egid p' = egid p /\ groups p' = groups p
    | None => euid p' = euid p /\ egid p' = egid p /\ groups p' = groups p
    end).
Proof.
  intros <- Hf. unfold change_user. apply goes_bind. unfold goes at 1, now. apply goes_bind. unfold goes at 1.
  destruct (username s) as [u|]; [|done]. destruct (decide (euid p = 0)) as [Hz|Hz]; [|done].
  destruct (getpwnam (root_dir p) u) as [[uid gid]|] eqn:Hpw.
  - assert (F -> initgroups_ok u gid = true /\ setgid_ok gid = true /\ setuid_ok uid = true) as Hg.
    { intros HF. destruct (Hf HF u Hz eq_refl) as (? & ? & E & ?). rewrite Hpw in E. by injection E as <- <-. }
    unfold goes. destruct (initgroups_ok u gid); simpl; [|intros [? _]%Hg; done].
    unfold change. destruct (setgid_ok gid); simpl; [|intros (_ & ? & _)%Hg; done].
    destruct (setuid_ok uid); simpl; [done|]. intros (_ & _ & ?)%Hg; done.
  - intros HF. destruct (Hf HF u Hz eq_refl) as (? & ? & ? & _). congruence.
Qed.

Lemma fds_with t p : fds (with_fds t p) = t.
Proof. done. Qed.

(** Everything but the descriptors. *)
Definition ids (p : process) := (euid p, egid p, groups p, root_dir p, cwd_inside p).

(** The standard descriptors are what [f] says. *)
Definition standard (p : process) (f0 f1 f2 : option file) : Prop :=
  fds p !! 0 = f0 /\ fds p !! 1 = f1 /\ fds p !! 2 = f2.

Lemma close_terminal_goes F p :
  goes F close_terminal p (fun _ p' => ids p' = ids p /\ upper (fds p) (fds p') /\
    if decide (open_ok (root_dir p) (lit "/dev/null") = true /\ 0 < fd_limit)
    then standard p' (Some FDevNull) (Some FDevNull) (Some FDevNull)
    else standard p' None None None).
Proof.
  set (t := delete 2 (delete 1 (delete 0 (fds p)))).
  assert (t !! 0 = None /\ t !! 1 = None /\ t !! 2 = None) as (T0 & T1 & T2).
  { unfold t. rewrite lookup_delete_eq. split; [|split; [|done]]; rewrite !lookup_delete_ne by done.
    - apply lookup_delete_eq.
    - apply lookup_delete_eq. }
  assert (upper (fds p) t) as Hu.
  { unfold t. eapply upper_trans; [apply (upper_delete _ 0); lia|].
    eapply upper_trans; [apply (upper_delete _ 1); lia|]. apply upper_delete. lia. }
  assert (lowest t = 0) as Hlow by (apply lowest_unique; [lia|done|lia]).
  unfold goes, close_terminal, close, sys_open, now, new_fd, dup2, change, mbind, M_bind, mret, M_ret.
  cbn [fds with_fds root_dir]. fold t. destruct (open_ok _ _); [destruct (decide (lowest t < fd_limit)) as [Hl|Hl]|];
    cbn [fds with_fds root_dir]; rewrite ?Hlow in *.
  - rewrite decide_True by done. rewrite !fds_with, lookup_insert_eq, !fds_with.
    rewrite lookup_insert_ne, lookup_insert_eq by done. split; [done|].
    rewrite ?decide_True by done. unfold standard. cbn [fds with_session]. rewrite !fds_with.
    split; [|split; [|split]; repeat first [reflexivity|rewrite lookup_insert_eq|rewrite lookup_insert_ne by done]].
    do 3 (apply upper_low; [lia|]). exact Hu.
  - rewrite decide_False by lia. rewrite decide_False by (intros []; lia). rewrite ?fds_with, T0, ?fds_with, T0. done.
  - rewrite decide_False by (intros []; done). rewrite ?fds_with, T0, ?fds_with, T0. done.
Qed.

Lemma open_stderr_goes (F : Prop) p f :
  (F -> open_ok (root_dir p) f = true /\ 3 < fd_limit) ->
  goes F (open_stderr f) p (fun _ p' => ids p' = ids p /\ upper (fds p) (fds p') /\
    exists fd, 0 <= fd <= 2 /\ fds p' = <[fd := FFile f]> (delete 2 (fds p)) /\
      (forall f0 f1 f2, standard p (Some f0) (Some f1) f2 -> fd = 2)).
Proof.
  intros Hf. unfold goes, open_stderr, close, sys_open, now, new_fd, change, mbind, M_bind, mret, M_ret.
  cbn [fds with_fds root_dir]. set (t := delete 2 (fds p)).
  destruct (lowest_spec t) as (H0 & Hn & Hb). assert (t !! 2 = None) as H2 by apply lookup_delete_eq.
  assert (lowest t <= 2) as Hle.
  { destruct (decide (lowest t <= 2)); [done|]. destruct (Hb 2) as [x Hx]; [lia|congruence]. }
  destruct (open_ok (root_dir p) f); [|cbn; intros [? _]%Hf; done].
  destruct (decide (lowest t < fd_limit)) as [Hl|Hl]; cbn [fds with_fds].
  2:{ rewrite ?decide_False, ?decide_True by lia. intros [_ ?]%Hf. lia. }
  rewrite decide_True, decide_False by lia. cbn [fds with_fds]. split; [done|]. split.
  - eapply upper_trans; [apply (upper_delete _ 2); lia|]. apply upper_insert. left. lia.
  - exists (lowest t). split; [done|]. split; [done|]. intros f0 f1 f2 (Hs0 & Hs1 & _).
    apply lowest_unique; [lia|done|]. intros j Hj. unfold t. rewrite lookup_delete_ne by lia.
    assert (j = 0 \/ j = 1) as [->| ->] by lia; by eexists.
Qed.

Lemma open_syslog_goes F p port :
  goes F (open_syslog s port) p (fun _ p' => ids p' = ids p /\ upper (fds p) (fds p') /\
    (forall f0 f1 f2, standard p (Some f0) (Some f1) (Some f2) -> standard p' (Some f0) (Some f1) (Some f2)) /\
    (fds p' = fds p \/ exists fd, fds p !! fd = None /\ fds p' = <[fd := FSyslog]> (fds p))).
Proof.
  destruct (lowest_spec (fds p)) as (H0 & Hn & Hb).
  unfold goes, open_syslog, now, new_fd, change, mbind, M_bind, mret, M_ret.
  destruct (syslog_ok (root_dir p)); [destruct (decide _)|];
    [|by split_and!; try left|by split_and!; try left].
  cbn [fds with_fds with_message].
  split; [done|]. split; [apply upper_insert; by right|]. split; [|right; by exists (lowest (fds p))].
  intros f0 f1 f2 (Hs0 & Hs1 & Hs2). unfold standard. cbn [fds with_fds with_message].
  rewrite !lookup_insert_ne; [done|..]; intros E; rewrite E in Hn; congruence.
Qed.

(** ** The whole start *)

Definition stdio_open (p : process) : Prop := exists f0 f1 f2, standard p (Some f0) (Some f1) (Some f2).

Lemma stdio_lowest p : stdio_open p -> 3 <= lowest (fds p).
Proof.
  intros (f0 & f1 & f2 & H0 & H1 & H2). destruct (lowest_spec (fds p)) as (Hp & Hn & _).
  destruct (decide (3 <= lowest (fds p))); [done|]. exfalso.
  assert (lowest (fds p) = 0 \/ lowest (fds p) = 1 \/ lowest (fds p) = 2) as [E|[E|E]] by lia;
    rewrite E in Hn; congruence.
Qed.

Definition std_file (p : process) (fd : Z) : option file :=
  if disable_close s then fds p !! fd else Some FDevNull.

(** The standard descriptors of the server. *)
Definition server_standard (p p' : process) : Prop :=
  standard p' (std_file p 0) (std_file p 1)
    (match stderr_file s with Some f => Some (FFile f) | None => std_file p 2 end).

(** The steps that change descriptors, after the socket. *)
Definition arrange_fds : M unit :=
  when (negb (disable_close s)) close_terminal ≫= fun _ =>
  match stderr_file s with Some f => open_stderr f | None => mret tt end.

Lemma arrange_fds_goes (F : Prop) p :
  stdio_open p -> (F -> forall f, stderr_file s = Some f -> open_ok (root_dir p) f = true) ->
  (F -> 3 < fd_limit) ->
  goes F arrange_fds p (fun _ p' => ids p' = ids p /\ upper (fds p) (fds p') /\
    (F -> disable_close s = true \/ open_ok (root_dir p) (lit "/dev/null") = true -> server_standard p p')).
Proof.
  intros (f0 & f1 & f2 & Hstd) Hf Hl. unfold arrange_fds. apply goes_bind.
  apply (goes_mono _ _ _ (fun _ p' => ids p' = ids p /\ upper (fds p) (fds p') /\
    (F -> disable_close s = true \/ open_ok (root_dir p) (lit "/dev/null") = true ->
       standard p' (std_file p 0) (std_file p 1) (std_file p 2)))).
  { unfold std_file. apply goes_when; destruct (disable_close s); try done; intros _.
    eapply goes_mono; [apply close_terminal_goes|]. intros [] p1 (Hi & Hu & Hs). split; [done|].
      split; [done|]. intros HF [?|Ho]; [done|]. rewrite decide_True in Hs; [done|]. split; [done|].
      specialize (Hl HF). lia. }
  intros [] p1 (Hi & Hu & Hs). unfold server_standard. destruct (stderr_file s) as [f|] eqn:Hse; [|done].
  assert (root_dir p1 = root_dir p) as Hrd by (unfold ids in Hi; congruence).
  eapply goes_mono; [apply (open_stderr_goes F)|].
  { intros HF. rewrite Hrd. auto. }
  intros [] p2 (Hi2 & Hu2 & fd & Hfd & Hfds & H2). split; [congruence|]. split; [by eapply upper_trans|].
  intros HF Hd. specialize (Hs HF Hd).
  assert (exists a b, std_file p 0 = Some a /\ std_file p 1 = Some b) as (a & b & Ea & Eb).
  { unfold std_file. destruct Hstd as (E0 & E1 & _). destruct (disable_close s); eauto. }
  rewrite Ea, Eb in *. pose proof (H2 a b _ Hs) as ->. destruct Hs as (S0 & S1 & _).
  unfold standard. rewrite Hfds, lookup_insert_eq. by rewrite !lookup_insert_ne, !lookup_delete_ne by done.
Qed.

(** The working directory is in the root directory, unless [chdir] was disabled or
    failed. *)
Definition moved (p : process) : Prop :=
  disable_chdir s = false -> chdir_ok (euid p) (root_dir p) = true -> cwd_inside p = true.

(** The change of root, user and directory. *)
Lemma prepare_goes {A} (F : Prop) p (k : M A) Q :
  (F -> forall dir, euid p = 0 -> root s = Some dir -> chroot_ok dir = true) ->
  (F -> forall u, euid p = 0 -> username s = Some u -> exists uid gid,
     getpwnam (new_root p) u = Some (uid, gid) /\ initgroups_ok u gid = true /\ setgid_ok gid = true /\
     setuid_ok uid = true) ->
  (forall p', fds p' = fds p -> user_of p p' -> root_dir p' = new_root p ->
     moved p' -> goes F k p' Q) ->
  goes F (change_root s ≫= fun _ => change_user s ≫= fun _ =>
    when (negb (disable_chdir s)) go_to_root ≫= fun _ => k) p Q.
Proof.
  intros Hr Hu Hk. apply goes_bind. eapply goes_mono; [apply (change_root_goes F p Hr)|].
  intros [] p2 (Ef2 & Eu2 & Eg2 & Egs2 & Er2 & _).
  apply goes_bind. eapply goes_mono; [apply (change_user_goes F (new_root p) p2 Er2)|].
  { rewrite Eu2. exact Hu. }
  intros [] p3 (Ef3 & Er3 & _ & Hus). rewrite Eu2, Eg2, Egs2 in Hus. apply goes_bind.
  apply goes_when; intros Hd; [unfold goes at 1, go_to_root, change|].
  - destruct (chdir_ok (euid p3) (root_dir p3)) eqn:Hcd; apply Hk;
      try exact Hus; try (cbn [fds root_dir with_cwd]; congruence);
      intros _; first [done|congruence].
  - apply Hk; try congruence; try exact Hus. intros Hd'. by rewrite Hd' in Hd.
Qed.

(** The steps after the descriptors are arranged. *)
Lemma finish_goes {A} (F : Prop) p port (k : M A) Q :
  (F -> disable_fork s = true \/ fork_result = 0) ->
  (forall p', ids p' = ids p -> upper (fds p) (fds p') ->
     (forall f0 f1 f2, standard p (Some f0) (Some f1) (Some f2) -> standard p' (Some f0) (Some f1) (Some f2)) ->
     goes F k p' Q) ->
  goes F (when (negb (disable_fork s)) go_background ≫= fun _ =>
    when (negb (disable_syslog s)) (open_syslog s port) ≫= fun _ =>
    when (enable_stack_trace_on_segv s && can_catch_sigsegv) (change (with_segv true)) ≫= fun _ => k) p Q.
Proof.
  intros Hf Hk. apply goes_bind. apply (goes_mono _ _ _ (fun _ p' => p' = p)).
  { apply goes_when; [|done]. intros Hd. unfold goes, go_background.
    destruct (disable_fork s); [done|]. destruct (decide _); [intros [|]%Hf; [done|lia]|].
    destruct (decide _); [intros [|]%Hf; [done|lia]|done]. }
  intros [] ? ->. apply goes_bind.
  apply (goes_mono _ _ _ (fun _ p' => ids p' = ids p /\ upper (fds p) (fds p') /\
    (forall f0 f1 f2, standard p (Some f0) (Some f1) (Some f2) -> standard p' (Some f0) (Some f1) (Some f2)))).
  { apply goes_when; [|done]. intros _. eapply goes_mono; [apply open_syslog_goes|]. intros [] p' (? & ? & ? & _). done. }
  intros [] p' (Hi & Hu & Hs). apply goes_bind, goes_when; intros _; [unfold goes at 1, change|]; by apply Hk.
Qed.

Lemma start_goes prog opts p :
  stdio_open p -> names_ok s -> Forall option_ok opts ->
  let pa := foldl apply_option (default_port s, default_address s) opts in
  goes (fine p pa.1 pa.2) (start s (prog :: concat (option_args s <$> opts))) p (fun sock p' =>
    (3 <= sock /\ fds p !! sock = None /\
     fds p' !! sock = Some (FSocket (Some (pa.2, htons_port pa.1)) true true) /\
     upper (fds p) (fds p') /\
     (fine p pa.1 pa.2 -> disable_close s = true \/ open_ok (new_root p) (lit "/dev/null") = true ->
        server_standard p p')) /\
    user_of p p' /\ root_dir p' = new_root p /\ moved p').
Proof.
  intros Hstd Hnames Hok pa. pose proof (stdio_lowest p Hstd) as H3.
  destruct (lowest_spec (fds p)) as (_ & Hfree & _). set (F := fine p pa.1 pa.2).
  unfold start. apply goes_bind. unfold goes at 1. cbn [tail].
  pose proof (options_read s opts p (default_port s, default_address s) Hnames Hok) as Hro.
  cbn [fst snd] in Hro. rewrite Hro. fold pa. destruct pa as [port address]. cbn [fst snd] in *.
  apply goes_bind. eapply goes_mono; [apply open_socket_goes|]. intros sock p1 [-> ->].
  set (f := FSocket _ true true). set (p1 := with_fds _ p).
  assert (upper (fds p) (fds p1)) as Hu1 by (apply upper_insert; by right).
  assert (forall fd, 0 <= fd < 3 -> fds p1 !! fd = fds p !! fd) as Hstd1.
  { intros fd Hfd. unfold p1. by rewrite fds_with, lookup_insert_ne by lia. }
  apply prepare_goes; [intros HF; exact (fine_root _ _ _ HF)|intros HF; exact (fine_user _ _ _ HF)|].
  intros p2 Ef2 Hu2 Er2 Hc2. change (new_root p1) with (new_root p) in Er2. rewrite <- Ef2 in Hu1, Hstd1.
  apply (goes_assoc F). apply goes_bind. eapply goes_mono; [apply (arrange_fds_goes F p2)|].
  { destruct Hstd as (f0 & f1 & f2 & ? & ? & ?). exists f0, f1, f2. unfold standard. by rewrite !Hstd1 by lia. }
  { intros HF. rewrite Er2. exact (fine_stderr _ _ _ HF). }
  { intros HF. pose proof (fine_limit _ _ _ HF). lia. }
  intros [] p3 (Ei3 & Hu3 & Hs3). rewrite Er2 in Hs3.
  apply finish_goes; [intros HF; exact (fine_fork _ _ _ HF)|]. intros p4 Ei4 Hu4 Hs4.
  unfold goes, mret, M_ret. assert (ids p4 = ids p2) as Ei by congruence. unfold ids in Ei.
  assert (upper (fds p2) (fds p4)) as Hu by (by eapply upper_trans).
  assert (fds p2 !! lowest (fds p) = Some f) as Hsk by (rewrite Ef2; apply lookup_insert_eq).
  split; [split; [done|]; split; [done|]; split; [by rewrite Hu|]; split; [by eapply upper_trans|]|].
  - intros HF Hd. specialize (Hs3 HF Hd).
    destruct Hstd as (f0 & f1 & f2 & E0 & E1 & E2). unfold server_standard, std_file in *.
    rewrite !Hstd1, E0, E1, E2 in Hs3 by lia. rewrite E0, E1, E2.
    destruct (disable_close s), (stderr_file s); by apply Hs4.
  - split; [|split; [congruence|]].
    + change (user_of p p2) in Hu2. injection Ei as Eu Eg Egs _ _. unfold user_of in *. by rewrite Eu, Eg, Egs.
    + unfold moved in *. injection Ei as Eu _ _ Er Ecwd. by rewrite Eu, Er, Ecwd.
Qed.

(** C19: what the server listens on: with the last port and address of the command
    line, or the defaults, the server ends up with a listening, non-blocking socket
    bound to that address and to the port modulo 65536; closing the terminal and
    reopening the standard descriptors leaves this socket and every other inherited
    descriptor alone, and puts the null device and the log file where they belong;
    unless a call of the system fails or this is the parent process. The standard
    descriptors 0, 1 and 2 are open when the program starts; without them it is not so
    ([closed_stdin_loses_socket]). *)
Theorem server_descriptors prog opts p :
  stdio_open p -> names_ok s -> Forall option_ok opts ->
  let pa := foldl apply_option (default_port s, default_address s) opts in
  match start s (prog :: concat (option_args s <$> opts)) p with
  | (Next sock, p') => 3 <= sock /\ fds p !! sock = None /\
      fds p' !! sock = Some (FSocket (Some (pa.2, pa.1 mod 65536)) true true) /\
      (forall fd, 3 <= fd -> is_Some (fds p !! fd) -> fds p' !! fd = fds p !! fd) /\
      (fine p pa.1 pa.2 -> disable_close s = true \/ open_ok (new_root p) (lit "/dev/null") = true ->
         server_standard p p')
  | _ => ~ fine p pa.1 pa.2
  end.
Proof.
  intros Hs Hn Ho pa. eapply goes_mono; [by apply start_goes|]. by intros sock p' [H _].
Qed.

(** C18: whom the server runs as: if it is started by root and a user was named, then
    whenever it gets as far as the startup function it runs as that user, with the
    user's group and supplementary groups, and below the root directory that was
    asked for, with its working directory there unless [chdir] was disabled or failed,
    since its result is not looked at; it goes on in no other way. *)
Theorem server_privileges prog opts p :
  stdio_open p -> names_ok s -> Forall option_ok opts ->
  let pa := foldl apply_option (default_port s, default_address s) opts in
  match start s (prog :: concat (option_args s <$> opts)) p with
  | (Next _, p') => user_of p p' /\ root_dir p' = new_root p /\
      (disable_chdir s = false -> chdir_ok (euid p') (root_dir p') = true -> cwd_inside p' = true)
  | _ => ~ fine p pa.1 pa.2
  end.
Proof.
  intros Hs Hn Ho pa. eapply goes_mono; [by apply start_goes|]. by intros sock p' [_ H].
Qed.
End start.

(** ** Examples *)

(** A system with the null device only in the original root directory. *)
#[export] Instance demo_system : System := {
  fd_limit := 64;
  inet_addr := fun a => if decide (a = lit "127.0.0.1") then 16777343 else INADDR_NONE;
  bind_ok := fun _ => true;
  listen_ok := true;
  nonblock_ok := true;
  chroot_ok := fun _ => true;
  chdir_ok := fun _ _ => true;
  getpwnam := fun _ u => if decide (u = lit "www") then Some (33, 34) else None;
  initgroups_ok := fun _ _ => true;
  setgid_ok := fun _ => true;
  setuid_ok := fun _ => true;
  open_ok := fun r f => bool_decide (f <> lit "/dev/null" \/ r = lit "/");
  syslog_ok := fun _ => true;
  fork_result := 0;
  can_catch_sigsegv := true;
  posixly_correct := false
}.

Definition demo_process (stdio : list Z) : process :=
  Process (list_to_map ((fun fd => (fd, FOther (Z.to_nat fd))) <$> stdio)) 0 0 None (lit "/") true false [] false.

Definition demo_settings : settings :=
  pthr_server_stderr_file (Some (lit "/log")) (pthr_server_username (Some (lit "www"))
    (initial_settings (lit "demo 1.0"))).

Definition demo_options : list option_given := [PortGiven 81; AddressGiven (lit "127.0.0.1"); PortGiven 65616].

Lemma demo_stdio : stdio_open (demo_process [0; 1; 2; 5]).
Proof. by exists (FOther 0), (FOther 1), (FOther 2). Qed.

Lemma demo_names : names_ok demo_settings.
Proof. by split_and!. Qed.

Lemma demo_options_ok : Forall option_ok demo_options.
Proof. unfold demo_options. rewrite !Forall_cons. by repeat split. Qed.

Lemma demo_fine : fine demo_settings (demo_process [0; 1; 2; 5]) 65616 16777343.
Proof.
  split; try done.
  - intros u _ [= <-]. by exists 33, 34.
  - by intros f [= <-].
  - by right.
Qed.

Lemma server_descriptors_witness :
  match start demo_settings (lit "demo" :: concat (option_args demo_settings <$> demo_options))
          (demo_process [0; 1; 2; 5]) with
  | (Next sock, p') => 3 <= sock /\
      fds p' !! sock = Some (FSocket (Some (16777343, 80)) true true) /\
      fds p' !! 5 = Some (FOther 5) /\ server_standard demo_settings (demo_process [0; 1; 2; 5]) p'
  | _ => False
  end.
Proof.
  pose proof (server_descriptors demo_settings (lit "demo") demo_options (demo_process [0; 1; 2; 5])
    demo_stdio demo_names demo_options_ok) as H. cbv zeta in H.
  destruct (start _ _ _) as [[sock|c|] p']; [|exact (H demo_fine)|exact (H demo_fine)].
  destruct H as (H1 & _ & H2 & H3 & H4). split; [exact H1|]. split; [exact H2|].
  split; [apply H3; [lia|by eexists]|]. apply H4; [exact demo_fine|right; reflexivity].
Defined.

Lemma server_privileges_witness :
  match start demo_settings (lit "demo" :: concat (option_args demo_settings <$> demo_options))
          (demo_process [0; 1; 2; 5]) with
  | (Next _, p') => euid p' = 33 /\ egid p' = 34 /\ groups p' = Some (lit "www", 34) /\ cwd_inside p' = true
  | _ => False
  end.
Proof.
  pose proof (server_privileges demo_settings (lit "demo") demo_options (demo_process [0; 1; 2; 5])
    demo_stdio demo_names demo_options_ok) as H. cbv zeta in H.
  destruct (start _ _ _) as [[sock|c|] p']; [|exact (H demo_fine)|exact (H demo_fine)].
  destruct H as ([Hu Hg] & _ & Hc). unfold getpwnam, demo_system in Hu. simpl in Hu.
  injection Hu as Eu Eg. rewrite <- Eg in Hg. split; [done|]. split; [done|]. split; [exact Hg|]. by apply Hc.
Defined.

(** Started without a standard input, the server closes its own socket and gives
    the listener the null device. *)
Lemma closed_stdin_loses_socket :
  match start demo_settings [lit "demo"] (demo_process [1; 2]) with
  | (Next sock, p') => sock = 0 /\ fds p' !! 0 = Some FDevNull
  | _ => False
  end.
Proof. vm_compute. by split. Qed.

(** In a new root directory without the null device, the log file gets descriptor
    0 and the connection to the system log descriptor 1. *)
Lemma no_null_device_moves_log :
  match start (pthr_server_chroot (Some (lit "/jail")) demo_settings) [lit "demo"] (demo_process [0; 1; 2]) with
  | (Next sock, p') => sock = 3 /\ fds p' !! 0 = Some (FFile (lit "/log")) /\ fds p' !! 1 = Some FSyslog /\
      fds p' !! 2 = None
  | _ => False
  end.
Proof. vm_compute. by split_and!. Qed.

(** A [chdir] that fails is not noticed: the server goes on with its working directory
    outside of the new root. *)
Definition closed_root : System := {|
  fd_limit := fd_limit; inet_addr := inet_addr; bind_ok := bind_ok; listen_ok := listen_ok;
  nonblock_ok := nonblock_ok; chroot_ok := chroot_ok; chdir_ok := fun _ _ => false; getpwnam := getpwnam;
  initgroups_ok := initgroups_ok; setgid_ok := setgid_ok; setuid_ok := setuid_ok; open_ok := open_ok;
  syslog_ok := syslog_ok; fork_result := fork_result; can_catch_sigsegv := can_catch_sigsegv;
  posixly_correct := posixly_correct |}.

Lemma failed_chdir_stays_outside :
  match start (SY := closed_root) (pthr_server_chroot (Some (lit "/jail")) demo_settings) [lit "demo"]
          (demo_process [0; 1; 2]) with
  | (Next _, p') => root_dir p' = lit "/jail" /\ cwd_inside p' = false
  | _ => False
  end.
Proof. vm_compute. by split. Qed.

(** Without [chdir], the working directory stays outside of the new root. *)
Lemma no_chdir_stays_outside :
  match start (pthr_server_disable_chdir (pthr_server_chroot (Some (lit "/jail")) demo_settings)) [lit "demo"]
          (demo_process [0; 1; 2]) with
  | (Next _, p') => root_dir p' = lit "/jail" /\ cwd_inside p' = false
  | _ => False
  end.
Proof. vm_compute. by split. Qed.
