(* ===== verification/Programs.v ===== *)
(** * The threads of a server and the example programs

    The functions that create the threads of the listener and of the processors
    ([src/pthr_listener.c], [examples/pthr_eg1_echo.c], [examples/pthr_eg2_server.c]),
    and the main programs of the examples. *)

From stdpp Require Import base list gmap.
From Stdlib Require Import Strings.Byte.
From S2P Require Import Prelude C2lib ReactorTimers Prog Stack Threads Cstring Descriptors Server ServerSpec.

(** ** Threads *)

(** The functions that threads run here, with their data; a processor function is
    given by the program. *)
Inductive start_routine := RunListener | RunEcho | RunServer.

Inductive processor := StartEcho | StartServer.

Inductive thread_data :=
  | ListenerData (sock : Z) (processor_fn : processor) (data : Z)
  | ProcessorData (sock : Z).

Section threads.
Context {vec : Type -> Type} `{VL : Vector vec} {P : Type}.
Context (mmap : gmap loc Z -> Z -> option loc) (mprotect : loc -> Z -> bool).
Abbreviation tstate := (tstate vec start_routine thread_data P).
(** The thread runs until it gives up control or ends, with whatever it does to the
    table of threads meanwhile. *)
Context (pth_start : loc -> tstate -> option tstate).

(** [pool] is the new pool, [a] the address of the thread in it. *)
Definition new_thread (a : loc) (pool : P) (run : start_routine) (data : thread_data) (name : bytes)
    (s : tstate) : option tstate :=
  s1 ← new_pseudothread mmap mprotect a pool run data (Some name) s;
  pth_start a s1.

Definition new_listener (a : loc) (pool : P) (sock : Z) (processor_fn : processor) (data : Z) : tstate -> option tstate :=
  new_thread a pool RunListener (ListenerData sock processor_fn data) (lit "listener").

Definition new_eg1_echo_processor (a : loc) (pool : P) (sock : Z) : tstate -> option tstate :=
  new_thread a pool RunEcho (ProcessorData sock) (lit "eg1_echo_processor").

Definition new_eg2_server_processor (a : loc) (pool : P) (sock : Z) : tstate -> option tstate :=
  new_thread a pool RunServer (ProcessorData sock) (lit "eg2_server_processor").

(** [start_processor] of the two programs. *)
Definition start_processor (f : processor) (a : loc) (pool : P) (sock : Z) : tstate -> option tstate :=
  match f with
  | StartEcho => new_eg1_echo_processor a pool sock
  | StartServer => new_eg2_server_processor a pool sock
  end.

Context (mmap_new : forall m size b, mmap m size = Some b -> m !! b = None).

(** A processor starts in a table in which it is a thread of its own, with the
    connection as its data. *)
Lemma processor_starts f a pool sock (s : tstate) use b :
  threads_ok s use -> pths s !! a = None -> mmap use (default_stack_size s) = Some b ->
  mprotect b GUARD_PAGE_SIZE = true ->
  exists s1 p, start_processor f a pool sock s = pth_start a s1 /\
    threads_ok s1 (<[b := default_stack_size s]> use) /\ pths s1 = <[a := p]> (pths s) /\
    pth_run p = match f with StartEcho => RunEcho | StartServer => RunServer end /\
    pth_data p = ProcessorData sock /\ pth_pool p = pool /\ pth_stack p = b.
Proof.
  intros Hok Ha Hb Hg. destruct f; cbn [start_processor];
    unfold new_eg1_echo_processor, new_eg2_server_processor, new_thread;
    match goal with |- context [new_pseudothread mmap mprotect a pool ?r ?d ?n s] =>
      pose proof (new_pseudothread_spec mmap mprotect mmap_new a pool r d n s use Hok Ha) as Hn end;
    rewrite Hb, Hg in Hn; destruct Hn as (s1 & n & _ & -> & Hok1 & Hp); eexists s1, _; by split_and!.
Qed.
End threads.

(** ** Main programs *)

Section programs.
Context `{SY : System} (package : bytes) (n : nat).
Context (listen_with : processor -> Z -> M unit) (count_threads : process -> nat) (reactor_invoke : M unit).

Definition eg1_main (argv : list bytes) : M bool :=
  pthr_server_main_loop (listen_with StartEcho) count_threads reactor_invoke n (initial_settings package) argv ≫= fun _ =>
  leave 0.

Definition eg2_settings : settings :=
  pthr_server_username (Some (lit "nobody")) (pthr_server_chroot (Some (lit "/tmp")) (initial_settings package)).

(** The handlers of signals are not represented. *)
Definition eg2_main (argv : list bytes) : M bool :=
  pthr_server_main_loop (listen_with StartServer) count_threads reactor_invoke n eg2_settings argv ≫= fun _ =>
  leave 0.

Lemma leave_then {A B} (m : M A) (k : A -> M B) p c p' :
  m p = (Exit c, p') -> (m ≫= k) p = (Exit c, p').
Proof. unfold mbind, M_bind. by intros ->. Qed.

(** C39: started by root, the file server of the examples looks for its user below the
    new root directory; unless there is a user database in /tmp, it exits with an error,
    whatever the command line. *)
Theorem eg2_main_needs_users prog opts p :
  euid p = 0 -> names_ok eg2_settings -> Forall option_ok opts ->
  chroot_ok (lit "/tmp") = true -> getpwnam (lit "/tmp") (lit "nobody") = None ->
  match eg2_main (prog :: concat (option_args eg2_settings <$> opts)) p with
  | (Exit code, _) => code = 1
  | (Aborted, _) => lowest (fds p) >= fd_limit \/ listen_ok = false \/ nonblock_ok = false
  | (Next _, _) => False
  end.
Proof.
  intros Hz Hn Hok Hroot Hpw. unfold eg2_main, pthr_server_main_loop, start.
  pose proof (options_read eg2_settings opts p (default_port eg2_settings, default_address eg2_settings) Hn Hok) as Hro.
  set (pa := foldl _ _ opts) in Hro. destruct pa as [port address]. cbn [fst snd] in Hro.
  unfold mbind, M_bind. cbn [tail]. rewrite Hro. unfold open_socket, new_fd, mbind, M_bind.
  destruct (lowest_spec (fds p)) as (H0 & _ & _).
  destruct (decide (lowest (fds p) < fd_limit)) as [Hl|Hl].
  - rewrite decide_False by lia. destruct (bind_ok _); [|done]. destruct listen_ok; [|cbn; by auto].
    destruct nonblock_ok; [|cbn; by auto].
    unfold set_fd, change, change_root, now, mbind, M_bind, mret, M_ret.
    cbn [negb root eg2_settings pthr_server_username pthr_server_chroot initial_settings].
    rewrite decide_True by done. rewrite Hroot. unfold change, change_user, now, mbind, M_bind, mret, M_ret.
    cbn [username eg2_settings pthr_server_username pthr_server_chroot initial_settings].
    rewrite decide_True by done. cbn [root_dir with_root]. by rewrite Hpw.
  - rewrite decide_True by lia. left. lia.
Qed.
End programs.

(** ** Example *)

Definition sample_main (argv : list bytes) : M bool :=
  eg2_main (lit "demo 1.0") 3 (fun _ _ => mret tt) (fun _ => 1%nat) (mret tt) argv.

Lemma eg2_main_needs_users_witness :
  match sample_main (lit "eg2" :: concat (option_args (eg2_settings (lit "demo 1.0")) <$> [PortGiven 8080]))
          (demo_process [0; 1; 2]) with
  | (Exit code, _) => code = 1
  | _ => False
  end.
Proof.
  assert (names_ok (eg2_settings (lit "demo 1.0"))) as Hn by (by split_and!).
  assert (Forall option_ok [PortGiven 8080]) as Ho by (constructor; [done|constructor]).
  pose proof (eg2_main_needs_users (lit "demo 1.0") 3 (fun _ _ => mret tt) (fun _ => 1%nat) (mret tt) (lit "eg2")
    [PortGiven 8080] (demo_process [0; 1; 2]) eq_refl Hn Ho eq_refl eq_refl) as H.
  unfold sample_main. destruct (eg2_main _ _ _ _ _ _ _) as [[b|code|] p']; [exact H|exact H|].
  destruct H as [H|[H|H]]; [|discriminate H|discriminate H]. vm_compute in H. by apply H.
Defined.
