(* ===== verification/Iolib.v ===== *)
(** * Buffered input and output ([src/pthr_iolib.c])

    What the library needs of [pth_read] and [pth_write] is the class
    [Sockets]; the operations act on a memory of handles.  A handle stands for
    two streams: the bytes still to be read and the bytes written so far,
    wherever they are buffered. *)

From stdpp Require Import base list gmap.
From Stdlib Require Import Strings.Byte.
From S2P Require Import Prelude C2lib ReactorTimers Prog.

(** ** Sockets

    [input] is what can still be read from a socket, [output] what has been
    written to it; a [healthy] socket neither fails nor is its user alarmed. *)

Class Sockets (E : Type) := {
  input : E -> Z -> bytes;
  output : E -> Z -> bytes;
  healthy : E -> Z -> Prop;
  pth_read : Z -> nat -> prog E (Z * bytes);
  pth_write : Z -> bytes -> prog E Z;
  sys_close : Z -> prog E Z;
  read_law : forall s n e,
    match pth_read s n e with
    | Ret (r, bs) e' =>
      (r < 0 /\ ~ healthy e' s \/
       r = Z.of_nat (length bs) /\ (length bs <= n)%nat /\ input e s = bs ++ input e' s /\
       (bs = [] -> n = 0%nat \/ input e s = [])) /\
      (forall s', output e' s' = output e s') /\
      (forall s', s' <> s -> input e' s' = input e s') /\
      (forall s', healthy e s' -> healthy e' s')
    | PthExit _ => ~ healthy e s
    | _ => False
    end;
  write_law : forall s bs e, bs <> [] ->
    match pth_write s bs e with
    | Ret r e' =>
      (r < 0 /\ ~ healthy e' s \/
       0 < r <= Z.of_nat (length bs) /\
       output e' s = output e s ++ take (Z.to_nat r) bs) /\
      (forall s', input e' s' = input e s') /\
      (forall s', s' <> s -> output e' s' = output e s') /\
      (forall s', healthy e s' -> healthy e' s')
    | PthExit _ => ~ healthy e s
    | _ => False
    end
}.

Definition IOLIB_INPUT_BUFFER_SIZE : nat := 1024.
Definition IOLIB_OUTPUT_BUFFER_SIZE : nat := 1024.
Definition IO_MODE_LINE_BUFFERED : Z := 0.
Definition IO_MODE_UNBUFFERED : Z := 1.
Definition IO_MODE_FULLY_BUFFERED : Z := 2.

(** Positions are offsets in the buffers. *)
Record io_handle := IoHandle {
  sock : Z;
  inbuf : bytes;
  inbufpos : nat;
  inbuflen : nat;
  inbufcount : Z;
  outbuf : bytes;
  outbufpos : nat;
  outbuffree : nat;
  outbufcount : Z;
  outbufmode : Z
}.

Definition with_in buf pos len count h : io_handle :=
  IoHandle (sock h) buf pos len count (outbuf h) (outbufpos h) (outbuffree h) (outbufcount h)
    (outbufmode h).
Definition with_out buf pos free h : io_handle :=
  IoHandle (sock h) (inbuf h) (inbufpos h) (inbuflen h) (inbufcount h) buf pos free
    (outbufcount h) (outbufmode h).
Definition with_outcount n h : io_handle :=
  IoHandle (sock h) (inbuf h) (inbufpos h) (inbuflen h) (inbufcount h) (outbuf h) (outbufpos h)
    (outbuffree h) n (outbufmode h).
Definition with_mode m h : io_handle :=
  IoHandle (sock h) (inbuf h) (inbufpos h) (inbuflen h) (inbufcount h) (outbuf h) (outbufpos h)
    (outbuffree h) (outbufcount h) m.

Section iolib.
Context {E : Type} `{SK : Sockets E}.

Record iow := IoW { ios : gmap loc io_handle; net : E }.

Definition handle (io : loc) : prog iow io_handle := fun w =>
  match ios w !! io with Some h => Ret h w | None => Abort end.

Definition put (io : loc) (h : io_handle) : prog iow unit := fun w =>
  Ret tt (IoW (<[io := h]> (ios w)) (net w)).

Definition on_net {A} (m : prog E A) : prog iow A := fun w =>
  match m (net w) with
  | Ret a e => Ret a (IoW (ios w) e)
  | Die msg e => Die msg (IoW (ios w) e)
  | PthExit e => PthExit (IoW (ios w) e)
  | Abort => Abort
  | NoFuel => NoFuel
  end.

(** What the buffers of a new handle hold. *)
Context (junk : nat -> byte).

(** [io] is the address of the new handle. *)
Definition io_fdopen (io : loc) (s : Z) : prog iow unit :=
  put io (IoHandle s (junk <$> seq 0 IOLIB_INPUT_BUFFER_SIZE) IOLIB_INPUT_BUFFER_SIZE 0 0
            (junk <$> seq 0 IOLIB_OUTPUT_BUFFER_SIZE) 0 IOLIB_OUTPUT_BUFFER_SIZE 0
            IO_MODE_LINE_BUFFERED).

(** [_err] ends the thread. *)
Definition err {A} : prog iow A := pth_exit.

(** The loops that write [data] to the socket; each round writes at least one
    byte. *)
Fixpoint write_loop (fuel : nat) (io : loc) (ignore_errors : bool) (data : bytes)
  : prog iow unit :=
  match data, fuel with
  | [], _ => mret tt
  | _, O => fun _ => NoFuel
  | _, S k =>
    h ← handle io;
    r ← on_net (pth_write (sock h) data);
    if decide (r < 0) then (if ignore_errors then mret tt else err)
    else
      h ← handle io;
      put io (with_outcount (to_int (outbufcount h + r)) h) ≫= fun _ =>
      write_loop k io ignore_errors (drop (Z.to_nat r) data)
  end.

Definition flush (io : loc) (ignore_errors : bool) : prog iow unit :=
  h ← handle io;
  write_loop (outbufpos h) io ignore_errors (take (outbufpos h) (outbuf h)) ≫= fun _ =>
  h ← handle io;
  put io (with_out (outbuf h) 0 IOLIB_OUTPUT_BUFFER_SIZE h).

Definition io_fflush (io : loc) : prog iow Z :=
  h ← handle io;
  (if decide (0 < outbufpos h)%nat then flush io false else mret tt) ≫= fun _ => mret 0.

(** [_do_close], run when the pool of the handle is deleted; the handle is
    freed with it. *)
Definition do_close (io : loc) : prog iow unit :=
  h ← handle io;
  (if decide (0 < outbufpos h)%nat then flush io true else mret tt) ≫= fun _ =>
  r ← on_net (sys_close (sock h));
  if decide (r < 0) then err else mret tt.

Definition io_fclose (io : loc) : prog iow unit :=
  andthen (do_close io) (fun _ w => Ret tt (IoW (delete io (ios w)) (net w))).

(** The character at the current position. *)
Definition take_char (io : loc) (h : io_handle) : prog iow Z :=
  b ← expect (inbuf h !! inbufpos h);
  put io (with_in (inbuf h) (S (inbufpos h)) (pred (inbuflen h)) (inbufcount h) h) ≫= fun _ =>
  mret (char_val b).

(** From the label [next]; a refill that reads something is followed by one
    more round. *)
Fixpoint fgetc_next (fuel : nat) (io : loc) : prog iow Z :=
  h ← handle io;
  if decide (0 < inbuflen h)%nat then take_char io h
  else
    match fuel with
    | O => fun _ => NoFuel
    | S k =>
      '(r, bs) ← on_net (pth_read (sock h) IOLIB_INPUT_BUFFER_SIZE);
      if decide (r < 0) then err
      else
        put io (with_in (bs ++ drop (length bs) (inbuf h)) 0 (Z.to_nat r)
                  (to_int (inbufcount h + r)) h) ≫= fun _ =>
        if decide (r = 0) then mret (-1) else fgetc_next k io
    end.

Definition io_fgetc (io : loc) : prog iow Z :=
  io_fflush io ≫= fun _ => fgetc_next 1 io.

(** Removing CR and LF at the end. *)
Fixpoint strip_eol (rev_s : bytes) : bytes :=
  match rev_s with
  | b :: t => if decide (b = LF \/ b = CR) then strip_eol t else reverse rev_s
  | [] => []
  end.

(** The loop of [io_fgets]: room for [k] more characters after [s]; [true]
    when it ended at the end of the input. *)
Fixpoint fgets_loop (k : nat) (io : loc) (s : bytes) : prog iow (bool * bytes) :=
  match k with
  | O => mret (false, s)
  | S k =>
    c ← io_fgetc io;
    if decide (c = -1) then mret (true, s)
    else if decide (c = char_val LF) then mret (false, s ++ [to_byte c])
    else fgets_loop k io (s ++ [to_byte c])
  end.

(** The string stored, or null. *)
Definition io_fgets (max_size : Z) (io : loc) (store_eol : bool) : prog iow (option bytes) :=
  io_fflush io ≫= fun _ =>
  '(eof, s) ← fgets_loop (Z.to_nat (max_size - 1)) io [];
  if eof : bool then mret (if decide (s = []) then None else Some s)
  else mret (Some (if store_eol : bool then s else strip_eol (reverse s))).

Definition io_ungetc (c : Z) (io : loc) : prog iow Z :=
  h ← handle io;
  if decide (0 < inbufpos h)%nat then
    put io (with_in (<[pred (inbufpos h) := to_byte c]> (inbuf h)) (pred (inbufpos h))
              (S (inbuflen h)) (inbufcount h) h) ≫= fun _ => mret c
  else mret (-1).

(** The loop of [io_fread] reading [n] bytes from the socket. *)
Fixpoint fread_loop (fuel : nat) (io : loc) (n : nat) (acc : bytes) : prog iow bytes :=
  match n, fuel with
  | O, _ => mret acc
  | _, O => fun _ => NoFuel
  | _, S k =>
    h ← handle io;
    '(r, bs) ← on_net (pth_read (sock h) n);
    if decide (r < 0) then err
    else if decide (r = 0) then mret acc
    else
      h ← handle io;
      put io (with_in (inbuf h) (inbufpos h) (inbuflen h) (to_int (inbufcount h + r)) h)
        ≫= fun _ => fread_loop k io (n - Z.to_nat r) (acc ++ bs)
  end.

(** The bytes stored at [ptr]; their number is the result of the C function.
    [n] is [size * nmemb]. *)
Definition io_fread (n : nat) (io : loc) : prog iow bytes :=
  io_fflush io ≫= fun _ =>
  h ← handle io;
  let i := Nat.min n (inbuflen h) in
  let bs := take i (drop (inbufpos h) (inbuf h)) in
  put io (with_in (inbuf h) (inbufpos h + i) (inbuflen h - i) (inbufcount h) h) ≫= fun _ =>
  fread_loop (n - i) io (n - i) bs.

(** From the label [again]. *)
Fixpoint fputc_again (fuel : nat) (c : Z) (io : loc) : prog iow Z :=
  h ← handle io;
  if decide (0 < outbuffree h)%nat then
    _ ← expect (outbuf h !! outbufpos h);
    put io (with_out (<[outbufpos h := to_byte c]> (outbuf h)) (S (outbufpos h))
              (pred (outbuffree h)) h) ≫= fun _ =>
    (if decide (outbufmode h = IO_MODE_UNBUFFERED \/
                outbufmode h = IO_MODE_LINE_BUFFERED /\ c = char_val LF)
     then flush io false else mret tt) ≫= fun _ => mret c
  else
    match fuel with
    | O => fun _ => NoFuel
    | S k => flush io false ≫= fun _ => fputc_again k c io
    end.

Definition io_fputc (c : Z) (io : loc) : prog iow Z := fputc_again 1 c io.

Fixpoint fputs_loop (s : bytes) (io : loc) : prog iow unit :=
  match s with
  | [] => mret tt
  | b :: s => io_fputc (char_val b) io ≫= fun _ => fputs_loop s io
  end.

(** [s] is a C string: it holds no NUL. *)
Definition io_fputs (s : bytes) (io : loc) : prog iow Z :=
  fputs_loop s io ≫= fun _ => mret 1.

(** [text] is what the format and its arguments expand to; [vsnprintf] with
    room for [n] stores its first [n - 1] characters and returns its length. *)
Definition io_fprintf (io : loc) (text : bytes) : prog iow Z :=
  let r := Z.of_nat (length text) in
  io_fputs (if decide (r > 4096) then text else take 4095 text) io ≫= fun _ => mret r.

Definition io_fwrite (data : bytes) (io : loc) : prog iow nat :=
  io_fflush io ≫= fun _ =>
  write_loop (length data) io false data ≫= fun _ => mret (length data).

(** The loop of [io_copy]; [len] is -1 for no limit. *)
Fixpoint copy_loop (fuel : nat) (from_io to_io : loc) (len : Z) (written_len : Z)
  : prog iow Z :=
  if decide (len = 0) then mret written_len
  else
    match fuel with
    | O => fun _ => NoFuel
    | S k =>
      h ← handle from_io;
      eof ← (if decide (inbuflen h = 0%nat) then
               c ← io_fgetc from_io;
               if decide (c = -1) then mret true
               else io_ungetc c from_io ≫= fun _ => mret false
             else mret false);
      if eof : bool then mret written_len
      else
        h ← handle from_io;
        let n := if decide (len = -1) then inbuflen h
                 else if decide (Z.of_nat (inbuflen h) <= len) then inbuflen h
                 else Z.to_nat len in
        io_fwrite (take n (drop (inbufpos h) (inbuf h))) to_io ≫= fun _ =>
        h ← handle from_io;
        put from_io (with_in (inbuf h) (inbufpos h + n) (inbuflen h - n) (inbufcount h) h)
          ≫= fun _ =>
        copy_loop k from_io to_io (if decide (0 < len) then len - Z.of_nat n else len)
          (to_int (written_len + Z.of_nat n))
    end.

Definition io_copy (fuel : nat) (from_io to_io : loc) (len : Z) : prog iow Z :=
  io_fflush from_io ≫= fun _ => copy_loop fuel from_io to_io len 0.

Definition io_setbufmode (io : loc) (mode : Z) : prog iow unit :=
  h ← handle io; put io (with_mode mode h).

Definition io_fileno (io : loc) : prog iow Z := h ← handle io; mret (sock h).
Definition io_get_inbufcount (io : loc) : prog iow Z := h ← handle io; mret (inbufcount h).
Definition io_get_outbufcount (io : loc) : prog iow Z := h ← handle io; mret (outbufcount h).

End iolib.
