(* ===== verification/IolibSpec.v ===== *)
(** * Correctness of the buffered input and output

    Proofs about [Iolib.v].  [wp ss m w Q]: the program [m] returns from [w]
    with [Q], keeping the sockets [ss] healthy if they are; the only other
    ending is the exit of the thread, and then one of [ss] was not healthy. *)

From stdpp Require Import base list gmap.
From Stdlib Require Import Strings.Byte.
From S2P Require Import Prelude C2lib ReactorTimers Prog Iolib.

Section iospec.
Context {E : Type} `{SK : Sockets E}.
Abbreviation iow := (iow (E := E)).

Definition all_healthy (ss : list Z) (e : E) : Prop := Forall (healthy e) ss.

Definition wp {A} (ss : list Z) (m : prog iow A) (w : iow) (Q : A -> iow -> Prop) : Prop :=
  match m w with
  | Ret a w' => Q a w' /\ (all_healthy ss (net w) -> all_healthy ss (net w'))
  | PthExit _ => ~ all_healthy ss (net w)
  | _ => False
  end.

Lemma wp_ret {A} ss (a : A) w (Q : A -> iow -> Prop) : Q a w -> wp ss (mret a) w Q.
Proof. intros HQ. split; [exact HQ|done]. Qed.

Lemma wp_bind {A B} ss (m : prog iow A) (k : A -> prog iow B) w Q :
  wp ss m w (fun a w' => wp ss (k a) w' Q) -> wp ss (m ≫= k) w Q.
Proof.
  unfold wp at 1 3. unfold mbind, prog_bind. destruct (m w) as [a w1| |w1| |]; try done.
  intros [Hk Hh]. unfold wp in Hk. destruct (k a w1); naive_solver.
Qed.

Lemma wp_mono {A} ss (m : prog iow A) w (Q Q' : A -> iow -> Prop) :
  wp ss m w Q -> (forall a w', Q a w' -> Q' a w') -> wp ss m w Q'.
Proof. unfold wp. destruct (m w); naive_solver. Qed.

Lemma wp_handle {B} ss io h (k : io_handle -> prog iow B) w Q :
  ios w !! io = Some h -> wp ss (k h) w Q -> wp ss (handle io ≫= k) w Q.
Proof. intros Hh Hk. apply wp_bind. unfold wp, handle. rewrite Hh. split; [exact Hk|done]. Qed.

Lemma wp_put {B} ss io h (k : unit -> prog iow B) w Q :
  wp ss (k tt) (IoW (<[io := h]> (ios w)) (net w)) Q -> wp ss (put io h ≫= k) w Q.
Proof. intros Hk. apply wp_bind. split; [exact Hk|done]. Qed.

Lemma wp_put_last ss io h w (Q : unit -> iow -> Prop) :
  Q tt (IoW (<[io := h]> (ios w)) (net w)) -> wp ss (put io h) w Q.
Proof. intros HQ. split; [exact HQ|done]. Qed.

Lemma wp_err {A} ss w (Q : A -> iow -> Prop) : ~ all_healthy ss (net w) -> wp ss err w Q.
Proof. done. Qed.

Lemma unhealthy ss e s : s ∈ ss -> ~ healthy e s -> ~ all_healthy ss e.
Proof. unfold all_healthy. rewrite Forall_forall. naive_solver. Qed.

(** Nothing but the socket [s] changed. *)
Definition others_same (s : Z) (e e' : E) : Prop :=
  forall s', s' <> s -> input e' s' = input e s' /\ output e' s' = output e s'.

Lemma wp_write {B} ss s bs (k : Z -> prog iow B) w Q :
  s ∈ ss -> bs <> [] ->
  (forall r e', others_same s (net w) e' -> input e' s = input (net w) s ->
     (r < 0 /\ ~ all_healthy ss e' \/
      0 < r <= Z.of_nat (length bs) /\
      output e' s = output (net w) s ++ take (Z.to_nat r) bs) ->
     wp ss (k r) (IoW (ios w) e') Q) ->
  wp ss (on_net (pth_write s bs) ≫= k) w Q.
Proof.
  intros Hs Hbs Hk. apply wp_bind. unfold wp at 1, on_net.
  pose proof (write_law s bs (net w) Hbs) as Hl.
  destruct (pth_write s bs (net w)) as [r e'| |e'| |]; try done; [|by eapply unhealthy].
  destruct Hl as (Hor & Hi & Ho & Hh). split.
  - apply Hk; [intros s' Hne; split; auto|auto|]. destruct Hor as [[? ?]|?]; [left|by right].
    split; [done|]. by eapply unhealthy.
  - simpl. unfold all_healthy. rewrite !Forall_forall. auto.
Qed.

Lemma wp_read {B} ss s n (k : Z * bytes -> prog iow B) w Q :
  s ∈ ss ->
  (forall r bs e', others_same s (net w) e' -> output e' s = output (net w) s ->
     (r < 0 /\ ~ all_healthy ss e' \/
      r = Z.of_nat (length bs) /\ (length bs <= n)%nat /\
      input (net w) s = bs ++ input e' s /\ (bs = [] -> n = 0%nat \/ input (net w) s = [])) ->
     wp ss (k (r, bs)) (IoW (ios w) e') Q) ->
  wp ss (on_net (pth_read s n) ≫= k) w Q.
Proof.
  intros Hs Hk. apply wp_bind. unfold wp at 1, on_net.
  pose proof (read_law s n (net w)) as Hl.
  destruct (pth_read s n (net w)) as [[r bs] e'| |e'| |]; try done; [|by eapply unhealthy].
  destruct Hl as (Hor & Ho & Hi & Hh). split.
  - apply Hk; [intros s' Hne; split; auto|auto|]. destruct Hor as [[? ?]|?]; [left|by right].
    split; [done|]. by eapply unhealthy.
  - simpl. unfold all_healthy. rewrite !Forall_forall. auto.
Qed.

(** ** Handles as streams *)

Record io_ok (h : io_handle) : Prop := {
  ok_inbuf : length (inbuf h) = IOLIB_INPUT_BUFFER_SIZE;
  ok_in : (inbufpos h + inbuflen h <= IOLIB_INPUT_BUFFER_SIZE)%nat;
  ok_outbuf : length (outbuf h) = IOLIB_OUTPUT_BUFFER_SIZE;
  ok_out : (outbufpos h + outbuffree h = IOLIB_OUTPUT_BUFFER_SIZE)%nat
}.

Definition pending_in (h : io_handle) : bytes := take (inbuflen h) (drop (inbufpos h) (inbuf h)).
Definition pending_out (h : io_handle) : bytes := take (outbufpos h) (outbuf h).

(** The handle [io] on socket [s] has [i] still to read and has written [o]. *)
Record stream (w : iow) (io : loc) (s : Z) (i o : bytes) (h : io_handle) : Prop := {
  st_handle : ios w !! io = Some h;
  st_ok : io_ok h;
  st_sock : sock h = s;
  st_in : pending_in h ++ input (net w) s = i;
  st_out : output (net w) s ++ pending_out h = o
}.

(** An operation on [io] left everything else alone. *)
Record only (io : loc) (s : Z) (w w' : iow) : Prop := {
  only_ios : forall io', io' <> io -> ios w' !! io' = ios w !! io';
  only_net : others_same s (net w) (net w')
}.

Lemma only_refl io s w : only io s w w.
Proof. by split. Qed.

Lemma only_trans io s w1 w2 w3 : only io s w1 w2 -> only io s w2 w3 -> only io s w1 w3.
Proof.
  intros [H1 H2] [H3 H4]. split.
  - intros. by rewrite H3, H1.
  - intros s' Hs. destruct (H2 s' Hs) as [E1 E2], (H4 s' Hs) as [E3 E4]. split; congruence.
Qed.

Lemma only_put io s h w e :
  others_same s (net w) e -> only io s w (IoW (<[io := h]> (ios w)) e).
Proof. intros Hs. split; [|done]. intros. simpl. by rewrite lookup_insert_ne. Qed.

Lemma same_refl s e : others_same s e e.
Proof. done. Qed.

Lemma same_trans s e1 e2 e3 : others_same s e1 e2 -> others_same s e2 e3 -> others_same s e1 e3.
Proof. intros H1 H2 s' Hs. destruct (H1 s' Hs), (H2 s' Hs). split; congruence. Qed.

#[local] Hint Resolve only_refl only_trans only_put same_refl same_trans : pthr.

Lemma pending_in_length h : io_ok h -> length (pending_in h) = inbuflen h.
Proof.
  intros []. unfold pending_in. rewrite length_take, length_drop. lia.
Qed.

(** ** Writing *)

Lemma write_loop_spec ss fuel io s i h w data :
  s ∈ ss -> ios w !! io = Some h -> io_ok h -> sock h = s ->
  pending_in h ++ input (net w) s = i -> (length data <= fuel)%nat ->
  wp ss (write_loop fuel io false data) w (fun _ w' => exists h',
    stream w' io s i (output (net w) s ++ data ++ pending_out h) h' /\
    output (net w') s = output (net w) s ++ data /\
    outbuf h' = outbuf h /\ outbufpos h' = outbufpos h /\ outbufmode h' = outbufmode h /\
    inbufpos h' = inbufpos h /\ inbuflen h' = inbuflen h /\ inbuf h' = inbuf h /\
    only io s w w').
Proof.
  intros Hs. revert h w data. induction fuel as [|k IH]; intros h w data Hh Hok Hsk Hi Hlen.
  { destruct data; [|simpl in Hlen; lia]. apply wp_ret. exists h. rewrite app_nil_r. simpl.
    split; [by split|]. repeat (split; [done|]). auto with pthr. }
  destruct data as [|b data].
  { apply wp_ret. exists h. rewrite app_nil_r. simpl.
    split; [by split|]. repeat (split; [done|]). auto with pthr. }
  set (d := b :: data) in *. cbn [write_loop]. fold d. apply (wp_handle _ _ h); [done|].
  rewrite Hsk. apply wp_write; [done|done|]. intros r e' Hot Hin Hor.
  destruct (decide (r < 0)) as [Hr|Hr].
  { apply wp_err. simpl. destruct Hor as [[? ?]|[? ?]]; [done|lia]. }
  destruct Hor as [[? ?]|[Hr1 Hout]]; [lia|].
  apply (wp_handle _ _ h); [done|]. apply wp_put. simpl.
  eapply wp_mono; [apply (IH (with_outcount (to_int (outbufcount h + r)) h))|].
  - simpl. by rewrite lookup_insert_eq.
  - destruct Hok. by split.
  - done.
  - simpl. by rewrite Hin.
  - rewrite length_drop. lia.
  - simpl. intros _ w' (h' & Hst & Ho & E1 & E2 & E3 & E4 & E5 & E6 & Hon). exists h'.
    assert (output e' s ++ drop (Z.to_nat r) d = output (net w) s ++ d) as Ed
      by (by rewrite Hout, <- app_assoc, take_drop).
    split.
    { destruct Hst. split; try done. rewrite st_out0. rewrite app_assoc, Ed, <- app_assoc. done. }
    split; [by rewrite Ho, Ed|]. repeat (split; [done|]).
    eapply only_trans; [|exact Hon]. by apply only_put.
Qed.

Lemma flush_spec ss io s i o h w :
  s ∈ ss -> stream w io s i o h ->
  wp ss (flush io false) w (fun _ w' => exists h', stream w' io s i o h' /\
    outbufpos h' = 0%nat /\ outbuffree h' = IOLIB_OUTPUT_BUFFER_SIZE /\
    outbufmode h' = outbufmode h /\ inbufpos h' = inbufpos h /\ inbuflen h' = inbuflen h /\
    inbuf h' = inbuf h /\ only io s w w').
Proof.
  intros Hs Hst. destruct (Hst) as [Hh Hok Hsk Hi Ho]. unfold flush.
  apply (wp_handle _ _ h); [done|]. apply wp_bind.
  eapply wp_mono; [apply (write_loop_spec ss _ io s i h w); try done|].
  { rewrite length_take. lia. }
  intros _ w1 (h1 & Hst1 & Hout & E1 & E2 & E3 & E4 & E5 & E6 & Hon).
  apply (wp_handle _ _ h1); [apply Hst1|]. apply wp_put_last.
  exists (with_out (outbuf h1) 0 IOLIB_OUTPUT_BUFFER_SIZE h1).
  destruct Hst1 as [Hh1 [Hb1 Hp1 Hb2 Hp2] Hs1 Hi1 _]. split.
  { split; simpl; [by rewrite lookup_insert_eq|by split|done|done|].
    unfold pending_out. simpl. rewrite take_0, app_nil_r, Hout. exact Ho. }
  repeat (split; [done|]). eapply only_trans; [exact Hon|]. apply only_put, same_refl.
Qed.

(** [io_fflush], and any operation that starts with it. *)
Lemma fflush_spec ss io s i o h w :
  s ∈ ss -> stream w io s i o h ->
  wp ss (io_fflush io) w (fun _ w' => exists h', stream w' io s i o h' /\
    outbufpos h' = 0%nat /\ outbufmode h' = outbufmode h /\ inbufpos h' = inbufpos h /\
    inbuflen h' = inbuflen h /\ inbuf h' = inbuf h /\ only io s w w').
Proof.
  intros Hs Hst. unfold io_fflush. apply (wp_handle _ _ h); [apply Hst|]. apply wp_bind.
  destruct (decide (0 < outbufpos h)%nat).
  - eapply wp_mono; [by apply (flush_spec ss io s i o h w)|]. simpl.
    intros _ w' (h' & ? & ? & ? & ? & ? & ? & ? & ?). apply wp_ret. exists h'. auto 10.
  - apply wp_ret, wp_ret. exists h. split; [done|]. split; [lia|].
    repeat (split; [done|]). auto with pthr.
Qed.

(** ** Reading *)

(** What reading a character does to the stream [i]. *)
Definition got (c : Z) (i i' : bytes) : Prop :=
  match i with [] => c = -1 /\ i' = [] | b :: t => c = char_val b /\ i' = t end.

Lemma take_char_spec ss io s i o h w :
  stream w io s i o h -> (0 < inbuflen h)%nat ->
  wp ss (take_char io h) w (fun c w' => exists i' h', got c i i' /\ i <> [] /\
    stream w' io s i' o h' /\ (0 < inbufpos h')%nat /\
    inbuflen h' = pred (inbuflen h) /\ outbufpos h' = outbufpos h /\ only io s w w').
Proof.
  intros [Hh Hok Hsk Hi Ho] Hl. destruct (Hok) as [Hb Hp _ _].
  destruct (lookup_lt_is_Some_2 (inbuf h) (inbufpos h)) as [b Hbp]; [lia|].
  assert (pending_in h = b :: take (pred (inbuflen h)) (drop (S (inbufpos h)) (inbuf h))) as Epi.
  { unfold pending_in. rewrite (drop_S _ _ _ Hbp).
    destruct (inbuflen h); [lia|]. done. }
  unfold take_char. rewrite Hbp. apply wp_put, wp_ret.
  eexists _, (with_in (inbuf h) (S (inbufpos h)) (pred (inbuflen h)) (inbufcount h) h).
  rewrite Epi in Hi. simpl in Hi. subst i. split; [split; [done|reflexivity]|].
  split; [done|]. split.
  { split; simpl; [by rewrite lookup_insert_eq|destruct Hok; split; simpl; lia|done|done|done]. }
  simpl. split; [lia|]. split; [done|]. split; [done|]. apply only_put, same_refl.
Qed.

Lemma fgetc_next_spec ss io s i o h w :
  s ∈ ss -> stream w io s i o h ->
  wp ss (fgetc_next 1 io) w (fun c w' => exists i' h', got c i i' /\
    stream w' io s i' o h' /\ (i <> [] -> (0 < inbufpos h')%nat) /\
    outbufpos h' = outbufpos h /\ only io s w w').
Proof.
  intros Hs Hst. destruct (Hst) as [Hh Hok Hsk Hi Ho]. cbn [fgetc_next].
  apply (wp_handle _ _ h); [done|].
  destruct (decide (0 < inbuflen h)%nat) as [Hl|Hl].
  { eapply wp_mono; [by apply (take_char_spec ss io s i o h w)|]. simpl.
    intros c w' (i' & h' & ? & ? & ? & ? & ? & ? & ?). exists i', h'. auto 10. }
  assert (pending_in h = []) as Hpi.
  { apply length_zero_iff_nil. rewrite pending_in_length by done. lia. }
  rewrite Hpi in Hi. simpl in Hi. rewrite Hsk. apply wp_read; [done|].
  intros r bs e' Hot Hout Hor.
  destruct (decide (r < 0)) as [Hr|Hr].
  { apply wp_err. simpl. destruct Hor as [[? ?]|[? ?]]; [done|lia]. }
  destruct Hor as [[? ?]|(Hr1 & Hn & Hin & Hempty)]; [lia|]. apply wp_put. simpl.
  set (h1 := with_in (bs ++ drop (length bs) (inbuf h)) 0 (Z.to_nat r)
               (to_int (inbufcount h + r)) h).
  set (w1 := IoW (<[io := h1]> (ios w)) e').
  assert (stream w1 io s i o h1) as Hst1.
  { split; simpl; [by rewrite lookup_insert_eq| |done| |].
    - destruct Hok as [Hb1 Hp1 Hb2 Hp2].
      split; simpl; rewrite ?length_app, ?length_drop; lia.
    - unfold pending_in. simpl. rewrite drop_0, Hr1, Nat2Z.id, take_app_length. congruence.
    - by rewrite Hout. }
  assert (only io s w w1) as Hon1 by (by apply only_put).
  destruct (decide (r = 0)) as [Hr0|Hr0].
  - apply wp_ret. assert (bs = []) as Hbs by (apply length_zero_iff_nil; lia).
    assert (i = []) as -> by (destruct (Hempty Hbs) as [?|?]; [discriminate|congruence]).
    exists [], h1. split; [done|]. split; [done|]. by auto.
  - apply (wp_handle _ _ h1); [apply Hst1|]. rewrite decide_True by (simpl; lia).
    eapply wp_mono; [apply (take_char_spec ss io s i o h1 w1); [done|simpl; lia]|]. simpl.
    intros c w' (i' & h' & ? & ? & ? & ? & ? & ? & ?). exists i', h'.
    repeat (split; [by eauto with pthr|]). eauto with pthr.
Qed.

Lemma fgetc_spec ss io s i o h w :
  s ∈ ss -> stream w io s i o h ->
  wp ss (io_fgetc io) w (fun c w' => exists i' h', got c i i' /\
    stream w' io s i' o h' /\ (i <> [] -> (0 < inbufpos h')%nat) /\
    outbufpos h' = 0%nat /\ only io s w w').
Proof.
  intros Hs Hst. unfold io_fgetc. apply wp_bind.
  eapply wp_mono; [by apply (fflush_spec ss io s i o h w)|]. simpl.
  intros _ w1 (h1 & Hst1 & Hp & _ & _ & _ & _ & Hon).
  eapply wp_mono; [by apply (fgetc_next_spec ss io s i o h1 w1)|]. simpl.
  intros c w' (i' & h' & ? & ? & ? & E2 & ?). exists i', h'. rewrite E2, Hp.
  repeat (split; [by eauto with pthr|]). eauto with pthr.
Qed.

Lemma ungetc_spec ss c io s i o h w :
  stream w io s i o h -> (0 < inbufpos h)%nat ->
  wp ss (io_ungetc c io) w (fun r w' => r = c /\ exists h',
    stream w' io s (to_byte c :: i) o h' /\ inbuflen h' = S (inbuflen h) /\
    outbufpos h' = outbufpos h /\ only io s w w').
Proof.
  intros [Hh Hok Hsk Hi Ho] Hp. destruct (Hok) as [Hb1 Hp1 Hb2 Hp2].
  unfold io_ungetc. apply (wp_handle _ _ h); [done|]. rewrite decide_True by done.
  apply wp_put, wp_ret. split; [done|].
  eexists. split; [|split; [|split; [|apply only_put, same_refl]]].
  - split; [simpl; by rewrite lookup_insert_eq| |done| |done].
    + split; simpl; rewrite ?length_insert; lia.
    + simpl. rewrite <- Hi. unfold pending_in. simpl.
      destruct (inbufpos h) as [|p]; [lia|]. simpl.
      rewrite (drop_S _ (to_byte c)); [|apply list_lookup_insert_eq; lia].
      simpl. by rewrite drop_insert_lt by lia.
  - done.
  - done.
Qed.

(** ** Lines *)

(** The loop of [io_fgets] on the stream itself: how it ends, what it stored
    and what is left to read. *)
Fixpoint gets (k : nat) (s i : bytes) : bool * bytes * bytes :=
  match k with
  | O => (false, s, i)
  | S k =>
    match i with
    | [] => (true, s, [])
    | b :: t =>
      if decide (b = xff) then (true, s, t)
      else if decide (b = LF) then (false, s ++ [b], t)
      else gets k (s ++ [b]) t
    end
  end.

Lemma char_val_eof b : char_val b = -1 <-> b = xff.
Proof.
  split; [|by intros ->]. intros H. rewrite <- (to_byte_char_val b), H. done.
Qed.

Lemma char_val_inj a b : char_val a = char_val b -> a = b.
Proof. intros H. by rewrite <- (to_byte_char_val a), <- (to_byte_char_val b), H. Qed.

Lemma fgets_loop_spec ss k io s i o h w acc :
  s ∈ ss -> stream w io s i o h ->
  wp ss (fgets_loop k io acc) w (fun x w' => exists h',
    x = (gets k acc i).1 /\ stream w' io s (gets k acc i).2 o h' /\ only io s w w').
Proof.
  intros Hs. revert i h w acc. induction k as [|k IH]; intros i h w acc Hst.
  { apply wp_ret. exists h. auto with pthr. }
  cbn [fgets_loop gets]. apply wp_bind.
  eapply wp_mono; [by apply (fgetc_spec ss io s i o h w)|]. simpl.
  intros c w1 (i' & h1 & Hgot & Hst1 & _ & _ & Hon). unfold got in Hgot. destruct i as [|b t].
  { destruct Hgot as [-> ->]. rewrite decide_True by done. apply wp_ret. eauto 10. }
  destruct Hgot as [-> ->]. destruct (decide (b = xff)) as [->|Hne].
  { rewrite decide_True by done. apply wp_ret. eauto 10. }
  rewrite decide_False by (by rewrite char_val_eof). rewrite to_byte_char_val.
  destruct (decide (b = LF)) as [->|Hlf].
  { rewrite decide_True by done. apply wp_ret. eauto 10. }
  rewrite decide_False by (intros ?%char_val_inj; done).
  eapply wp_mono; [by apply (IH t h1 w1 (acc ++ [b]))|]. simpl.
  intros x w' (h' & ? & ? & ?). exists h'. eauto with pthr.
Qed.

(** What [io_fgets] returns for the stream [i], and what it leaves. *)
Definition gets_result (max_size : Z) (store_eol : bool) (i : bytes) : option bytes * bytes :=
  let '(eof, l, rest) := gets (Z.to_nat (max_size - 1)) [] i in
  (if eof : bool then (if decide (l = []) then None else Some l)
   else Some (if store_eol then l else strip_eol (reverse l)), rest).

Lemma fgets_spec ss max_size store_eol io s i o h w :
  s ∈ ss -> stream w io s i o h ->
  wp ss (io_fgets max_size io store_eol) w (fun r w' => exists h',
    r = (gets_result max_size store_eol i).1 /\
    stream w' io s (gets_result max_size store_eol i).2 o h' /\ only io s w w').
Proof.
  intros Hs Hst. unfold io_fgets. apply wp_bind.
  eapply wp_mono; [by apply (fflush_spec ss io s i o h w)|]. simpl.
  intros _ w1 (h1 & Hst1 & _ & _ & _ & _ & _ & Hon1). apply wp_bind.
  eapply wp_mono; [by apply (fgets_loop_spec ss _ io s i o h1 w1 [])|]. simpl.
  intros [eof l] w2 (h2 & Hx & Hst2 & Hon2). unfold gets_result.
  destruct (gets _ [] i) as [[eof' l'] rest] eqn:Hg. simpl in Hx. injection Hx as -> ->.
  simpl in Hst2. destruct eof'; apply wp_ret; exists h2; eauto with pthr.
Qed.

(** ** Blocks *)

Lemma fread_loop_spec ss fuel n io s o h w acc :
  s ∈ ss -> ios w !! io = Some h -> io_ok h -> sock h = s -> pending_in h = [] ->
  output (net w) s ++ pending_out h = o -> (n <= fuel)%nat ->
  wp ss (fread_loop fuel io n acc) w (fun r w' => exists h',
    r = acc ++ take n (input (net w) s) /\
    stream w' io s (drop n (input (net w) s)) o h' /\ only io s w w').
Proof.
  intros Hs. revert n h w acc. induction fuel as [|k IH];
    intros n h w acc Hh Hok Hsk Hpi Ho Hn.
  { assert (n = 0%nat) as -> by lia. apply wp_ret. exists h.
    rewrite take_0, drop_0, app_nil_r. split; [done|]. split; [|auto with pthr].
    split; try done. by rewrite Hpi. }
  destruct n as [|n'].
  { apply wp_ret. exists h. rewrite take_0, drop_0, app_nil_r. split; [done|].
    split; [|auto with pthr]. split; try done. by rewrite Hpi. }
  set (n := S n') in *. cbn [fread_loop]. fold n.
  apply (wp_handle _ _ h); [done|]. rewrite Hsk. apply wp_read; [done|].
  intros r bs e' Hot Hout Hor.
  destruct (decide (r < 0)) as [Hr|Hr].
  { apply wp_err. simpl. destruct Hor as [[? ?]|[? ?]]; [done|lia]. }
  destruct Hor as [[? ?]|(Hr1 & Hbn & Hin & Hempty)]; [lia|].
  destruct (decide (r = 0)) as [Hr0|Hr0].
  { apply wp_ret. assert (bs = []) as -> by (apply length_zero_iff_nil; lia).
    assert (input (net w) s = []) as Hi by (destruct (Hempty eq_refl); [lia|done]).
    exists h. rewrite Hi, take_nil, drop_nil, app_nil_r. split; [done|].
    rewrite Hi in Hin. simpl in Hin. split; [|split; done].
    split; simpl; try done; [by rewrite Hpi|by rewrite Hout]. }
  apply (wp_handle _ _ h); [done|]. apply wp_put. simpl.
  eapply wp_mono; [apply (IH (n - Z.to_nat r)%nat
    (with_in (inbuf h) (inbufpos h) (inbuflen h) (to_int (inbufcount h + r)) h))|].
  - simpl. by rewrite lookup_insert_eq.
  - destruct Hok. by split.
  - done.
  - done.
  - simpl. by rewrite Hout.
  - lia.
  - simpl. intros x w' (h' & -> & Hst & Hon). exists h'. rewrite Hin in *.
    rewrite Hr1, Nat2Z.id in *.
    rewrite take_app_ge, drop_app_ge by lia. rewrite <- app_assoc.
    split; [done|]. split; [done|]. eapply only_trans; [|exact Hon]. by apply only_put.
Qed.

Lemma fread_spec ss n io s i o h w :
  s ∈ ss -> stream w io s i o h ->
  wp ss (io_fread n io) w (fun r w' => exists h',
    r = take n i /\ stream w' io s (drop n i) o h' /\ only io s w w').
Proof.
  intros Hs Hst. unfold io_fread. apply wp_bind.
  eapply wp_mono; [by apply (fflush_spec ss io s i o h w)|]. simpl.
  intros _ w1 (h1 & Hst1 & _ & _ & _ & _ & _ & Hon1). destruct Hst1 as [Hh1 Hok1 Hs1 Hi1 Ho1].
  apply (wp_handle _ _ h1); [done|]. cbv zeta. apply wp_put.
  set (j := Nat.min n (inbuflen h1)).
  set (h2 := with_in (inbuf h1) (inbufpos h1 + j) (inbuflen h1 - j) (inbufcount h1) h1).
  set (w2 := IoW (<[io := h2]> (ios w1)) (net w1)).
  destruct (Hok1) as [Hb1 Hp1 Hb2 Hp2].
  assert (length (pending_in h1) = inbuflen h1) as Hlen by (by apply pending_in_length).
  assert (take j (drop (inbufpos h1) (inbuf h1)) = take j (pending_in h1)) as Etake.
  { unfold pending_in. rewrite take_take. f_equal. lia. }
  assert (pending_in h2 = drop j (pending_in h1)) as Edrop.
  { unfold pending_in, h2. simpl. by rewrite skipn_firstn_comm, drop_drop. }
  assert (io_ok h2) as Hok2 by (split; simpl; lia).
  destruct (decide (n <= inbuflen h1)%nat) as [Hle|Hgt].
  - assert (j = n) as Ej by lia. rewrite Ej, Nat.sub_diag in *. apply wp_ret. exists h2.
    rewrite <- Hi1. rewrite take_app_le, drop_app_le by lia.
    split; [done|]. split.
    + split; simpl; [by rewrite lookup_insert_eq|done|done|by rewrite Edrop|done].
    + eapply only_trans; [exact Hon1|]. apply only_put, same_refl.
  - assert (j = inbuflen h1) as Ej by lia.
    assert (pending_in h2 = []) as Hnil by (rewrite Edrop, Ej; apply drop_ge; lia).
    eapply wp_mono; [apply (fread_loop_spec ss (n - j) (n - j) io s o h2 w2); try done|].
    + simpl. by rewrite lookup_insert_eq.
    + intros r w' (h' & -> & Hst' & Hon'). exists h'. rewrite Etake, <- Hi1.
      rewrite (take_ge _ j) by lia. rewrite take_app_ge, drop_app_ge by lia.
      rewrite Hlen, <- Ej. split; [done|]. split; [done|].
      eapply only_trans; [exact Hon1|]. eapply only_trans; [|exact Hon'].
      apply only_put, same_refl.
Qed.

(** ** Characters and strings out *)

(** The output goes to the socket at once in these cases. *)
Definition writes_through (mode c : Z) : Prop :=
  mode = IO_MODE_UNBUFFERED \/ mode = IO_MODE_LINE_BUFFERED /\ c = char_val LF.

Lemma put_char_spec ss k c io s i o h w :
  s ∈ ss -> stream w io s i o h -> (0 < outbuffree h)%nat ->
  wp ss (fputc_again k c io) w (fun r w' => r = c /\ exists h',
    stream w' io s i (o ++ [to_byte c]) h' /\ outbufmode h' = outbufmode h /\
    (writes_through (outbufmode h) c -> outbufpos h' = 0%nat) /\ only io s w w').
Proof.
  intros Hs [Hh Hok Hsk Hi Ho] Hf. destruct (Hok) as [Hb1 Hp1 Hb2 Hp2].
  destruct k; cbn [fputc_again]; (apply (wp_handle _ _ h); [done|]);
    rewrite decide_True by done;
    (destruct (lookup_lt_is_Some_2 (outbuf h) (outbufpos h)) as [b0 Hb0]; [lia|]);
    rewrite Hb0; apply wp_put;
    set (h1 := with_out (<[outbufpos h := to_byte c]> (outbuf h)) (S (outbufpos h))
               (pred (outbuffree h)) h);
    set (w1 := IoW (<[io := h1]> (ios w)) (net w));
    (assert (stream w1 io s i (o ++ [to_byte c]) h1) as Hst1;
     [split; simpl; [by rewrite lookup_insert_eq
                    |split; simpl; rewrite ?length_insert; lia|done|done|];
      unfold pending_out; simpl;
      rewrite (take_S_r _ _ (to_byte c)) by (apply list_lookup_insert_eq; lia);
      rewrite take_insert_ge by lia; rewrite app_assoc; by f_equal|]);
    (assert (only io s w w1) as Hon1 by (apply only_put, same_refl));
    apply wp_bind; (destruct (decide _) as [Hm|Hm];
    [eapply wp_mono; [by apply (flush_spec ss io s i (o ++ [to_byte c]) h1 w1)|]; simpl;
     intros _ w' (h' & ? & ? & ? & ? & ? & ? & ? & ?); apply wp_ret; (split; [done|]);
     exists h'; eauto 10 with pthr
    |apply wp_ret, wp_ret; (split; [done|]); exists h1; (split; [done|]); (split; [done|]);
     (split; [intros Hm'; by destruct Hm|done])]).
Qed.

Lemma fputc_spec ss c io s i o h w :
  s ∈ ss -> stream w io s i o h ->
  wp ss (io_fputc c io) w (fun r w' => r = c /\ exists h',
    stream w' io s i (o ++ [to_byte c]) h' /\ outbufmode h' = outbufmode h /\
    (writes_through (outbufmode h) c -> outbufpos h' = 0%nat) /\ only io s w w').
Proof.
  intros Hs Hst. unfold io_fputc.
  destruct (decide (0 < outbuffree h)%nat) as [Hf|Hf]; [by apply put_char_spec|].
  cbn [fputc_again]. apply (wp_handle _ _ h); [apply Hst|]. rewrite decide_False by done.
  apply wp_bind. eapply wp_mono; [by apply (flush_spec ss io s i o h w)|]. simpl.
  intros _ w1 (h1 & Hst1 & _ & Hfree & Hm & _ & _ & _ & Hon).
  eapply wp_mono; [apply (put_char_spec ss 0 c io s i o h1 w1 Hs Hst1)|].
  - rewrite Hfree. unfold IOLIB_OUTPUT_BUFFER_SIZE. lia.
  - simpl. rewrite Hm. intros r w' (-> & h' & ? & ? & ? & ?). split; [done|].
    exists h'. eauto 10 with pthr.
Qed.

Lemma fputs_loop_spec ss str io s i o h w :
  s ∈ ss -> stream w io s i o h ->
  wp ss (fputs_loop str io) w (fun _ w' => exists h',
    stream w' io s i (o ++ str) h' /\ outbufmode h' = outbufmode h /\ only io s w w').
Proof.
  intros Hs. revert o h w. induction str as [|b str IH]; intros o h w Hst; cbn [fputs_loop].
  { apply wp_ret. exists h. rewrite app_nil_r. auto with pthr. }
  apply wp_bind. eapply wp_mono; [by apply (fputc_spec ss (char_val b) io s i o h w)|]. simpl.
  intros _ w1 (_ & h1 & Hst1 & Hm & _ & Hon). rewrite to_byte_char_val in Hst1.
  eapply wp_mono; [by apply (IH (o ++ [b]) h1 w1)|]. simpl.
  intros _ w' (h' & Hst' & Hm' & Hon'). exists h'. rewrite <- app_assoc in Hst'.
  split; [done|]. split; [congruence|eauto with pthr].
Qed.

Lemma fputs_spec ss str io s i o h w :
  s ∈ ss -> stream w io s i o h ->
  wp ss (io_fputs str io) w (fun r w' => r = 1 /\ exists h',
    stream w' io s i (o ++ str) h' /\ outbufmode h' = outbufmode h /\ only io s w w').
Proof.
  intros Hs Hst. unfold io_fputs. apply wp_bind.
  eapply wp_mono; [by apply (fputs_loop_spec ss str io s i o h w)|]. simpl.
  intros _ w' H. by apply wp_ret.
Qed.

(** What [io_fprintf] prints. *)
Definition printed (text : bytes) : bytes :=
  if decide (length text = 4096%nat) then take 4095 text else text.

Lemma fprintf_spec ss text io s i o h w :
  s ∈ ss -> stream w io s i o h ->
  wp ss (io_fprintf io text) w (fun r w' => r = Z.of_nat (length text) /\ exists h',
    stream w' io s i (o ++ printed text) h' /\
    only io s w w').
Proof.
  intros Hs Hst. unfold io_fprintf. apply wp_bind.
  eapply wp_mono; [by apply (fputs_spec ss _ io s i o h w)|]. simpl.
  intros _ w' (_ & h' & Hst' & _ & Hon). apply wp_ret. split; [done|]. exists h'.
  split; [|done]. unfold printed. destruct (decide (length text = 4096%nat)) as [Hl|Hl].
  - by rewrite decide_False in Hst' by lia.
  - destruct (decide (Z.of_nat (length text) > 4096)); [done|].
    by rewrite take_ge in Hst' by lia.
Qed.

Lemma fwrite_spec ss data io s i o h w :
  s ∈ ss -> stream w io s i o h ->
  wp ss (io_fwrite data io) w (fun n w' => n = length data /\ exists h',
    stream w' io s i (o ++ data) h' /\ outbufpos h' = 0%nat /\ only io s w w').
Proof.
  intros Hs Hst. unfold io_fwrite. apply wp_bind.
  eapply wp_mono; [by apply (fflush_spec ss io s i o h w)|]. simpl.
  intros _ w1 (h1 & [Hh Hok Hsk Hi Ho] & Hp & _ & _ & _ & _ & Hon). apply wp_bind.
  assert (pending_out h1 = []) as Hpo by (unfold pending_out; by rewrite Hp).
  rewrite Hpo, app_nil_r in Ho.
  eapply wp_mono; [by apply (write_loop_spec ss (length data) io s i h1 w1 data)|]. simpl.
  intros _ w' (h' & Hst' & _ & _ & Ep & _ & _ & _ & _ & Hon'). apply wp_ret. split; [done|].
  exists h'. rewrite Hpo, app_nil_r, Ho in Hst'. split; [done|]. split; [congruence|].
  eauto with pthr.
Qed.

(** ** Copying *)

Lemma stream_other w w' io io' s s' i o h :
  stream w io' s' i o h -> only io s w w' -> io' <> io -> s' <> s -> stream w' io' s' i o h.
Proof.
  intros [Hh Hok Hsk Hi Ho] [H1 H2] Hio Hs. destruct (H2 s' Hs) as [E1 E2].
  split; try done; [by rewrite H1|by rewrite E1|by rewrite E2].
Qed.

(** The bytes that are to be copied. *)
Definition to_copy (len : Z) (i : bytes) : bytes :=
  if decide (len = -1) then i else take (Z.to_nat len) i.

Lemma refill_spec ss io s i o h w :
  s ∈ ss -> stream w io s i o h -> xff ∉ i ->
  wp ss (if decide (inbuflen h = 0%nat) then
           c ← io_fgetc io;
           if decide (c = -1) then mret true
           else io_ungetc c io ≫= fun _ => mret false
         else mret false) w (fun eof w' => exists h', stream w' io s i o h' /\
    (eof = true -> i = []) /\ (eof = false -> (0 < inbuflen h')%nat) /\ only io s w w').
Proof.
  intros Hs Hst Hff. destruct (decide (inbuflen h = 0%nat)) as [H0|H0].
  - apply wp_bind. eapply wp_mono; [by apply (fgetc_spec ss io s i o h w)|]. simpl.
    intros c w1 (i1 & h1 & Hgot & Hst1 & Hpos & _ & Hon). destruct i as [|b t].
    { destruct Hgot as [-> ->]. rewrite decide_True by done. apply wp_ret.
      exists h1. repeat (split; [done|]). done. }
    destruct Hgot as [-> ->]. rewrite decide_False.
    2:{ rewrite char_val_eof. intros ->. apply Hff. by left. }
    apply wp_bind. eapply wp_mono; [by apply (ungetc_spec ss (char_val b) io s t o h1 w1); auto|].
    simpl. intros _ w2 (_ & h2 & Hst2 & El & _ & Hon2). rewrite to_byte_char_val in Hst2.
    apply wp_ret. exists h2. split; [done|]. split; [done|]. split; [lia|eauto with pthr].
  - apply wp_ret. exists h. split; [done|]. split; [done|]. split; [lia|auto with pthr].
Qed.

(** How many bytes one round of [io_copy] takes. *)
Definition round_size (len : Z) (h : io_handle) : nat :=
  if decide (len = -1) then inbuflen h
  else if decide (Z.of_nat (inbuflen h) <= len) then inbuflen h
  else Z.to_nat len.

Definition len_left (len : Z) (n : nat) : Z := if decide (0 < len) then len - Z.of_nat n else len.

Lemma round_size_ok len h :
  len <> 0 -> -1 <= len -> (0 < inbuflen h)%nat ->
  (0 < round_size len h <= inbuflen h)%nat /\ -1 <= len_left len (round_size len h) /\
  (len <> -1 -> len_left len (round_size len h) = len - Z.of_nat (round_size len h) /\
     0 <= len_left len (round_size len h)) /\
  (len = -1 -> len_left len (round_size len h) = -1).
Proof. intros. unfold round_size, len_left. repeat destruct (decide _); lia. Qed.

Lemma to_copy_split len chunk i :
  -1 <= len -> (len <> -1 -> 0 <= len - Z.of_nat (length chunk)) ->
  to_copy len (chunk ++ i) = chunk ++ to_copy (if decide (len = -1) then -1
    else len - Z.of_nat (length chunk)) i.
Proof.
  intros Hl Hlen. unfold to_copy. destruct (decide (len = -1)) as [->|Hm1]; [done|].
  specialize (Hlen Hm1). rewrite (decide_False (P := len - _ = -1)) by lia.
  rewrite take_app_ge by lia. do 2 f_equal. lia.
Qed.

(** One round: a chunk is taken from the input buffer. *)
Lemma take_chunk (w : iow) io s i o h n :
  stream w io s i o h -> (n <= inbuflen h)%nat ->
  let chunk := take n (drop (inbufpos h) (inbuf h)) in
  let h' := with_in (inbuf h) (inbufpos h + n) (inbuflen h - n) (inbufcount h) h in
  i = chunk ++ drop n i /\ length chunk = n /\
  stream (IoW (<[io := h']> (ios w)) (net w)) io s (drop n i) o h'.
Proof.
  intros [Hh Hok Hsk Hi Ho] Hn chunk h'. pose proof (pending_in_length h Hok) as Hpl.
  assert (chunk = take n (pending_in h)) as Ec.
  { unfold chunk, pending_in. rewrite take_take. f_equal. lia. }
  split; [|split].
  - rewrite Ec, <- Hi, drop_app_le by lia. by rewrite app_assoc, take_drop.
  - rewrite Ec, length_take. lia.
  - destruct (Hok) as [Hb1 Hp1 Hb2 Hp2].
    split; simpl; [by rewrite lookup_insert_eq|split; simpl; lia|done| |done].
    rewrite <- Hi. rewrite drop_app_le by lia. f_equal. unfold pending_in. simpl.
    by rewrite skipn_firstn_comm, drop_drop.
Qed.

Lemma copy_loop_spec ss fuel io1 io2 s1 s2 len acc i1 o1 h1 i2 o2 h2 w :
  s1 ∈ ss -> s2 ∈ ss -> io1 <> io2 -> s1 <> s2 ->
  stream w io1 s1 i1 o1 h1 -> stream w io2 s2 i2 o2 h2 -> xff ∉ i1 ->
  -1 <= len -> (length i1 < fuel)%nat -> 0 <= acc -> acc + Z.of_nat (length i1) < 2 ^ 31 ->
  wp ss (copy_loop fuel io1 io2 len acc) w (fun r w' => exists h1' h2',
    r = acc + Z.of_nat (length (to_copy len i1)) /\
    stream w' io1 s1 (drop (length (to_copy len i1)) i1) o1 h1' /\
    stream w' io2 s2 i2 (o2 ++ to_copy len i1) h2').
Proof.
  intros Hs1 Hs2 Hio Hss. revert len acc i1 h1 o2 h2 w.
  induction fuel as [|k IH]; intros len acc i1 h1 o2 h2 w Hst1 Hst2 Hff Hlen Hfuel Hacc Hov; [lia|].
  cbn [copy_loop]. destruct (decide (len = 0)) as [->|Hl0].
  { apply wp_ret. unfold to_copy. rewrite decide_False by lia. simpl. rewrite take_0, drop_0.
    exists h1, h2. rewrite app_nil_r. split; [simpl; lia|done]. }
  apply (wp_handle _ _ h1); [apply Hst1|]. apply wp_bind.
  eapply wp_mono; [by apply (refill_spec ss io1 s1 i1 o1 h1 w)|]. simpl.
  intros eof w1 (h1a & Hst1a & Heof & Hmore & Hon1).
  pose proof (stream_other _ _ _ _ _ _ _ _ _ Hst2 Hon1 (not_eq_sym Hio) (not_eq_sym Hss)) as Hst2a.
  destruct eof.
  { apply wp_ret. rewrite (Heof eq_refl) in *. unfold to_copy.
    rewrite take_nil. exists h1a, h2. destruct (decide (len = -1)); simpl;
      rewrite app_nil_r; (split; [lia|done]). }
  specialize (Hmore eq_refl). apply (wp_handle _ _ h1a); [apply Hst1a|]. cbv zeta.
  fold (round_size len h1a). set (n := round_size len h1a).
  destruct (round_size_ok len h1a Hl0 Hlen Hmore) as (Hn & Hll & Hpos & Hneg). fold n in Hn, Hll, Hpos, Hneg.
  apply wp_bind. eapply wp_mono; [by eapply (fwrite_spec ss _ io2 s2 i2 o2 h2 w1)|]. simpl.
  intros _ w2 (_ & h2b & Hst2b & _ & Hon2).
  pose proof (stream_other _ _ _ _ _ _ _ _ _ Hst1a Hon2 Hio Hss) as Hst1b.
  destruct (take_chunk w2 io1 s1 i1 o1 h1a n Hst1b) as (Ei1 & Hcl & Hst1c); [lia|].
  set (chunk := take n (drop (inbufpos h1a) (inbuf h1a))) in *.
  apply (wp_handle _ _ h1a); [apply Hst1b|]. apply wp_put.
  assert (length i1 = n + length (drop n i1))%nat as Hli by (rewrite Ei1 at 1; rewrite length_app; lia).
  assert (to_copy len i1 = chunk ++ to_copy (len_left len n) (drop n i1)) as Etc.
  { rewrite Ei1 at 1. rewrite to_copy_split by (try lia; rewrite Hcl; lia). f_equal.
    rewrite Hcl. destruct (decide (len = -1)); f_equal; lia. }
  fold (len_left len n). rewrite wraps_small by lia.
  eapply wp_mono; [eapply (IH (len_left len n) (acc + Z.of_nat n) (drop n i1) _ (o2 ++ chunk) h2b _
    Hst1c)|]; try lia.
  - eapply stream_other; [exact Hst2b|apply (only_put io1 s1), same_refl|done|done].
  - intros Hin. apply Hff. rewrite Ei1. apply elem_of_app. by right.
  - simpl. intros r w' (h1' & h2' & -> & Hf1 & Hf2). exists h1', h2'. rewrite Etc, length_app, Hcl.
    split; [lia|]. rewrite <- drop_drop, app_assoc. done.
Qed.

End iospec.
