(* ===== verification/IolibStreams.v ===== *)
(** * A handle is a pair of streams

    What the clients of [src/pthr_iolib.c] rely on: whatever the sizes of the
    reads and writes the kernel grants, a handle behaves like the sequence of
    the bytes still to be read and the sequence of the bytes written. *)

From stdpp Require Import base list gmap.
From Stdlib Require Import Strings.Byte.
From S2P Require Import Prelude C2lib ReactorTimers Prog Cstring Iolib IolibSpec.

(** ** Calls on one handle *)

(** [Peek] is a character read and put back. *)
Inductive io_call :=
  | Fgetc
  | Peek
  | Fgets (max_size : Z) (store_eol : bool)
  | Fread (n : nat)
  | Fputc (c : Z)
  | Fputs (str : bytes)
  | Fprintf (text : bytes)
  | Fwrite (data : bytes)
  | Fflush
  | Setbufmode (mode : Z).

Inductive io_reply :=
  | RInt (r : Z)
  | RString (r : option bytes)
  | RBlock (r : bytes).

(** The calls on the streams themselves: what is still to be read, and what was
    written. *)
Definition stream_call (c : io_call) (io : bytes * bytes) : io_reply * (bytes * bytes) :=
  let '(i, o) := io in
  match c with
  | Fgetc => match i with
             | [] => (RInt (-1), (i, o))
             | b :: t => (RInt (char_val b), (t, o))
             end
  | Peek => match i with
            | [] => (RInt (-1), (i, o))
            | b :: t => (RInt (char_val b), (if decide (b = xff) then t else i, o))
            end
  | Fgets max_size store_eol =>
    (RString (gets_result max_size store_eol i).1, ((gets_result max_size store_eol i).2, o))
  | Fread n => (RBlock (take n i), (drop n i, o))
  | Fputc c => (RInt c, (i, o ++ [to_byte c]))
  | Fputs str => (RInt 1, (i, o ++ str))
  | Fprintf text => (RInt (Z.of_nat (length text)), (i, o ++ printed text))
  | Fwrite data => (RInt (Z.of_nat (length data)), (i, o ++ data))
  | Fflush => (RInt 0, (i, o))
  | Setbufmode _ => (RInt 0, (i, o))
  end.

Fixpoint stream_calls (cs : list io_call) (io : bytes * bytes)
  : list io_reply * (bytes * bytes) :=
  match cs with
  | [] => ([], io)
  | c :: cs => ((stream_call c io).1 :: (stream_calls cs (stream_call c io).2).1,
                (stream_calls cs (stream_call c io).2).2)
  end.

Section streams.
Context {E : Type} `{SK : Sockets E}.
Abbreviation iow := (iow (E := E)).

Definition do_call (io : loc) (c : io_call) : prog iow io_reply :=
  match c with
  | Fgetc => c ← io_fgetc io; mret (RInt c)
  | Peek =>
    c ← io_fgetc io;
    if decide (c = -1) then mret (RInt c)
    else r ← io_ungetc c io; mret (RInt r)
  | Fgets max_size store_eol => r ← io_fgets max_size io store_eol; mret (RString r)
  | Fread n => r ← io_fread n io; mret (RBlock r)
  | Fputc c => r ← io_fputc c io; mret (RInt r)
  | Fputs str => r ← io_fputs str io; mret (RInt r)
  | Fprintf text => r ← io_fprintf io text; mret (RInt r)
  | Fwrite data => r ← io_fwrite data io; mret (RInt (Z.of_nat r))
  | Fflush => r ← io_fflush io; mret (RInt r)
  | Setbufmode mode => io_setbufmode io mode ≫= fun _ => mret (RInt 0)
  end.

Fixpoint do_calls (io : loc) (cs : list io_call) : prog iow (list io_reply) :=
  match cs with
  | [] => mret []
  | c :: cs => r ← do_call io c; rs ← do_calls io cs; mret (r :: rs)
  end.

(** [wp] of a call whose result is wrapped. *)
Lemma wp_wrap {A B} ss (m : prog iow A) (f : A -> B) w (Q : A -> iow -> Prop)
    (Q' : B -> iow -> Prop) :
  wp ss m w Q -> (forall a w', Q a w' -> Q' (f a) w') ->
  wp ss (m ≫= fun a => mret (f a)) w Q'.
Proof.
  intros Hm HQ. apply wp_bind. eapply wp_mono; [exact Hm|]. intros a w' H.
  apply wp_ret. auto.
Qed.

(** What is known of the value returned. *)
Definition returns {A} (m : prog iow A) (w : iow) (P : A -> Prop) : Prop :=
  match m w with Ret a _ => P a | _ => True end.

Lemma wp_with {A} ss (m : prog iow A) w (P : A -> Prop) (Q : A -> iow -> Prop) :
  returns m w P -> wp ss m w Q -> wp ss m w (fun a w' => P a /\ Q a w').
Proof. unfold returns, wp. destruct (m w); naive_solver. Qed.

Lemma fflush_zero io (w : iow) : returns (io_fflush io) w (fun r => r = 0).
Proof.
  unfold returns, io_fflush, mbind, prog_bind. destruct (handle io w) as [h w1| |w1| |]; [|done..].
  destruct (decide (0 < outbufpos h)%nat); [|done]. by destruct (flush io false w1).
Qed.

Lemma setbufmode_spec ss mode io s i o h w :
  stream w io s i o h ->
  wp ss (io_setbufmode io mode) w (fun _ w' => exists h', stream w' io s i o h' /\ only io s w w').
Proof.
  intros [Hh [] Hsk Hi Ho]. apply (wp_handle _ _ h); [done|]. apply wp_put_last.
  exists (with_mode mode h). split; [|by apply only_put].
  split; simpl; try done. by rewrite lookup_insert_eq.
Qed.

Lemma peek_spec ss io s i o h w :
  s ∈ ss -> stream w io s i o h ->
  wp ss (do_call io Peek) w (fun r w' => exists h',
    r = (stream_call Peek (i, o)).1 /\
    stream w' io s (stream_call Peek (i, o)).2.1 o h' /\ only io s w w').
Proof.
  intros Hs Hst. apply wp_bind. eapply wp_mono; [by apply (fgetc_spec ss io s i o h w)|]. simpl.
  intros c w1 (i1 & h1 & Hgot & Hst1 & Hpos & _ & Hon). destruct i as [|b t].
  { destruct Hgot as [-> ->]. rewrite decide_True by done. apply wp_ret. eauto. }
  destruct Hgot as [-> ->]. destruct (decide (b = xff)) as [->|Hne].
  { rewrite decide_True by done. apply wp_ret. eauto. }
  rewrite decide_False by (by rewrite char_val_eof).
  eapply wp_wrap; [apply (ungetc_spec ss (char_val b) io s t o h1 w1); auto|].
  intros r w2 (-> & h2 & Hst2 & _ & _ & Hon2). rewrite to_byte_char_val in Hst2.
  exists h2. split; [done|]. split; [done|]. by eapply only_trans.
Qed.

Lemma call_spec ss c io s i o h w :
  s ∈ ss -> stream w io s i o h ->
  wp ss (do_call io c) w (fun r w' => exists h', r = (stream_call c (i, o)).1 /\
    stream w' io s (stream_call c (i, o)).2.1 (stream_call c (i, o)).2.2 h' /\ only io s w w').
Proof.
  intros Hs Hst. destruct c as [| |m e|n|c|str|text|data| |mode]; cbn [do_call stream_call fst snd].
  - eapply wp_wrap; [by apply (fgetc_spec ss io s i o h w)|].
    intros c w' (i' & h' & Hgot & Hst' & _ & _ & Hon). exists h'.
    destruct i; destruct Hgot as [-> ->]; done.
  - eapply wp_mono; [by apply (peek_spec ss io s i o h w)|]. intros r w' (h' & Hr & Hst' & Hon).
    exists h'. simpl in *. destruct i; done.
  - eapply wp_wrap; [by apply (fgets_spec ss m e io s i o h w)|]. naive_solver.
  - eapply wp_wrap; [by apply (fread_spec ss n io s i o h w)|]. naive_solver.
  - eapply wp_wrap; [by apply (fputc_spec ss c io s i o h w)|]. naive_solver.
  - eapply wp_wrap; [by apply (fputs_spec ss str io s i o h w)|]. naive_solver.
  - eapply wp_wrap; [by apply (fprintf_spec ss text io s i o h w)|]. naive_solver.
  - eapply wp_wrap; [by apply (fwrite_spec ss data io s i o h w)|]. naive_solver.
  - eapply wp_wrap.
    + eapply wp_with; [apply fflush_zero|by apply (fflush_spec ss io s i o h w)].
    + naive_solver.
  - eapply wp_wrap; [by apply (setbufmode_spec ss mode io s i o h w)|]. naive_solver.
Qed.

Lemma calls_spec ss cs io s i o h w :
  s ∈ ss -> stream w io s i o h ->
  wp ss (do_calls io cs) w (fun rs w' => exists h', rs = (stream_calls cs (i, o)).1 /\
    stream w' io s (stream_calls cs (i, o)).2.1 (stream_calls cs (i, o)).2.2 h' /\
    only io s w w').
Proof.
  intros Hs. revert i o h w. induction cs as [|c cs IH]; intros i o h w Hst.
  { apply wp_ret. exists h. split; [done|]. split; [done|]. apply only_refl. }
  cbn [do_calls stream_calls]. apply wp_bind.
  eapply wp_mono; [by apply (call_spec ss c io s i o h w)|].
  intros r w1 (h1 & -> & Hst1 & Hon1). destruct (stream_call c (i, o)) as [r [i1 o1]].
  simpl in *. eapply wp_wrap; [by apply (IH i1 o1 h1 w1)|].
  intros rs w2 (h2 & -> & Hst2 & Hon2). exists h2. split; [done|]. split; [done|].
  by eapply only_trans.
Qed.

Lemma fdopen_spec junk (w : iow) io s :
  match io_fdopen junk io s w with
  | Ret _ w' => exists h, stream w' io s (input (net w) s) (output (net w) s) h /\ only io s w w'
  | _ => False
  end.
Proof.
  unfold io_fdopen, put. eexists. split; [|by apply only_put].
  split; [apply lookup_insert_eq| |done|done|apply app_nil_r].
  split; cbn [inbuf outbuf inbufpos inbuflen outbufpos outbuffree]; [|lia| |lia];
    by rewrite length_fmap, length_seq.
Qed.

(** ** Output that has left the buffers *)

Lemma fputs_loop_app a b io (w : iow) :
  fputs_loop (a ++ b) io w = (fputs_loop a io ≫= fun _ => fputs_loop b io) w.
Proof.
  revert w. induction a as [|c a IH]; intros w; [done|]. cbn [app fputs_loop].
  rewrite bind_assoc. unfold mbind, prog_bind in *.
  by destruct (io_fputc (char_val c) io w).
Qed.

Lemma fputs_line_spec ss str io s i o h w :
  s ∈ ss -> stream w io s i o h -> outbufmode h = IO_MODE_LINE_BUFFERED ->
  wp ss (io_fputs (str ++ [LF]) io) w (fun _ w' => exists h',
    stream w' io s i (o ++ str ++ [LF]) h' /\ outbufpos h' = 0%nat /\ only io s w w').
Proof.
  intros Hs Hst Hm. unfold io_fputs. apply wp_bind. unfold wp at 1. rewrite fputs_loop_app.
  change (wp ss (fputs_loop str io ≫= fun _ => fputs_loop [LF] io) w (fun _ w' =>
    wp ss (mret 1) w' (fun _ w' => exists h', stream w' io s i (o ++ str ++ [LF]) h' /\
      outbufpos h' = 0%nat /\ only io s w w'))).
  apply wp_bind. eapply wp_mono; [by apply (fputs_loop_spec ss str io s i o h w)|]. simpl.
  intros _ w1 (h1 & Hst1 & Hm1 & Hon1). apply wp_bind.
  eapply wp_mono; [by apply (fputc_spec ss (char_val LF) io s i (o ++ str) h1 w1)|]. simpl.
  intros _ w2 (_ & h2 & Hst2 & Hm2 & Hw & Hon2). apply wp_ret, wp_ret. exists h2.
  rewrite to_byte_char_val, <- app_assoc in Hst2. split; [done|]. split; [|by eapply only_trans].
  apply Hw. right. split; [congruence|done].
Qed.

Lemma stream_flushed (w : iow) io s i o h :
  stream w io s i o h -> outbufpos h = 0%nat -> output (net w) s = o.
Proof. intros [_ _ _ _ <-] Hp. unfold pending_out. by rewrite Hp, app_nil_r. Qed.
End streams.

(** ** Sockets with a script

    A socket that delivers and accepts at most [piece] + 1 bytes at a time; the
    sockets in [broken] fail. *)
Record script := Script {
  sent : list (Z * bytes);
  received : list (Z * bytes);
  piece : nat;
  broken : list Z
}.

Fixpoint bytes_of (l : list (Z * bytes)) (s : Z) : bytes :=
  match l with
  | [] => []
  | (s', bs) :: l => if decide (s = s') then bs else bytes_of l s
  end.

Definition script_read (s : Z) (n : nat) : prog script (Z * bytes) := fun e =>
  if decide (s ∈ broken e) then PthExit e
  else
    let bs := take (Nat.min n (S (piece e))) (bytes_of (sent e) s) in
    Ret (Z.of_nat (length bs), bs)
      (Script ((s, drop (length bs) (bytes_of (sent e) s)) :: sent e) (received e) (piece e)
         (broken e)).

Definition script_write (s : Z) (bs : bytes) : prog script Z := fun e =>
  if decide (s ∈ broken e) then PthExit e
  else
    let r := take (S (piece e)) bs in
    Ret (Z.of_nat (length r))
      (Script (sent e) ((s, bytes_of (received e) s ++ r) :: received e) (piece e) (broken e)).

#[export] Program Instance script_sockets : Sockets script := {
  input := fun e => bytes_of (sent e);
  output := fun e => bytes_of (received e);
  healthy := fun e s => s ∉ broken e;
  pth_read := script_read;
  pth_write := script_write;
  sys_close := fun _ => mret 0
}.
Next Obligation.
  intros s n e. unfold script_read. destruct (decide (s ∈ broken e)) as [Hb|Hb]; [naive_solver|].
  simpl. set (bs := bytes_of (sent e) s). split_and!; try done.
  - right. rewrite decide_True by done. rewrite length_take.
    split; [done|]. split; [lia|]. split.
    { rewrite <- (take_drop (Nat.min n (S (piece e))) bs) at 1. f_equal.
      destruct (decide (Nat.min n (S (piece e)) <= length bs)%nat).
      + f_equal. lia.
      + rewrite !drop_ge by lia. done. }
    intros Hl. apply (f_equal length) in Hl. rewrite length_take in Hl.
    destruct n; [by left|right]. apply length_zero_iff_nil. cbn [length] in Hl. clearbody bs. lia.
  - intros s' Hs. by rewrite decide_False.
Qed.
Next Obligation.
  intros s bs e Hbs. unfold script_write. destruct (decide (s ∈ broken e)) as [Hb|Hb]; [naive_solver|].
  destruct bs as [|b bs]; [done|]. split_and!; try done.
  - right. cbn [output bytes_of received fst snd]. rewrite decide_True by done.
    rewrite Nat2Z.id. rewrite length_take. split; [simpl; lia|]. f_equal.
    destruct (decide (S (piece e) <= length (b :: bs))%nat).
    + f_equal. lia.
    + rewrite !take_ge by lia. done.
  - intros s' Hs. simpl. by rewrite decide_False.
Qed.

(** ** Lines on a stream *)

Lemma gets_line k acc l rest :
  LF ∉ l -> xff ∉ l -> (length l < k)%nat ->
  gets k acc (l ++ LF :: rest) = (false, acc ++ l ++ [LF], rest).
Proof.
  revert k acc. induction l as [|b l IH]; intros k acc Hlf Hff Hk;
    (destruct k as [|k]; [simpl in Hk; lia|]); cbn [app gets].
  { by rewrite decide_False, decide_True. }
  rewrite not_elem_of_cons in Hlf, Hff. destruct Hlf as [Hlf Hlf'], Hff as [Hff Hff'].
  rewrite !decide_False by done. rewrite IH by (simpl in *; auto with lia).
  by rewrite <- app_assoc.
Qed.

Lemma gets_bounded k acc i eof l rest :
  gets k acc i = (eof, l, rest) ->
  exists d e, l = acc ++ d /\ i = d ++ e ++ rest /\ (length d <= k)%nat /\
    (if eof then e = [xff] \/ e = [] /\ rest = [] else e = []).
Proof.
  revert acc i. induction k as [|k IH]; intros acc i; cbn [gets].
  { intros [= <- <- <-]. exists [], []. by rewrite app_nil_r. }
  destruct i as [|b t].
  { intros [= <- <- <-]. exists [], []. rewrite app_nil_r. simpl. repeat (split; [done || lia|]); auto. }
  destruct (decide (b = xff)) as [->|Hff].
  { intros [= <- <- <-]. exists [], [xff]. rewrite app_nil_r. simpl. repeat (split; [done || lia|]); auto. }
  destruct (decide (b = LF)) as [->|Hlf].
  { intros [= <- <- <-]. exists [LF], []. simpl. repeat (split; [done || lia|]); auto. }
  intros (d & e & -> & -> & Hd & He)%IH. exists (b :: d), e. rewrite <- app_assoc.
  simpl. repeat (split; [done || lia|]); auto.
Qed.

(** A text that does not end in CR or LF is left as it is. *)
Definition ends_in_eol (l : bytes) : Prop := last l = Some CR \/ last l = Some LF.

Lemma strip_eol_plain l : ~ ends_in_eol l -> strip_eol (reverse l) = l.
Proof.
  intros H. destruct l as [|b l _] using rev_ind; [done|]. rewrite reverse_snoc. simpl.
  unfold ends_in_eol in H. rewrite last_snoc in H. rewrite decide_False.
  - by rewrite reverse_cons, reverse_involutive.
  - naive_solver.
Qed.

Lemma strip_eol_snoc l b : b = LF \/ b = CR -> strip_eol (reverse (l ++ [b])) = strip_eol (reverse l).
Proof. intros H. rewrite reverse_snoc. simpl. by rewrite decide_True. Qed.

Lemma gets_result_line max_size l eol rest :
  LF ∉ l -> xff ∉ l -> ~ ends_in_eol l -> eol = [LF] \/ eol = [CR; LF] ->
  Z.of_nat (length l + length eol) < max_size ->
  gets_result max_size false (l ++ eol ++ rest) = (Some l, rest).
Proof.
  intros Hlf Hff Hend [-> | ->] Hmax; unfold gets_result; simpl in Hmax; cbn [app].
  - rewrite gets_line by (done || lia). cbn [app].
    by rewrite strip_eol_snoc, strip_eol_plain by auto.
  - change (l ++ CR :: LF :: rest) with (l ++ [CR] ++ LF :: rest). rewrite app_assoc.
    rewrite gets_line.
    + cbn [app]. rewrite !strip_eol_snoc by auto. by rewrite strip_eol_plain.
    + rewrite elem_of_app, list_elem_of_singleton. naive_solver.
    + rewrite elem_of_app, list_elem_of_singleton. naive_solver.
    + rewrite length_app. simpl. lia.
Qed.

(** How the loop ends, and what it stored: a line with nothing after its end. *)
Lemma gets_ends k acc i eof l rest :
  gets k acc i = (eof, l, rest) ->
  exists d, l = acc ++ d /\ (length d <= k)%nat /\ (forall d1 d2, d = d1 ++ LF :: d2 -> d2 = []) /\
    if eof : bool then i = d /\ rest = [] \/ i = d ++ xff :: rest
    else i = d ++ rest /\ (last d = Some LF \/ length d = k).
Proof.
  assert (forall d1 d2, @nil byte = d1 ++ LF :: d2 -> d2 = []) as Hnil by (by intros [] ?).
  revert acc i. induction k as [|k IH]; intros acc i; cbn [gets].
  { intros [= <- <- <-]. exists []. split; [by rewrite app_nil_r|]. split; [done|]. split; [exact Hnil|]. auto. }
  destruct i as [|b t].
  { intros [= <- <- <-]. exists []. split; [by rewrite app_nil_r|]. split; [simpl; lia|]. split; [exact Hnil|]. auto. }
  destruct (decide (b = xff)) as [->|Hff].
  { intros [= <- <- <-]. exists []. split; [by rewrite app_nil_r|]. split; [simpl; lia|]. split; [exact Hnil|]. auto. }
  destruct (decide (b = LF)) as [->|Hlf].
  { intros [= <- <- <-]. exists [LF]. split; [done|]. split; [simpl; lia|]. split; [|by auto].
    intros [|x [|y d1]] d2 E; simplify_eq/=; done. }
  intros (d & -> & Hd & Hl & He)%IH. exists (b :: d). rewrite <- app_assoc. split; [done|].
  split; [simpl; lia|]. split.
  { intros [|x d1] d2 E; simplify_eq/=. by eapply Hl. }
  destruct eof; [destruct He as [[-> ->]| ->]; auto|]. destruct He as [-> [Hlast|Hlen]].
  - split; [done|]. left. rewrite last_cons, Hlast. done.
  - split; [done|]. right. simpl. lia.
Qed.

(** The characters taken off are ends of lines, and all of them are. *)
Lemma strip_eol_spec l :
  exists eol, l = strip_eol (reverse l) ++ eol /\ Forall (fun b => b = LF \/ b = CR) eol /\
    ~ ends_in_eol (strip_eol (reverse l)).
Proof.
  induction l as [|b l IH] using rev_ind.
  - exists []. split; [done|]. split; [done|]. by intros [?|?].
  - rewrite reverse_snoc. cbn [strip_eol]. destruct (decide (b = LF \/ b = CR)) as [Hb|Hb].
    + destruct IH as (eol & E & Hf & He). exists (eol ++ [b]). split; [by rewrite app_assoc, <- E|].
      split; [|done]. apply Forall_app. split; [done|]. by constructor.
    + exists []. rewrite <- reverse_snoc, reverse_involutive, app_nil_r. split; [done|]. split; [done|].
      unfold ends_in_eol. rewrite last_snoc. intros [[= ->]|[= ->]]; apply Hb; auto.
Qed.

(** Text that can be part of a line. *)
Definition clean (s : bytes) : Prop := (LF ∉ s) /\ (xff ∉ s) /\ (NUL ∉ s).

Lemma clean_app a b : clean a -> clean b -> clean (a ++ b).
Proof.
  unfold clean. intros (? & ? & ?) (? & ? & ?). rewrite !not_elem_of_app. auto.
Qed.

Lemma clean_dec a : bool_decide ((LF ∉ a) /\ (xff ∉ a) /\ (NUL ∉ a)) = true -> clean a.
Proof. by intros H%bool_decide_eq_true. Qed.

Lemma not_eol l b : isspace b = false -> ~ ends_in_eol (l ++ [b]).
Proof. intros Hb. unfold ends_in_eol. rewrite last_snoc. by intros [[= ->]|[= ->]]. Qed.

(** ** What clients rely on *)

Section clients.
Context {E : Type} `{SK : Sockets E}.
Abbreviation iow := (iow (E := E)).

(** C2: a handle opened on a socket is a pair of streams: whatever calls are
    made on it, and however the kernel splits the reads and writes, the replies
    are those of the same calls on the sequence of bytes to be read and the
    sequence of bytes written, no other handle or socket is touched, and the
    calls return unless the socket fails or the thread is alarmed. *)
Theorem io_calls_refine_streams junk (w : iow) (io : loc) (s : Z) (cs : list io_call) :
  let spec := stream_calls cs (input (net w) s, output (net w) s) in
  wp [s] (io_fdopen junk io s ≫= fun _ => do_calls io cs) w (fun rs w' =>
    rs = spec.1 /\ only io s w w' /\ exists h, stream w' io s spec.2.1 spec.2.2 h).
Proof.
  cbv zeta. apply wp_bind. pose proof (fdopen_spec junk w io s) as Ho.
  unfold io_fdopen, put in *. destruct Ho as (h & Hst & Hon). split; [|done].
  eapply wp_mono; [eapply (calls_spec [s]); [by left|exact Hst]|].
  intros rs w' (h' & -> & Hst' & Hon'). split; [done|]. split; [by eapply only_trans|eauto].
Qed.

(** [io_fgets] without the end of line reads a line: a text ended by LF or
    CR LF that fits the buffer is returned without its end, and what follows is
    left to be read. *)
Theorem io_fgets_reads_line (w : iow) io s h o l eol rest max_size :
  stream w io s (l ++ eol ++ rest) o h ->
  LF ∉ l -> xff ∉ l -> ~ ends_in_eol l -> eol = [LF] \/ eol = [CR; LF] ->
  Z.of_nat (length l + length eol) < max_size ->
  wp [s] (io_fgets max_size io false) w (fun r w' =>
    r = Some l /\ exists h', stream w' io s rest o h').
Proof.
  intros Hst Hlf Hff Hend Heol Hmax.
  eapply wp_mono; [apply (fgets_spec [s] max_size false io s (l ++ eol ++ rest) o h w); [by left|exact Hst]|].
  rewrite (gets_result_line max_size l eol rest Hlf Hff Hend Heol Hmax). naive_solver.
Qed.

(** C37: [io_fgets] never stores more than [max_size] - 1 characters before the NUL,
    whatever is read and whether ends of lines are kept or not.  What it takes from
    the input are the characters it returns, then those of the end of the line that
    it took off again (none with [store_eol]); it stops after the first LF, when
    there is no more room, or at the end of the input (for which the byte 0xFF is
    taken), in which case nothing is taken off. *)
Theorem io_fgets_bounded (w : iow) io s h i o max_size store_eol :
  stream w io s i o h -> 0 < max_size ->
  wp [s] (io_fgets max_size io store_eol) w (fun r w' => exists h' i',
    stream w' io s i' o h' /\
    match r with
    | Some l => exists eol, Z.of_nat (length (l ++ eol)) <= max_size - 1 /\
        Forall (fun b => b = LF \/ b = CR) eol /\ (store_eol = true -> eol = []) /\
        (forall l1 l2, l ++ eol = l1 ++ LF :: l2 -> l2 = []) /\
        (i = l ++ eol ++ i' /\ (store_eol = false -> ~ ends_in_eol l) /\
           (last (l ++ eol) = Some LF \/ Z.of_nat (length (l ++ eol)) = max_size - 1) \/
         eol = [] /\ (i = l /\ i' = [] \/ i = l ++ xff :: i'))
    | None => i = [] /\ i' = [] \/ i = xff :: i'
    end).
Proof.
  intros Hst Hmax.
  eapply wp_mono; [apply (fgets_spec [s] max_size store_eol io s i o h w); [by left|exact Hst]|].
  intros r w' (h' & -> & Hst' & _). exists h', (gets_result max_size store_eol i).2.
  split; [done|]. unfold gets_result.
  destruct (gets (Z.to_nat (max_size - 1)) [] i) as [[eof l] rest] eqn:Hg.
  apply gets_ends in Hg as (d & -> & Hd & Hlf & He). cbn [fst snd app] in *.
  destruct eof; [destruct (decide (d = [])) as [->|Hne]; [exact He|]|].
  - exists []. rewrite app_nil_r. split; [lia|]. split; [done|]. split; [done|]. split; [done|]. right. auto.
  - destruct He as [-> He]. destruct store_eol.
    + exists []. rewrite app_nil_r. split; [lia|]. split; [done|]. split; [done|]. split; [done|]. left.
      split; [done|]. split; [done|]. destruct He; [by left|right; lia].
    + destruct (strip_eol_spec d) as (eol & Ed & Hf & Hend). exists eol. rewrite app_assoc, <- Ed.
      split; [lia|]. split; [done|]. split; [done|]. split; [done|]. left.
      split; [done|]. split; [done|]. destruct He; [by left|right; lia].
Qed.

(** [io_copy] copies exactly the bytes asked for, or all there are with
    [len] = -1, and returns their number, when the byte 0xFF is not among them. *)
Theorem io_copy_copies (w : iow) io1 io2 s1 s2 len i1 o1 h1 i2 o2 h2 :
  stream w io1 s1 i1 o1 h1 -> stream w io2 s2 i2 o2 h2 -> io1 <> io2 -> s1 <> s2 ->
  xff ∉ i1 -> -1 <= len -> Z.of_nat (length i1) < 2 ^ 31 ->
  wp [s1; s2] (io_copy (S (length i1)) io1 io2 len) w (fun r w' => exists h1' h2',
    r = Z.of_nat (length (to_copy len i1)) /\
    stream w' io1 s1 (drop (length (to_copy len i1)) i1) o1 h1' /\
    stream w' io2 s2 i2 (o2 ++ to_copy len i1) h2').
Proof.
  intros Hst1 Hst2 Hio Hs Hff Hlen Hl. unfold io_copy. apply wp_bind.
  eapply wp_mono; [apply (fflush_spec [s1; s2] io1 s1 i1 o1 h1 w); [by left|done]|].
  intros _ w1 (h1' & Hst1' & _ & _ & _ & _ & _ & Hon).
  apply (copy_loop_spec [s1; s2] _ io1 io2 s1 s2 len 0 i1 o1 h1' i2 o2 h2); try done; try lia.
  - by left.
  - by right; left.
  - by eapply stream_other.
Qed.

(** On a line buffered handle, a string that ends in LF and everything
    written before it has reached the socket, in order, when [io_fputs]
    returns. *)
Theorem io_fputs_line_written (w : iow) io s h i o str :
  stream w io s i o h -> outbufmode h = IO_MODE_LINE_BUFFERED ->
  wp [s] (io_fputs (str ++ [LF]) io) w (fun _ w' =>
    output (net w') s = o ++ str ++ [LF] /\ only io s w w').
Proof.
  intros Hst Hm. eapply wp_mono; [apply (fputs_line_spec [s] str io s i o h w); [by left|done|done]|].
  intros _ w' (h' & Hst' & Hp & Hon). split; [|done]. by eapply stream_flushed.
Qed.

(** [io_fgetc] takes the byte 0xFF for the end of the file, as [char] is
    signed; [io_copy] refilling its buffer at such a byte drops it and stops
    with nothing copied, although more input follows. *)
Theorem io_copy_stops_at_ff (w : iow) io1 io2 s1 t o1 h1 len :
  stream w io1 s1 (xff :: t) o1 h1 -> inbuflen h1 = 0%nat -> len <> 0 ->
  wp [s1] (io_copy 1 io1 io2 len) w (fun r w' => r = 0 /\
    only io1 s1 w w' /\ exists h1', stream w' io1 s1 t o1 h1').
Proof.
  intros Hst Hlen Hl. unfold io_copy. apply wp_bind.
  eapply wp_mono; [apply (fflush_spec [s1] io1 s1 (xff :: t) o1 h1 w); [by left|done]|].
  intros _ w1 (h1' & Hst1 & _ & _ & _ & El & _ & Hon1). cbn [copy_loop].
  rewrite decide_False by done. apply (wp_handle _ _ h1'); [apply Hst1|].
  rewrite decide_True by congruence. apply wp_bind, wp_bind.
  eapply wp_mono; [apply (fgetc_spec [s1] io1 s1 (xff :: t) o1 h1' w1); [by left|done]|].
  intros c w2 (i2 & h2 & [-> ->] & Hst2 & _ & _ & Hon2). rewrite decide_True by done.
  apply wp_ret, wp_ret. split; [done|]. split; [by eapply only_trans|eauto].
Qed.

(** [io_fprintf] loses the last character of a text of 4096 characters, for
    the buffer is only enlarged for longer ones; it returns 4096 all the same. *)
Theorem io_fprintf_truncates (w : iow) io s h i o text :
  stream w io s i o h -> length text = 4096%nat ->
  wp [s] (io_fprintf io text) w (fun r w' => r = 4096 /\
    exists h', stream w' io s i (o ++ take 4095 text) h').
Proof.
  intros Hst Hl. eapply wp_mono; [apply (fprintf_spec [s] text io s i o h w); [by left|done]|].
  intros r w' (-> & h' & Hst' & _). unfold printed in Hst'. rewrite Hl in *.
  rewrite decide_True in Hst' by done. eauto.
Qed.
End clients.

(** ** Examples *)

Definition fresh_handle (s : Z) : io_handle :=
  IoHandle s (replicate 1024 x00) 1024 0 0 (replicate 1024 x00) 0 1024 0 IO_MODE_LINE_BUFFERED.

Lemma fresh_stream {E} `{SK : Sockets E} (w : iow (E := E)) io s :
  ios w !! io = Some (fresh_handle s) ->
  stream w io s (input (net w) s) (output (net w) s) (fresh_handle s).
Proof.
  intros Hh. split; [done| |done|done|apply app_nil_r].
  split; cbn [inbuf outbuf fresh_handle inbufpos inbuflen outbufpos outbuffree];
    rewrite ?length_replicate; unfold IOLIB_INPUT_BUFFER_SIZE, IOLIB_OUTPUT_BUFFER_SIZE; lia.
Qed.

(** Two handles, 1 on socket 3 and 2 on socket 4; socket 3 delivers [input]. *)
Definition two_handles (sent_to_3 : bytes) : iow (E := script) :=
  IoW (<[1%positive := fresh_handle 3]> (<[2%positive := fresh_handle 4]> ∅))
    (Script [(3, sent_to_3)] [] 4 []).

Definition sample_request : bytes := lit "GET / HTTP/1.0" ++ [CR; LF] ++ lit "Host: a".

Lemma request_calls :
  stream_calls [Peek; Fgets 100 false; Fputs (lit "ok"); Fread 4] (sample_request, []) =
    ([RInt (char_val "G"); RString (Some (lit "GET / HTTP/1.0")); RInt 1; RBlock (lit "Host")],
     (lit ": a", lit "ok")).
Proof. vm_compute. reflexivity. Qed.

Lemma io_calls_refine_streams_witness :
  wp [3] (io_fdopen (fun _ => x00) 1 3 ≫= fun _ =>
            do_calls 1 [Peek; Fgets 100 false; Fputs (lit "ok"); Fread 4]) (two_handles sample_request)
    (fun rs w' =>
       rs = [RInt (char_val "G"); RString (Some (lit "GET / HTTP/1.0")); RInt 1;
             RBlock (lit "Host")] /\
       only 1 3 (two_handles sample_request) w' /\
       exists h, stream w' 1 3 (lit ": a") (lit "ok") h).
Proof.
  eapply wp_mono; [apply io_calls_refine_streams|].
  change (input (net (two_handles sample_request)) 3) with sample_request.
  change (output (net (two_handles sample_request)) 3) with (@nil byte).
  rewrite request_calls. by intros rs w'.
Defined.

Lemma io_fgets_reads_line_witness :
  wp [3] (io_fgets 1024 1 false) (two_handles sample_request) (fun r w' =>
    r = Some (lit "GET / HTTP/1.0") /\ exists h', stream w' 1 3 (lit "Host: a") [] h').
Proof.
  apply (io_fgets_reads_line (two_handles sample_request) 1 3 (fresh_handle 3) []
    (lit "GET / HTTP/1.0") [CR; LF] (lit "Host: a") 1024).
  - exact (fresh_stream (two_handles sample_request) 1 3 eq_refl).
  - by apply (bool_decide_unpack _).
  - by apply (bool_decide_unpack _).
  - by intros [?|?].
  - by right.
  - simpl. lia.
Defined.

Lemma io_fgets_bounded_witness :
  wp [3] (io_fgets 100 1 false) (two_handles sample_request) (fun r w' => exists h' i',
    stream w' 1 3 i' [] h' /\
    match r with
    | Some l => exists eol, Z.of_nat (length (l ++ eol)) <= 100 - 1 /\
        Forall (fun b => b = LF \/ b = CR) eol /\ (false = true -> eol = []) /\
        (forall l1 l2, l ++ eol = l1 ++ LF :: l2 -> l2 = []) /\
        (sample_request = l ++ eol ++ i' /\ (false = false -> ~ ends_in_eol l) /\
           (last (l ++ eol) = Some LF \/ Z.of_nat (length (l ++ eol)) = 100 - 1) \/
         eol = [] /\ (sample_request = l /\ i' = [] \/ sample_request = l ++ xff :: i'))
    | None => sample_request = [] /\ i' = [] \/ sample_request = xff :: i'
    end).
Proof.
  apply (io_fgets_bounded (two_handles sample_request) 1 3 (fresh_handle 3) sample_request [] 100 false);
    [exact (fresh_stream (two_handles sample_request) 1 3 eq_refl)|lia].
Defined.

Lemma io_copy_copies_witness :
  wp [3; 4] (io_copy 24 1 2 (-1)) (two_handles sample_request) (fun r w' => exists h1' h2',
    r = 23 /\ stream w' 1 3 [] [] h1' /\ stream w' 2 4 [] sample_request h2').
Proof.
  apply (io_copy_copies (two_handles sample_request) 1 2 3 4 (-1) sample_request [] (fresh_handle 3)
    [] [] (fresh_handle 4)); try done.
  by apply (bool_decide_unpack _).
Defined.

Lemma io_fputs_line_written_witness :
  wp [3] (io_fputs (lit "ok" ++ [LF]) 1) (two_handles sample_request) (fun _ w' =>
    output (net w') 3 = lit "ok" ++ [LF] /\ only 1 3 (two_handles sample_request) w').
Proof.
  apply (io_fputs_line_written (two_handles sample_request) 1 3 (fresh_handle 3) sample_request []
    (lit "ok")); [exact (fresh_stream (two_handles sample_request) 1 3 eq_refl)|done].
Defined.

Lemma io_copy_stops_at_ff_witness :
  wp [3] (io_copy 1 1 2 (-1)) (two_handles (xff :: lit "more")) (fun r w' => r = 0 /\
    only 1 3 (two_handles (xff :: lit "more")) w' /\
    exists h1', stream w' 1 3 (lit "more") [] h1').
Proof.
  apply (io_copy_stops_at_ff (two_handles (xff :: lit "more")) 1 2 3 (lit "more") []
    (fresh_handle 3) (-1)); [exact (fresh_stream (two_handles (xff :: lit "more")) 1 3 eq_refl)|done|done].
Defined.

Lemma io_fprintf_truncates_witness :
  wp [3] (io_fprintf 1 (replicate 4096 "a"%byte)) (two_handles []) (fun r w' => r = 4096 /\
    exists h', stream w' 1 3 [] (replicate 4095 "a"%byte) h').
Proof.
  apply (io_fprintf_truncates (two_handles []) 1 3 (fresh_handle 3) [] []
    (replicate 4096 "a"%byte)); [exact (fresh_stream (two_handles []) 1 3 eq_refl)|done].
Defined.
