(* ===== verification/Popen.v ===== *)
(** * Pipes to other programs ([io_popen] and [io_pclose] of [src/pthr_iolib.c])

    The descriptors of the two processes after [fork], and the handle of the
    parent. *)

From stdpp Require Import base list gmap.
From Stdlib Require Import Strings.Byte.
From S2P Require Import Prelude ReactorTimers Prog Descriptors Iolib IolibSpec IolibStreams.

Section popen.
Context {E : Type} `{SK : Sockets E} (junk : nat -> byte).
Abbreviation iow := (iow (E := E)).

(** How [io_popen] goes on: in the parent it returns, in the child the command is
    run. *)
Inductive popened :=
  | Parent (io : option loc) (t : fdtable) (w : iow)
  | Child (command : bytes) (t : fdtable)
  | PopenAbort.

(** [pipe]: both descriptors are new; [None] if it fails. *)
Definition pipe (ok : bool) (t : fdtable) : option (Z * Z * fdtable) :=
  if ok then
    let r := lowest t in
    let t1 := <[r := FPipe false false]> t in
    let w := lowest t1 in
    Some (r, w, <[w := FPipe true false]> t1)
  else None.

Definition dup2 (from to : Z) (t : fdtable) : fdtable :=
  match t !! from with Some f => <[to := f]> t | None => t end.

Definition set_nonblock (fd : Z) (t : fdtable) : fdtable :=
  match t !! fd with Some (FPipe b _) => <[fd := FPipe b true]> t | _ => t end.

(** What the child does with its end [fd]: it becomes descriptor [std]. *)
Definition move_fd (fd std : Z) (t : fdtable) : fdtable :=
  if decide (fd <> std) then delete fd (dup2 fd std t) else t.

(** [pipe_ok] and [fcntl_ok]: these calls succeed; [pid]: the result of [fork];
    [io]: the address of the new handle. *)
Definition io_popen (pipe_ok fcntl_ok : bool) (pid : Z) (io : loc) (command type : bytes)
    (t : fdtable) (w : iow) : popened :=
  match (if decide (type = lit "r") then Some false
         else if decide (type = lit "w") then Some true else None) with
  | None => PopenAbort
  | Some mode =>
    match pipe pipe_ok t with
    | None => Parent None t w
    | Some (fd0, fd1, t1) =>
      if decide (pid < 0) then Parent None (delete fd1 (delete fd0 t1)) w
      else if decide (0 < pid) then
        let s := if mode then fd1 else fd0 in
        let t2 := delete (if mode then fd0 else fd1) t1 in
        if negb fcntl_ok then PopenAbort
        else
          match io_fdopen junk io s w with
          | Ret _ w' => Parent (Some io) (set_nonblock s t2) w'
          | _ => PopenAbort
          end
      else
        Child command (if mode then move_fd fd0 0 (delete fd1 t1) else move_fd fd1 1 (delete fd0 t1))
    end
  end.

(** [wait] blocks the process until one of its children has ended; what it returns
    is not used. *)
Definition io_pclose (wait : E -> E) (io : loc) : prog iow unit :=
  andthen (io_fclose io) (fun _ w => Ret tt (IoW (ios w) (wait (net w)))).

(** ** The two ends *)

Lemma pipe_spec t fd0 fd1 t1 :
  pipe true t = Some (fd0, fd1, t1) ->
  fd0 <> fd1 /\ t !! fd0 = None /\ t !! fd1 = None /\
  t1 = <[fd1 := FPipe true false]> (<[fd0 := FPipe false false]> t).
Proof.
  unfold pipe. intros [= <- <- <-]. destruct (lowest_spec t) as (_ & Hr & _).
  set (t1 := <[lowest t := FPipe false false]> t). destruct (lowest_spec t1) as (_ & Hw & _).
  unfold t1 in Hw. apply lookup_insert_None in Hw as [Hw Hne]. done.
Qed.

Lemma move_fd_spec fd std t f :
  t !! fd = None -> move_fd fd std (<[fd := f]> t) = <[std := f]> t.
Proof.
  intros Hn. unfold move_fd, dup2. rewrite lookup_insert_eq. destruct (decide (fd <> std)) as [Hne|He].
  - rewrite insert_insert_ne, delete_insert_id by (done || by rewrite lookup_insert_ne by done). done.
  - apply dec_stable in He as ->. done.
Qed.

(** C20: [io_popen] connects the two processes by exactly one pipe, whichever
    descriptors were free: the parent gets a new, non-blocking descriptor for its
    end, with a fresh handle on it; the child has the other end, in blocking mode,
    as its standard output or input; neither process keeps the end of the other,
    so that the end of file gets through, and no other descriptor changes.  When
    the pipe or the process cannot be made, null is returned and nothing is left
    open. *)
Theorem io_popen_connects pipe_ok pid io command (mode : bool) t w :
  let type := if mode then lit "w" else lit "r" in
  let std := if mode then 0 else 1 in
  match io_popen pipe_ok true pid io command type t w with
  | Parent (Some io') t' w' => pipe_ok = true /\ 0 < pid /\ io' = io /\ exists s h, t !! s = None /\
      t' = <[s := FPipe mode true]> t /\
      stream w' io s (input (net w) s) (output (net w) s) h /\ only io s w w'
  | Parent None t' w' => (pipe_ok = false \/ pid < 0) /\ t' = t /\ w' = w
  | Child c t' => pid = 0 /\ c = command /\ t' = <[std := FPipe (negb mode) false]> t
  | PopenAbort => False
  end.
Proof.
  intros type std. assert ((if decide (type = lit "r") then Some false
    else if decide (type = lit "w") then Some true else None) = Some mode) as Hm by (by destruct mode).
  unfold io_popen. rewrite Hm. destruct pipe_ok; [|simpl; auto].
  destruct (pipe true t) as [[[fd0 fd1] t1]|] eqn:Hp; [|done].
  apply pipe_spec in Hp as (Hne & H0 & H1 & ->).
  assert (delete fd0 (<[fd1 := FPipe true false]> (<[fd0 := FPipe false false]> t)) =
    <[fd1 := FPipe true false]> t) as D0.
  { rewrite delete_insert_ne by done. by rewrite delete_insert_id. }
  assert (delete fd1 (<[fd1 := FPipe true false]> (<[fd0 := FPipe false false]> t)) =
    <[fd0 := FPipe false false]> t) as D1.
  { rewrite delete_insert_id; [done|]. by rewrite lookup_insert_ne. }
  destruct (decide (pid < 0)); [|destruct (decide (0 < pid))].
  - rewrite D0, delete_insert_id by done. auto.
  - set (s := if mode then fd1 else fd0). cbn [negb].
    pose proof (fdopen_spec junk w io s) as Ho. destruct (io_fdopen junk io s w) as [[] w'| | | |]; try done.
    destruct Ho as (h & Hst & Hon). split; [done|]. split; [done|]. split; [done|]. exists s, h.
    split; [by destruct mode|]. split; [|done]. unfold set_nonblock, s.
    destruct mode; rewrite ?D0, ?D1, lookup_insert_eq; by rewrite insert_insert_eq.
  - split; [lia|]. split; [done|]. unfold std. destruct mode; rewrite ?D0, ?D1; by apply move_fd_spec.
Qed.

(** Any other mode string ends the program. *)
Lemma io_popen_bad_type pipe_ok fcntl_ok pid io command type t w :
  type <> lit "r" -> type <> lit "w" -> io_popen pipe_ok fcntl_ok pid io command type t w = PopenAbort.
Proof. intros Hr Hw. unfold io_popen. by rewrite !decide_False. Qed.
End popen.
