(* ===== verification/IoThreads.v ===== *)
(** * Handles over the reactor

    [Iolib.v] works against the interface [Sockets].  Here the interface is
    discharged by the blocking calls of [Blocking.v]: a thread's reads and
    writes register with the reactor, switch to the other threads and try
    again, and are indistinguishable from reads and writes that never block. *)

From stdpp Require Import base list gmap.
From Stdlib Require Import Strings.Byte.
From S2P Require Import Prelude C2lib ReactorHandles ReactorTimers Reactor Prog Blocking.
From S2P Require Import Cstring Iolib IolibSpec IolibStreams.

(** ** [read], [write] and [close]

    [to_read] is what the thread will be able to read from a socket,
    [written] what it wrote to it; a socket that is [sound] gives no error. *)

Class SocketCalls (OS : Type) := {
  to_read : OS -> Z -> bytes;
  written : OS -> Z -> bytes;
  sound : OS -> Z -> Prop;
  sys_read : Z -> Z -> OS -> Z * Z * bytes * OS;
  sys_write : Z -> bytes -> OS -> Z * Z * unit * OS;
  os_close : Z -> OS -> Z * OS;
  sys_read_law : forall s n o,
    let '(r, errno, bs, o') := sys_read s (Z.of_nat n) o in
    (r = -1 /\ errno = EWOULDBLOCK /\ to_read o' s = to_read o s \/
     r < 0 /\ errno <> EWOULDBLOCK /\ ~ sound o' s \/
     r = Z.of_nat (length bs) /\ (length bs <= n)%nat /\ to_read o s = bs ++ to_read o' s /\
     (bs = [] -> n = 0%nat \/ to_read o s = [])) /\
    (forall s', written o' s' = written o s') /\
    (forall s', s' <> s -> to_read o' s' = to_read o s') /\
    (forall s', sound o s' -> sound o' s');
  sys_write_law : forall s bs o, bs <> [] ->
    let '(r, errno, _, o') := sys_write s bs o in
    (r = -1 /\ errno = EWOULDBLOCK /\ written o' s = written o s \/
     r < 0 /\ errno <> EWOULDBLOCK /\ ~ sound o' s \/
     0 < r <= Z.of_nat (length bs) /\ written o' s = written o s ++ take (Z.to_nat r) bs) /\
    (forall s', to_read o' s' = to_read o s') /\
    (forall s', s' <> s -> written o' s' = written o s') /\
    (forall s', sound o s' -> sound o' s')
}.

(** ** Programs that keep an invariant of the state *)

Definition ends {S A : Type} (P : S -> Prop) (r : result S A) : Prop :=
  match r with Ret _ s | Die _ s | PthExit s => P s | _ => True end.

(** The program [m] on the states with [P]. *)
Definition lift {S A : Type} {P : S -> Prop} (m : prog S A)
    (keeps : forall s, P s -> ends P (m s)) : prog (sig P) A := fun e =>
  match m (proj1_sig e) as r return ends P r -> result (sig P) A with
  | Ret a s => fun H => Ret a (exist P s H)
  | Die msg s => fun H => Die msg (exist P s H)
  | PthExit s => fun H => PthExit (exist P s H)
  | Abort => fun _ => Abort
  | NoFuel => fun _ => NoFuel
  end (keeps _ (proj2_sig e)).

(** ** The thread that uses the handles *)

Section threads_io.
Context {X OS : Type} `{PL : Pools (cleanup X)} `{SC : SocketCalls OS} {MC : Memcpy} `{CF : !CopiesForward}.
Abbreviation pstate := (pstate (X := X) (OS := OS)).
Context (jh : nat -> reactor_handle pth_fn loc) (jp : nat -> pollfd) (current_pth : loc).
Context (switch : pstate -> pstate).

(** While the thread is away: the others leave its registrations and its
    sockets alone, and there is no alarm if it set none. *)
Context (switch_mine : forall s m,
  my_handles current_pth s m -> my_handles current_pth (switch s) m).
Context (switch_streams : forall st s,
  to_read (os (switch st)) s = to_read (os st) s /\
  written (os (switch st)) s = written (os st) s /\
  (sound (os st) s -> sound (os (switch st)) s)).
Context (switch_alarm : forall st, alarm_timer st = None ->
  alarm_timer (switch st) = None /\ alarm_received (switch st) = alarm_received st).

(** A socket makes its user wait finitely often. *)
Context (delay : Z -> OS -> nat).
Context (reader_served : forall s n st b o,
  sys_read s n (os st) = (-1, EWOULDBLOCK, b, o) ->
  forall st1, os st1 = o -> (delay s (os (switch st1)) < delay s (os st))%nat).
Context (writer_served : forall s bs st b o,
  sys_write s bs (os st) = (-1, EWOULDBLOCK, b, o) ->
  forall st1, os st1 = o -> (delay s (os (switch st1)) < delay s (os st))%nat).

(** The thread's own registrations. *)
Context (m : gmap nat (registration pth_fn loc)).

Definition running_ok (st : pstate) : Prop := my_handles current_pth st m.

Definition running : Type := sig running_ok.

(** No alarm is set. *)
Definition calm (st : pstate) : Prop := alarm_received st = false /\ alarm_timer st = None.

(** The streams are the same, nothing broke and there is no new alarm. *)
Definition undisturbed (st st' : pstate) : Prop :=
  (forall s, to_read (os st') s = to_read (os st) s) /\
  (forall s, written (os st') s = written (os st) s) /\
  (forall s, sound (os st) s -> sound (os st') s) /\
  (calm st -> calm st').

Lemma undisturbed_refl st : undisturbed st st.
Proof. unfold undisturbed. tauto. Qed.

Lemma undisturbed_stable st : stable switch (undisturbed st).
Proof.
  unfold stable, undisturbed. split; [by intros s r H|]. split; [|by intros s H].
  intros s1 (Hr & Hw & Hs & Hc). split; [|split; [|split]].
  - intros s. by rewrite (proj1 (switch_streams s1 s)).
  - intros s. by rewrite (proj1 (proj2 (switch_streams s1 s))).
  - intros s H. by apply (switch_streams s1 s), Hs.
  - intros [Ha Ht]%Hc. apply switch_alarm in Ht as [Ht Ha']. split; congruence.
Qed.

(** The calls, with enough fuel for the time the socket makes them wait. *)
Definition timed_read (s : Z) (n : nat) : prog pstate (Z * bytes) := fun st =>
  Blocking.pth_read jh jp current_pth switch sys_read (S (delay s (os st))) s (Z.of_nat n) st.
Definition timed_write (s : Z) (bs : bytes) : prog pstate (Z * unit) := fun st =>
  Blocking.pth_write jh jp current_pth switch sys_write (S (delay s (os st))) s bs st.

Lemma read_tried st s n st1 b o :
  undisturbed st st1 -> sys_read s (Z.of_nat n) (os st1) = (-1, EWOULDBLOCK, b, o) ->
  undisturbed st (with_os o st1).
Proof.
  intros (Hr & Hw & Hs & Hc) H. pose proof (sys_read_law s n (os st1)) as L. rewrite H in L.
  destruct L as (Hor & Lw & Lr & Ls). split; [|split; [|split; [|done]]]; simpl.
  - intros s'. rewrite <- Hr. destruct (decide (s' = s)) as [->|Hne]; [|auto].
    destruct Hor as [(_ & _ & E)|[(_ & H1 & _)|(H1 & _)]]; [done|done|lia].
  - intros s'. by rewrite Lw.
  - auto.
Qed.

Lemma write_tried st s bs st1 b o :
  bs <> [] -> undisturbed st st1 ->
  sys_write s bs (os st1) = (-1, EWOULDBLOCK, b, o) -> undisturbed st (with_os o st1).
Proof.
  intros Hbs (Hr & Hw & Hs & Hc) H. pose proof (sys_write_law s bs (os st1) Hbs) as L.
  rewrite H in L. destruct L as (Hor & Lr & Lw & Ls). split; [|split; [|split; [|done]]]; simpl.
  - intros s'. by rewrite Lr.
  - intros s'. rewrite <- Hw. destruct (decide (s' = s)) as [->|Hne]; [|auto].
    destruct Hor as [(_ & _ & E)|[(_ & H1 & _)|(H1 & _)]]; [done|done|lia].
  - auto.
Qed.

(** An alarm ends only a thread that was not [calm]. *)
Lemma alarmed st st' : undisturbed st st' -> alarm_received st' = true -> ~ calm st.
Proof. intros (_ & _ & _ & Hc) Ha H. apply Hc in H as [? _]. congruence. Qed.

(** How a call ends: with an answer given in a state the thread did not notice
    any change in, or by an alarm. *)
Definition answered {B} (call : OS -> Z * Z * B * OS) (st : pstate) (x : result pstate (Z * B))
  : Prop :=
  match x with
  | Ret (r, b) st' => running_ok st' /\ exists st0 errno,
      undisturbed st st0 /\ call (os st0) = (r, errno, b, os st') /\
      st' = with_os (os st') st0 /\ ~ (r = -1 /\ errno = EWOULDBLOCK)
  | PthExit st' => running_ok st' /\ ~ calm st
  | _ => False
  end.

Lemma timed_ends {B} (call : OS -> Z * Z * B * OS) s ops st :
  (forall st b o, call (os st) = (-1, EWOULDBLOCK, b, o) ->
     forall st1, os st1 = o -> (delay s (os (switch st1)) < delay s (os st))%nat) ->
  (forall st1 b o, undisturbed st st1 -> call (os st1) = (-1, EWOULDBLOCK, b, o) ->
     undisturbed st (with_os o st1)) ->
  to_short ops = ops -> running_ok st ->
  answered call st (retry jh jp current_pth switch (S (delay s (os st))) call s ops st).
Proof.
  intros Hserved Htried Hops Hm.
  pose proof (retry_keeps jh jp current_pth switch switch_mine call (delay s) Hserved
    (undisturbed st) (undisturbed_stable st) Htried (S (delay s (os st))) s ops st m
    (undisturbed_refl st) Hm Hops ltac:(lia)) as H.
  unfold answered. destruct (retry _ _ _ _ _ _ _ _ _) as [[r b] st'| |st'| |]; [|done| |done..].
  - destruct H as (? & _ & st0 & errno & ? & ? & ? & ? & _). split; [done|]. by exists st0, errno.
  - destruct H as (? & Hu & Ha & _). split; [done|]. by eapply alarmed.
Qed.

Lemma timed_read_ends s n st :
  running_ok st -> answered (sys_read s (Z.of_nat n)) st (timed_read s n st).
Proof.
  intros Hm. apply timed_ends; [apply reader_served|apply read_tried|done|done].
Qed.

Lemma timed_write_ends s bs st :
  bs <> [] -> running_ok st -> answered (sys_write s bs) st (timed_write s bs st).
Proof.
  intros Hbs Hm. apply timed_ends; [apply writer_served| |done|done].
  intros st1 b o. by apply write_tried.
Qed.

Lemma timed_keeps {B} (call : OS -> Z * Z * B * OS) s ops st :
  (forall st b o, call (os st) = (-1, EWOULDBLOCK, b, o) ->
     forall st1, os st1 = o -> (delay s (os (switch st1)) < delay s (os st))%nat) ->
  to_short ops = ops -> running_ok st ->
  ends running_ok (retry jh jp current_pth switch (S (delay s (os st))) call s ops st).
Proof.
  intros Hserved Hops Hm.
  pose proof (retry_keeps jh jp current_pth switch switch_mine call (delay s) Hserved
    (fun _ => True) (conj (fun _ _ _ => I) (conj (fun _ _ => I) (fun _ _ => I)))
    (fun _ _ _ _ _ => I) (S (delay s (os st))) s ops st m I Hm Hops ltac:(lia)) as H.
  unfold ends. destruct (retry _ _ _ _ _ _ _ _ _) as [[r b] st'| |st'| |]; by destruct H.
Qed.

Definition thread_read (s : Z) (n : nat) : prog running (Z * bytes) :=
  lift (timed_read s n) (fun st Hm =>
    timed_keeps _ s _ st (reader_served s (Z.of_nat n)) eq_refl Hm).

Definition thread_write (s : Z) (bs : bytes) : prog running Z :=
  '(r, _) ← lift (timed_write s bs) (fun st Hm =>
    timed_keeps _ s _ st (writer_served s bs) eq_refl Hm);
  mret r.

Definition timed_close (s : Z) : prog pstate Z := fun st =>
  let '(r, o) := os_close s (os st) in Ret r (with_os o st).

Lemma timed_close_keeps s st : running_ok st -> ends running_ok (timed_close s st).
Proof. unfold timed_close. by destruct (os_close s (os st)). Qed.

Definition thread_close (s : Z) : prog running Z := lift (timed_close s) (timed_close_keeps s).

(** The blocking calls implement the interface of the I/O library. *)
#[export] Program Instance thread_sockets : Sockets running := {
  input := fun e => to_read (os (proj1_sig e));
  output := fun e => written (os (proj1_sig e));
  healthy := fun e s => sound (os (proj1_sig e)) s /\ calm (proj1_sig e);
  pth_read := thread_read;
  pth_write := thread_write;
  sys_close := thread_close
}.
Next Obligation.
  intros s n [st Hst]. unfold thread_read, lift. simpl.
  pose proof (timed_read_ends s n st Hst) as L. generalize (timed_keeps
    (sys_read s (Z.of_nat n)) s REACTOR_READ st (reader_served s (Z.of_nat n)) eq_refl Hst).
  change (retry _ _ _ _ _ _ _ _ _) with (timed_read s n st).
  destruct (timed_read s n st) as [[r bs] st'| |st'| |]; intros K; simpl; [|done| |done..].
  - destruct L as (_ & st0 & errno & (Hr & Hw & Hs & Hc) & Hcall & Est & Hne).
    pose proof (sys_read_law s n (os st0)) as L. rewrite Hcall in L.
    destruct L as (Hor & Lw & Lr & Ls). split_and!.
    + destruct Hor as [(? & ? & _)|[(? & _ & Hb)|Hok]]; [by destruct Hne| |right].
      { left. split; [done|]. by intros [? _]. }
      by rewrite Hr in Hok.
    + intros s'. by rewrite Lw.
    + intros s' Hs'. by rewrite Lr.
    + intros s' [H1 H2]. split; [auto|]. rewrite Est. by apply Hc in H2.
  - destruct L as [_ L]. by intros [_ ?].
Qed.
Next Obligation.
  intros s bs [st Hst] Hbs. unfold thread_write, lift, mbind, prog_bind. simpl.
  pose proof (timed_write_ends s bs st Hbs Hst) as L. generalize (timed_keeps
    (sys_write s bs) s REACTOR_WRITE st (writer_served s bs) eq_refl Hst).
  change (retry _ _ _ _ _ _ _ _ _) with (timed_write s bs st).
  destruct (timed_write s bs st) as [[r u] st'| |st'| |]; intros K; simpl; [|done| |done..].
  - destruct L as (_ & st0 & errno & (Hr & Hw & Hs & Hc) & Hcall & Est & Hne).
    pose proof (sys_write_law s bs (os st0) Hbs) as L. rewrite Hcall in L.
    destruct L as (Hor & Lr & Lw & Ls). split_and!.
    + destruct Hor as [(? & ? & _)|[(? & _ & Hb)|Hok]]; [by destruct Hne| |right].
      { left. split; [done|]. by intros [? _]. }
      by rewrite Hw in Hok.
    + intros s'. by rewrite Lr.
    + intros s' Hs'. by rewrite Lw.
    + intros s' [H1 H2]. split; [auto|]. rewrite Est. by apply Hc in H2.
  - destruct L as [_ L]. by intros [_ ?].
Qed.

(** ** A session of a thread on a connection *)

Context (junk : nat -> byte).

Definition session (io : loc) (s : Z) (cs : list io_call) : prog (iow (E := running)) (list io_reply) :=
  io_fdopen junk io s ≫= fun _ => rs ← do_calls io cs; io_fflush io ≫= fun _ => mret rs.

(** C3: a thread opens a handle on a connected socket, makes any calls on it
    and flushes it, with [pth_read] and [pth_write] waiting in the reactor
    whenever the socket would block.  If no error occurs on the socket and no
    alarm is set, the calls return; the replies are those of the same calls on
    the plain streams, the kernel was given exactly the bytes written, in order,
    and the reactor holds the registrations of the thread that it held before.
    If the thread exits, nothing of it is left registered either.  The C library's
    [memcpy] copies overlapping cells to lower addresses ([CopiesForward]). *)
Theorem io_over_reactor (w : iow (E := running)) io s cs :
  let st := proj1_sig (net w) in
  let spec := stream_calls cs (to_read (os st) s, written (os st) s) in
  match session io s cs w with
  | Ret rs w' => rs = spec.1 /\ written (os (proj1_sig (net w'))) s = spec.2.2 /\
      (exists unread, spec.2.1 = unread ++ to_read (os (proj1_sig (net w'))) s) /\
      my_handles current_pth (proj1_sig (net w')) m
  | PthExit w' => ~ (sound (os st) s /\ calm st) /\ my_handles current_pth (proj1_sig (net w')) m
  | _ => False
  end.
Proof.
  cbv zeta. assert (wp [s] (session io s cs) w (fun rs w' =>
    let spec := stream_calls cs (to_read (os (proj1_sig (net w))) s,
                                 written (os (proj1_sig (net w))) s) in
    rs = spec.1 /\ exists h, stream w' io s spec.2.1 spec.2.2 h /\ outbufpos h = 0%nat)) as H.
  { unfold session. apply wp_bind. pose proof (fdopen_spec junk w io s) as Ho.
    unfold io_fdopen, put in *. destruct Ho as (h & Hst & Hon). split; [|done].
    apply wp_bind. eapply wp_mono; [eapply (calls_spec [s]); [by left|exact Hst]|].
    intros rs w1 (h1 & -> & Hst1 & _). apply wp_bind.
    eapply wp_mono; [eapply (fflush_spec [s]); [by left|exact Hst1]|].
    intros _ w2 (h2 & Hst2 & Hp & _). apply wp_ret. eauto. }
  unfold wp in H. destruct (session io s cs w) as [rs w'| |w'| |]; [|done| |done..].
  - destruct H as [(-> & h & Hst & Hp) _]. split; [done|]. split; [exact (stream_flushed _ _ _ _ _ _ Hst Hp)|].
    split; [|apply (proj2_sig (net w'))]. exists (pending_in h).
    exact (eq_sym (st_in _ _ _ _ _ _ Hst)).
  - split; [|apply (proj2_sig (net w'))]. intros Hh. apply H. constructor; [done|constructor].
Qed.
End threads_io.

(** ** Example

    A script that makes its user wait twice before each answer, and that knows
    which sockets were closed. *)

Record slow := Slow { waits : nat; fast : script; shut : list Z }.

Definition slowly {A B} (f : A -> B) (none : B) (call : prog script A) (ret : A -> Z) (o : slow)
  : Z * Z * B * slow :=
  match waits o with
  | S k => (-1, EWOULDBLOCK, none, Slow k (fast o) (shut o))
  | O => match call (fast o) with
         | Ret a e => (ret a, 0, f a, Slow 2 e (shut o))
         | _ => (-1, 5, none, Slow 2 (fast o) (shut o))
         end
  end.

#[export] Program Instance slow_calls : SocketCalls slow := {
  to_read := fun o => input (fast o);
  written := fun o => output (fast o);
  sound := fun o => healthy (fast o);
  sys_read := fun s n => slowly snd [] (pth_read s (Z.to_nat n)) fst;
  sys_write := fun s bs => slowly (fun _ => tt) tt (pth_write s bs) id;
  os_close := fun s o => (0, Slow (waits o) (fast o) (s :: shut o))
}.
Next Obligation.
  intros s n [[|k] e c]; unfold slowly; simpl; [|by split_and!; [left|..]].
  rewrite Nat2Z.id. pose proof (read_law s n e) as L. simpl in L.
  destruct (script_read s n e) as [[r bs] e'| |e'| |]; try done.
  - destruct L as ([[? ?]|L1] & L2); (split; [|exact L2]); auto.
  - by split_and!; [right; left|..].
Qed.
Next Obligation.
  intros s bs [[|k] e c] Hbs; unfold slowly; simpl; [|by split_and!; [left|..]].
  pose proof (write_law s bs e Hbs) as L. simpl in L.
  destruct (script_write s bs e) as [r e'| |e'| |]; try done.
  - destruct L as ([[? ?]|L1] & L2); (split; [|exact L2]); auto.
  - by split_and!; [right; left|..].
Qed.

Definition slow_state : pstate (X := Empty_set) (OS := slow) :=
  PState (reactor_init 5 0) false None false None None (None, None)
    (Slow 2 (Script [(3, sample_request)] [] 4 []) []).

Lemma slow_mine (s : pstate (X := Empty_set) (OS := slow)) m :
  my_handles 1%positive s m -> my_handles 1%positive (id s) m.
Proof. done. Qed.

Lemma slow_streams (st : pstate (X := Empty_set) (OS := slow)) s :
  to_read (os (id st)) s = to_read (os st) s /\ written (os (id st)) s = written (os st) s /\
  (sound (os st) s -> sound (os (id st)) s).
Proof. done. Qed.

Lemma slow_alarm (st : pstate (X := Empty_set) (OS := slow)) :
  alarm_timer st = None -> alarm_timer (id st) = None /\ alarm_received (id st) = alarm_received st.
Proof. done. Qed.

Lemma slowly_served {A B} (f : A -> B) none call (ret : A -> Z) o b o' :
  slowly f none call ret o = (-1, EWOULDBLOCK, b, o') -> (waits o' < waits o)%nat.
Proof.
  unfold slowly. destruct (waits o) as [|k]; [|intros [= _ <-]; simpl; lia].
  destruct (call (fast o)); discriminate.
Qed.

Lemma slow_reader s n (st : pstate (X := Empty_set) (OS := slow)) b o :
  sys_read s n (os st) = (-1, EWOULDBLOCK, b, o) ->
  forall st1 : pstate (X := Empty_set), os st1 = o -> (waits (os (id st1)) < waits (os st))%nat.
Proof. intros H st1 E. simpl. rewrite E. by apply (slowly_served _ _ _ _ _ _ _ H). Qed.

Lemma slow_writer s bs (st : pstate (X := Empty_set) (OS := slow)) b o :
  sys_write s bs (os st) = (-1, EWOULDBLOCK, b, o) ->
  forall st1 : pstate (X := Empty_set), os st1 = o -> (waits (os (id st1)) < waits (os st))%nat.
Proof. intros H st1 E. simpl. rewrite E. by apply (slowly_served _ _ _ _ _ _ _ H). Qed.

Lemma slow_handles : my_handles 1%positive slow_state ∅.
Proof. split; [apply empty_table_wf|]. exists ∅. split; [done|apply map_filter_empty]. Qed.

Lemma io_over_reactor_witness :
  let st := slow_state in
  let w := IoW ∅ (exist _ st slow_handles) in
  let calls := [Peek; Fgets 100 false; Fputs (lit "ok"); Fread 4] in
  match session demo_jh demo_jp 1%positive id slow_mine slow_streams slow_alarm
          (fun _ => waits) slow_reader slow_writer ∅ (fun _ => x00) 1%positive 3 calls w with
  | Ret rs w' =>
      rs = [RInt (char_val "G"); RString (Some (lit "GET / HTTP/1.0")); RInt 1;
            RBlock (lit "Host")] /\
      written (os (proj1_sig (net w'))) 3 = lit "ok" /\
      (exists unread, lit ": a" = unread ++ to_read (os (proj1_sig (net w'))) 3) /\
      my_handles 1%positive (proj1_sig (net w')) ∅
  | PthExit w' => ~ (sound (os st) 3 /\ calm st) /\
      my_handles 1%positive (proj1_sig (net w')) ∅
  | _ => False
  end.
Proof.
  cbv zeta.
  pose proof (io_over_reactor demo_jh demo_jp 1%positive id slow_mine slow_streams slow_alarm
    (fun _ => waits) slow_reader slow_writer ∅ (fun _ => x00)
    (IoW ∅ (exist _ slow_state slow_handles)) 1%positive 3
    [Peek; Fgets 100 false; Fputs (lit "ok"); Fread 4]) as H.
  cbv zeta in H. cbn [net proj1_sig] in H.
  change (to_read (os slow_state) 3) with sample_request in H.
  change (written (os slow_state) 3) with (@nil byte) in H.
  rewrite request_calls in H. exact H.
Defined.
