(* ===== verification/IoWorld.v ===== *)
(** * Programs that use I/O handles

    The HTTP, CGI and FTP code works on handles of [Iolib.v] and on variables
    of its own.  A world with handles is an instance of [IoWorld]; programs on
    handles run in it, and what was proved of them holds there. *)

From stdpp Require Import base list gmap.
From Stdlib Require Import Strings.Byte.
From S2P Require Import Prelude C2lib ReactorTimers Prog Iolib IolibSpec.

Class IoWorld (E S : Type) := {
  wio : S -> iow (E := E);
  with_io : iow (E := E) -> S -> S;
  wio_with : forall io w, wio (with_io io w) = io;
  with_wio : forall w, with_io (wio w) w = w;
  with_with : forall io io' w, with_io io (with_io io' w) = with_io io w
}.

Section world.
Context {E S : Type} `{SK : Sockets E} `{IW : IoWorld E S}.

Definition on_io {A} (m : prog (iow (E := E)) A) : prog S A := fun w =>
  match m (wio w) with
  | Ret a io => Ret a (with_io io w)
  | Die msg io => Die msg (with_io io w)
  | PthExit io => PthExit (with_io io w)
  | Abort => Abort
  | NoFuel => NoFuel
  end.

(** As [wp], for programs that may also end with an exception satisfying [D]. *)
Definition wpd {A} (ss : list Z) (m : prog S A) (w : S) (Q : A -> S -> Prop)
    (D : bytes -> S -> Prop) : Prop :=
  match m w with
  | Ret a w' => Q a w' /\ (all_healthy ss (net (wio w)) -> all_healthy ss (net (wio w')))
  | Die msg w' => D msg w'
  | PthExit _ => ~ all_healthy ss (net (wio w))
  | _ => False
  end.

Lemma wpd_ret {A} ss (a : A) w (Q : A -> S -> Prop) D : Q a w -> wpd ss (mret a) w Q D.
Proof. intros HQ. split; [exact HQ|done]. Qed.

Lemma wpd_bind {A B} ss (m : prog S A) (k : A -> prog S B) w Q D :
  wpd ss m w (fun a w' => wpd ss (k a) w' Q D) D -> wpd ss (m ≫= k) w Q D.
Proof.
  unfold wpd at 1 3. unfold mbind, prog_bind. destruct (m w) as [a w1| |w1| |]; try done.
  intros [Hk Hh]. unfold wpd in Hk. destruct (k a w1); naive_solver.
Qed.

Lemma wpd_mono {A} ss (m : prog S A) w (Q Q' : A -> S -> Prop) (D D' : bytes -> S -> Prop) :
  wpd ss m w Q D -> (forall a w', Q a w' -> Q' a w') -> (forall x w', D x w' -> D' x w') ->
  wpd ss m w Q' D'.
Proof. unfold wpd. destruct (m w); naive_solver. Qed.

Lemma wpd_io {A} ss (m : prog (iow (E := E)) A) w Q (Q' : A -> S -> Prop) D :
  wp ss m (wio w) Q -> (forall a io', Q a io' -> Q' a (with_io io' w)) ->
  wpd ss (on_io m) w Q' D.
Proof.
  unfold wp, wpd, on_io. destruct (m (wio w)); try done. intros [HQ Hh] HQ'.
  rewrite wio_with. split; [|exact Hh]. by apply HQ'.
Qed.

Lemma wpd_io_bind {A B} ss (m : prog (iow (E := E)) A) (k : A -> prog S B) w Q Q' D :
  wp ss m (wio w) Q -> (forall a io', Q a io' -> wpd ss (k a) (with_io io' w) Q' D) ->
  wpd ss (on_io m ≫= k) w Q' D.
Proof. intros Hm Hk. apply wpd_bind. by eapply wpd_io. Qed.

Lemma wpd_read {A B} ss (f : S -> A) (k : A -> prog S B) w Q D :
  wpd ss (k (f w)) w Q D -> wpd ss ((fun w => Ret (f w) w) ≫= k) w Q D.
Proof. intros Hk. apply wpd_bind. split; [exact Hk|done]. Qed.

(** Only the handle [io], on socket [s], was used. *)
Definition quiet (io : loc) (s : Z) (w w' : S) : Prop :=
  w' = with_io (wio w') w /\ only io s (wio w) (wio w').

Lemma quiet_refl io s w : quiet io s w w.
Proof. split; [by rewrite with_wio|apply only_refl]. Qed.

Lemma quiet_trans io s w1 w2 w3 : quiet io s w1 w2 -> quiet io s w2 w3 -> quiet io s w1 w3.
Proof.
  intros [H1 O1] [H2 O2]. split; [|by eapply only_trans].
  rewrite H2 at 1. rewrite H1 at 1. apply with_with.
Qed.

Lemma quiet_io io s w io' : only io s (wio w) io' -> quiet io s w (with_io io' w).
Proof. intros H. by split; rewrite wio_with. Qed.

(** The stream [io] has [txt] more written on it. *)
Definition wrote (io : loc) (s : Z) (i o : bytes) (w : S) (txt : bytes) (w' : S) : Prop :=
  quiet io s w w' /\ exists h, stream (wio w') io s i (o ++ txt) h.

Lemma wrote_cons io s i o (w w1 w2 : S) a b :
  wrote io s i o w a w1 -> wrote io s i (o ++ a) w1 b w2 -> wrote io s i o w (a ++ b) w2.
Proof.
  intros [Q1 _] [Q2 [h H]]. split; [by eapply quiet_trans|]. exists h. by rewrite app_assoc.
Qed.

Lemma puts_spec ss str io s i o (w : S) D :
  s ∈ ss -> (exists h, stream (wio w) io s i o h) ->
  wpd ss (on_io (io_fputs str io)) w (fun _ w' => wrote io s i o w str w') D.
Proof.
  intros Hs [h Hst]. eapply wpd_io; [by apply (fputs_spec ss str io s i o h (wio w))|].
  intros r io' (_ & h' & Hst' & _ & Hon). split; [by apply quiet_io|]. exists h'. by rewrite wio_with.
Qed.

(** Writing several strings, one after the other. *)
Lemma puts_then {A} ss str io s i o (w : S) (k : Z -> prog S A) Q D :
  s ∈ ss -> (exists h, stream (wio w) io s i o h) ->
  (forall r w1, wrote io s i o w str w1 -> wpd ss (k r) w1 Q D) ->
  wpd ss (on_io (io_fputs str io) ≫= k) w Q D.
Proof.
  intros Hs Hst Hk. apply wpd_bind. eapply wpd_mono; [by eapply (puts_spec ss str)| |done].
  intros r w1 Hw. by apply Hk.
Qed.

Lemma printed_short text : (length text < 4096)%nat -> printed text = text.
Proof. intros H. unfold printed. by rewrite decide_False by lia. Qed.

Lemma printf_spec ss text io s i o (w : S) D :
  s ∈ ss -> (exists h, stream (wio w) io s i o h) ->
  wpd ss (on_io (io_fprintf io text)) w (fun _ w' => wrote io s i o w (printed text) w') D.
Proof.
  intros Hs [h Hst]. eapply wpd_io; [by apply (fprintf_spec ss text io s i o h (wio w))|].
  intros r io' (_ & h' & Hst' & Hon). split; [by apply quiet_io|]. exists h'. by rewrite wio_with.
Qed.

(** The program aborts, unless the thread ends because a socket of [ss] fails. *)
Definition aborts {A} (ss : list Z) (m : prog S A) (w : S) : Prop :=
  match m w with
  | Abort => True
  | PthExit _ => ~ all_healthy ss (net (wio w))
  | _ => False
  end.

Lemma aborts_first {A B} ss (m : prog S A) (k : A -> prog S B) w :
  aborts ss m w -> aborts ss (m ≫= k) w.
Proof. unfold aborts, mbind, prog_bind. by destruct (m w). Qed.

Lemma aborts_read {A B} ss (f : S -> A) (k : A -> prog S B) w :
  aborts ss (k (f w)) w -> aborts ss ((fun w => Ret (f w) w) ≫= k) w.
Proof. done. Qed.

Lemma aborts_io {A B} ss (m : prog (iow (E := E)) A) (k : A -> prog S B) w Q :
  wp ss m (wio w) Q -> (forall a io', Q a io' -> aborts ss (k a) (with_io io' w)) ->
  aborts ss (on_io m ≫= k) w.
Proof.
  unfold wp, aborts, on_io, mbind, prog_bind. destruct (m (wio w)) as [a io'| |io'| |]; try done.
  intros [HQ Hh] Hk. specialize (Hk a io' HQ). rewrite wio_with in Hk.
  destruct (k a _); naive_solver.
Qed.
End world.

#[export] Hint Resolve quiet_refl quiet_trans quiet_io : pthr.
