(* ===== verification/IoKeeps.v ===== *)
(** * What operations on handles leave alone

    A function of the system that reading and writing do not change is not
    changed by the operations on handles, nor by programs made of them. *)

From stdpp Require Import base list gmap.
From Stdlib Require Import Strings.Byte.
From S2P Require Import Prelude C2lib ReactorTimers Prog Iolib IolibSpec IoWorld.

Create HintDb keeps.

Section keeps.
Context {E : Type} `{SK : Sockets E} {X : Type} (f : E -> X).
Abbreviation iow := (iow (E := E)).

Definition keeps {A} (m : prog iow A) : Prop := forall w,
  match m w with
  | Ret _ w' | Die _ w' | PthExit w' => f (net w') = f (net w)
  | _ => True
  end.

Context (keeps_read : forall s n, keeps (on_net (pth_read s n))).
Context (keeps_write : forall s bs, keeps (on_net (pth_write s bs))).

Lemma keeps_ret {A} (a : A) : keeps (mret a).
Proof. by intros w. Qed.

Lemma keeps_bind {A B} (m : prog iow A) (k : A -> prog iow B) :
  keeps m -> (forall a, keeps (k a)) -> keeps (m ≫= k).
Proof.
  intros Hm Hk w. specialize (Hm w). unfold mbind, prog_bind. destruct (m w) as [a w'| | | |]; try done.
  specialize (Hk a w'). destruct (k a w'); congruence.
Qed.

Lemma keeps_handle io : keeps (handle io).
Proof. intros w. unfold handle. by destruct (ios w !! io). Qed.

Lemma keeps_put io h : keeps (put io h).
Proof. by intros w. Qed.

Lemma keeps_exit {A} : keeps (A := A) err.
Proof. by intros w. Qed.

Lemma keeps_nofuel {A} : keeps (A := A) (fun _ => NoFuel).
Proof. by intros w. Qed.

Lemma keeps_expect {A} (o : option A) : keeps (expect o).
Proof. by destruct o; intros w. Qed.

#[local] Hint Resolve keeps_ret keeps_bind keeps_handle keeps_put keeps_exit keeps_nofuel
  keeps_expect keeps_read keeps_write : keeps.

(** One case analysis at a time. *)
Ltac keeps := repeat match goal with
  | |- keeps _ => solve [auto with keeps nocore]
  | |- keeps (_ ≫= _) => apply keeps_bind; [|intros ?]
  | |- keeps _ => case_match
  end.

Lemma keeps_write_loop k io b data : keeps (write_loop k io b data).
Proof. revert data. induction k as [|k IH]; intros data; destruct data; cbn [write_loop]; keeps. Qed.
#[local] Hint Resolve keeps_write_loop : keeps.

Lemma keeps_flush io b : keeps (flush io b).
Proof. unfold flush. keeps. Qed.
#[local] Hint Resolve keeps_flush : keeps.

Lemma keeps_fflush io : keeps (io_fflush io).
Proof. unfold io_fflush. keeps. Qed.
#[local] Hint Resolve keeps_fflush : keeps.

Lemma keeps_fgetc io : keeps (io_fgetc io).
Proof. unfold io_fgetc. cbn [fgetc_next]. unfold take_char. keeps. Qed.
#[local] Hint Resolve keeps_fgetc : keeps.

Lemma keeps_fgets_loop k io s : keeps (fgets_loop k io s).
Proof. revert s. induction k as [|k IH]; intros s; cbn [fgets_loop]; keeps. Qed.
#[local] Hint Resolve keeps_fgets_loop : keeps.

Lemma keeps_fgets n io b : keeps (io_fgets n io b).
Proof. unfold io_fgets. keeps. Qed.

Lemma keeps_fputc c io : keeps (io_fputc c io).
Proof. unfold io_fputc. cbn [fputc_again]. keeps. Qed.
#[local] Hint Resolve keeps_fputc : keeps.

Lemma keeps_fputs_loop s io : keeps (fputs_loop s io).
Proof. induction s as [|b s IH]; cbn [fputs_loop]; keeps. Qed.
#[local] Hint Resolve keeps_fputs_loop : keeps.

Lemma keeps_fputs s io : keeps (io_fputs s io).
Proof. unfold io_fputs. keeps. Qed.
#[local] Hint Resolve keeps_fputs : keeps.

Lemma keeps_fprintf io text : keeps (io_fprintf io text).
Proof. unfold io_fprintf. cbv zeta. keeps. Qed.
#[local] Hint Resolve keeps_fprintf : keeps.

Lemma keeps_fwrite data io : keeps (io_fwrite data io).
Proof. unfold io_fwrite. keeps. Qed.

Lemma keeps_setbufmode io mode : keeps (io_setbufmode io mode).
Proof. unfold io_setbufmode. keeps. Qed.
End keeps.

(** ** In a world with handles *)

Section world.
Context {E S : Type} `{SK : Sockets E} `{IW : IoWorld E S} {X : Type} (f : E -> X).

Definition keeps_world {A} (m : prog S A) : Prop := forall w,
  match m w with
  | Ret _ w' | Die _ w' | PthExit w' => f (net (wio w')) = f (net (wio w))
  | _ => True
  end.

Lemma keeps_world_io {A} (m : prog (iow (E := E)) A) : keeps f m -> keeps_world (on_io m).
Proof.
  intros Hm w. specialize (Hm (wio w)). unfold on_io. destruct (m (wio w)); try done; by rewrite wio_with.
Qed.

Lemma keeps_world_ret {A} (a : A) : keeps_world (mret a).
Proof. by intros w. Qed.

Lemma keeps_world_bind {A B} (m : prog S A) (k : A -> prog S B) :
  keeps_world m -> (forall a, keeps_world (k a)) -> keeps_world (m ≫= k).
Proof.
  intros Hm Hk w. specialize (Hm w). unfold mbind, prog_bind. destruct (m w) as [a w'| | | |]; try done.
  specialize (Hk a w'). destruct (k a w'); congruence.
Qed.

Lemma wpd_keeps {A} ss (m : prog S A) w (Q : A -> S -> Prop) D :
  keeps_world m -> wpd ss m w Q D ->
  wpd ss m w (fun a w' => Q a w' /\ f (net (wio w')) = f (net (wio w))) D.
Proof. intros Hm. specialize (Hm w). unfold wpd. destruct (m w); naive_solver. Qed.
End world.
