(* ===== verification/IoClose.v ===== *)
(** * Closing a handle ([src/pthr_iolib.c])

    [io_fclose] sends what is left in the buffer before it closes the socket. *)

From stdpp Require Import base list gmap.
From Stdlib Require Import Strings.Byte.
From S2P Require Import Prelude C2lib ReactorTimers Prog Iolib IolibSpec IoWorld.

(** [close] succeeds on a healthy socket and what was written to it stays written. *)
Class Closes (E : Type) `{SK : Sockets E} :=
  close_law : forall s e, healthy e s ->
    exists e', sys_close s e = Ret 0 e' /\ forall s', output e' s' = output e s'.

Section close.
Context {E : Type} `{SK : Sockets E} `{CL : !Closes E}.
Abbreviation iow := (iow (E := E)).

(** A loop that succeeds does not depend on how errors are treated. *)
Lemma write_loop_ignore fuel io data (w w' : iow) :
  write_loop fuel io false data w = Ret tt w' -> write_loop fuel io true data w = Ret tt w'.
Proof.
  revert data w. induction fuel as [|k IH]; intros [|b data] w; cbn [write_loop]; try done.
  unfold mbind, prog_bind. destruct (handle io w) as [h w1| | | |]; try done.
  destruct (on_net _ w1) as [r w2| | | |]; try done. destruct (decide (r < 0)); [done|].
  destruct (handle io w2) as [h2 w3| | | |]; try done. simpl. apply IH.
Qed.

Lemma wp_healthy {A} ss (m : prog iow A) w Q :
  wp ss m w Q -> all_healthy ss (net w) ->
  exists a w', m w = Ret a w' /\ Q a w' /\ all_healthy ss (net w').
Proof. unfold wp. destruct (m w); try done. intros [HQ Hh] H. eauto 10. Qed.

Lemma flush_ignore io s i o h (w : iow) :
  stream w io s i o h -> all_healthy [s] (net w) ->
  exists w', flush io true w = Ret tt w' /\ (exists h', ios w' !! io = Some h' /\ sock h' = s) /\
    output (net w') s = o /\ all_healthy [s] (net w').
Proof.
  intros Hst Hh. pose proof (flush_spec [s] io s i o h w ltac:(by left) Hst) as Hf.
  destruct (wp_healthy _ _ _ _ Hf Hh) as ([] & w' & Hr & (h' & Hst' & Hp & _) & Hh').
  exists w'. split.
  - revert Hr. unfold flush, mbind, prog_bind. destruct (handle io w) as [h0 w0| | | |]; try done.
    destruct (write_loop _ io false _ w0) as [[] w1| | | |] eqn:Ew; try done.
    by rewrite (write_loop_ignore _ _ _ _ _ Ew).
  - split; [exists h'; split; apply Hst'|]. split; [|done]. destruct Hst' as [_ _ _ _ <-].
    unfold pending_out. by rewrite Hp, app_nil_r.
Qed.

(** The state in which the socket is closed, everything written having arrived. *)
Definition closed_after (s : Z) (o : bytes) (e : E) : Prop :=
  exists e1, output e1 s = o /\ sys_close s e1 = Ret 0 e.

(** On a healthy socket everything written arrives, then the socket is closed and the
    handle is freed. *)
Lemma fclose_spec io s i o h (w : iow) :
  stream w io s i o h -> all_healthy [s] (net w) ->
  exists w', io_fclose io w = Ret tt w' /\ ios w' !! io = None /\ output (net w') s = o /\
    closed_after s o (net w').
Proof.
  intros Hst Hh. pose proof Hst as [Hl _ Hsk _ Ho].
  assert (exists w1, (if decide (0 < outbufpos h)%nat then flush io true else mret tt) w = Ret tt w1 /\
    output (net w1) s = o /\ all_healthy [s] (net w1)) as (w1 & H1 & Ho1 & Hh1).
  { destruct (decide _) as [Hp|Hp].
    - destruct (flush_ignore io s i o h w Hst Hh) as (w1 & ? & _ & ? & ?). eauto.
    - exists w. split; [done|]. split; [|done]. unfold pending_out in Ho.
      replace (outbufpos h) with 0%nat in Ho by lia. by rewrite app_nil_r in Ho. }
  destruct (close_law s (net w1)) as (e' & Hc & Hout); [by apply (proj1 (Forall_singleton _ _) Hh1)|].
  eexists. split; [|split; [|split]].
  - unfold io_fclose, andthen, do_close, mbind, prog_bind, handle. rewrite Hl.
    unfold mbind, prog_bind. rewrite H1. rewrite Hsk. unfold on_net. rewrite Hc. done.
  - simpl. apply lookup_delete_eq.
  - simpl. by rewrite Hout.
  - by exists (net w1).
Qed.
End close.
