(* ===== verification/Http.v ===== *)
(** * HTTP requests and responses ([src/pthr_http.c])

    Requests are read from, and responses written to, a handle of [Iolib.v].
    Requests and responses are values: [http_request_set_url] and the functions
    that send headers return the new one. *)

From stdpp Require Import base list gmap.
From Stdlib Require Import Strings.Byte.
From S2P Require Import Prelude C2lib ReactorTimers Prog Cstring CgiEscape Iolib IolibSpec IoWorld.

Definition MAX_LINE_LENGTH : Z := 4096.
Definition CRLF : bytes := [CR; LF].

Definition HTTP_METHOD_GET : Z := 1.
Definition HTTP_METHOD_HEAD : Z := 2.
Definition HTTP_METHOD_POST : Z := 3.

Definition HTTP_XH_SERVER : Z := 1.
Definition HTTP_XH_DATE : Z := 2.
Definition HTTP_XH_CONTENT_TYPE : Z := 4.
Definition HTTP_XH_CONNECTION : Z := 8.
Definition HTTP_XH_CONTENT_LENGTH : Z := 16.
Definition HTTP_XH_TRANSFER_ENCODING_CHUNKED : Z := 32.
Definition HTTP_XH_LENGTH_DEFINED : Z :=
  Z.lor HTTP_XH_CONTENT_LENGTH HTTP_XH_TRANSFER_ENCODING_CHUNKED.

Section http.
Context {E : Type} `{SK : Sockets E} `{PS : Pstring} {shash : Type -> Type} `{SH : Shash shash}.
(** [strftime] of [gmtime] in a format, and the address and port of the peer of
    a socket. *)
Context (strftime : bytes -> Z -> bytes) (getpeername : Z -> bytes * Z).
Context (junk : nat -> byte).

(** The world of a thread that serves HTTP: its handles and the global
    variables [servername], [log_fp] (with what was logged), [post_max] and
    [reactor_time]. *)
Record web := Web {
  web_io : iow (E := E);
  servername : bytes;
  log_fp : option bytes;
  post_max : Z;
  reactor_time : Z
}.

#[export] Program Instance web_world : IoWorld E web := {|
  wio := web_io;
  with_io io w := Web io (servername w) (log_fp w) (post_max w) (reactor_time w) |}.
Solve All Obligations with by intros; try destruct w.

Record http_request := HttpRequest {
  t : Z;
  method : Z;
  original_url : bytes;
  url : bytes;
  path : bytes;
  query_string : option bytes;
  is_http09 : bool;
  major : Z;
  minor : Z;
  headers : shash bytes
}.

Record http_response := HttpResponse {
  request : http_request;
  code : Z;
  rio : loc;
  extra_headers : Z;
  content_length : Z
}.

Definition http_get_servername : prog web bytes := fun w => Ret (servername w) w.

Definition http_set_servername (name : bytes) : prog web bytes := fun w =>
  Ret name (Web (web_io w) name (log_fp w) (post_max w) (reactor_time w)).

(** ** Requests *)

(** The path and the query string of a URL. *)
Definition parse_url (m : Z) (u : bytes) : bytes * option bytes :=
  if decide (m = HTTP_METHOD_POST) then (u, None)
  else match strchr u "?" with
       | None => (u, None)
       | Some (p, q) => (p, Some q)
       end.

(** [io_fgets] into [line]. *)
Definition get_line (io : loc) : prog web (option bytes) :=
  r ← on_io (io_fgets MAX_LINE_LENGTH io false); mret (cstr <$> r).

(** From the label [again]: the first line that is not blank. *)
Fixpoint first_line (fuel : nat) (io : loc) : prog web (option bytes) :=
  match fuel with
  | O => fun _ => NoFuel
  | S k =>
    l ← get_line io;
    match l with
    | Some [] => first_line k io
    | _ => mret l
    end
  end.

(** A reply to a faulty request, and the exception. *)
Definition faulty {A} (io : loc) (reply msg : bytes) : prog web A :=
  on_io (io_fputs reply io) ≫= fun _ => pth_die msg.

(** The method and the rest of the line. *)
Definition parse_method (line : bytes) : option (Z * bytes) :=
  if strncmp_eq line (lit "GET ") 4 then Some (HTTP_METHOD_GET, drop 4 line)
  else if strncmp_eq line (lit "HEAD ") 5 then Some (HTTP_METHOD_HEAD, drop 5 line)
  else if strncmp_eq line (lit "POST ") 5 then Some (HTTP_METHOD_POST, drop 5 line)
  else None.

(** The version numbers; [v] starts after the blank that ends the URL. *)
Definition parse_version (v : bytes) : option (Z * Z) :=
  if strncmp_eq v (lit "HTTP/") 5 then
    match v !! 5%nat, v !! 6%nat, v !! 7%nat with
    | Some a, Some p, Some b =>
      if isdigit a && bool_decide (p = "."%byte) && isdigit b
      then Some (char_val a - 48, char_val b - 48) else None
    | _, _, _ => None
    end
  else None.

(** The loop that reads the headers. *)
Fixpoint read_headers (fuel : nat) (io : loc) (hs : shash bytes) : prog web (shash bytes) :=
  match fuel with
  | O => fun _ => NoFuel
  | S k =>
    l ← get_line io;
    match l with
    | None => faulty io (lit "HTTP/1.1 400 Unexpected EOF in request" ++ CRLF)
                (lit "unexpected EOF reading headers")
    | Some [] => mret hs
    | Some line =>
      match strchr line ":" with
      | None => faulty io (lit "HTTP/1.1 400 Badly formed header" ++ CRLF)
                  (lit "badly formed header in request")
      | Some (key, value) =>
        read_headers k io (shash_insert hs (pstrlwr key) (ptrim value))
      end
    end
  end.

Definition new_http_request (fuel : nat) (io : loc) : prog web (option http_request) :=
  now ← (fun w => Ret (reactor_time w / 1000) w);
  l ← first_line fuel io;
  match l with
  | None => mret None
  | Some line =>
    match parse_method line with
    | None =>
      faulty io (lit "HTTP/1.1 405 Method not allowed" ++ CRLF ++
                 lit "Allow: GET, HEAD, POST" ++ CRLF ++ CRLF)
        (lit "bad method (not a GET, HEAD or POST request)")
    | Some (m, start_url) =>
      match strchr start_url " " with
      | None =>
        let '(p, q) := parse_url m start_url in
        mret (Some (HttpRequest now m start_url start_url p q true 0 9 new_shash))
      | Some (u, v) =>
        let '(p, q) := parse_url m u in
        match parse_version v with
        | None =>
          faulty io (lit "HTTP/1.1 400 Badly formed request" ++ CRLF)
            (lit "badly formed request -- no HTTP/x.y")
        | Some (ma, mi) =>
          hs ← read_headers fuel io new_shash;
          mret (Some (HttpRequest now m u u p q false ma mi hs))
        end
      end
    end
  end.

Definition http_request_set_url (h : http_request) (u : bytes) : http_request :=
  let '(p, q) := parse_url (method h) u in
  HttpRequest (t h) (method h) (original_url h) u p q (is_http09 h) (major h) (minor h)
    (headers h).

Definition method_string (m : Z) : option bytes :=
  if decide (m = HTTP_METHOD_GET) then Some (lit "GET")
  else if decide (m = HTTP_METHOD_HEAD) then Some (lit "HEAD")
  else if decide (m = HTTP_METHOD_POST) then Some (lit "POST")
  else None.

Definition http_request_method_string (h : http_request) : prog web bytes :=
  expect (method_string (method h)).

Definition http_request_is_HEAD (h : http_request) : bool :=
  bool_decide (method h = HTTP_METHOD_HEAD).

Definition http_request_nr_headers (h : http_request) : nat := length (shash_keys (headers h)).

(** The value is null for a key that is not in the hash. *)
Definition http_request_get_headers (h : http_request) : list (bytes * option bytes) :=
  (fun key => (key, shash_get (headers h) key)) <$> shash_keys (headers h).

Definition http_request_get_header (h : http_request) (key : bytes) : option bytes :=
  shash_get (headers h) (pstrlwr key).

(** The first cookie of that name among the pieces of the header. *)
Fixpoint find_cookie (key : bytes) (v : list bytes) : prog web (option bytes) :=
  match v with
  | [] => mret None
  | str :: v =>
    let keylen := length key in
    if negb (bool_decide (head str = Some "$"%byte)) && strncasecmp_eq str key keylen &&
       bool_decide (str !! keylen = Some "="%byte)
    then s ← expect (cgi_unescape junk (drop (S keylen) str)); mret (Some s)
    else find_cookie key v
  end.

Definition http_request_get_cookie (h : http_request) (key : bytes) : prog web (option bytes) :=
  match http_request_get_header h (lit "Cookie") with
  | None => mret None
  | Some cookie_hdr =>
    find_cookie key (pstrresplit cookie_hdr ([ "["%byte; " "%byte; x09; LF ] ++ lit ",;]+"))
  end.

(** ** Responses *)

Definition new_http_response (q : http_request) (io : loc) (c : Z) (msg : bytes)
  : prog web http_response :=
  on_io (io_setbufmode io IO_MODE_FULLY_BUFFERED) ≫= fun _ =>
  let h := HttpResponse q c io (to_u32 (-1)) 0 in
  if is_http09 q then mret h
  else
    on_io (io_fprintf io (lit "HTTP/1.1 " ++ print_int c ++ lit " " ++ msg ++ CRLF)) ≫= fun _ =>
    mret h.

(** [h->extra_headers &= ~bit] when the key is [name] *)
Definition seen (key name : bytes) (bit : Z) (x : Z) : Z :=
  if strcasecmp_eq key name then Z.land x (to_u32 (Z.lnot bit)) else x.

Definition http_response_send_header (h : http_response) (key value : bytes)
  : prog web http_response :=
  if is_http09 (request h) then mret h
  else
    on_io (io_fputs key (rio h)) ≫= fun _ =>
    on_io (io_fputs (lit ": ") (rio h)) ≫= fun _ =>
    on_io (io_fputs value (rio h)) ≫= fun _ =>
    on_io (io_fputs CRLF (rio h)) ≫= fun _ =>
    let x := extra_headers h in
    let x := seen key (lit "Server") HTTP_XH_SERVER x in
    let x := seen key (lit "Date") HTTP_XH_DATE x in
    let x := seen key (lit "Content-Type") HTTP_XH_CONTENT_TYPE x in
    let x := seen key (lit "Connection") HTTP_XH_CONNECTION x in
    let x := seen key (lit "Content-Length") HTTP_XH_CONTENT_LENGTH x in
    let len := if strcasecmp_eq key (lit "Content-Length")
               then match scan_int value with Some (n, _) => n | None => content_length h end
               else content_length h in
    let x := if strcasecmp_eq value (lit "chunked")
             then seen key (lit "Transfer-Encoding") HTTP_XH_TRANSFER_ENCODING_CHUNKED x else x in
    mret (HttpResponse (request h) (code h) (rio h) x len).

(** The loop over the variable arguments. *)
Fixpoint send_all (h : http_response) (kvs : list (bytes * bytes)) : prog web http_response :=
  match kvs with
  | [] => mret h
  | (k, v) :: kvs => h ← http_response_send_header h k v; send_all h kvs
  end.

Definition http_response_send_headers (h : http_response) (kvs : list (bytes * bytes))
  : prog web http_response :=
  if is_http09 (request h) then mret h else send_all h kvs.

(** The line that is logged. *)
Definition log_line (h : http_response) (m addr_str : bytes) (port : Z) : bytes :=
  let q := request h in
  let referer := default (lit "-") (http_request_get_header q (lit "Referer")) in
  let user_agent := default (lit "-") (http_request_get_header q (lit "User-Agent")) in
  let quote := [x22] in
  strftime (lit "%Y/%m/%d %H:%M:%S") (t q) ++ lit " " ++ addr_str ++ lit ":" ++
  print_int port ++ lit " " ++ quote ++ m ++ lit " " ++ original_url q ++ lit " HTTP/" ++
  print_int (major q) ++ lit "." ++ print_int (minor q) ++ quote ++ lit " " ++
  print_int (code h) ++ lit " " ++ print_int (content_length h) ++ lit " " ++
  quote ++ referer ++ quote ++ lit " " ++ quote ++ user_agent ++ quote ++ [LF].

Definition log_text (text : bytes) : prog web unit := fun w =>
  Ret tt (Web (web_io w) (servername w) ((fun l => l ++ text) <$> log_fp w) (post_max w)
            (reactor_time w)).

Definition do_logging (h : http_response) : prog web unit :=
  m ← http_request_method_string (request h);
  fd ← on_io (io_fileno (rio h));
  log_text (log_line h m (getpeername fd).1 (getpeername fd).2).

(** The decision about the connection: the value of [close] and of the header. *)
Definition decide_close (h : http_response) : bool * bytes :=
  if decide (Z.land (extra_headers h) HTTP_XH_LENGTH_DEFINED = HTTP_XH_LENGTH_DEFINED)
  then (true, lit "close")
  else
    match http_request_get_header (request h) (lit "Connection") with
    | Some conn_hdr =>
      if strcasecmp_eq conn_hdr (lit "close") then (true, lit "close")
      else if strcasecmp_eq conn_hdr (lit "keep-alive") then (false, lit "keep-alive")
      else (true, lit "close")
    | None =>
      if decide (major (request h) = 1 /\ 1 <= minor (request h)) then (false, lit "keep-alive")
      else (true, lit "close")
    end.

(** One of the headers sent if the caller did not. *)
Definition send_missing (bit : Z) (key value : bytes) (h : http_response)
  : prog web http_response :=
  if decide (Z.land (extra_headers h) bit = 0) then mret h
  else http_response_send_header h key value.

(** The response and whether the connection is to be closed. *)
Definition http_response_end_headers (h : http_response) : prog web (http_response * bool) :=
  '(h, close) ←
    (if is_http09 (request h) then mret (h, true)
     else
       name ← (fun w => Ret (servername w) w);
       h ← send_missing HTTP_XH_SERVER (lit "Server") name h;
       h ← send_missing HTTP_XH_DATE (lit "Date")
             (strftime (lit "%a, %d %b %Y %H:%M:%S GMT") (t (request h))) h;
       h ← send_missing HTTP_XH_CONTENT_TYPE (lit "Content-Type") (lit "text/plain") h;
       '(h, close) ←
         (if decide (Z.land (extra_headers h) HTTP_XH_CONNECTION = 0) then mret (h, true)
          else
            let '(close, value) := decide_close h in
            h ← http_response_send_header h (lit "Connection") value; mret (h, close));
       on_io (io_fputs CRLF (rio h)) ≫= fun _ => mret (h, close));
  log ← (fun w => Ret (log_fp w) w);
  (if log is Some _ then do_logging h else mret tt) ≫= fun _ => mret (h, close).

(** ** Chunks *)

Definition http_response_write_chunk (h : http_response) (data : bytes) : prog web unit :=
  on_io (io_fprintf (rio h) (print_uint 16 (Z.of_nat (length data)) ++ CRLF)) ≫= fun _ =>
  on_io (io_fwrite data (rio h)) ≫= fun _ =>
  on_io (io_fprintf (rio h) CRLF) ≫= fun _ => mret tt.

Definition http_response_write_chunk_string (h : http_response) (string : bytes)
  : prog web unit :=
  on_io (io_fprintf (rio h)
    (print_uint 16 (Z.of_nat (length string)) ++ CRLF ++ string ++ CRLF)) ≫= fun _ => mret tt.

Definition http_response_write_chunk_end (h : http_response) : prog web unit :=
  on_io (io_fputs (lit "0" ++ CRLF) (rio h)) ≫= fun _ => mret tt.

Definition http_set_log_file (fp : option bytes) : prog web unit := fun w =>
  Ret tt (Web (web_io w) (servername w) fp (post_max w) (reactor_time w)).

Definition http_get_log_file : prog web (option bytes) := fun w => Ret (log_fp w) w.
End http.
