(* ===== verification/HttpSpec.v ===== *)
(** * Proofs about HTTP requests

    The parser of [Http.v] is related to a function on the bytes to be read;
    what is proved of that function holds for every way the input arrives. *)

From stdpp Require Import base list gmap.
From Stdlib Require Import Strings.Byte.
From S2P Require Import Prelude C2lib ReactorTimers Prog Cstring CgiEscape Iolib IolibSpec.
From S2P Require Import IolibStreams IoWorld Http.

(** ** The parser on the bytes to be read *)

Inductive outcome (A : Type) :=
  | Got (a : A)
  | Faulty (msg reply : bytes).
Arguments Got {A}.
Arguments Faulty {A}.

(** The next line, cut at a NUL, and what follows it. *)
Definition next_line (i : bytes) : option bytes * bytes :=
  (cstr <$> (gets_result MAX_LINE_LENGTH false i).1, (gets_result MAX_LINE_LENGTH false i).2).

Fixpoint skip_blank (fuel : nat) (i : bytes) : option bytes * bytes :=
  match fuel, next_line i with
  | S k, (Some [], i') => skip_blank k i'
  | _, x => x
  end.

(** The replies to faulty requests. *)
Definition http_errors : list (bytes * bytes) :=
  [(lit "bad method (not a GET, HEAD or POST request)",
    lit "HTTP/1.1 405 Method not allowed" ++ CRLF ++ lit "Allow: GET, HEAD, POST" ++ CRLF ++ CRLF);
   (lit "badly formed request -- no HTTP/x.y",
    lit "HTTP/1.1 400 Badly formed request" ++ CRLF);
   (lit "unexpected EOF reading headers",
    lit "HTTP/1.1 400 Unexpected EOF in request" ++ CRLF);
   (lit "badly formed header in request",
    lit "HTTP/1.1 400 Badly formed header" ++ CRLF)].

Lemma gets_shorter k acc i :
  (length (gets k acc i).2 <= length i)%nat /\
  ((gets k acc i).1.1 = false -> (0 < k)%nat -> (length (gets k acc i).2 < length i)%nat).
Proof.
  revert acc i. induction k as [|k IH]; intros acc i; simpl; [lia|].
  destruct i as [|b t]; simpl; [lia|].
  destruct (decide (b = xff)); simpl; [split; [lia|done]|].
  destruct (decide (b = LF)); simpl; [lia|]. destruct (IH (acc ++ [b]) t) as [H1 H2]. lia.
Qed.

Lemma next_line_shorter i :
  (length (next_line i).2 <= length i)%nat /\
  (is_Some (next_line i).1 -> (length (next_line i).2 < length i)%nat).
Proof.
  unfold next_line, gets_result.
  pose proof (gets_shorter (Z.to_nat (MAX_LINE_LENGTH - 1)) [] i) as [H1 H2].
  pose proof (gets_bounded (Z.to_nat (MAX_LINE_LENGTH - 1)) [] i) as H3.
  destruct (gets _ [] i) as [[eof l] rest]. simpl in *. split; [done|].
  destruct eof; [|intros _; apply H2; [done|unfold MAX_LINE_LENGTH; lia]].
  destruct (H3 _ _ _ eq_refl) as (d & e & -> & -> & _ & _). simpl.
  destruct (decide (d = [])) as [->|Hd]; [by intros [? ?]|]. intros _. rewrite !length_app.
  destruct d; [done|]. simpl. lia.
Qed.

Lemma skip_blank_shorter fuel i : (length (skip_blank fuel i).2 <= length i)%nat.
Proof.
  revert i. induction fuel as [|k IH]; intros i; cbn [skip_blank];
    pose proof (next_line_shorter i) as [H _].
  - by destruct (next_line i).
  - destruct (next_line i) as [[[|b l]|] i']; simpl in *;
      [|done..]. specialize (IH i'). lia.
Qed.

Section requests.
Context {E : Type} `{SK : Sockets E} `{PS : Pstring} {shash : Type -> Type} `{SH : Shash shash}.
Abbreviation web := (web (E := E)).
Abbreviation http_request := (http_request (shash := shash)).

Fixpoint parse_headers (fuel : nat) (i : bytes) (hs : shash bytes)
  : outcome (shash bytes) * bytes :=
  match fuel with
  | O => (Got hs, i)
  | S k =>
    match next_line i with
    | (None, i') => (Faulty (lit "unexpected EOF reading headers")
                      (lit "HTTP/1.1 400 Unexpected EOF in request" ++ CRLF), i')
    | (Some [], i') => (Got hs, i')
    | (Some line, i') =>
      match strchr line ":" with
      | None => (Faulty (lit "badly formed header in request")
                   (lit "HTTP/1.1 400 Badly formed header" ++ CRLF), i')
      | Some (key, value) => parse_headers k i' (shash_insert hs (pstrlwr key) (ptrim value))
      end
    end
  end.

Definition parse_request (fuel : nat) (now : Z) (i : bytes)
  : outcome (option http_request) * bytes :=
  match skip_blank fuel i with
  | (None, i') => (Got None, i')
  | (Some line, i') =>
    match parse_method line with
    | None => (Faulty (lit "bad method (not a GET, HEAD or POST request)")
                 (lit "HTTP/1.1 405 Method not allowed" ++ CRLF ++
                  lit "Allow: GET, HEAD, POST" ++ CRLF ++ CRLF), i')
    | Some (m, start_url) =>
      match strchr start_url " " with
      | None =>
        (Got (Some (HttpRequest now m start_url start_url (parse_url m start_url).1
                      (parse_url m start_url).2 true 0 9 new_shash)), i')
      | Some (u, v) =>
        match parse_version v with
        | None => (Faulty (lit "badly formed request -- no HTTP/x.y")
                     (lit "HTTP/1.1 400 Badly formed request" ++ CRLF), i')
        | Some (ma, mi) =>
          match parse_headers fuel i' new_shash with
          | (Got hs, i'') =>
            (Got (Some (HttpRequest now m u u (parse_url m u).1 (parse_url m u).2 false ma mi hs)),
             i'')
          | (Faulty msg reply, i'') => (Faulty msg reply, i'')
          end
        end
      end
    end
  end.

(** The ways to end: with a value, or with a reply and an exception. *)
Definition ends {A} (x : outcome A * bytes) (io : loc) (s : Z) (o : bytes) (w : web)
    (r : A) (w' : web) : Prop :=
  x.1 = Got r /\ quiet io s w w' /\ exists h, stream (wio w') io s x.2 o h.

Definition dies {A} (x : outcome A * bytes) (io : loc) (s : Z) (o : bytes) (w : web)
    (msg : bytes) (w' : web) : Prop :=
  exists reply, x.1 = Faulty msg reply /\ quiet io s w w' /\
    exists h, stream (wio w') io s x.2 (o ++ reply) h.

Lemma faulty_spec {A} ss io s i o h (w0 w : web) msg reply :
  s ∈ ss -> stream (wio w) io s i o h -> quiet io s w0 w ->
  wpd ss (faulty (A := A) io reply msg) w (fun _ _ => False)
    (dies (A := A) (Faulty msg reply, i) io s o w0).
Proof.
  intros Hs Hst Hq. eapply wpd_io_bind; [by apply (fputs_spec ss reply io s i o h (wio w))|].
  intros r io' (_ & h' & Hst' & _ & Hon). exists reply. split; [done|].
  split; [|by exists h']. eauto with pthr.
Qed.

Lemma get_line_spec ss io s i o h (w : web) D :
  s ∈ ss -> stream (wio w) io s i o h ->
  wpd ss (get_line io) w (fun l w' => l = (next_line i).1 /\ quiet io s w w' /\
    exists h', stream (wio w') io s (next_line i).2 o h') D.
Proof.
  intros Hs Hst. eapply wpd_io_bind.
  { by apply (fgets_spec ss MAX_LINE_LENGTH false io s i o h (wio w)). }
  intros r io' (h' & -> & Hst' & Hon). apply wpd_ret. split; [done|]. split; [|by exists h'].
  auto with pthr.
Qed.

Lemma first_line_spec ss fuel io s i o h (w : web) D :
  s ∈ ss -> stream (wio w) io s i o h -> (length i < fuel)%nat ->
  wpd ss (first_line fuel io) w (fun l w' => l = (skip_blank fuel i).1 /\ quiet io s w w' /\
    exists h', stream (wio w') io s (skip_blank fuel i).2 o h') D.
Proof.
  intros Hs. revert i h w. induction fuel as [|k IH]; intros i h w Hst Hf; [lia|].
  cbn [first_line skip_blank]. apply wpd_bind.
  eapply wpd_mono; [by apply (get_line_spec ss io s i o h w D)| |done].
  intros l w1 (-> & Hq & h1 & Hst1). pose proof (next_line_shorter i) as [_ Hlt].
  destruct (next_line i) as [[[|b l]|] i']; simpl in *; [|apply wpd_ret; eauto..].
  eapply wpd_mono; [apply (IH i' h1 w1 Hst1)| |done].
  - specialize (Hlt (mk_is_Some _ _ eq_refl)). lia.
  - intros l w' (-> & Hq' & Hst'). split; [done|]. eauto with pthr.
Qed.

Lemma read_headers_spec ss fuel io s i o h (w : web) hs :
  s ∈ ss -> stream (wio w) io s i o h -> (length i < fuel)%nat ->
  wpd ss (read_headers fuel io hs) w (ends (parse_headers fuel i hs) io s o w)
    (dies (parse_headers fuel i hs) io s o w).
Proof.
  intros Hs. revert i h w hs. induction fuel as [|k IH]; intros i h w hs Hst Hf; [lia|].
  cbn [read_headers parse_headers]. apply wpd_bind.
  eapply wpd_mono; [by apply (get_line_spec ss io s i o h w (fun _ _ => False))| |done].
  intros l w1 (-> & Hq & h1 & Hst1). pose proof (next_line_shorter i) as [_ Hlt].
  destruct (next_line i) as [[[|b l]|] i']; simpl in *.
  - apply wpd_ret. split; [done|]. split; [done|]. by exists h1.
  - change (strchr (b :: l) ":") with
      (if decide (b = ":"%byte) then Some ([], l)
       else '(x, r) ← strchr l ":"; Some (b :: x, r)).
    destruct (if decide (b = ":"%byte) then _ else _) as [[key value]|].
    + eapply wpd_mono; [apply (IH i' h1 w1 _ Hst1)| |].
      * specialize (Hlt (mk_is_Some _ _ eq_refl)). lia.
      * intros r w' (Hr & Hq' & Hst'). split; [done|]. eauto with pthr.
      * intros msg w' (reply & Hr & Hq' & Hst'). exists reply. split; [done|]. eauto with pthr.
    + eapply wpd_mono; [by apply (faulty_spec ss io s i' o h1 w w1)|done|done].
  - eapply wpd_mono; [by apply (faulty_spec ss io s i' o h1 w w1)|done|done].
Qed.

Lemma new_http_request_spec ss fuel io s i o h (w : web) :
  s ∈ ss -> stream (wio w) io s i o h -> (length i < fuel)%nat ->
  let x := parse_request fuel (reactor_time w / 1000) i in
  wpd ss (new_http_request fuel io) w (ends x io s o w) (dies x io s o w).
Proof.
  intros Hs Hst Hf. cbv zeta. unfold new_http_request, parse_request.
  apply (wpd_read ss (fun w => reactor_time w / 1000)). apply wpd_bind.
  eapply wpd_mono; [by apply (first_line_spec ss fuel io s i o h w (fun _ _ => False))| |done].
  intros l w1 (-> & Hq & h1 & Hst1). pose proof (skip_blank_shorter fuel i) as Hlen.
  destruct (skip_blank fuel i) as [[line|] i']; simpl in *.
  2:{ apply wpd_ret. split; [done|]. eauto. }
  destruct (parse_method line) as [[m start_url]|].
  2:{ eapply wpd_mono; [by apply (faulty_spec ss io s i' o h1 w w1)|done|done]. }
  destruct (strchr start_url " ") as [[u v]|].
  2:{ destruct (parse_url m start_url). apply wpd_ret. split; [done|]. eauto. }
  destruct (parse_url m u). destruct (parse_version v) as [[ma mi]|].
  2:{ eapply wpd_mono; [by apply (faulty_spec ss io s i' o h1 w w1)|done|done]. }
  apply wpd_bind. eapply wpd_mono; [apply (read_headers_spec ss fuel io s i' o h1 w1 new_shash);
    [done|done|lia]| |].
  - intros hs w2 (Hr & Hq2 & h2 & Hst2). apply wpd_ret.
    destruct (parse_headers fuel i' new_shash) as [x i'']. simpl in *. subst x.
    split; [done|]. simpl. eauto with pthr.
  - intros msg w2 (reply & Hr & Hq2 & h2 & Hst2). exists reply.
    destruct (parse_headers fuel i' new_shash) as [x i'']. simpl in *. subst x.
    split; [done|]. simpl. eauto with pthr.
Qed.
End requests.

(** ** Requests in their written form *)

(** Text with no white space at its ends. *)
Definition trimmed (s : bytes) : Prop :=
  (forall c, head s = Some c -> isspace c = false) /\
  (forall c, last s = Some c -> isspace c = false).

Definition header_text (kv : bytes * bytes) : bytes := kv.1 ++ lit ": " ++ kv.2 ++ CRLF.

Definition header_ok (kv : bytes * bytes) : Prop :=
  clean kv.1 /\ (":"%byte ∉ kv.1) /\ clean kv.2 /\ trimmed kv.2 /\
  (length kv.1 + length kv.2 < 4000)%nat.

Definition method_text (m : Z) : bytes :=
  if decide (m = HTTP_METHOD_GET) then lit "GET "
  else if decide (m = HTTP_METHOD_HEAD) then lit "HEAD " else lit "POST ".

Definition request_line (m : Z) (u : bytes) (ma mi : Z) : bytes :=
  method_text m ++ u ++ lit " HTTP/" ++ [digit_char ma] ++ lit "." ++ [digit_char mi].

Definition request_text (m : Z) (u : bytes) (ma mi : Z) (hdrs : list (bytes * bytes)) : bytes :=
  request_line m u ma mi ++ CRLF ++ concat (header_text <$> hdrs) ++ CRLF.

(** The value of the last header with that key, in any case. *)
Definition last_header (k : bytes) (hdrs : list (bytes * bytes)) : option bytes :=
  snd <$> last (filter (fun kv => strcasecmp_eq kv.1 k = true) hdrs).

Lemma next_line_crlf l rest :
  clean l -> ~ ends_in_eol l -> (length l < 4094)%nat ->
  next_line (l ++ CRLF ++ rest) = (Some l, rest).
Proof.
  intros (Hlf & Hff & Hn) Hend Hlen. unfold next_line.
  rewrite (gets_result_line MAX_LINE_LENGTH l CRLF rest); [|done|done|done|by right|].
  - simpl. by rewrite cstr_id.
  - unfold MAX_LINE_LENGTH, CRLF. simpl. lia.
Qed.

Lemma header_line_end k v : trimmed v -> ~ ends_in_eol (k ++ lit ": " ++ v).
Proof.
  intros [_ Hl]. destruct v as [|b v _] using rev_ind.
  - unfold ends_in_eol. rewrite app_nil_r. change (lit ": ") with ([":"%byte] ++ [" "%byte]).
    rewrite app_assoc, last_snoc. by intros [?|?].
  - rewrite !app_assoc. apply not_eol, Hl. apply last_snoc.
Qed.

Section roundtrip.
Context `{PS : Pstring} {shash : Type -> Type} `{SH : Shash shash}.

Definition add_header (m : gmap bytes bytes) (kv : bytes * bytes) : gmap bytes bytes :=
  <[tolower <$> kv.1 := kv.2]> m.

Lemma parse_headers_text hdrs fuel rest (hs : shash bytes) :
  Forall header_ok hdrs -> (length hdrs < fuel)%nat ->
  exists hs', parse_headers fuel (concat (header_text <$> hdrs) ++ CRLF ++ rest) hs =
    (Got hs', rest) /\ sentries hs' = foldl add_header (sentries hs) hdrs.
Proof.
  intros Hok. revert fuel hs. induction Hok as [|[k v] hdrs (Hk & Hc & Hv & Ht & Hlen) _ IH];
    intros fuel hs Hf; (destruct fuel as [|fuel]; [simpl in Hf; lia|]); cbn [parse_headers].
  { exists hs. split; [|done]. cbn [fmap list_fmap concat app].
    change (CRLF ++ rest) with ([] ++ CRLF ++ rest).
    rewrite next_line_crlf; [done|by apply clean_dec|by intros [?|?]|simpl; lia]. }
  cbn [fmap list_fmap concat fst snd] in *. unfold header_text at 1. cbn [fst snd].
  assert ((k ++ lit ": " ++ v ++ CRLF) ++ concat (header_text <$> hdrs) ++ CRLF ++ rest =
          (k ++ lit ": " ++ v) ++ CRLF ++ concat (header_text <$> hdrs) ++ CRLF ++ rest) as Et
    by (by rewrite <- !app_assoc).
  rewrite <- app_assoc, Et, next_line_crlf; first last.
  { rewrite !length_app. simpl. lia. }
  { by apply header_line_end. }
  { apply clean_app; [done|]. apply clean_app; [by apply clean_dec|done]. }
  assert (strchr (k ++ lit ": " ++ v) ":" = Some (k, " "%byte :: v)) as Hs
    by (by apply (strchr_app k (" "%byte :: v))).
  destruct (k ++ lit ": " ++ v) as [|b l] eqn:Hl; [by destruct k|]. rewrite Hs.
  assert (ptrim (" "%byte :: v) = v) as ->.
  { destruct Ht as [Hh Hl']. pose proof (ptrim_law [" "%byte] v []) as Hp.
    rewrite app_nil_r in Hp. apply Hp; [by repeat constructor|done|done|done]. }
  destruct (IH fuel (shash_insert hs (pstrlwr k) v)) as (hs' & -> & Hs'); [simpl in Hf; lia|].
  exists hs'. split; [done|]. rewrite Hs'. autorewrite with shash. by rewrite pstrlwr_law.
Qed.

Lemma add_headers_lookup hdrs m k :
  foldl add_header m hdrs !! (tolower <$> k) =
  match last_header k hdrs with Some v => Some v | None => m !! (tolower <$> k) end.
Proof.
  unfold last_header. induction hdrs as [|[k' v] hdrs IH] using rev_ind; [done|].
  rewrite foldl_snoc, filter_app. unfold add_header at 1. cbn [fst snd].
  destruct (decide (strcasecmp_eq k' k = true)) as [Hk|Hk].
  - rewrite (filter_cons_True _ (k', v)) by done. rewrite filter_nil, last_snoc. simpl.
    apply bool_decide_eq_true in Hk. rewrite <- Hk. by rewrite lookup_insert_eq.
  - rewrite (filter_cons_False _ (k', v)) by done. rewrite filter_nil, app_nil_r.
    rewrite <- IH. apply lookup_insert_ne. intros Heq. apply Hk. by apply bool_decide_eq_true.
Qed.
End roundtrip.

Lemma digit_char_ok d :
  0 <= d < 10 -> isdigit (digit_char d) = true /\ char_val (digit_char d) - 48 = d.
Proof.
  intros Hd.
  assert (forallb (fun d => isdigit (digit_char d) && (char_val (digit_char d) - 48 =? d))
    (seqZ 0 10) = true) as H by (vm_compute; reflexivity).
  rewrite forallb_forall in H. specialize (H d).
  rewrite andb_true_iff, Z.eqb_eq in H. apply H, list_elem_of_In, elem_of_seqZ. lia.
Qed.

Lemma digit_clean d : 0 <= d < 10 -> clean [digit_char d] /\ isspace (digit_char d) = false.
Proof.
  intros Hd.
  assert (forallb (fun d => bool_decide ((LF ∉ [digit_char d]) /\ (xff ∉ [digit_char d]) /\
    (NUL ∉ [digit_char d])) && negb (isspace (digit_char d))) (seqZ 0 10) = true) as H
    by (vm_compute; reflexivity).
  rewrite forallb_forall in H. specialize (H d). rewrite andb_true_iff, negb_true_iff in H.
  destruct H as [H1 H2]; [apply list_elem_of_In, elem_of_seqZ; lia|].
  split; [by apply clean_dec|done].
Qed.

Lemma parse_version_text ma mi :
  0 <= ma < 10 -> 0 <= mi < 10 ->
  parse_version (lit "HTTP/" ++ [digit_char ma] ++ lit "." ++ [digit_char mi]) = Some (ma, mi).
Proof.
  intros Ha Hi. destruct (digit_char_ok ma Ha) as [Ha1 Ha2], (digit_char_ok mi Hi) as [Hi1 Hi2].
  unfold parse_version. change (strncmp_eq _ (lit "HTTP/") 5) with true.
  cbn. rewrite Ha1, Hi1. cbn. by rewrite Ha2, Hi2.
Qed.

Lemma parse_method_text m s :
  m ∈ [HTTP_METHOD_GET; HTTP_METHOD_HEAD; HTTP_METHOD_POST] ->
  parse_method (method_text m ++ s) = Some (m, s).
Proof.
  rewrite !elem_of_cons, elem_of_nil. by intros [->|[->|[->|[]]]].
Qed.

Lemma request_line_ok m u ma mi :
  m ∈ [HTTP_METHOD_GET; HTTP_METHOD_HEAD; HTTP_METHOD_POST] -> clean u -> (length u < 4000)%nat ->
  0 <= ma < 10 -> 0 <= mi < 10 ->
  clean (request_line m u ma mi) /\ ~ ends_in_eol (request_line m u ma mi) /\
  (length (request_line m u ma mi) < 4094)%nat.
Proof.
  intros Hm Hu Hl Ha Hi. destruct (digit_clean ma Ha) as [Ca _], (digit_clean mi Hi) as [Ci Si].
  unfold request_line. split_and!.
  - apply clean_app.
    { clear -Hm. apply clean_dec. rewrite !elem_of_cons, elem_of_nil in Hm.
      by destruct Hm as [->|[->|[->|[]]]]. }
    apply clean_app; [done|]. apply clean_app; [by apply clean_dec|].
    apply clean_app; [done|]. apply clean_app; [by apply clean_dec|done].
  - rewrite !app_assoc. by apply not_eol.
  - assert (length (method_text m) <= 5)%nat.
    { unfold method_text. destruct (decide _); [simpl; lia|]. destruct (decide _); simpl; lia. }
    rewrite !length_app. simpl. lia.
Qed.

Lemma parse_url_parts m u :
  u = (parse_url m u).1 ++ match (parse_url m u).2 with Some qs => "?"%byte :: qs | None => [] end /\
  (m <> HTTP_METHOD_POST -> "?"%byte ∉ (parse_url m u).1) /\
  (m = HTTP_METHOD_POST -> (parse_url m u).2 = None).
Proof.
  unfold parse_url. destruct (decide (m = HTTP_METHOD_POST)); simpl; [by rewrite app_nil_r|].
  destruct (strchr u "?") as [[a b]|] eqn:Hq; simpl.
  - by apply strchr_some in Hq as [-> Hq].
  - rewrite app_nil_r. split; [done|]. split; [|done]. intros _. by apply strchr_none_inv.
Qed.

(** What is read of a request is what was written. *)
Definition reads_as {shash} `{SH : Shash shash} `{PS : Pstring} (m : Z) (u : bytes) (ma mi : Z)
    (hdrs : list (bytes * bytes)) (q : http_request (shash := shash)) : Prop :=
  method q = m /\ url q = u /\ original_url q = u /\ major q = ma /\ minor q = mi /\
  is_http09 q = false /\
  u = path q ++ match query_string q with Some qs => "?"%byte :: qs | None => [] end /\
  (m <> HTTP_METHOD_POST -> "?"%byte ∉ path q) /\
  (m = HTTP_METHOD_POST -> query_string q = None) /\
  forall k, http_request_get_header q k = last_header k hdrs.

Lemma parse_request_text `{PS : Pstring} {shash} `{SH : Shash shash}
    fuel now m u ma mi hdrs rest :
  m ∈ [HTTP_METHOD_GET; HTTP_METHOD_HEAD; HTTP_METHOD_POST] ->
  clean u -> " "%byte ∉ u -> (length u < 4000)%nat -> 0 <= ma < 10 -> 0 <= mi < 10 ->
  Forall header_ok hdrs -> (length hdrs < fuel)%nat ->
  exists q : http_request (shash := shash),
    parse_request fuel now (request_text m u ma mi hdrs ++ rest) = (Got (Some q), rest) /\
    reads_as m u ma mi hdrs q.
Proof.
  intros Hm Hu Hsp Hl Ha Hi Hh Hf. unfold parse_request, request_text.
  destruct (request_line_ok m u ma mi Hm Hu Hl Ha Hi) as (Hc & He & Hlen).
  rewrite <- !app_assoc. destruct fuel as [|k]; [lia|]. cbn [skip_blank].
  rewrite next_line_crlf by done.
  assert (parse_method (request_line m u ma mi) =
    Some (m, u ++ lit " HTTP/" ++ [digit_char ma] ++ lit "." ++ [digit_char mi])) as Hp
    by (by apply parse_method_text).
  destruct (request_line m u ma mi) as [|b l]; [done|]. rewrite Hp.
  assert (strchr (u ++ lit " HTTP/" ++ [digit_char ma] ++ lit "." ++ [digit_char mi]) " " =
    Some (u, lit "HTTP/" ++ [digit_char ma] ++ lit "." ++ [digit_char mi])) as -> by
    (by apply (strchr_app u)).
  rewrite parse_version_text by done.
  destruct (parse_headers_text hdrs (S k) rest new_shash Hh Hf) as (hs & -> & Hs).
  eexists. split; [done|]. destruct (parse_url_parts m u) as (H1 & H2 & H3).
  unfold reads_as, http_request_get_header. simpl. repeat (split; [done|]).
  intros k'. rewrite get_sentries, pstrlwr_law, Hs, add_headers_lookup, sentries_new.
  by destruct (last_header k' hdrs).
Qed.

(** ** What every request satisfies *)

Lemma next_line_suffix i : (next_line i).2 `suffix_of` i.
Proof.
  unfold next_line, gets_result.
  pose proof (gets_bounded (Z.to_nat (MAX_LINE_LENGTH - 1)) [] i) as H3.
  destruct (gets _ [] i) as [[eof l] rest].
  destruct (H3 _ _ _ eq_refl) as (d & e & _ & -> & _ & _). exists (d ++ e). simpl.
  by rewrite app_assoc.
Qed.

Lemma skip_blank_suffix fuel i : (skip_blank fuel i).2 `suffix_of` i.
Proof.
  revert i. induction fuel as [|k IH]; intros i; cbn [skip_blank];
    pose proof (next_line_suffix i) as H.
  - by destruct (next_line i).
  - destruct (next_line i) as [[[|b l]|] i']; simpl in *; [|done..]. by trans i'.
Qed.

Lemma tolower_idemp (s : bytes) : tolower <$> (tolower <$> s) = tolower <$> s.
Proof.
  rewrite <- list_fmap_compose. apply list_fmap_ext. intros i b _. revert b.
  apply (byte_prop (fun b => tolower (tolower b) = tolower b)). vm_compute. reflexivity.
Qed.

Section every_request.
Context {E : Type} `{SK : Sockets E} `{PS : Pstring} {shash : Type -> Type} `{SH : Shash shash}.
Abbreviation web := (web (E := E)).
Abbreviation http_request := (http_request (shash := shash)).

Definition lower_keys (hs : shash bytes) : Prop :=
  map_Forall (fun k _ => tolower <$> k = k) (sentries hs).

Definition request_ok (q : http_request) : Prop :=
  method q ∈ [HTTP_METHOD_GET; HTTP_METHOD_HEAD; HTTP_METHOD_POST] /\
  lower_keys (headers q) /\ 0 <= major q <= 9 /\ 0 <= minor q <= 9 /\
  (is_http09 q = true -> sentries (headers q) = ∅ /\ major q = 0 /\ minor q = 9).

Lemma parse_headers_ok fuel i hs x i' :
  parse_headers fuel i hs = (x, i') -> lower_keys hs ->
  i' `suffix_of` i /\
  match x with Got hs' => lower_keys hs' | Faulty msg reply => (msg, reply) ∈ http_errors end.
Proof.
  revert i hs. induction fuel as [|k IH]; intros i hs; cbn [parse_headers].
  { by intros [= <- <-]. }
  pose proof (next_line_suffix i) as Hs. destruct (next_line i) as [[[|b l]|] j]; simpl in Hs.
  - by intros [= <- <-].
  - destruct (strchr (b :: l) ":") as [[key value]|].
    + intros Hp Hk. destruct (IH _ _ Hp) as [Hs' Hx]; [|by split; [trans j|]].
      unfold lower_keys. rewrite sentries_insert, pstrlwr_law.
      apply map_Forall_insert_2; [apply tolower_idemp|done].
    + intros [= <- <-] _. split; [done|]. do 3 right. by left.
  - intros [= <- <-] _. split; [done|]. do 2 right. by left.
Qed.

Lemma parse_method_some line m u :
  parse_method line = Some (m, u) ->
  m ∈ [HTTP_METHOD_GET; HTTP_METHOD_HEAD; HTTP_METHOD_POST].
Proof.
  unfold parse_method. destruct (strncmp_eq _ _ _); [intros [= <- <-]; by left|].
  destruct (strncmp_eq _ _ _); [intros [= <- <-]; by right; left|].
  destruct (strncmp_eq _ _ _); [intros [= <- <-]; by right; right; left|done].
Qed.

Lemma isdigit_val b : isdigit b = true -> 0 <= char_val b - 48 <= 9.
Proof.
  revert b. apply (byte_prop (fun b => isdigit b = true -> 0 <= char_val b - 48 <= 9)).
  vm_compute. reflexivity.
Qed.

Lemma parse_version_some v ma mi :
  parse_version v = Some (ma, mi) -> 0 <= ma <= 9 /\ 0 <= mi <= 9.
Proof.
  unfold parse_version. destruct (strncmp_eq _ _ _); [|done].
  destruct (v !! 5%nat) as [a|]; [|done]. destruct (v !! 6%nat) as [p|]; [|done].
  destruct (v !! 7%nat) as [b|]; [|done].
  destruct (isdigit a) eqn:Ha; [|done]. destruct (bool_decide _); [|done].
  destruct (isdigit b) eqn:Hb; [|done]. intros [= <- <-].
  split; by apply isdigit_val.
Qed.

Lemma parse_request_ok fuel now i x i' :
  parse_request (shash := shash) fuel now i = (x, i') ->
  i' `suffix_of` i /\
  match x with
  | Got (Some q) => request_ok q
  | Got None => True
  | Faulty msg reply => (msg, reply) ∈ http_errors
  end.
Proof.
  assert (lower_keys new_shash) as H0.
  { unfold lower_keys. rewrite sentries_new. apply map_Forall_empty. }
  unfold parse_request. pose proof (skip_blank_suffix fuel i) as Hs.
  destruct (skip_blank fuel i) as [[line|] j]; simpl in Hs; [|by intros [= <- <-]].
  destruct (parse_method line) as [[m start_url]|] eqn:Hm.
  2:{ intros [= <- <-]. split; [done|by left]. }
  apply parse_method_some in Hm. destruct (strchr start_url " ") as [[u v]|].
  2:{ intros [= <- <-]. split; [done|]. split_and!; simpl; try done; try lia.
      intros _. by rewrite sentries_new. }
  destruct (parse_version v) as [[ma mi]|] eqn:Hv.
  2:{ intros [= <- <-]. split; [done|right; by left]. }
  apply parse_version_some in Hv as [Ha Hi].
  destruct (parse_headers fuel j new_shash) as [y j'] eqn:Hp.
  apply parse_headers_ok in Hp as [Hs' Hy]; [|done].
  destruct y; intros [= <- <-]; (split; [by trans j|]); done.
Qed.

(** C27: [new_http_request] ends on any input: it returns null, or a request with
    a known method, a version of one digit each and header keys in lower case,
    none for HTTP/0.9; or it raises one of four exceptions after sending the
    client the reply that belongs to it.  It reads no further than it has to
    and changes nothing else. *)
Theorem http_request_total fuel io s i o h (w : web) :
  stream (wio w) io s i o h -> (length i < fuel)%nat ->
  wpd [s] (new_http_request (shash := shash) fuel io) w
    (fun r w' => quiet io s w w' /\
       (exists i' h', i' `suffix_of` i /\ stream (wio w') io s i' o h') /\
       match r with Some q => request_ok q | None => True end)
    (fun msg w' => quiet io s w w' /\ exists reply, (msg, reply) ∈ http_errors /\
       exists i' h', i' `suffix_of` i /\ stream (wio w') io s i' (o ++ reply) h').
Proof.
  intros Hst Hf.
  eapply wpd_mono; [apply (new_http_request_spec [s] fuel io s i o h w); [by left|done|done]| |];
    destruct (parse_request fuel (reactor_time w / 1000) i) as [x i'] eqn:Hp;
    apply parse_request_ok in Hp as [Hs Hx].
  - intros r w' (Hr & Hq & h' & Hst'). simpl in *. subst x. split; [done|].
    split; [by exists i', h'|done].
  - intros msg w' (reply & Hr & Hq & h' & Hst'). simpl in *. subst x. split; [done|].
    exists reply. split; [done|]. by exists i', h'.
Qed.

Lemma request_text_long m u ma mi hdrs :
  (length hdrs <= length (request_text m u ma mi hdrs))%nat.
Proof.
  unfold request_text. rewrite !length_app.
  assert (length hdrs <= length (concat (header_text <$> hdrs)))%nat; [|lia].
  induction hdrs as [|kv hdrs IH]; [done|]. cbn [fmap list_fmap concat length].
  rewrite length_app. unfold header_text at 1. rewrite !length_app. simpl. lia.
Qed.

(** What [new_http_request] does with the text of a request. *)
Lemma request_text_read fuel io s o h (w : web) m u ma mi hdrs rest :
  stream (wio w) io s (request_text m u ma mi hdrs ++ rest) o h ->
  (length (request_text m u ma mi hdrs ++ rest) < fuel)%nat ->
  m ∈ [HTTP_METHOD_GET; HTTP_METHOD_HEAD; HTTP_METHOD_POST] ->
  clean u -> " "%byte ∉ u -> (length u < 4000)%nat -> 0 <= ma < 10 -> 0 <= mi < 10 ->
  Forall header_ok hdrs ->
  wpd [s] (new_http_request (shash := shash) fuel io) w
    (fun r w' => quiet io s w w' /\ exists q h', r = Some q /\ reads_as m u ma mi hdrs q /\
       stream (wio w') io s rest o h')
    (fun _ _ => False).
Proof.
  intros Hst Hf Hm Hu Hsp Hl Ha Hi Hh.
  pose proof (request_text_long m u ma mi hdrs) as Hlong. rewrite length_app in Hf.
  destruct (parse_request_text fuel (reactor_time w / 1000) m u ma mi hdrs rest
    Hm Hu Hsp Hl Ha Hi Hh ltac:(lia)) as (q & Hp & Hq).
  eapply wpd_mono; [apply (new_http_request_spec [s] fuel io s
    (request_text m u ma mi hdrs ++ rest) o h w); [by left|done|rewrite length_app; lia]| |];
    rewrite Hp.
  - intros r w' (Hr & Hq' & h' & Hst'). simpl in *. injection Hr as <-. split; [done|]. by exists q, h'.
  - by intros msg w' (reply & Hr & _).
Qed.
(** C9: a request written as RFC 2616 has it is read back: method, URL, path and
    query string, version, and for each key, in any case, the value of its last
    header; what follows the request is left to be read. *)
Theorem http_request_roundtrip fuel io s o h (w : web) m u ma mi hdrs rest :
  stream (wio w) io s (request_text m u ma mi hdrs ++ rest) o h ->
  (length (request_text m u ma mi hdrs ++ rest) < fuel)%nat ->
  m ∈ [HTTP_METHOD_GET; HTTP_METHOD_HEAD; HTTP_METHOD_POST] ->
  clean u -> " "%byte ∉ u -> (length u < 4000)%nat -> 0 <= ma < 10 -> 0 <= mi < 10 ->
  Forall header_ok hdrs ->
  wpd [s] (new_http_request (shash := shash) fuel io) w
    (fun r w' => exists q h', r = Some q /\ reads_as m u ma mi hdrs q /\
       stream (wio w') io s rest o h')
    (fun _ _ => False).
Proof.
  intros Hst Hf Hm Hu Hsp Hl Ha Hi Hh.
  eapply wpd_mono; [by apply (request_text_read fuel io s o h w m u ma mi hdrs rest)| |done].
  by intros r w' [_ H].
Qed.
End every_request.

(** ** Examples *)

Definition web_of (input : bytes) : web (E := script) :=
  Web (two_handles input) (lit "pthrlib-httpd/3.0") None (-1) 1000000.

Lemma web_stream input :
  stream (wio (web_of input)) 1 3 input [] (fresh_handle 3).
Proof. exact (fresh_stream (two_handles input) 1 3 eq_refl). Qed.

Lemma http_request_total_witness :
  wpd [3] (new_http_request (shash := gmap bytes) 100 1) (web_of (lit "GET / FTP"))
    (fun r w' => quiet 1 3 (web_of (lit "GET / FTP")) w' /\
       (exists i' h', i' `suffix_of` lit "GET / FTP" /\ stream (wio w') 1 3 i' [] h') /\
       match r with Some q => request_ok q | None => True end)
    (fun msg w' => quiet 1 3 (web_of (lit "GET / FTP")) w' /\
       exists reply, (msg, reply) ∈ http_errors /\
       exists i' h', i' `suffix_of` lit "GET / FTP" /\ stream (wio w') 1 3 i' ([] ++ reply) h').
Proof.
  apply (http_request_total (shash := gmap bytes) 100 1 3 (lit "GET / FTP") [] (fresh_handle 3));
    [apply web_stream|simpl; lia].
Defined.

Definition sample_headers : list (bytes * bytes) :=
  [(lit "Host", lit "localhost"); (lit "X-Empty", []); (lit "HOST", lit "example.org")].

Lemma sample_headers_ok : Forall header_ok sample_headers.
Proof.
  repeat constructor; try (by apply (bool_decide_unpack _)); simpl; try lia; by intros c [= <-].
Qed.

Lemma http_request_roundtrip_witness :
  let text := request_text 1 (lit "/a?b=c") 1 1 sample_headers in
  wpd [3] (new_http_request (shash := gmap bytes) 200 1) (web_of (text ++ lit "more"))
    (fun r w' => exists q h', r = Some q /\ reads_as 1 (lit "/a?b=c") 1 1 sample_headers q /\
       stream (wio w') 1 3 (lit "more") [] h')
    (fun _ _ => False).
Proof.
  apply (http_request_roundtrip (shash := gmap bytes) 200 1 3 [] (fresh_handle 3)).
  - apply web_stream.
  - apply (bool_decide_unpack _). vm_compute. exact I.
  - by left.
  - by apply clean_dec.
  - by apply (bool_decide_unpack _).
  - simpl. lia.
  - lia.
  - lia.
  - apply sample_headers_ok.
Defined.
