(* ===== verification/HttpResponses.v ===== *)
(** * Proofs about HTTP responses

    What a response puts on the connection, when the connection is kept, and
    the chunked encoding. *)

From stdpp Require Import base list gmap.
From Stdlib Require Import Strings.Byte.
From S2P Require Import Prelude C2lib ReactorTimers Prog Cstring CgiEscape Iolib IolibSpec.
From S2P Require Import IolibStreams IoWorld Http HttpSpec.

(** ** The bitmap of headers *)

Lemma land_pow2 x j : 0 <= j -> Z.land x (2 ^ j) = if Z.testbit x j then 2 ^ j else 0.
Proof.
  intros Hj. apply Z.bits_inj'. intros n Hn. rewrite Z.land_spec, Z.pow2_bits_eqb by done.
  destruct (Z.eqb_spec j n) as [->|Hne].
  - destruct (Z.testbit x n); [by rewrite Z.pow2_bits_true|by rewrite Z.bits_0].
  - rewrite andb_false_r. destruct (Z.testbit x j); [|by rewrite Z.bits_0].
    by rewrite Z.pow2_bits_false by lia.
Qed.

Lemma land_pow2_zero x j : 0 <= j -> Z.land x (2 ^ j) = 0 <-> Z.testbit x j = false.
Proof.
  intros Hj. rewrite land_pow2 by done. destruct (Z.testbit x j); [|done].
  split; [|done]. pose proof (Z.pow_pos_nonneg 2 j). lia.
Qed.

Lemma clear_bit x i j :
  0 <= i < 32 -> 0 <= j ->
  Z.testbit (Z.land x (to_u32 (Z.lnot (2 ^ j)))) i = Z.testbit x i && negb (i =? j).
Proof.
  intros Hi Hj. rewrite Z.land_spec. unfold wrapu. rewrite Z.mod_pow2_bits_low by lia.
  rewrite Z.lnot_spec by lia. rewrite Z.pow2_bits_eqb by done. by rewrite Z.eqb_sym.
Qed.

Lemma length_defined x :
  Z.land x HTTP_XH_LENGTH_DEFINED = HTTP_XH_LENGTH_DEFINED <->
  Z.testbit x 4 = true /\ Z.testbit x 5 = true.
Proof.
  unfold HTTP_XH_LENGTH_DEFINED. rewrite Z.land_lor_distr_r.
  change HTTP_XH_CONTENT_LENGTH with (2 ^ 4).
  change HTTP_XH_TRANSFER_ENCODING_CHUNKED with (2 ^ 5). rewrite !land_pow2 by lia.
  destruct (Z.testbit x 4), (Z.testbit x 5); (split; [intros H|by intros [? ?]]); try done;
    by vm_compute in H.
Qed.

(** The headers that clear each bit. *)
Definition clears (i : Z) (kv : bytes * bytes) : bool :=
  if i =? 0 then strcasecmp_eq kv.1 (lit "Server")
  else if i =? 1 then strcasecmp_eq kv.1 (lit "Date")
  else if i =? 2 then strcasecmp_eq kv.1 (lit "Content-Type")
  else if i =? 3 then strcasecmp_eq kv.1 (lit "Connection")
  else if i =? 4 then strcasecmp_eq kv.1 (lit "Content-Length")
  else if i =? 5 then strcasecmp_eq kv.1 (lit "Transfer-Encoding") &&
                      strcasecmp_eq kv.2 (lit "chunked")
  else false.

Definition next_bits (x : Z) (kv : bytes * bytes) : Z :=
  let x := seen kv.1 (lit "Server") HTTP_XH_SERVER x in
  let x := seen kv.1 (lit "Date") HTTP_XH_DATE x in
  let x := seen kv.1 (lit "Content-Type") HTTP_XH_CONTENT_TYPE x in
  let x := seen kv.1 (lit "Connection") HTTP_XH_CONNECTION x in
  let x := seen kv.1 (lit "Content-Length") HTTP_XH_CONTENT_LENGTH x in
  if strcasecmp_eq kv.2 (lit "chunked")
  then seen kv.1 (lit "Transfer-Encoding") HTTP_XH_TRANSFER_ENCODING_CHUNKED x else x.

Definition next_length (n : Z) (kv : bytes * bytes) : Z :=
  if strcasecmp_eq kv.1 (lit "Content-Length")
  then match scan_int kv.2 with Some (n, _) => n | None => n end else n.

Lemma seen_testbit key name j x i :
  0 <= i < 32 -> 0 <= j ->
  Z.testbit (seen key name (2 ^ j) x) i =
    Z.testbit x i && negb (strcasecmp_eq key name && (i =? j)).
Proof.
  intros Hi Hj. unfold seen. destruct (strcasecmp_eq key name); simpl.
  - by apply clear_bit.
  - by rewrite andb_true_r.
Qed.

Lemma next_bits_testbit x kv i :
  0 <= i < 6 -> Z.testbit (next_bits x kv) i = Z.testbit x i && negb (clears i kv).
Proof.
  intros Hi. unfold next_bits, clears.
  change HTTP_XH_SERVER with (2 ^ 0). change HTTP_XH_DATE with (2 ^ 1).
  change HTTP_XH_CONTENT_TYPE with (2 ^ 2). change HTTP_XH_CONNECTION with (2 ^ 3).
  change HTTP_XH_CONTENT_LENGTH with (2 ^ 4).
  change HTTP_XH_TRANSFER_ENCODING_CHUNKED with (2 ^ 5).
  assert (i = 0 \/ i = 1 \/ i = 2 \/ i = 3 \/ i = 4 \/ i = 5) as Hc by lia.
  destruct Hc as [->|[->|[->|[->|[->| ->]]]]];
    destruct (strcasecmp_eq kv.2 (lit "chunked"));
    repeat rewrite seen_testbit by lia; cbn [Z.eqb Pos.eqb];
    by rewrite ?andb_false_r, ?andb_true_r.
Qed.

Lemma all_bits i : 0 <= i < 6 -> Z.testbit (to_u32 (-1)) i = true.
Proof.
  intros Hi. unfold wrapu. rewrite Z.mod_pow2_bits_low by lia. apply Z.bits_m1. lia.
Qed.

(** A header that clears bit [i] is among those sent. *)
Definition given (i : Z) (hdrs : list (bytes * bytes)) : bool := existsb (clears i) hdrs.

Lemma bits_given hdrs i :
  0 <= i < 6 -> Z.testbit (foldl next_bits (to_u32 (-1)) hdrs) i = negb (given i hdrs).
Proof.
  intros Hi. induction hdrs as [|kv hdrs IH] using rev_ind; [by apply all_bits|].
  rewrite foldl_snoc, next_bits_testbit, IH by done. unfold given.
  rewrite existsb_app, negb_orb. simpl. by rewrite orb_false_r.
Qed.

(** ** The text of a response *)

Section responses.
Context {E : Type} `{SK : Sockets E} `{PS : Pstring} {shash : Type -> Type} `{SH : Shash shash}.
Context (strftime : bytes -> Z -> bytes) (getpeername : Z -> bytes * Z).
Abbreviation web := (web (E := E)).
Abbreviation http_request := (http_request (shash := shash)).

(** The response after the headers [hdrs] have been sent. *)
Definition resp (q : http_request) (c : Z) (io : loc) (hdrs : list (bytes * bytes)) :=
  HttpResponse q c io (foldl next_bits (to_u32 (-1)) hdrs) (foldl next_length 0 hdrs).

Definition texts (hdrs : list (bytes * bytes)) : bytes := concat (header_text <$> hdrs).

Lemma wrote_servername io s i o (w w' : web) a :
  wrote io s i o w a w' -> servername w' = servername w.
Proof. intros [[H _] _]. by rewrite H. Qed.

Lemma send_header_spec ss q c io hdrs k v s i o (w : web) D :
  s ∈ ss -> is_http09 q = false -> (exists h, stream (wio w) io s i o h) ->
  wpd ss (http_response_send_header (resp q c io hdrs) k v) w (fun r w' =>
    r = resp q c io (hdrs ++ [(k, v)]) /\ wrote io s i o w (texts [(k, v)]) w') D.
Proof.
  intros Hs H9 Hst. unfold http_response_send_header. simpl. rewrite H9.
  apply (puts_then ss k io s i o); [done|done|]. intros _ w1 W1.
  apply (puts_then ss (lit ": ") io s i (o ++ k)); [done|apply W1|]. intros _ w2 W2.
  apply (puts_then ss v io s i ((o ++ k) ++ lit ": ")); [done|apply W2|]. intros _ w3 W3.
  apply (puts_then ss CRLF io s i (((o ++ k) ++ lit ": ") ++ v)); [done|apply W3|]. intros _ w4 W4.
  apply wpd_ret. split.
  - unfold resp. by rewrite !foldl_snoc.
  - unfold texts, header_text. simpl. rewrite app_nil_r.
    refine (wrote_cons _ _ _ _ _ _ _ _ _ W1 _). refine (wrote_cons _ _ _ _ _ _ _ _ _ W2 _).
    exact (wrote_cons _ _ _ _ _ _ _ _ _ W3 W4).
Qed.

Lemma send_all_spec ss q c io kvs hdrs s i o (w : web) D :
  s ∈ ss -> is_http09 q = false -> (exists h, stream (wio w) io s i o h) ->
  wpd ss (send_all (resp q c io hdrs) kvs) w (fun r w' =>
    r = resp q c io (hdrs ++ kvs) /\ wrote io s i o w (texts kvs) w') D.
Proof.
  intros Hs H9. revert hdrs o w. induction kvs as [|[k v] kvs IH]; intros hdrs o w Hst.
  { apply wpd_ret. rewrite app_nil_r. split; [done|]. split; [apply quiet_refl|].
    by rewrite app_nil_r. }
  cbn [send_all]. apply wpd_bind.
  eapply wpd_mono; [by apply (send_header_spec ss q c io hdrs k v s i o w)| |done].
  intros r w1 (-> & W1). eapply wpd_mono; [apply (IH (hdrs ++ [(k, v)]) (o ++ texts [(k, v)]) w1)| |done].
  - apply W1.
  - intros r w2 (-> & W2). rewrite <- app_assoc. split; [done|].
    pose proof (wrote_cons _ _ _ _ _ _ _ _ _ W1 W2) as W. unfold texts in *. simpl in *.
    by rewrite app_nil_r in W.
Qed.

(** A header added at the end unless one like it is there. *)
Definition add_missing (j : Z) (kv : bytes * bytes) (hdrs : list (bytes * bytes)) :=
  if given j hdrs then hdrs else hdrs ++ [kv].

Lemma send_missing_spec ss q c io hdrs j kv s i o (w : web) D :
  s ∈ ss -> is_http09 q = false -> 0 <= j < 6 -> (exists h, stream (wio w) io s i o h) ->
  wpd ss (send_missing (2 ^ j) kv.1 kv.2 (resp q c io hdrs)) w (fun r w' =>
    r = resp q c io (add_missing j kv hdrs) /\
    wrote io s i o w (texts (if given j hdrs then [] else [kv])) w') D.
Proof.
  intros Hs H9 Hj Hst. unfold send_missing, add_missing. simpl extra_headers.
  destruct (decide (Z.land (foldl next_bits (to_u32 (-1)) hdrs) (2 ^ j) = 0)) as [Hz|Hz];
    rewrite land_pow2_zero, bits_given in Hz by lia.
  - apply negb_false_iff in Hz. rewrite Hz. apply wpd_ret. split; [done|].
    split; [apply quiet_refl|]. by rewrite app_nil_r.
  - apply not_false_is_true, negb_true_iff in Hz. rewrite Hz. destruct kv as [k v].
    by apply (send_header_spec ss q c io hdrs k v s i o w).
Qed.

Definition has_header (name : bytes) (hdrs : list (bytes * bytes)) : bool :=
  existsb (fun kv => strcasecmp_eq kv.1 name) hdrs.

Definition is_chunked (hdrs : list (bytes * bytes)) : bool :=
  existsb (fun kv => strcasecmp_eq kv.1 (lit "Transfer-Encoding") &&
                     strcasecmp_eq kv.2 (lit "chunked")) hdrs.

(** The connection can be used again: the caller left the [Connection] header
    to the library, the length of the body can be told, and the client wants
    it. *)
Definition keep_alive (q : http_request) (hdrs : list (bytes * bytes)) : bool :=
  negb (has_header (lit "Connection") hdrs) &&
  (has_header (lit "Content-Length") hdrs || is_chunked hdrs) &&
  match http_request_get_header q (lit "Connection") with
  | Some c => strcasecmp_eq c (lit "keep-alive")
  | None => bool_decide (major q = 1 /\ 1 <= minor q)
  end.

(** The headers of the response: the caller's and the missing ones. *)
Definition extra (name date : bytes) (q : http_request) (hdrs : list (bytes * bytes))
  : list (bytes * bytes) :=
  (if has_header (lit "Server") hdrs then [] else [(lit "Server", name)]) ++
  (if has_header (lit "Date") hdrs then [] else [(lit "Date", date)]) ++
  (if has_header (lit "Content-Type") hdrs then [] else [(lit "Content-Type", lit "text/plain")]) ++
  (if has_header (lit "Connection") hdrs then []
   else [(lit "Connection", if keep_alive q hdrs then lit "keep-alive" else lit "close")]).

Lemma extra_given name date q hdrs :
  extra name date q hdrs =
    (if given 0 hdrs then [] else [(lit "Server", name)]) ++
    (if given 1 hdrs then [] else [(lit "Date", date)]) ++
    (if given 2 hdrs then [] else [(lit "Content-Type", lit "text/plain")]) ++
    (if given 3 hdrs then []
     else [(lit "Connection", if keep_alive q hdrs then lit "keep-alive" else lit "close")]).
Proof. done. Qed.

Lemma not_both c : strcasecmp_eq c (lit "close") = true -> strcasecmp_eq c (lit "keep-alive") = false.
Proof.
  unfold strcasecmp_eq. rewrite bool_decide_eq_true, bool_decide_eq_false. by intros ->.
Qed.

Lemma decide_close_spec q c io hdrs :
  has_header (lit "Connection") hdrs = false ->
  decide_close (resp q c io hdrs) =
    (negb (keep_alive q hdrs), if keep_alive q hdrs then lit "keep-alive" else lit "close").
Proof.
  intros Hc. unfold decide_close, keep_alive. rewrite Hc. cbn [extra_headers resp request negb andb].
  destruct (decide (Z.land _ _ = _)) as [Hl|Hl];
    rewrite length_defined, !bits_given, !negb_true_iff in Hl by lia.
  - destruct Hl as [H4 H5]. change (given 4 hdrs) with (has_header (lit "Content-Length") hdrs) in H4.
    change (given 5 hdrs) with (is_chunked hdrs) in H5. by rewrite H4, H5.
  - change (given 4 hdrs) with (has_header (lit "Content-Length") hdrs) in Hl.
    change (given 5 hdrs) with (is_chunked hdrs) in Hl.
    assert (has_header (lit "Content-Length") hdrs || is_chunked hdrs = true) as ->
      by (destruct (has_header (lit "Content-Length") hdrs), (is_chunked hdrs); tauto).
    cbn [andb]. destruct (http_request_get_header q (lit "Connection")) as [c'|].
    + destruct (strcasecmp_eq c' (lit "close")) eqn:Hcl; [by rewrite (not_both c' Hcl)|].
      by destruct (strcasecmp_eq c' (lit "keep-alive")).
    + destruct (decide (major q = 1 /\ 1 <= minor q)) as [Hv|Hv].
      * by rewrite bool_decide_eq_true_2.
      * by rewrite bool_decide_eq_false_2.
Qed.

Lemma given_add i j kv hdrs :
  clears i kv = false -> given i (add_missing j kv hdrs) = given i hdrs.
Proof.
  intros Hc. unfold add_missing. destruct (given j hdrs); [done|]. unfold given.
  rewrite existsb_app. simpl. by rewrite Hc, !orb_false_r.
Qed.

Lemma keep_alive_given q hdrs hdrs' :
  given 3 hdrs' = given 3 hdrs -> given 4 hdrs' = given 4 hdrs -> given 5 hdrs' = given 5 hdrs ->
  keep_alive q hdrs' = keep_alive q hdrs.
Proof.
  intros H3 H4 H5. unfold keep_alive.
  change (has_header (lit "Connection") hdrs') with (given 3 hdrs').
  change (has_header (lit "Content-Length") hdrs') with (given 4 hdrs').
  change (is_chunked hdrs') with (given 5 hdrs'). by rewrite H3, H4, H5.
Qed.

Lemma texts_app a b : texts (a ++ b) = texts a ++ texts b.
Proof. unfold texts. by rewrite fmap_app, concat_app. Qed.

(** The world after [text] was logged, if there is a log. *)
Definition logged (text : bytes) (w : web) : web :=
  Web (web_io w) (servername w) ((fun l => l ++ text) <$> log_fp w) (post_max w) (reactor_time w).

Lemma logged_off text (w : web) : log_fp w = None -> logged text w = w.
Proof. destruct w. simpl. intros ->. done. Qed.

(** The line logged for a response. *)
Definition log_entry (s : Z) (r : http_response (shash := shash)) : bytes :=
  log_line strftime r (default [] (method_string (method (request r))))
    (getpeername s).1 (getpeername s).2.

Lemma logging_spec ss r s i o h (w : web) D :
  stream (wio w) (rio r) s i o h -> is_Some (method_string (method (request r))) ->
  wpd ss (if log_fp w is Some _ then do_logging strftime getpeername r else mret tt) w
    (fun _ w' => w' = logged (log_entry s r) w) D.
Proof.
  intros [Hh _ Hsk _ _] [m Hm]. destruct (log_fp w) as [l|] eqn:Hlog.
  - unfold do_logging, http_request_method_string, log_entry. rewrite Hm. apply wpd_bind, wpd_ret.
    eapply (wpd_io_bind _ _ _ _ (fun fd w' => fd = s /\ w' = wio w)).
    + apply (wp_handle _ _ h); [done|]. by apply wp_ret.
    + intros fd io' [-> ->]. unfold wpd, log_text. simpl. by split.
  - apply wpd_ret. by rewrite logged_off.
Qed.

Lemma connection_spec ss q c io hdrs s i o (w : web) D :
  s ∈ ss -> is_http09 q = false -> (exists h, stream (wio w) io s i o h) ->
  wpd ss (if decide (Z.land (extra_headers (resp q c io hdrs)) HTTP_XH_CONNECTION = 0)
          then mret (resp q c io hdrs, true)
          else
            let '(close, value) := decide_close (resp q c io hdrs) in
            h ← http_response_send_header (resp q c io hdrs) (lit "Connection") value;
            mret (h, close)) w (fun r w' =>
    let conn := if has_header (lit "Connection") hdrs then []
      else [(lit "Connection", if keep_alive q hdrs then lit "keep-alive" else lit "close")] in
    r = (resp q c io (hdrs ++ conn), negb (keep_alive q hdrs)) /\
    wrote io s i o w (texts conn) w') D.
Proof.
  intros Hs H9 Hst. cbn [extra_headers resp]. change HTTP_XH_CONNECTION with (2 ^ 3).
  destruct (decide (Z.land _ (2 ^ 3) = 0)) as [Hz|Hz];
    rewrite land_pow2_zero, bits_given in Hz by lia;
    change (given 3 hdrs) with (has_header (lit "Connection") hdrs) in Hz.
  - apply negb_false_iff in Hz. apply wpd_ret. rewrite Hz, app_nil_r. split.
    + unfold keep_alive. by rewrite Hz.
    + split; [apply quiet_refl|]. by rewrite app_nil_r.
  - apply not_false_is_true, negb_true_iff in Hz. rewrite Hz, decide_close_spec by done.
    apply wpd_bind. eapply wpd_mono; [by eapply (send_header_spec ss q c io hdrs)| |done].
    intros r w1 (-> & W1). by apply wpd_ret.
Qed.

Lemma add_missing_app j kv hdrs :
  add_missing j kv hdrs = hdrs ++ (if given j hdrs then [] else [kv]).
Proof. unfold add_missing. destruct (given j hdrs); [by rewrite app_nil_r|done]. Qed.

(** The four headers are decided one after the other, each by the caller's
    headers alone. *)
Lemma extra_steps name date q hdrs :
  let hdrs1 := add_missing 0 (lit "Server", name) hdrs in
  let hdrs2 := add_missing 1 (lit "Date", date) hdrs1 in
  let hdrs3 := add_missing 2 (lit "Content-Type", lit "text/plain") hdrs2 in
  given 1 hdrs1 = given 1 hdrs /\ given 2 hdrs2 = given 2 hdrs /\ given 3 hdrs3 = given 3 hdrs /\
  keep_alive q hdrs3 = keep_alive q hdrs.
Proof.
  cbv zeta.
  assert (forall i, 3 <= i < 6 -> given i (add_missing 2 (lit "Content-Type", lit "text/plain")
    (add_missing 1 (lit "Date", date) (add_missing 0 (lit "Server", name) hdrs))) = given i hdrs) as H.
  { intros i Hi. assert (i = 3 \/ i = 4 \/ i = 5) as [->|[->| ->]] by lia;
      by rewrite !given_add. }
  split; [by rewrite given_add|]. split; [by rewrite !given_add|]. split; [by apply H|].
  apply keep_alive_given; by apply H.
Qed.

Definition date_of (q : http_request) : bytes :=
  strftime (lit "%a, %d %b %Y %H:%M:%S GMT") (t q).

Lemma end_headers_spec ss q c io hdrs s i o (w : web) D :
  s ∈ ss -> is_http09 q = false -> is_Some (method_string (method q)) ->
  (exists h, stream (wio w) io s i o h) ->
  wpd ss (http_response_end_headers strftime getpeername (resp q c io hdrs)) w (fun r w' =>
    let sent := extra (servername w) (date_of q) q hdrs in
    r = (resp q c io (hdrs ++ sent), negb (keep_alive q hdrs)) /\
    exists w1, wrote io s i o w (texts sent ++ CRLF) w1 /\ w' = logged (log_entry s r.1) w1) D.
Proof.
  intros Hs H9 Hm Hst. unfold http_response_end_headers. cbn [request resp]. rewrite H9.
  apply wpd_bind, (wpd_read ss servername).
  apply wpd_bind. eapply wpd_mono;
    [by apply (send_missing_spec ss q c io hdrs 0 (lit "Server", servername w) s i o w)| |
     intros ? ? H; exact H].
  intros r1 w1 (-> & W1). cbn [request resp]. set (hdrs1 := add_missing 0 _ hdrs).
  apply wpd_bind. eapply wpd_mono;
    [eapply (send_missing_spec ss q c io hdrs1 1 (lit "Date", date_of q) s i);
     [done|done|lia|apply W1]| |intros ? ? H; exact H].
  intros r2 w2 (-> & W2). set (hdrs2 := add_missing 1 _ hdrs1).
  apply wpd_bind. eapply wpd_mono;
    [eapply (send_missing_spec ss q c io hdrs2 2 (lit "Content-Type", lit "text/plain") s i);
     [done|done|lia|apply W2]| |intros ? ? H; exact H].
  intros r3 w3 (-> & W3). set (hdrs3 := add_missing 2 _ hdrs2).
  apply wpd_bind. eapply wpd_mono;
    [eapply (connection_spec ss q c io hdrs3 s i); [done|done|apply W3]| |intros ? ? H; exact H].
  intros [r4 close] w4 ([= -> ->] & W4).
  destruct (extra_steps (servername w) (date_of q) q hdrs) as (G1 & G2 & G3 & GK).
  fold hdrs1 hdrs2 hdrs3 in G1, G2, G3, GK.
  change (has_header (lit "Connection") hdrs3) with (given 3 hdrs3) in *.
  rewrite G1 in W2, W3, W4. rewrite G2 in W3, W4. rewrite G3, GK in *.
  apply wpd_bind. eapply wpd_mono; [eapply (puts_spec ss CRLF io s i); [done|apply W4]| |
    intros ? ? H; exact H].
  rewrite ?G1, ?G2. intros r5 w5 W5. cbv beta in W5. clear r5. apply wpd_ret, (wpd_read ss log_fp), wpd_bind.
  assert (wrote io s i o w (texts (extra (servername w) (date_of q) q hdrs) ++ CRLF) w5) as WW.
  { rewrite extra_given, !texts_app, <- !app_assoc.
    refine (wrote_cons _ _ _ _ _ _ _ _ _ W1 _). refine (wrote_cons _ _ _ _ _ _ _ _ _ W2 _).
    refine (wrote_cons _ _ _ _ _ _ _ _ _ W3 _). exact (wrote_cons _ _ _ _ _ _ _ _ _ W4 W5). }
  destruct W5 as [_ [h5 Hst5]].
  eapply wpd_mono; [by eapply logging_spec| |intros ? ? H; exact H].
  intros _ w' ->. apply wpd_ret.
  assert (hdrs3 ++ (if given 3 hdrs then [] else
    [(lit "Connection", if keep_alive q hdrs then lit "keep-alive" else lit "close")]) =
    hdrs ++ extra (servername w) (date_of q) q hdrs) as Eh.
  { unfold hdrs3. rewrite add_missing_app, G2. unfold hdrs2. rewrite add_missing_app, G1.
    unfold hdrs1. rewrite add_missing_app, extra_given. by rewrite <- !app_assoc. }
  rewrite Eh. split; [done|]. by exists w5.
Qed.

Definition status_line (c : Z) (msg : bytes) : bytes :=
  lit "HTTP/1.1 " ++ print_int c ++ lit " " ++ msg ++ CRLF.

Lemma new_response_spec ss q c msg io s i o h (w : web) D :
  s ∈ ss -> is_http09 q = false -> stream (wio w) io s i o h ->
  wpd ss (new_http_response q io c msg) w (fun r w' =>
    r = resp q c io [] /\ wrote io s i o w (printed (status_line c msg)) w') D.
Proof.
  intros Hs H9 Hst. unfold new_http_response. rewrite H9.
  eapply wpd_io_bind; [by apply (setbufmode_spec ss IO_MODE_FULLY_BUFFERED io s i o h (wio w))|].
  intros [] io1 (h1 & Hst1 & Hon1). apply wpd_bind.
  eapply wpd_mono; [apply (printf_spec ss (status_line c msg) io s i o); [done|by exists h1]| |
    intros ? ? H; exact H].
  intros r w2 [Hq W]. apply wpd_ret. split; [done|]. split; [|done]. eauto with pthr.
Qed.

(** A whole response, as an application sends it. *)
Definition respond (q : http_request) (io : loc) (c : Z) (msg : bytes)
    (hdrs : list (bytes * bytes)) : prog web (http_response (shash := shash) * bool) :=
  r ← new_http_response q io c msg;
  r ← http_response_send_headers r hdrs;
  http_response_end_headers strftime getpeername r.

(** A whole response. *)
Lemma respond_spec q io c msg hdrs s i o h (w : web) :
  stream (wio w) io s i o h -> is_http09 q = false -> is_Some (method_string (method q)) ->
  wpd [s] (respond q io c msg hdrs) w (fun r w' =>
    let all := hdrs ++ extra (servername w) (date_of q) q hdrs in
    r.2 = negb (keep_alive q hdrs) /\
    exists w1, wrote io s i o w (printed (status_line c msg) ++ texts all ++ CRLF) w1 /\
      w' = logged (log_entry s r.1) w1) (fun _ _ => False).
Proof.
  intros Hst H9 Hm. unfold respond. apply wpd_bind.
  eapply wpd_mono; [apply (new_response_spec [s] q c msg io s i o h w); [by left|done|done]| |
    intros ? ? H; exact H].
  intros r w1 (-> & W1). unfold http_response_send_headers. cbn [request resp]. rewrite H9.
  apply wpd_bind.
  eapply wpd_mono; [eapply (send_all_spec [s] q c io hdrs [] s i); [by left|done|apply W1]| |
    intros ? ? H; exact H].
  intros r w2 (-> & W2). simpl app.
  eapply wpd_mono; [eapply (end_headers_spec [s] q c io hdrs s i);
    [by left|done|done|apply W2]| |intros ? ? H; exact H].
  intros [r close] w' ([= -> ->] & w3 & W3 & ->). split; [done|]. exists w3. split; [|done].
  rewrite (wrote_servername _ _ _ _ _ _ _ W2), (wrote_servername _ _ _ _ _ _ _ W1) in W3. rewrite texts_app, <- app_assoc.
  refine (wrote_cons _ _ _ _ _ _ _ _ _ W1 _). exact (wrote_cons _ _ _ _ _ _ _ _ _ W2 W3).
Qed.
(** C26: what a response puts on the connection: the status line, the headers
    of the application, then those of [Server], [Date], [Content-Type] and
    [Connection] that it did not send, and the empty line.  The connection is
    reported to stay open exactly when the application left that decision to
    the library, the length of the body can be told and the client wants it;
    one line is logged if there is a log. *)
Theorem http_response_text q io c msg hdrs s i o h (w : web) :
  stream (wio w) io s i o h -> is_http09 q = false -> is_Some (method_string (method q)) ->
  wpd [s] (respond q io c msg hdrs) w (fun r w' =>
    let all := hdrs ++ extra (servername w) (date_of q) q hdrs in
    r.2 = negb (keep_alive q hdrs) /\
    exists w1, wrote io s i o w (printed (status_line c msg) ++ texts all ++ CRLF) w1 /\
      w' = logged (log_entry s r.1) w1) (fun _ _ => False).
Proof. apply respond_spec. Qed.
End responses.

(** ** The chunked encoding *)

Definition strip_crlf (s : bytes) : option bytes :=
  match s with
  | a :: b :: t => if decide (a = CR /\ b = LF) then Some t else None
  | _ => None
  end.

(** The decoder of RFC 2616, section 3.6.1, for a body without chunk extensions
    and trailers: chunks, a chunk of size zero, an empty line. *)
Fixpoint decode_chunks (fuel : nat) (s : bytes) : option (bytes * bytes) :=
  match fuel with
  | O => None
  | S k =>
    '(n, s) ← scan_uint 16 s;
    s ← strip_crlf s;
    if decide (n = 0) then s ← strip_crlf s; Some ([], s)
    else if decide (Z.of_nat (length s) < n) then None
    else
      s' ← strip_crlf (drop (Z.to_nat n) s);
      '(d, r) ← decode_chunks k s';
      Some (take (Z.to_nat n) s ++ d, r)
  end.

Definition chunk_text (d : bytes) : bytes :=
  print_uint 16 (Z.of_nat (length d)) ++ CRLF ++ d ++ CRLF.

Definition chunks_text (ds : list bytes) : bytes :=
  concat (chunk_text <$> ds) ++ lit "0" ++ CRLF.

Lemma scan_size n s : 0 <= n -> scan_uint 16 (print_uint 16 n ++ CRLF ++ s) = Some (n, CRLF ++ s).
Proof. intros Hn. apply print_uint_spec; [lia|done|]. by intros b [= <-]. Qed.

Lemma strip_crlf_app s : strip_crlf (CRLF ++ s) = Some s.
Proof. done. Qed.

Lemma decode_chunk k d s :
  d <> [] ->
  decode_chunks (S k) (chunk_text d ++ s) =
    ('(d', r) ← decode_chunks k s; Some (d ++ d', r)).
Proof.
  intros Hd. unfold chunk_text. rewrite <- !app_assoc. cbn [decode_chunks].
  rewrite scan_size by lia. cbn [mbind option_bind]. rewrite strip_crlf_app. cbn [mbind option_bind].
  rewrite decide_False by (destruct d; [done|simpl; lia]).
  rewrite decide_False by (rewrite !length_app; lia).
  rewrite Nat2Z.id, drop_app_length, take_app_length, strip_crlf_app. done.
Qed.

Lemma decode_all ds s :
  Forall (fun d => d <> []) ds ->
  decode_chunks (S (length ds)) (chunks_text ds ++ s) =
    (s ← strip_crlf s; Some (concat ds, s)).
Proof.
  unfold chunks_text. induction 1 as [|d ds Hd _ IH].
  - change (decode_chunks 1 (lit "0" ++ CRLF ++ s) = (s ← strip_crlf s; Some ([], s))). done.
  - cbn [fmap list_fmap concat length]. rewrite <- !app_assoc in *. rewrite decode_chunk by done.
    rewrite IH. by destruct (strip_crlf s).
Qed.

Section chunks.
Context {E : Type} `{SK : Sockets E} `{PS : Pstring} {shash : Type -> Type} `{SH : Shash shash}.
Abbreviation web := (web (E := E)).

Lemma write_chunk_spec ss (r : http_response (shash := shash)) d s i o (w : web) D :
  s ∈ ss -> Z.of_nat (length d) < 2 ^ 31 -> (exists h, stream (wio w) (rio r) s i o h) ->
  wpd ss (http_response_write_chunk r d) w (fun _ w' =>
    wrote (rio r) s i o w (chunk_text d) w') D.
Proof.
  intros Hs Hd Hst. unfold http_response_write_chunk. apply wpd_bind.
  eapply wpd_mono; [by eapply (printf_spec ss _ (rio r) s i o)| |intros ? ? H; exact H].
  intros r1 w1 W1. cbv beta in W1. clear r1.
  rewrite printed_short in W1.
  2:{ pose proof (print_uint_spec 16 (Z.of_nat (length d)) ltac:(lia) ltac:(lia)) as (Hl & _ & _).
      assert (Z.log2 (Z.of_nat (length d)) < 31).
      { destruct (decide (length d = 0%nat)) as [->|]; [done|]. apply Z.log2_lt_pow2; lia. }
      rewrite length_app. simpl. lia. }
  destruct (W1) as [_ [h1 Hst1]].
  eapply wpd_io_bind; [by eapply (fwrite_spec ss d (rio r) s i)|].
  intros n io2 (_ & h2 & Hst2 & _ & Hon2).
  assert (wrote (rio r) s i (o ++ print_uint 16 (Z.of_nat (length d)) ++ CRLF) w1 d
            (with_io io2 w1)) as W2 by (split; [auto with pthr|by exists h2]).
  apply wpd_bind.
  eapply wpd_mono; [eapply (printf_spec ss CRLF (rio r) s i); [done|apply W2]| |intros ? ? H; exact H].
  intros r3 w3 W3. apply wpd_ret. unfold chunk_text. rewrite app_assoc.
  refine (wrote_cons _ _ _ _ _ _ _ _ _ W1 _). exact (wrote_cons _ _ _ _ _ _ _ _ _ W2 W3).
Qed.

(** A body sent in chunks. *)
Definition send_chunks (r : http_response (shash := shash)) (ds : list bytes) : prog web unit :=
  for_each (http_response_write_chunk r) ds ≫= fun _ => http_response_write_chunk_end r.

Lemma send_chunks_spec ss r ds s i o (w : web) D :
  s ∈ ss -> Forall (fun d => Z.of_nat (length d) < 2 ^ 31) ds ->
  (exists h, stream (wio w) (rio r) s i o h) ->
  wpd ss (send_chunks r ds) w (fun _ w' => wrote (rio r) s i o w (chunks_text ds) w') D.
Proof.
  intros Hs Hd. unfold send_chunks, chunks_text. revert o w.
  induction Hd as [|d ds Hd _ IH]; intros o w Hst.
  - apply wpd_bind, wpd_ret, wpd_bind.
    eapply wpd_mono; [by eapply (puts_spec ss _ (rio r) s i o)| |intros ? ? H; exact H].
    intros r' w' W. by apply wpd_ret.
  - cbn [for_each fmap list_fmap concat]. unfold wpd. rewrite bind_assoc. apply wpd_bind.
    eapply wpd_mono; [by apply (write_chunk_spec ss r d s i o)| |intros ? ? H; exact H].
    intros [] w1 W1. eapply wpd_mono; [apply (IH (o ++ chunk_text d)), W1| |intros ? ? H; exact H].
    intros [] w2 W2. rewrite <- app_assoc. exact (wrote_cons _ _ _ _ _ _ _ _ _ W1 W2).
Qed.

(** C36: a body sent in chunks decodes to the data sent, once the empty line is
    added that RFC 2616 requires after the last chunk;
    [http_response_write_chunk_end] does not send that line, and without it the
    body is incomplete. *)
Theorem http_chunked_body (r : http_response (shash := shash)) ds s i o h (w : web) :
  stream (wio w) (rio r) s i o h ->
  Forall (fun d => d <> [] /\ Z.of_nat (length d) < 2 ^ 31) ds ->
  wpd [s] (send_chunks r ds) w (fun _ w' => exists body,
    wrote (rio r) s i o w body w' /\
    (forall rest, decode_chunks (S (length ds)) (body ++ CRLF ++ rest) = Some (concat ds, rest)) /\
    decode_chunks (S (length ds)) body = None) (fun _ _ => False).
Proof.
  intros Hst Hd. apply Forall_and in Hd as [Hd1 Hd2].
  eapply wpd_mono; [apply (send_chunks_spec [s] r ds s i o w); [by left|done|by exists h]| |
    intros ? ? H; exact H].
  intros r' w' W. exists (chunks_text ds). split; [done|]. split.
  - intros rest. by rewrite decode_all.
  - rewrite <- (app_nil_r (chunks_text ds)). by rewrite decode_all.
Qed.
End chunks.

(** ** Examples *)

Definition sample_date (fmt : bytes) (t : Z) : bytes := lit "Thu, 01 Jan 1970".
Definition sample_peer (fd : Z) : bytes * Z := (lit "127.0.0.1", 1234).

Definition sample_get : http_request (shash := gmap bytes) :=
  HttpRequest 1000 1 (lit "/") (lit "/") (lit "/") None false 1 1 ∅.

Lemma http_response_text_witness :
  let hdrs := [(lit "content-length", lit "5")] in
  let w := web_of [] in
  keep_alive sample_get hdrs = true /\
  wpd [3] (respond sample_date sample_peer sample_get 1 200 (lit "OK") hdrs) w (fun r w' =>
    let all := hdrs ++ extra (servername w) (date_of sample_date sample_get) sample_get hdrs in
    r.2 = negb (keep_alive sample_get hdrs) /\
    exists w1, wrote 1 3 [] [] w (printed (status_line 200 (lit "OK")) ++ texts all ++ CRLF) w1 /\
      w' = logged (log_entry sample_date sample_peer 3 r.1) w1) (fun _ _ => False).
Proof.
  split; [done|].
  apply (http_response_text sample_date sample_peer sample_get 1 200 (lit "OK")
    [(lit "content-length", lit "5")] 3 [] [] (fresh_handle 3)); [apply web_stream|done|by eexists].
Defined.

Lemma http_chunked_body_witness :
  let r := resp sample_get 200 1 [] in
  wpd [3] (send_chunks r [lit "hello"; lit " world"]) (web_of []) (fun _ w' => exists body,
    wrote 1 3 [] [] (web_of []) body w' /\
    (forall rest, decode_chunks 3 (body ++ CRLF ++ rest) = Some (lit "hello world", rest)) /\
    decode_chunks 3 body = None) (fun _ _ => False).
Proof.
  apply (http_chunked_body (resp sample_get 200 1 []) [lit "hello"; lit " world"] 3 [] []
    (fresh_handle 3)); [apply web_stream|]. repeat constructor; done.
Defined.
