(* ===== verification/Cgi.v ===== *)
(** * CGI parameters ([src/pthr_cgi.c])

    Parameters are a hash of vectors of values.  They come from the query
    string of a GET or HEAD request or the body of a POST request. *)

From stdpp Require Import base list gmap.
From Stdlib Require Import Strings.Byte.
From S2P Require Import Prelude C2lib ReactorTimers Prog Cstring CgiEscape Iolib IolibSpec.
From S2P Require Import IolibStreams IoWorld Http HttpSpec.

Section cgi.
Context {E : Type} `{SK : Sockets E} `{PS : Pstring} {shash : Type -> Type} `{SH : Shash shash}.
Context {vec : Type -> Type} `{VC : Vector vec}.
Context (junk : nat -> byte).
Abbreviation web := (web (E := E)).
Abbreviation http_request := (http_request (shash := shash)).

Record cgi := Cgi { params : shash (vec bytes) }.

Definition cgi_get_post_max : prog web Z := fun w => Ret (post_max w) w.

Definition cgi_set_post_max (new_post_max : Z) : prog web Z := fun w =>
  Ret new_post_max (Web (web_io w) (servername w) (log_fp w) new_post_max (reactor_time w)).

(** A value added to the vector of a parameter. *)
Definition push_value (c : cgi) (name s : bytes) : cgi :=
  let v := match shash_get (params c) name with Some v => v | None => new_vector end in
  Cgi (shash_insert (params c) name (vector_push_back v s)).

Definition insert_param (c : cgi) (name value : bytes) : option cgi :=
  s ← cgi_unescape junk value; Some (push_value c name s).

(** The loop over the pieces of the query string. *)
Fixpoint parse_pieces (c : cgi) (v : list bytes) : option cgi :=
  match v with
  | [] => Some c
  | param :: v =>
    c ← match strchr param "=" with
        | None => insert_param c param (lit "1")
        | Some (name, value) => insert_param c name value
        end;
    parse_pieces c v
  end.

Definition parse_qs (c : cgi) (qs : option bytes) : option cgi :=
  match qs with
  | None | Some [] => Some c
  | Some qs => parse_pieces c (pstrcsplit qs "&")
  end.

(** The loop that reads a body of unknown length into [t], of 1024
    characters, and adds it to [content]. *)
Fixpoint read_to_eof (fuel : nat) (io : loc) (max n : Z) (content : bytes)
  : prog web (option bytes) :=
  match fuel with
  | O => fun _ => NoFuel
  | S k =>
    t ← on_io (io_fread 1024 io);
    let r := Z.of_nat (length t) in
    if decide (0 < r) then
      let n := to_int (n + r) in
      if decide (0 <= max /\ max < n) then mret None
      else if decide (r < 1024) then read_to_eof k io max n (content ++ cstr t)
      else abort
    else mret (Some content)
  end.

Definition std_type : bytes := lit "application/x-www-form-urlencoded".

Definition no_params : cgi := Cgi new_shash.

Definition new_cgi (fuel : nat) (h : http_request) (io : loc) : prog web (option cgi) :=
  if decide (method h <> HTTP_METHOD_POST) then
    c ← expect (parse_qs no_params (query_string h)); mret (Some c)
  else
    let length_ok := match http_request_get_header h (lit "Content-Length") with
                     | None => Some (-1)
                     | Some s => fst <$> scan_int s
                     end in
    match length_ok with
    | None => mret None
    | Some content_length =>
      max ← cgi_get_post_max;
      if decide (0 <= max /\ 0 <= content_length /\ max < content_length) then mret None
      else if (if http_request_get_header h (lit "Content-Type") is Some ty
               then negb (strncasecmp_eq ty std_type (length std_type)) else false)
      then mret None
      else
        content ←
          (if decide (0 <= content_length) then
             if decide (content_length = INT_MAX) then abort
             else
               bs ← on_io (io_fread (Z.to_nat content_length) io);
               mret (if decide (Z.of_nat (length bs) < content_length) then None
                     else Some (cstr bs))
           else read_to_eof fuel io max 0 []);
        match content with
        | None => mret None
        | Some content => c ← expect (parse_qs no_params (Some content)); mret (Some c)
        end
    end.

Definition cgi_params (c : cgi) : list bytes := shash_keys (params c).

Definition cgi_param (c : cgi) (name : bytes) : prog web (option bytes) :=
  match shash_get (params c) name with
  | None => mret None
  | Some v => s ← expect (vector_get v 0); mret (Some s)
  end.

Definition cgi_param_list (c : cgi) (name : bytes) : option (vec bytes) :=
  shash_get (params c) name.

Definition cgi_erase (c : cgi) (name : bytes) : bool * cgi :=
  let '(r, p) := shash_erase (params c) name in (r, Cgi p).

(** The inner loop of [copy_cgi], over the indices from [j] on. *)
Fixpoint copy_values (n j : nat) (key : bytes) (values : vec bytes) (nc : cgi) : option cgi :=
  match n with
  | O => Some nc
  | S n =>
    value ← vector_get values j;
    copy_values n (S j) key values (push_value nc key value)
  end.

(** The outer loop. *)
Fixpoint copy_keys (c : cgi) (keys : list bytes) (nc : cgi) : option cgi :=
  match keys with
  | [] => Some nc
  | key :: keys =>
    values ← cgi_param_list c key;
    nc ← copy_values (vector_size values) 0 key values nc;
    copy_keys c keys nc
  end.

Definition copy_cgi (c : cgi) : option cgi :=
  copy_keys c (shash_keys (params c)) no_params.

(** ** Parameters as a function from names to lists of values *)

(** The values of a parameter, [] when there is none. *)
Definition values (c : cgi) (name : bytes) : list bytes :=
  match cgi_param_list c name with Some v => elems v | None => [] end.

(** No parameter has an empty list of values. *)
Definition cgi_ok (c : cgi) : Prop :=
  forall name v, cgi_param_list c name = Some v -> elems v <> [].

Lemma values_push c name s n :
  values (push_value c name s) n =
    values c n ++ (if decide (n = name) then [s] else []).
Proof.
  unfold values, cgi_param_list. simpl. autorewrite with shash.
  destruct (decide (n = name)) as [->|Hne].
  - rewrite lookup_insert_eq, elems_push_back. destruct (sentries (params c) !! name); [done|].
    by rewrite elems_new.
  - rewrite lookup_insert_ne by done. by rewrite app_nil_r.
Qed.

Lemma ok_push c name s :
  cgi_ok c -> cgi_ok (push_value c name s).
Proof.
  intros Hok n v. unfold cgi_param_list. simpl. autorewrite with shash.
  destruct (decide (n = name)) as [->|Hne].
  - rewrite lookup_insert_eq. intros [= <-]. rewrite elems_push_back. by destruct (elems _).
  - rewrite lookup_insert_ne by done. intros Hv. apply (Hok n v).
    unfold cgi_param_list. by rewrite get_sentries.
Qed.

Lemma no_params_ok : cgi_ok no_params.
Proof. intros n v. unfold cgi_param_list. simpl. autorewrite with shash. done. Qed.

Lemma no_params_values n : values no_params n = [].
Proof. unfold values, cgi_param_list. simpl. autorewrite with shash. done. Qed.

(** A piece of a query string. *)
Definition piece_text (nv : bytes * bytes) : bytes := nv.1 ++ "="%byte :: escaped nv.2.

Definition query_text (nvs : list (bytes * bytes)) : bytes := join "&" (piece_text <$> nvs).

Definition param_ok (nv : bytes * bytes) : Prop :=
  ("="%byte ∉ nv.1) /\ ("&"%byte ∉ nv.1) /\ (NUL ∉ nv.2) /\ 3 * Z.of_nat (length nv.2) + 1 < 2 ^ 31.

Definition values_of (name : bytes) (nvs : list (bytes * bytes)) : list bytes :=
  (filter (fun nv => nv.1 = name) nvs).*2.

Lemma insert_param_escaped c name value :
  NUL ∉ value -> 3 * Z.of_nat (length value) + 1 < 2 ^ 31 ->
  exists c', insert_param c name (escaped value) = Some c' /\ (cgi_ok c -> cgi_ok c') /\
    forall n, values c' n = values c n ++ (if decide (n = name) then [value] else []).
Proof.
  intros Hn Hl. unfold insert_param. pose proof (escaped_length value).
  rewrite unescape_spec, unescaped_escaped, cstr_id by (done || lia). cbn [mbind option_bind].
  eexists. split; [done|]. split; [apply ok_push|]. intros n. apply values_push.
Qed.

Lemma parse_pieces_text nvs c :
  Forall param_ok nvs ->
  exists c', parse_pieces c (piece_text <$> nvs) = Some c' /\ (cgi_ok c -> cgi_ok c') /\
    forall n, values c' n = values c n ++ values_of n nvs.
Proof.
  intros Hok. revert c. induction Hok as [|[name value] nvs (He & _ & Hn & Hl) _ IH]; intros c.
  { exists c. split; [done|]. split; [done|]. intros n. unfold values_of. simpl.
    by rewrite app_nil_r. }
  cbn [fmap list_fmap parse_pieces fst snd] in *.
  assert (strchr (piece_text (name, value)) "=" = Some (name, escaped value)) as ->
    by (by apply (strchr_app name)).
  destruct (insert_param_escaped c name value Hn Hl) as (c1 & -> & Ok1 & V1).
  cbn [mbind option_bind]. destruct (IH c1) as (c' & -> & Ok' & V').
  exists c'. split; [done|]. split; [auto|]. intros n. rewrite V', V1, <- app_assoc. f_equal.
  unfold values_of. rewrite filter_cons. simpl.
  destruct (decide (n = name)) as [->|Hne].
  - by rewrite decide_True.
  - by rewrite decide_False by auto.
Qed.

Lemma escaped_no_amp value : "&"%byte ∉ escaped value.
Proof.
  intros Hin. pose proof (escaped_safe value) as Hs. rewrite Forall_forall in Hs.
  by specialize (Hs _ Hin).
Qed.

Lemma piece_ok nv : param_ok nv -> piece_text nv <> [] /\ ("&"%byte ∉ piece_text nv).
Proof.
  intros (_ & Ha & _ & _). unfold piece_text. split; [by destruct nv.1|].
  rewrite not_elem_of_app, not_elem_of_cons. split; [done|]. split; [done|].
  apply escaped_no_amp.
Qed.

Lemma parse_query nvs :
  Forall param_ok nvs -> nvs <> [] ->
  exists c, parse_qs no_params (Some (query_text nvs)) = Some c /\ cgi_ok c /\
    forall n, values c n = values_of n nvs.
Proof.
  intros Hok Hne. unfold query_text.
  assert (Forall (fun s => s <> [] /\ ("&"%byte ∉ s)) (piece_text <$> nvs)) as Hp.
  { apply Forall_fmap. eapply Forall_impl; [exact Hok|]. apply piece_ok. }
  assert (join "&" (piece_text <$> nvs) <> []) as Hj.
  { destruct nvs as [|nv nvs]; [done|]. cbn [fmap list_fmap] in *. apply Forall_cons in Hp as [[Hp _] _].
    destruct (piece_text nv); [done|]. by destruct nvs. }
  destruct (parse_pieces_text nvs no_params Hok) as (c & Hc & Okc & V). exists c. split.
  - unfold parse_qs. destruct (join "&" (piece_text <$> nvs)) as [|b l] eqn:Ej; [done|].
    rewrite <- Ej, pstrcsplit_law by (done || by destruct nvs). done.
  - split; [apply Okc, no_params_ok|]. intros n. by rewrite V, no_params_values.
Qed.

(** ** Copies *)

Lemma copy_values_spec n j key (vs : vec bytes) nc :
  (j + n = length (elems vs))%nat ->
  exists nc', copy_values n j key vs nc = Some nc' /\ (cgi_ok nc -> cgi_ok nc') /\
    forall m, values nc' m = values nc m ++ (if decide (m = key) then drop j (elems vs) else []).
Proof.
  revert j nc. induction n as [|n IH]; intros j nc Hj; cbn [copy_values].
  { exists nc. split; [done|]. split; [done|]. intros m. rewrite drop_ge by lia.
    destruct (decide (m = key)); by rewrite app_nil_r. }
  rewrite get_elems by lia. destruct (elems vs !! j) as [x|] eqn:Hx.
  2:{ apply lookup_ge_None in Hx. lia. }
  cbn [mbind option_bind]. destruct (IH (S j) (push_value nc key x)) as (nc' & -> & Ok & V); [lia|].
  exists nc'. split; [done|]. split; [intros H; by apply Ok, ok_push|].
  intros m. rewrite V, values_push, <- app_assoc. f_equal.
  destruct (decide (m = key)); [|done]. by rewrite (drop_S (elems vs) x j Hx).
Qed.

Lemma copy_keys_spec c keys nc :
  NoDup keys -> Forall (fun k => is_Some (cgi_param_list c k)) keys ->
  Forall (fun k => values nc k = []) keys ->
  exists nc', copy_keys c keys nc = Some nc' /\ (cgi_ok nc -> cgi_ok nc') /\
    forall m, values nc' m = if decide (m ∈ keys) then values c m else values nc m.
Proof.
  intros Hnd. revert nc. induction Hnd as [|k keys Hk Hnd IH]; intros nc Hin Hz; cbn [copy_keys].
  { exists nc. split; [done|]. split; [done|]. intros m. by rewrite decide_False by apply not_elem_of_nil. }
  apply Forall_cons in Hin as [[vs Hvs] Hin]. apply Forall_cons in Hz as [Hz Hz'].
  rewrite Hvs. cbn [mbind option_bind].
  destruct (copy_values_spec (vector_size vs) 0 k vs nc) as (nc1 & -> & Ok1 & V1);
    [by rewrite size_elems|]. cbn [mbind option_bind]. rewrite drop_0 in V1.
  destruct (IH nc1 Hin) as (nc' & -> & Ok & V).
  { rewrite Forall_forall in *. intros k' Hk'. rewrite V1, Hz' by done.
    rewrite decide_False; [done|]. by intros ->. }
  exists nc'. split; [done|]. split; [auto|]. intros m. rewrite V, V1.
  destruct (decide (m = k)) as [->|Hne].
  - rewrite decide_False by done. rewrite decide_True by (by left). rewrite Hz. simpl.
    unfold values. by rewrite Hvs.
  - rewrite app_nil_r. destruct (decide (m ∈ keys)).
    + by rewrite decide_True by (by right).
    + rewrite decide_False; [done|]. rewrite elem_of_cons. naive_solver.
Qed.

Lemma keys_spec (c : cgi) :
  NoDup (shash_keys (params c)) /\
  forall k, k ∈ shash_keys (params c) <-> is_Some (cgi_param_list c k).
Proof.
  split.
  - rewrite keys_sentries. apply NoDup_fst_map_to_list.
  - intros k. rewrite keys_sentries. unfold cgi_param_list. rewrite get_sentries.
    rewrite list_elem_of_fmap. split.
    + intros ([k' v] & -> & Hin%elem_of_map_to_list). by eexists.
    + intros [v Hv]. exists (k, v). split; [done|]. by apply elem_of_map_to_list.
Qed.

Lemma copy_spec c :
  exists nc, copy_cgi c = Some nc /\ cgi_ok nc /\ forall m, values nc m = values c m.
Proof.
  destruct (keys_spec c) as [Hnd Hin].
  destruct (copy_keys_spec c (shash_keys (params c)) no_params) as (nc & Hc & Ok & V); [done|..].
  - apply Forall_forall. intros k. apply Hin.
  - apply Forall_forall. intros k _. apply no_params_values.
  - exists nc. split; [done|]. split; [apply Ok, no_params_ok|]. intros m. rewrite V.
    destruct (decide (m ∈ shash_keys (params c))) as [|Hm]; [done|]. rewrite Hin in Hm.
    rewrite no_params_values. unfold values.
    destruct (cgi_param_list c m); [|done]. by destruct Hm; eexists.
Qed.

Definition param_values (c : cgi) (m : bytes) : option (list bytes) :=
  match cgi_param_list c m with Some v => Some (elems v) | None => None end.

(** The list of a parameter of a well-formed [cgi] is determined by its values. *)
Lemma list_of_values c m :
  cgi_ok c -> param_values c m = if decide (values c m = []) then None else Some (values c m).
Proof.
  intros Ok. unfold param_values, values. destruct (cgi_param_list c m) as [v|] eqn:Hv; [|done].
  rewrite decide_False; [done|]. by apply (Ok m).
Qed.

Lemma erase_spec c name :
  (cgi_erase c name).1 = bool_decide (is_Some (cgi_param_list c name)) /\
  forall m, cgi_param_list (cgi_erase c name).2 m =
    if decide (m = name) then None else cgi_param_list c m.
Proof.
  unfold cgi_erase, cgi_param_list. pose proof (erase_sentries _ (params c) name) as [H1 H2].
  destruct (shash_erase (params c) name) as [r p]. simpl in *. rewrite !get_sentries. split; [done|].
  intros m. rewrite !get_sentries, H2. destruct (decide (m = name)) as [->|Hne].
  - by rewrite lookup_delete_eq.
  - by rewrite lookup_delete_ne by done.
Qed.

(** [copy_cgi] copies every parameter with all its values in their order,
    and parameters erased from the copy or from the original are gone from that
    one only. *)
Theorem copy_cgi_same c name :
  cgi_ok c ->
  exists nc, copy_cgi c = Some nc /\ cgi_ok nc /\
    (forall m, param_values nc m = param_values c m) /\
    (cgi_erase nc name).1 = (cgi_erase c name).1 /\
    (forall m, param_values (cgi_erase nc name).2 m =
       if decide (m = name) then None else param_values c m).
Proof.
  intros Ok. destruct (copy_spec c) as (nc & Hc & Okn & V).
  assert (forall m, param_values nc m = param_values c m) as Hm.
  { intros m. by rewrite !list_of_values, V by done. }
  destruct (erase_spec nc name) as [E1 E2], (erase_spec c name) as [E3 _].
  exists nc. do 3 (split; [done|]). split.
  - rewrite E1, E3. apply bool_decide_ext. specialize (Hm name). unfold param_values in Hm.
    by destruct (cgi_param_list nc name), (cgi_param_list c name).
  - intros m. unfold param_values at 1. rewrite E2.
    destruct (decide (m = name)); [done|]. apply Hm.
Qed.

(** ** Reading the parameters of a request *)

Definition type_ok (h : http_request) : Prop :=
  match http_request_get_header h (lit "Content-Type") with
  | Some ty => strncasecmp_eq ty std_type (length std_type) = true
  | None => True
  end.

Lemma type_ok_test h :
  type_ok h -> (if http_request_get_header h (lit "Content-Type") is Some ty
    then negb (strncasecmp_eq ty std_type (length std_type)) else false) = false.
Proof. unfold type_ok. destruct (http_request_get_header _ _); [by intros ->|done]. Qed.

(** The body of a POST request with a length. *)
Lemma post_spec ss fuel h io s i o hd (w : web) n D :
  s ∈ ss -> stream (wio w) io s i o hd ->
  method h = HTTP_METHOD_POST -> type_ok h -> 0 <= n < INT_MAX ->
  fst <$> (http_request_get_header h (lit "Content-Length") ≫= scan_int) = Some n ->
  post_max w < 0 \/ n <= post_max w ->
  is_Some (parse_qs no_params (Some (cstr (take (Z.to_nat n) i)))) ->
  wpd ss (new_cgi fuel h io) w (fun r w' => quiet io s w w' /\
    (exists hd', stream (wio w') io s (drop (Z.to_nat n) i) o hd') /\
    r = if decide (Z.of_nat (length i) < n) then None
        else parse_qs no_params (Some (cstr (take (Z.to_nat n) i)))) D.
Proof.
  intros Hs Hst Hm Hty Hn Hl Hmax Hp. unfold new_cgi. rewrite decide_False by auto.
  destruct (http_request_get_header h (lit "Content-Length")) as [ls|]; [|done].
  simpl in Hl. rewrite Hl. apply wpd_bind. split; [|done].
  rewrite decide_False by lia. rewrite type_ok_test by done. rewrite decide_True by lia.
  rewrite decide_False by lia. apply wpd_bind.
  eapply wpd_io_bind; [by apply (fread_spec ss (Z.to_nat n) io s i o hd (wio w))|].
  intros bs io' (hd' & -> & Hst' & Hon). apply wpd_ret. rewrite length_take.
  destruct (decide (Z.of_nat (length i) < n)) as [Hlt|Hlt].
  - rewrite decide_True by lia. apply wpd_ret. split; [auto with pthr|]. split; [by exists hd'|done].
  - rewrite decide_False by lia. destruct Hp as [c Hc]. rewrite Hc.
    apply wpd_bind, wpd_ret, wpd_ret. split; [auto with pthr|]. split; [by exists hd'|done].
Qed.

Lemma join_no_nul c l : c <> NUL -> Forall (fun p => NUL ∉ p) l -> NUL ∉ join c l.
Proof.
  intros Hc. induction 1 as [|p l Hp Hl IH]; [apply not_elem_of_nil|]. destruct l as [|p' l].
  - done.
  - cbn [join]. rewrite not_elem_of_app, not_elem_of_cons. auto.
Qed.

Lemma query_text_no_nul nvs : Forall (fun nv => NUL ∉ nv.1) nvs -> NUL ∉ query_text nvs.
Proof.
  intros H. apply join_no_nul; [done|]. apply Forall_fmap. eapply Forall_impl; [exact H|].
  intros nv Hn. unfold compose, piece_text. rewrite not_elem_of_app, not_elem_of_cons.
  split; [done|]. split; [done|]. apply escaped_no_nul.
Qed.

(** The parameters [nvs] are in the query string of the request [h], or in the
    body at the front of the input [i], which [rest] follows. *)
Inductive carries (h : http_request) (w : web) (nvs : list (bytes * bytes)) (i rest : bytes) : Prop :=
  | carries_get :
      method h <> HTTP_METHOD_POST -> query_string h = Some (query_text nvs) -> rest = i ->
      carries h w nvs i rest
  | carries_post :
      method h = HTTP_METHOD_POST -> type_ok h ->
      fst <$> (http_request_get_header h (lit "Content-Length") ≫= scan_int) =
        Some (Z.of_nat (length (query_text nvs))) ->
      Z.of_nat (length (query_text nvs)) < INT_MAX ->
      post_max w < 0 \/ Z.of_nat (length (query_text nvs)) <= post_max w ->
      Forall (fun nv => NUL ∉ nv.1) nvs -> i = query_text nvs ++ rest ->
      carries h w nvs i rest.

(** Reading the parameters. *)
Lemma new_cgi_spec fuel h io s i o hd (w : web) nvs rest :
  stream (wio w) io s i o hd -> carries h w nvs i rest -> Forall param_ok nvs -> nvs <> [] ->
  wpd [s] (new_cgi fuel h io) w (fun r w' => quiet io s w w' /\
    (exists hd', stream (wio w') io s rest o hd') /\
    exists c, r = Some c /\ cgi_ok c /\ forall n, values c n = values_of n nvs)
    (fun _ _ => False).
Proof.
  intros Hst Hc Hok Hne. destruct (parse_query nvs Hok Hne) as (c & Hp & Okc & V).
  destruct Hc as [Hm Hq ->|Hm Hty Hl Hmax Hpm Hn ->].
  - unfold new_cgi. rewrite decide_True by done. rewrite Hq, Hp. apply wpd_bind, wpd_ret, wpd_ret.
    split; [apply quiet_refl|]. split; [by exists hd|]. by exists c.
  - pose proof (query_text_no_nul nvs Hn) as Hnul.
    eapply wpd_mono; [apply (post_spec [s] fuel h io s (query_text nvs ++ rest) o hd w
      (Z.of_nat (length (query_text nvs)))); [by left|done|done|done|lia|done|done|]|..].
    + rewrite Nat2Z.id, take_app_length, cstr_id by done. rewrite Hp. by exists c.
    + intros r w' (Hq & Hst' & ->). rewrite Nat2Z.id, drop_app_length, take_app_length in *.
      rewrite decide_False by (rewrite length_app; lia). rewrite cstr_id, Hp by done.
      split; [done|]. split; [done|]. by exists c.
    + intros ? ? H. exact H.
Qed.

(** C12: [new_cgi] gives back the parameters that a client put in the query
    string or in the body of a POST: for each name the values in their order,
    unescaped, and nothing else; it reads the body and no more. *)
Theorem new_cgi_roundtrip fuel h io s i o hd (w : web) nvs rest :
  stream (wio w) io s i o hd -> carries h w nvs i rest -> Forall param_ok nvs -> nvs <> [] ->
  wpd [s] (new_cgi fuel h io) w (fun r w' => quiet io s w w' /\
    (exists hd', stream (wio w') io s rest o hd') /\
    exists c, r = Some c /\ cgi_ok c /\ forall n, values c n = values_of n nvs)
    (fun _ _ => False).
Proof. apply new_cgi_spec. Qed.

(** C40: a POST without a [Content-Length] whose body has 1024 bytes or more,
    and is not refused as too long, makes [new_cgi] store a NUL after the end
    of its buffer of 1024 characters. *)
Theorem cgi_post_overflow fuel h io s i o hd (w : web) :
  stream (wio w) io s i o hd -> method h = HTTP_METHOD_POST -> type_ok h ->
  http_request_get_header h (lit "Content-Length") = None ->
  (1024 <= length i)%nat -> post_max w < 0 \/ 1024 <= post_max w ->
  aborts [s] (new_cgi (S fuel) h io) w.
Proof.
  intros Hst Hm Hty Hl Hlen Hpm. unfold new_cgi. rewrite decide_False by auto. rewrite Hl.
  apply (aborts_read [s] post_max). rewrite decide_False by lia. rewrite type_ok_test by done.
  rewrite (decide_False (P := 0 <= -1)) by lia. apply aborts_first. cbn [read_to_eof].
  eapply aborts_io; [apply (fread_spec [s] 1024 io s i o hd (wio w)); [by left|done]|].
  intros bs io' (hd' & -> & _). cbv zeta. rewrite length_take, Nat.min_l by lia.
  rewrite decide_True by lia. rewrite wraps_small by lia. rewrite decide_False by lia.
  by rewrite decide_False by lia.
Qed.
End cgi.

(** ** Examples *)

Definition no_junk (i : nat) : byte := xff.

Definition sample_post (headers : gmap bytes bytes) : http_request (shash := gmap bytes) :=
  HttpRequest 0 3 (lit "/") (lit "/") (lit "/") None false 1 1 headers.

Definition sample_params : list (bytes * bytes) :=
  [(lit "a", lit "1 & 2"); (lit "b", []); (lit "a", lit "=")].

Lemma sample_params_ok : Forall param_ok sample_params.
Proof.
  repeat constructor; try (by apply (bool_decide_unpack _)); simpl; lia.
Qed.

Definition param_world : web (E := script) := web_of (query_text sample_params ++ lit "tail").

Lemma new_cgi_roundtrip_witness :
  let h := sample_post {[lit "content-length" := lit "18"]} in
  wpd [3] (new_cgi (vec := list) no_junk 1 h 1) param_world (fun r w' =>
    quiet 1 3 param_world w' /\ (exists hd', stream (wio w') 1 3 (lit "tail") [] hd') /\
    exists c, r = Some c /\ cgi_ok c /\ forall n, values c n = values_of n sample_params)
    (fun _ _ => False).
Proof.
  apply (new_cgi_roundtrip no_junk 1 (sample_post {[lit "content-length" := lit "18"]}) 1 3
    (query_text sample_params ++ lit "tail") [] (fresh_handle 3)).
  - apply web_stream.
  - apply carries_post; [done|done|vm_compute; reflexivity|done|by left| |done].
    repeat constructor; by apply (bool_decide_unpack _).
  - apply sample_params_ok.
  - done.
Defined.

Lemma copy_cgi_same_witness :
  let c : cgi (shash := gmap bytes) (vec := list) :=
    Cgi (<[lit "a" := [lit "1"; lit "2"]]> {[lit "b" := [lit "3"]]}) in
  exists nc, copy_cgi c = Some nc /\ cgi_ok nc /\
    (forall m, param_values nc m = param_values c m) /\
    (cgi_erase nc (lit "a")).1 = (cgi_erase c (lit "a")).1 /\
    (forall m, param_values (cgi_erase nc (lit "a")).2 m =
       if decide (m = lit "a") then None else param_values c m).
Proof.
  apply copy_cgi_same. intros name v Hv. unfold cgi_param_list in Hv. simpl in Hv.
  apply lookup_insert_Some in Hv as [[_ <-]|[_ Hv]]; [done|].
  by apply lookup_singleton_Some in Hv as [_ <-].
Defined.

Definition big_body : bytes := replicate 1500 "a"%byte.

Lemma cgi_post_overflow_witness :
  aborts [3] (new_cgi (vec := list) no_junk 9 (sample_post ∅) 1) (web_of big_body).
Proof.
  apply (cgi_post_overflow no_junk 8 (sample_post ∅) 1 3 big_body [] (fresh_handle 3)).
  - apply web_stream.
  - done.
  - done.
  - done.
  - unfold big_body. rewrite length_replicate. lia.
  - by left.
Defined.
