(* ===== verification/Eg1Echo.v ===== *)
(** * The echo server ([examples/pthr_eg1_echo.c])

    A processor thread that answers a request with a description of it, from the
    socket to the closed connection: the I/O, HTTP and CGI libraries together. *)

From stdpp Require Import base list gmap.
From Stdlib Require Import Strings.Byte.
From S2P Require Import Prelude C2lib ReactorTimers Prog Cstring CgiEscape Iolib IolibSpec.
From S2P Require Import IolibStreams IoWorld IoClose Http HttpSpec HttpResponses Cgi.

Section echo.
Context {E : Type} `{SK : Sockets E} `{PS : Pstring} {shash : Type -> Type} `{SH : Shash shash}.
Context {vec : Type -> Type} `{VC : Vector vec}.
Context (strftime : bytes -> Z -> bytes) (getpeername : Z -> bytes * Z) (junk : nat -> byte).
(** What [printf] writes for a null pointer. *)
Context (null_text : bytes).
Abbreviation web := (web (E := E)).
Abbreviation http_request := (http_request (shash := shash)).
Abbreviation cgi := (cgi (shash := shash) (vec := vec)).

Definition TAB : byte := x09.
Definition string_text (o : option bytes) : bytes := default null_text o.

Definition say (io : loc) (text : bytes) : prog web unit := on_io (io_fprintf io text) ≫= fun _ => mret tt.

Definition say_header (io : loc) (header : bytes * option bytes) : prog web unit :=
  say io (TAB :: header.1 ++ lit ": " ++ string_text header.2 ++ CRLF).

Definition say_param (io : loc) (c : cgi) (name : bytes) : prog web unit :=
  value ← cgi_param c name;
  say io (TAB :: name ++ lit "=" ++ string_text value ++ CRLF).

Definition echo_body (io : loc) (q : http_request) (c : cgi) : prog web unit :=
  say io (lit "Hello. This is your server." ++ CRLF ++ CRLF) ≫= fun _ =>
  say io (lit "Your browser sent the following headers:" ++ CRLF) ≫= fun _ =>
  for_each (say_header io) (http_request_get_headers q) ≫= fun _ =>
  say io (lit "----- end of headers -----" ++ CRLF) ≫= fun _ =>
  say io (lit "The URL was: " ++ url q ++ CRLF) ≫= fun _ =>
  say io (lit "The path component was: " ++ path q ++ CRLF) ≫= fun _ =>
  say io (lit "The query string was: " ++ string_text (query_string q) ++ CRLF) ≫= fun _ =>
  say io (lit "The query arguments were:" ++ CRLF) ≫= fun _ =>
  for_each (say_param io c) (cgi_params c) ≫= fun _ =>
  say io (lit "----- end of parameters -----" ++ CRLF).

(** The body of the loop; [None]: it is left with [break]. *)
Definition echo_request (fuel : nat) (io : loc) : prog web (option bool) :=
  q ← new_http_request fuel io;
  match q with
  | None => mret None
  | Some q =>
    c ← new_cgi junk fuel q io;
    match c with
    | None => mret None
    | Some c =>
      r ← new_http_response q io 200 (lit "OK");
      r ← http_response_send_header r (lit "Content-Type") (lit "text/plain");
      '(_, close) ← http_response_end_headers strftime getpeername r;
      (if http_request_is_HEAD q then mret tt else echo_body io q c) ≫= fun _ =>
      mret (Some close)
    end
  end.

(** [n] bounds the number of requests. *)
Fixpoint echo_loop (n fuel : nat) (io : loc) : prog web unit :=
  match n with
  | O => fun _ => NoFuel
  | S n =>
    r ← echo_request fuel io;
    match r with
    | Some false => echo_loop n fuel io
    | Some true | None => mret tt
    end
  end.

(** [io] is the address of the handle. *)
Definition echo_run (n fuel : nat) (io : loc) (sock : Z) : prog web unit :=
  on_io (io_fdopen junk io sock) ≫= fun _ =>
  echo_loop n fuel io ≫= fun _ =>
  on_io (io_fclose io) ≫= fun _ =>
  pth_exit.

(** ** The answer *)

(** The lines of the description. *)
Definition header_line (kv : bytes * option bytes) : bytes :=
  TAB :: kv.1 ++ lit ": " ++ string_text kv.2 ++ CRLF.
Definition param_line (c : cgi) (name : bytes) : bytes :=
  TAB :: name ++ lit "=" ++ string_text (head (values c name)) ++ CRLF.

Definition echo_lines (q : http_request) (c : cgi) : list bytes :=
  [lit "Hello. This is your server." ++ CRLF ++ CRLF;
   lit "Your browser sent the following headers:" ++ CRLF] ++
  (header_line <$> http_request_get_headers q) ++
  [lit "----- end of headers -----" ++ CRLF;
   lit "The URL was: " ++ url q ++ CRLF;
   lit "The path component was: " ++ path q ++ CRLF;
   lit "The query string was: " ++ string_text (query_string q) ++ CRLF;
   lit "The query arguments were:" ++ CRLF] ++
  (param_line c <$> cgi_params c) ++
  [lit "----- end of parameters -----" ++ CRLF].

Definition said (ls : list bytes) : bytes := concat (printed <$> ls).

Lemma said_app a b : said (a ++ b) = said a ++ said b.
Proof. unfold said. by rewrite fmap_app, concat_app. Qed.

(** A program that writes the lines [ls]. *)
Definition says (s : Z) (i : bytes) (io : loc) (m : prog web unit) (ls : list bytes) : Prop :=
  forall o w, (exists h, stream (wio w) io s i o h) ->
  wpd [s] m w (fun _ w' => wrote io s i o w (said ls) w') (fun _ _ => False).

Lemma says_nil s i io : says s i io (mret tt) [].
Proof.
  intros o w Hst. apply wpd_ret. split; [apply quiet_refl|]. by rewrite app_nil_r.
Qed.

Lemma says_bind s i io m1 m2 ls1 ls2 :
  says s i io m1 ls1 -> says s i io m2 ls2 -> says s i io (m1 ≫= fun _ => m2) (ls1 ++ ls2).
Proof.
  intros H1 H2 o w Hst. apply wpd_bind. eapply wpd_mono; [by apply H1| |done].
  intros [] w1 W1. eapply wpd_mono; [apply (H2 (o ++ said ls1)); apply W1| |done].
  intros [] w2 W2. rewrite said_app. by eapply wrote_cons.
Qed.

Lemma says_say s i io l : says s i io (say io l) [l].
Proof.
  intros o w Hst. apply wpd_bind. eapply wpd_mono; [apply (printf_spec [s] l io s i o w); [by left|done]| |intros ? ? HD; exact HD].
  intros r w' W. apply wpd_ret. unfold said. simpl. by rewrite app_nil_r.
Qed.

Lemma says_each {A} s i io (f : A -> prog web unit) (g : A -> bytes) l :
  (forall a, a ∈ l -> says s i io (f a) [g a]) -> says s i io (for_each f l) (g <$> l).
Proof.
  induction l as [|a l IH]; intros H; [apply says_nil|]. cbn [for_each].
  apply (says_bind _ _ _ _ _ [g a]); [apply H; by left|]. apply IH. intros b Hb. apply H. by right.
Qed.

Lemma says_param s i io c name : cgi_ok c -> says s i io (say_param io c name) [param_line c name].
Proof.
  intros Hc o w Hst. unfold say_param, cgi_param, param_line, values, cgi_param_list.
  destruct (shash_get (params c) name) as [v|] eqn:Hv; [|by apply says_say].
  assert (elems v <> []) as Hne by (by apply (Hc name)).
  destruct (elems v) as [|x l] eqn:Hx; [done|].
  rewrite get_elems by (rewrite Hx; simpl; lia). rewrite Hx. by apply says_say.
Qed.

Lemma echo_body_says s i io q c : cgi_ok c -> says s i io (echo_body io q c) (echo_lines q c).
Proof.
  intros Hc. unfold echo_body, echo_lines.
  repeat first [apply (says_bind _ _ _ _ _ [_]); [apply says_say|]
    |apply says_say
    |apply says_bind; [apply says_each; intros ? _|]
    |apply says_say|by apply says_param].
Qed.

(** A request that carries the parameters [nvs]: in the query string of [u], or in
    the body of a POST. *)
Inductive asks (w : web) (m : Z) (u : bytes) (hdrs nvs : list (bytes * bytes)) (body : bytes) : Prop :=
  | asks_get p :
      m <> HTTP_METHOD_POST -> u = p ++ "?"%byte :: query_text nvs -> ("?"%byte ∉ p) -> body = [] ->
      asks w m u hdrs nvs body
  | asks_post :
      m = HTTP_METHOD_POST ->
      match last_header (lit "Content-Type") hdrs with
      | Some ty => strncasecmp_eq ty std_type (length std_type) = true
      | None => True
      end ->
      fst <$> (last_header (lit "Content-Length") hdrs ≫= scan_int) =
        Some (Z.of_nat (length (query_text nvs))) ->
      Z.of_nat (length (query_text nvs)) < INT_MAX ->
      post_max w < 0 \/ Z.of_nat (length (query_text nvs)) <= post_max w ->
      Forall (fun nv => NUL ∉ nv.1) nvs -> body = query_text nvs ->
      asks w m u hdrs nvs body.

Lemma first_mark (a b c d : bytes) :
  ("?"%byte ∉ a) -> ("?"%byte ∉ c) -> a ++ "?"%byte :: b = c ++ "?"%byte :: d -> a = c /\ b = d.
Proof.
  revert c. induction a as [|x a IH]; intros [|y c] Ha Hc; simpl; intros H; simplify_eq; try done.
  - by destruct Hc; left.
  - by destruct Ha; left.
  - rewrite not_elem_of_cons in Ha, Hc. destruct (IH c) as [-> ->]; tauto.
Qed.

Lemma asks_carries w m u ma mi hdrs nvs body rest (q : http_request) :
  reads_as m u ma mi hdrs q -> asks w m u hdrs nvs body ->
  carries q w nvs (body ++ rest) rest.
Proof.
  intros (Em & _ & _ & _ & _ & _ & Eu & Hp & _ & Hh) [p Hm -> Hn ->|Hm Ht Hl Hmax Hpm Hnn ->].
  - apply carries_get; [congruence| |done]. specialize (Hp Hm).
    destruct (query_string q) as [qs|].
    + destruct (first_mark _ _ _ _ Hn Hp Eu) as [_ ->]. done.
    + rewrite app_nil_r in Eu. destruct Hp. rewrite <- Eu. apply elem_of_app. right. by left.
  - apply carries_post; try done; [congruence| |by rewrite Hh].
    unfold type_ok. by rewrite Hh.
Qed.

(** The whole answer; [name] is the name of the server. *)
Definition echo_answer (name : bytes) (q : http_request) (c : cgi) : bytes :=
  let hdrs := [(lit "Content-Type", lit "text/plain")] in
  printed (status_line 200 (lit "OK")) ++ texts (hdrs ++ extra name (date_of strftime q) q hdrs) ++
  CRLF ++ (if http_request_is_HEAD q then [] else said (echo_lines q c)).

(** The end of a response that has been started. *)
Lemma echo_respond s i o io (q : http_request) c (w : web) :
  is_http09 q = false -> is_Some (method_string (method q)) -> cgi_ok c ->
  (exists h, stream (wio w) io s i o h) ->
  wpd [s] (r ← new_http_response q io 200 (lit "OK");
      r ← http_response_send_header r (lit "Content-Type") (lit "text/plain");
      '(_, close) ← http_response_end_headers strftime getpeername r;
      (if http_request_is_HEAD q then mret tt else echo_body io q c) ≫= fun _ =>
      mret (Some close)) w
    (fun r w' => r = Some true /\
       exists h, stream (wio w') io s i (o ++ echo_answer (servername w) q c) h)
    (fun _ _ => False).
Proof.
  intros H9 Hm Hc [h Hst]. set (hdrs := [(lit "Content-Type", lit "text/plain")]).
  apply wpd_bind. eapply wpd_mono;
    [apply (new_response_spec [s] q 200 (lit "OK") io s i o h w); [by left|done|done]| |intros ? ? HD; exact HD].
  intros r w1 (-> & W1). apply wpd_bind. eapply wpd_mono;
    [eapply (send_header_spec [s] q 200 io [] (lit "Content-Type") (lit "text/plain") s i);
     [by left|done|apply W1]| |intros ? ? HD; exact HD].
  intros r w2 (-> & W2). simpl app. apply wpd_bind. eapply wpd_mono;
    [eapply (end_headers_spec strftime getpeername [s] q 200 io hdrs s i); [by left|done|done|apply W2]| |
     intros ? ? HD; exact HD].
  intros [r close] w3 ([= -> ->] & w3' & W3 & ->). change (keep_alive q hdrs) with false. cbn [negb].
  rewrite (wrote_servername _ _ _ _ _ _ _ W2), (wrote_servername _ _ _ _ _ _ _ W1) in W3.
  change (texts [(lit "Content-Type", lit "text/plain")]) with (texts hdrs) in *.
  set (text := (o ++ printed (status_line 200 (lit "OK"))) ++ texts hdrs) in *.
  set (more := texts (extra (servername w) (date_of strftime q) q hdrs) ++ CRLF) in *.
  assert (forall t, (text ++ more) ++ (if http_request_is_HEAD q then [] else t) =
    o ++ printed (status_line 200 (lit "OK")) ++
    texts (hdrs ++ extra (servername w) (date_of strftime q) q hdrs) ++ CRLF ++
    (if http_request_is_HEAD q then [] else t)) as Et.
  { intros t. unfold text, more. rewrite texts_app, <- !app_assoc. done. }
  unfold echo_answer. rewrite <- Et. clearbody text more. apply wpd_bind. destruct W3 as [_ Hst3].
  destruct (http_request_is_HEAD q).
  - apply wpd_ret, wpd_ret. rewrite app_nil_r. split; [done|exact Hst3].
  - eapply wpd_mono; [apply (echo_body_says s i io q c Hc (text ++ more)); exact Hst3| |done].
    intros [] w4 [_ Hst4]. apply wpd_ret. by split.
Qed.

Lemma echo_loop_answers n fuel s o io (w : web) m u ma mi hdrs nvs body rest h :
  stream (wio w) io s (request_text m u ma mi hdrs ++ body ++ rest) o h ->
  (length (request_text m u ma mi hdrs ++ body ++ rest) < fuel)%nat -> (0 < n)%nat ->
  m ∈ [HTTP_METHOD_GET; HTTP_METHOD_HEAD; HTTP_METHOD_POST] ->
  clean u -> " "%byte ∉ u -> (length u < 4000)%nat -> 0 <= ma < 10 -> 0 <= mi < 10 ->
  Forall header_ok hdrs -> asks w m u hdrs nvs body -> Forall param_ok nvs -> nvs <> [] ->
  wpd [s] (echo_loop n fuel io) w (fun _ w' => exists q c h',
      reads_as m u ma mi hdrs q /\ cgi_ok c /\ (forall name, values c name = values_of name nvs) /\
      stream (wio w') io s rest (o ++ echo_answer (servername w) q c) h')
    (fun _ _ => False).
Proof.
  intros Hst Hf Hn Hm Hu Hsp Hul Hma Hmi Hh Hask Hnv Hne. destruct n as [|n]; [lia|]. cbn [echo_loop].
  unfold echo_request. apply wpd_bind, wpd_bind.
  eapply wpd_mono; [by apply (request_text_read fuel io s o h w m u ma mi hdrs (body ++ rest))| |done].
  intros r w1 (Q1 & q & h1 & -> & Hq & Hst1). apply wpd_bind.
  assert (carries q w1 nvs (body ++ rest) rest) as Hcar.
  { eapply asks_carries; [exact Hq|]. destruct Q1 as [-> _].
    destruct Hask as [p ? ? ? ?|? ? ? ? Hpm ? ?]; [by eapply asks_get|by apply asks_post]. }
  eapply wpd_mono;
    [apply (new_cgi_spec junk fuel q io s (body ++ rest) o h1 w1 nvs rest Hst1 Hcar Hnv Hne)| |done].
  intros r w2 (Q2 & Hst2 & c & -> & Okc & V).
  assert (servername w2 = servername w) as <-.
  { destruct Q2 as [-> _], Q1 as [-> _]. done. }
  destruct Hq as (Em & Hq'). pose proof (conj Em Hq') as Hq.
  eapply wpd_mono; [apply (echo_respond s rest o io q c w2); [apply Hq| |done|done]| |done].
  - rewrite Em. rewrite !elem_of_cons, elem_of_nil in Hm. destruct Hm as [->|[->|[->|[]]]]; by eexists.
  - intros r w3 (-> & h3 & Hst3). apply wpd_ret. by exists q, c, h3.
Qed.

Context `{CL : !Closes E}.

(** From the socket to the closed connection. *)
Lemma echo_run_spec n fuel s io (w : web) m u ma mi hdrs nvs body rest :
  all_healthy [s] (net (wio w)) ->
  input (net (wio w)) s = request_text m u ma mi hdrs ++ body ++ rest ->
  (length (request_text m u ma mi hdrs ++ body ++ rest) < fuel)%nat -> (0 < n)%nat ->
  m ∈ [HTTP_METHOD_GET; HTTP_METHOD_HEAD; HTTP_METHOD_POST] ->
  clean u -> " "%byte ∉ u -> (length u < 4000)%nat -> 0 <= ma < 10 -> 0 <= mi < 10 ->
  Forall header_ok hdrs -> asks w m u hdrs nvs body -> Forall param_ok nvs -> nvs <> [] ->
  exists w' q c, echo_run n fuel io s w = PthExit w' /\ reads_as m u ma mi hdrs q /\
    cgi_ok c /\ (forall name, values c name = values_of name nvs) /\
    ios (wio w') !! io = None /\
    output (net (wio w')) s = output (net (wio w)) s ++ echo_answer (servername w) q c /\
    closed_after s (output (net (wio w)) s ++ echo_answer (servername w) q c) (net (wio w')).
Proof.
  intros Hh Hin Hf Hn Hm Hu Hsp Hul Hma Hmi Hhd Hask Hnv Hne. unfold echo_run.
  pose proof (fdopen_spec junk (wio w) io s) as Ho. unfold mbind at 1, prog_bind at 1, on_io.
  unfold io_fdopen, put in *. set (io1 := IoW _ (net (wio w))) in *. destruct Ho as (h & Hst & _).
  rewrite Hin in Hst. set (w1 := with_io io1 w).
  assert (stream (wio w1) io s (request_text m u ma mi hdrs ++ body ++ rest)
    (output (net (wio w)) s) h) as Hst1 by exact Hst.
  assert (asks w1 m u hdrs nvs body) as Hask1
    by (destruct Hask as [p ? ? ? ?|? ? ? ? Hpm ? ?]; [by eapply asks_get|by apply asks_post]).
  pose proof (echo_loop_answers n fuel s _ io w1 m u ma mi hdrs nvs body rest h Hst1 Hf Hn Hm Hu Hsp Hul
    Hma Hmi Hhd Hask1 Hnv Hne) as Hl.
  unfold wpd in Hl. unfold mbind at 1, prog_bind at 1. cbv beta iota.
  destruct (echo_loop n fuel io w1) as [[] w2| |w2| |]; try done.
  destruct Hl as [(q & c & h' & Hq & Hc & Hv & Hst2) Hh2].
  destruct (fclose_spec io s rest _ h' (wio w2) Hst2 (Hh2 Hh)) as (io3 & Hcl & Hgone & Hout & Hclosed).
  exists (with_io io3 w2), q, c. split; [unfold mbind, prog_bind, on_io; rewrite Hcl; done|].
  split; [exact Hq|]. split; [exact Hc|]. split; [exact Hv|]. split; [exact Hgone|].
  split; [exact Hout|exact Hclosed].
Qed.

(** The echo server from socket to socket: for a request with parameters, in
    the query string or the body, in whatever pieces it arrives, the thread writes
    the status line, the headers and, unless the method is HEAD, the description
    of exactly that request with the values of exactly those parameters; everything
    written is sent before the connection is closed and the thread exits. *)
Theorem echo_answers n fuel s io (w : web) m u ma mi hdrs nvs body rest :
  all_healthy [s] (net (wio w)) ->
  input (net (wio w)) s = request_text m u ma mi hdrs ++ body ++ rest ->
  (length (request_text m u ma mi hdrs ++ body ++ rest) < fuel)%nat -> (0 < n)%nat ->
  m ∈ [HTTP_METHOD_GET; HTTP_METHOD_HEAD; HTTP_METHOD_POST] ->
  clean u -> " "%byte ∉ u -> (length u < 4000)%nat -> 0 <= ma < 10 -> 0 <= mi < 10 ->
  Forall header_ok hdrs -> asks w m u hdrs nvs body -> Forall param_ok nvs -> nvs <> [] ->
  exists w' q c, echo_run n fuel io s w = PthExit w' /\ reads_as m u ma mi hdrs q /\
    cgi_ok c /\ (forall name, values c name = values_of name nvs) /\
    ios (wio w') !! io = None /\
    output (net (wio w')) s = output (net (wio w)) s ++ echo_answer (servername w) q c /\
    closed_after s (output (net (wio w)) s ++ echo_answer (servername w) q c) (net (wio w')).
Proof. apply echo_run_spec. Qed.
End echo.

(** ** Example *)

#[export] Instance script_closes : Closes script.
Proof. intros s e _. by exists e. Qed.

Definition echo_url : bytes := lit "/here?" ++ query_text sample_params.

Definition echo_world : web (E := script) :=
  web_of (request_text 1 echo_url 1 1 sample_headers ++ [] ++ lit "more").

Lemma echo_answers_witness :
  exists w' q (c : cgi (shash := gmap bytes) (vec := list)),
    echo_run (fun _ _ => []) (fun _ => ([], 0)) no_junk [] 1 400 1 3 echo_world = PthExit w' /\
    reads_as 1 echo_url 1 1 sample_headers q /\ cgi_ok c /\
    (forall name, values c name = values_of name sample_params) /\ ios (wio w') !! 1%positive = None /\
    output (net (wio w')) 3 = output (net (wio echo_world)) 3 ++
      echo_answer (fun _ _ => []) [] (servername echo_world) q c /\
    closed_after 3 (output (net (wio echo_world)) 3 ++
      echo_answer (fun _ _ => []) [] (servername echo_world) q c) (net (wio w')).
Proof.
  apply (echo_answers (shash := gmap bytes) (vec := list) (fun _ _ => []) (fun _ => ([], 0)) no_junk [] 1 400 3 1
    echo_world 1 echo_url 1 1 sample_headers sample_params [] (lit "more")).
  - apply Forall_singleton. by apply (bool_decide_unpack _).
  - reflexivity.
  - apply (bool_decide_unpack _). vm_compute. exact I.
  - lia.
  - by left.
  - by apply clean_dec.
  - by apply (bool_decide_unpack _).
  - apply (bool_decide_unpack _). vm_compute. exact I.
  - lia.
  - lia.
  - apply sample_headers_ok.
  - apply (asks_get _ _ _ _ _ _ (lit "/here")); [done|done|by apply (bool_decide_unpack _)|done].
  - apply sample_params_ok.
  - done.
Defined.
