(* ===== verification/EchoReactor.v ===== *)
(** * The echo server over the reactor

    The thread of [Eg1Echo.v] with the sockets of [IoThreads.v]: from the system calls,
    which may answer that they would block, to the whole answer. *)

From stdpp Require Import base list gmap.
From Stdlib Require Import Strings.Byte.
From S2P Require Import Prelude C2lib ReactorHandles ReactorTimers Reactor Prog Blocking.
From S2P Require Import Cstring CgiEscape Iolib IolibSpec IolibStreams IoThreads IoWorld IoClose.
From S2P Require Import Http HttpSpec HttpResponses Cgi Eg1Echo.

Section echo_reactor.
Context {X OS : Type} `{PL : Pools (cleanup X)} `{SC : SocketCalls OS} {MC : Memcpy} `{CF : !CopiesForward}.
Context `{PS : Pstring} {shash : Type -> Type} `{SH : Shash shash} {vec : Type -> Type} `{VC : Vector vec}.
Context (strftime : bytes -> Z -> bytes) (getpeername : Z -> bytes * Z) (junk : nat -> byte) (null_text : bytes).
Abbreviation pstate := (pstate (X := X) (OS := OS)).
Context (jh : nat -> reactor_handle pth_fn loc) (jp : nat -> pollfd) (current_pth : loc).
Context (switch : pstate -> pstate).

(** The hypotheses of [IoThreads.v] about the others and the sockets. *)
Context (switch_mine : forall s m, my_handles current_pth s m -> my_handles current_pth (switch s) m).
Context (switch_streams : forall st s,
  to_read (os (switch st)) s = to_read (os st) s /\
  written (os (switch st)) s = written (os st) s /\
  (sound (os st) s -> sound (os (switch st)) s)).
Context (switch_alarm : forall st, alarm_timer st = None ->
  alarm_timer (switch st) = None /\ alarm_received (switch st) = alarm_received st).
Context (delay : Z -> OS -> nat).
Context (reader_served : forall s n st b o,
  sys_read s n (os st) = (-1, EWOULDBLOCK, b, o) ->
  forall st1, os st1 = o -> (delay s (os (switch st1)) < delay s (os st))%nat).
Context (writer_served : forall s bs st b o,
  sys_write s bs (os st) = (-1, EWOULDBLOCK, b, o) ->
  forall st1, os st1 = o -> (delay s (os (switch st1)) < delay s (os st))%nat).
Context (m : gmap nat (registration pth_fn loc)).

(** Closing a socket without errors succeeds, and takes nothing back. *)
Context (close_sound : forall s o, sound o s ->
  exists o', os_close s o = (0, o') /\ forall s', written o' s' = written o s').

#[local] Instance reactor_sockets : Sockets (running current_pth m) :=
  thread_sockets jh jp current_pth switch switch_mine switch_streams switch_alarm delay
    reader_served writer_served m.

#[local] Instance reactor_closes : Closes (running current_pth m).
Proof.
  intros s [st Hst] [Hs _]. cbn [proj1_sig] in Hs. destruct (close_sound s (os st) Hs) as (o' & Hc & Hw).
  change (sys_close s (exist _ st Hst)) with (thread_close current_pth m s (exist _ st Hst)).
  unfold thread_close, lift. cbn [proj1_sig proj2_sig].
  generalize (timed_close_keeps current_pth m s st Hst). unfold timed_close. rewrite Hc. intros K.
  eexists. split; [reflexivity|exact Hw].
Qed.

Lemma thread_closed s (e e' : running current_pth m) :
  sys_close s e = Ret 0 e' -> os_close s (os (proj1_sig e)) = (0, os (proj1_sig e')).
Proof.
  destruct e as [st Hst]. change (sys_close s (exist _ st Hst)) with (thread_close current_pth m s (exist _ st Hst)).
  unfold thread_close, lift. cbn [proj1_sig proj2_sig].
  generalize (timed_close_keeps current_pth m s st Hst). unfold timed_close.
  destruct (os_close s (os st)) as [r o]. intros K [= -> <-]. done.
Qed.

Abbreviation web := (Http.web (E := running current_pth m)).

(** The state of the thread. *)
Definition thread_state (w : web) : pstate := proj1_sig (net (wio w)).

(** C7: the echo server over the reactor: on a socket without errors, and if no alarm is
    set, a request with parameters is answered as a whole, however often the kernel says
    that reading or writing would block, however it splits the bytes, and whatever the
    other threads do meanwhile; when all of it has been written the connection is closed,
    the last the thread does to the operating system, and the thread exits, with its
    handle freed and nothing left registered with the reactor.  The C library's
    [memcpy] copies overlapping cells to lower addresses ([CopiesForward]). *)
Theorem echo_over_reactor n fuel s io (w : web) mth u ma mi hdrs nvs body rest :
  sound (os (thread_state w)) s -> calm (thread_state w) ->
  to_read (os (thread_state w)) s = request_text mth u ma mi hdrs ++ body ++ rest ->
  (length (request_text mth u ma mi hdrs ++ body ++ rest) < fuel)%nat -> (0 < n)%nat ->
  mth ∈ [HTTP_METHOD_GET; HTTP_METHOD_HEAD; HTTP_METHOD_POST] ->
  clean u -> " "%byte ∉ u -> (length u < 4000)%nat -> 0 <= ma < 10 -> 0 <= mi < 10 ->
  Forall header_ok hdrs -> asks w mth u hdrs nvs body -> Forall param_ok nvs -> nvs <> [] ->
  exists w' (q : http_request (shash := shash)) (c : cgi (shash := shash) (vec := vec)),
    echo_run (vec := vec) (shash := shash) strftime getpeername junk null_text n fuel io s w = PthExit w' /\
    reads_as mth u ma mi hdrs q /\ cgi_ok c /\ (forall name, values c name = values_of name nvs) /\
    ios (wio w') !! io = None /\
    written (os (thread_state w')) s =
      written (os (thread_state w)) s ++ echo_answer strftime null_text (servername w) q c /\
    (exists o, written o s = written (os (thread_state w')) s /\
       os_close s o = (0, os (thread_state w'))) /\
    my_handles current_pth (thread_state w') m.
Proof.
  intros Hs Hc Hin Hf Hn Hm Hu Hsp Hul Hma Hmi Hhd Hask Hnv Hne.
  destruct (echo_run_spec (shash := shash) (vec := vec) strftime getpeername junk null_text n fuel s io w
    mth u ma mi hdrs nvs body rest) as (w' & q & c & Hr & Hq & Hok & Hv & Hgone & Hout & e1 & Ho1 & Hcl); try done.
  { apply Forall_singleton. by split. }
  exists w', q, c. split; [exact Hr|]. split; [exact Hq|]. split; [exact Hok|]. split; [exact Hv|].
  split; [exact Hgone|]. split; [exact Hout|]. split; [|exact (proj2_sig (net (wio w')))].
  exists (os (proj1_sig e1)). split; [change (written (os (proj1_sig e1)) s) with (output e1 s); by rewrite Ho1|].
  exact (thread_closed s e1 (net (wio w')) Hcl).
Qed.
End echo_reactor.

(** ** Example

    A socket that makes its user wait twice before each answer. *)

Definition slow_echo_state : pstate (X := Empty_set) (OS := slow) :=
  PState (reactor_init 5 0) false None false None None (None, None)
    (Slow 2 (Script [(3, request_text 1 echo_url 1 1 sample_headers ++ [] ++ lit "more")] [] 4 []) []).

Lemma slow_echo_handles : my_handles 1%positive slow_echo_state ∅.
Proof. split; [apply empty_table_wf|]. exists ∅. split; [done|apply map_filter_empty]. Qed.

Lemma slow_close s (o : slow) : sound o s ->
  exists o', os_close s o = (0, o') /\ forall s', written o' s' = written o s'.
Proof. intros _. by eexists. Qed.

Definition slow_echo_world : Http.web (E := running (OS := slow) 1%positive ∅) :=
  Web (IoW ∅ (exist _ slow_echo_state slow_echo_handles)) (lit "pthrlib-httpd/3.0") None (-1) 1000000.

Lemma echo_over_reactor_witness :
  exists w' (q : http_request (shash := gmap bytes)) (c : cgi (shash := gmap bytes) (vec := list)),
    echo_run (SK := reactor_sockets demo_jh demo_jp 1%positive id slow_mine slow_streams slow_alarm (fun _ => waits)
        slow_reader slow_writer ∅) (shash := gmap bytes) (vec := list)
      (fun _ _ => []) (fun _ => ([], 0)) no_junk [] 1 400 1 3 slow_echo_world = PthExit w' /\
    reads_as 1 echo_url 1 1 sample_headers q /\ cgi_ok c /\
    (forall name, values c name = values_of name sample_params) /\ ios (wio w') !! 1%positive = None /\
    written (os (thread_state 1%positive ∅ w')) 3 = [] ++
      echo_answer (fun _ _ => []) [] (servername slow_echo_world) q c /\
    3 ∈ shut (os (thread_state 1%positive ∅ w')) /\
    my_handles 1%positive (thread_state 1%positive ∅ w') ∅.
Proof.
  edestruct (echo_over_reactor (shash := gmap bytes) (vec := list) (fun _ _ => []) (fun _ => ([], 0)) no_junk []
    demo_jh demo_jp 1%positive id slow_mine slow_streams slow_alarm (fun _ => waits) slow_reader slow_writer ∅
    slow_close 1 400 3 1 slow_echo_world 1 echo_url 1 1 sample_headers sample_params [] (lit "more"))
    as (w' & q & c & H1 & H2 & H3 & H4 & H5 & H6 & (o & _ & H7) & H8).
  - by apply (bool_decide_unpack _).
  - done.
  - reflexivity.
  - apply (bool_decide_unpack _). vm_compute. exact I.
  - lia.
  - by left.
  - by apply clean_dec.
  - by apply (bool_decide_unpack _).
  - apply (bool_decide_unpack _). vm_compute. exact I.
  - lia.
  - lia.
  - apply sample_headers_ok.
  - apply (asks_get _ _ _ _ _ _ (lit "/here")); [done|done|by apply (bool_decide_unpack _)|done].
  - apply sample_params_ok.
  - done.
  - exists w', q, c. split; [exact H1|]. split; [exact H2|]. split; [exact H3|]. split; [exact H4|].
    split; [exact H5|]. split; [exact H6|]. split; [|exact H8].
    injection H7 as <-. by left.
Defined.
