(* ===== verification/Eg2Server.v ===== *)
(** * The file server ([examples/pthr_eg2_server.c])

    A processor thread that serves files and directories over HTTP.  The file
    system is the class [Files]; text of [perror] is not represented. *)

From stdpp Require Import base list gmap.
From Stdlib Require Import Strings.Byte.
From S2P Require Import Prelude C2lib ReactorTimers Prog Cstring CgiEscape Iolib IolibSpec.
From S2P Require Import IolibStreams IoWorld IoKeeps IoClose Http HttpSpec HttpResponses Eg1Echo.

Inductive file_type := S_IFDIR | S_IFREG | S_IFLNK | S_IFSPECIAL.

#[export] Instance file_type_eq : EqDecision file_type.
Proof. solve_decision. Defined.

Record stat := Stat { st_mode : file_type; st_size : Z }.

(** What is on the disk; it does not change while the server runs. *)
Class Disk := {
  sys_stat : bytes -> option stat;
  sys_lstat : bytes -> option stat;
  sys_readlink : bytes -> option bytes;
  contents : bytes -> option bytes;
  dir_entries : bytes -> option (list bytes);
  stat_empty : sys_stat [] = None
}.

(** Nothing changed on the sockets. *)
Definition sockets_same {E} `{SK : Sockets E} (e e' : E) : Prop :=
  forall s, input e' s = input e s /\ output e' s = output e s /\ (healthy e s -> healthy e' s).

(** [opened] and [open_dirs]: the open files and directories, with what is still to
    be read of them; as many as [max_open] can be open at a time. *)
Class Files (E : Type) `{SK : Sockets E} `{DK : Disk} := {
  opened : E -> gmap Z bytes;
  open_dirs : E -> gmap Z (list bytes);
  max_open : nat;
  sys_open : bytes -> E -> Z * E;
  sys_read : Z -> nat -> E -> (Z * bytes) * E;
  close_file : Z -> E -> Z * E;
  sys_opendir : bytes -> E -> option Z * E;
  sys_readdir : Z -> E -> option bytes * E;
  open_law : forall p e,
    let '(fd, e') := sys_open p e in
    sockets_same e e' /\ open_dirs e' = open_dirs e /\
    (fd < 0 /\ opened e' = opened e /\
       (contents p = None \/ max_open <= size (opened e) + size (open_dirs e))%nat \/
     0 <= fd /\ exists c, contents p = Some c /\ opened e !! fd = None /\
       opened e' = <[fd := c]> (opened e));
  file_read_law : forall fd n e c,
    opened e !! fd = Some c -> (0 < n)%nat ->
    let '((r, bs), e') := sys_read fd n e in
    sockets_same e e' /\ open_dirs e' = open_dirs e /\
    (r < 0 /\ opened e' = opened e \/
     r = Z.of_nat (length bs) /\ (length bs <= n)%nat /\ bs = take (length bs) c /\ (bs = [] -> c = []) /\
       opened e' = <[fd := drop (length bs) c]> (opened e));
  file_close_law : forall fd e,
    sockets_same e (close_file fd e).2 /\ opened (close_file fd e).2 = delete fd (opened e) /\
    open_dirs (close_file fd e).2 = open_dirs e;
  opendir_law : forall p e,
    match sys_opendir p e with
    | (Some d, e') => exists ns, dir_entries p = Some ns /\ sockets_same e e' /\ opened e' = opened e /\
        open_dirs e !! d = None /\ open_dirs e' = <[d := ns]> (open_dirs e)
    | (None, e') => sockets_same e e' /\ opened e' = opened e /\ open_dirs e' = open_dirs e /\
        (dir_entries p = None \/ max_open <= size (opened e) + size (open_dirs e))%nat
    end;
  readdir_law : forall d e ns,
    open_dirs e !! d = Some ns ->
    sys_readdir d e = (head ns, (sys_readdir d e).2) /\
    sockets_same e (sys_readdir d e).2 /\ opened (sys_readdir d e).2 = opened e /\
    open_dirs (sys_readdir d e).2 = <[d := tail ns]> (open_dirs e);
  pth_read_files : forall s n e,
    match pth_read s n e with
    | Ret _ e' | Die _ e' | PthExit e' => opened e' = opened e /\ open_dirs e' = open_dirs e
    | _ => True
    end;
  pth_write_files : forall s bs e,
    match pth_write s bs e with
    | Ret _ e' | Die _ e' | PthExit e' => opened e' = opened e /\ open_dirs e' = open_dirs e
    | _ => True
    end;
  sys_close_files : forall s e,
    match sys_close s e with
    | Ret _ e' | Die _ e' | PthExit e' => opened e' = opened e /\ open_dirs e' = open_dirs e
    | _ => True
    end
}.

Section server.
Context {E : Type} `{SK : Sockets E} `{DK : Disk} `{FS : !Files E}.
Context `{PS : Pstring} {shash : Type -> Type} `{SH : Shash shash}.
Context (strftime : bytes -> Z -> bytes) (getpeername : Z -> bytes * Z) (junk : nat -> byte).
Abbreviation web := (web (E := E)).
Abbreviation http_request := (http_request (shash := shash)).

(** A call of the operating system. *)
Definition on_files {A} (f : E -> A * E) : prog web A := fun w =>
  let '(a, e) := f (net (wio w)) in Ret a (with_io (IoW (ios (wio w)) e) w).

Definition NO_CACHE_HEADERS : list (bytes * bytes) :=
  [(lit "Cache-Control", lit "must-revalidate"); (lit "Expires", lit "Thu, 01 Dec 1994 16:00:00 GMT");
   (lit "Pragma", lit "no-cache")].

Definition not_found_page : bytes :=
  lit "<html><head><title>File or directory not found</title></head>" ++ CRLF ++
  lit "<body bgcolor=" ++ [x22] ++ lit "#ffffff" ++ [x22] ++ lit ">" ++ CRLF ++
  lit "<h1>404 File or directory not found</h1>" ++ CRLF ++
  lit "The file you requested was not found on this server." ++ CRLF ++
  lit "</body></html>" ++ CRLF.

Definition file_not_found_error (q : http_request) (io : loc) : prog web bool :=
  r ← new_http_response q io 404 (lit "File or directory not found");
  r ← http_response_send_headers r ((lit "Content-Type", lit "text/html") :: NO_CACHE_HEADERS);
  '(_, close) ← http_response_end_headers strftime getpeername r;
  if http_request_is_HEAD q then mret close
  else say io not_found_page ≫= fun _ => mret close.

Definition moved_permanently (q : http_request) (io : loc) (location : bytes) : prog web bool :=
  r ← new_http_response q io 301 (lit "Moved permanently");
  r ← http_response_send_headers r [(lit "Content-Length", lit "0"); (lit "Location", location)];
  '(_, close) ← http_response_end_headers strftime getpeername r;
  if http_request_is_HEAD q then mret close else mret close.

(** ** Directories *)

Definition NAME_MAX : nat := 255.

Definition QT : bytes := [x22].

Definition directory_top (path : bytes) : bytes :=
  lit "<html><head><title>Directory: " ++ path ++ lit "</title></head>" ++ CRLF ++
  lit "<body bgcolor=" ++ QT ++ lit "#ffffff" ++ QT ++ lit ">" ++ CRLF ++
  lit "<h1>Directory: " ++ path ++ lit "</h1>" ++ CRLF ++
  lit "<table>" ++ CRLF ++
  lit "<tr><td></td><td></td>" ++
  lit "<td><a href=" ++ QT ++ lit ".." ++ QT ++ lit ">Parent directory</a></td></tr>" ++ CRLF.

Definition type_name (t : file_type) : bytes :=
  match t with
  | S_IFDIR => lit "dir"
  | S_IFREG => lit "file"
  | S_IFLNK => lit "link"
  | S_IFSPECIAL => lit "special"
  end.

Definition entry_text (st : stat) (name : bytes) : bytes :=
  lit "<tr><td>[ " ++ type_name (st_mode st) ++ lit " ]</td><td align=right>" ++
  print_int (to_int (st_size st)) ++ lit "</td>" ++
  lit "<td><a href=" ++ QT ++ name ++ (if decide (st_mode st = S_IFDIR) then lit "/" else []) ++ QT ++
  lit ">" ++ name ++ lit "</a>".

(** The target of a link, cut to the size of the buffer. *)
Definition link_text (filename : bytes) : bytes :=
  lit " -&gt; " ++
  match sys_readlink filename with
  | Some l => cstr (take NAME_MAX l)
  | None => lit "unknown"
  end.

Definition show_entry (path : bytes) (io : loc) (name : bytes) : prog web unit :=
  if decide (head name = Some "."%byte) then mret tt
  else
    let filename := path ++ lit "/" ++ name in
    match sys_lstat filename with
    | None => mret tt
    | Some st =>
      say io (entry_text st name) ≫= fun _ =>
      (if decide (st_mode st = S_IFLNK) then say io (link_text filename) else mret tt) ≫= fun _ =>
      on_io (io_fputs (lit "</td></tr>" ++ CRLF) io) ≫= fun _ => mret tt
    end.

(** [n] bounds the number of entries. *)
Fixpoint show_entries (n : nat) (path : bytes) (io : loc) (dir : Z) : prog web unit :=
  match n with
  | O => fun _ => NoFuel
  | S n =>
    d ← on_files (sys_readdir dir);
    match d with
    | None => mret tt
    | Some name => show_entry path io name ≫= fun _ => show_entries n path io dir
    end
  end.

Definition serve_directory (n : nat) (q : http_request) (io : loc) (path : bytes) : prog web bool :=
  match last path with
  | None => abort
  | Some c =>
    if decide (c <> "/"%byte) then moved_permanently q io (path ++ lit "/")
    else
      dir ← on_files (sys_opendir path);
      match dir with
      | None => file_not_found_error q io
      | Some dir =>
        r ← new_http_response q io 200 (lit "OK");
        r ← http_response_send_headers r ((lit "Content-Type", lit "text/html") :: NO_CACHE_HEADERS);
        '(_, close) ← http_response_end_headers strftime getpeername r;
        if http_request_is_HEAD q then mret close
        else
          say io (directory_top path) ≫= fun _ =>
          show_entries n path io dir ≫= fun _ =>
          say io (lit "</table></body></html>" ++ CRLF) ≫= fun _ => mret close
      end
  end.

(** ** Files *)

(** [n] bounds the number of reads. *)
Fixpoint send_file (n : nat) (io : loc) (fd : Z) : prog web unit :=
  match n with
  | O => fun _ => NoFuel
  | S n =>
    '(r, buffer) ← on_files (sys_read fd 4096);
    if decide (0 < r)
    then on_io (io_fwrite buffer io) ≫= fun _ => send_file n io fd
    else mret tt
  end.

Definition serve_file (n : nat) (q : http_request) (io : loc) (path : bytes) (st : stat) : prog web bool :=
  let content_length := print_int (to_int (st_size st)) in
  fd ← on_files (sys_open path);
  if decide (fd < 0) then file_not_found_error q io
  else
    r ← new_http_response q io 200 (lit "OK");
    r ← http_response_send_headers r
      [(lit "Content-Type", lit "text/plain"); (lit "Content-Length", content_length)];
    '(_, cl) ← http_response_end_headers strftime getpeername r;
    if http_request_is_HEAD q then mret cl
    else
      send_file n io fd ≫= fun _ =>
      on_files (close_file fd) ≫= fun _ => mret cl.

(** The body of the loop; [None]: it is left with [break]. *)
Definition serve_request (n fuel : nat) (io : loc) : prog web (option bool) :=
  q ← new_http_request fuel io;
  match q with
  | None => mret None
  | Some q =>
    close ←
      match sys_stat (path q) with
      | None => file_not_found_error q io
      | Some st =>
        match st_mode st with
        | S_IFDIR => serve_directory n q io (path q)
        | S_IFREG => serve_file n q io (path q) st
        | _ => file_not_found_error q io
        end
      end;
    mret (Some close)
  end.

(** [k] bounds the number of requests. *)
Fixpoint server_loop (k n fuel : nat) (io : loc) : prog web unit :=
  match k with
  | O => fun _ => NoFuel
  | S k =>
    r ← serve_request n fuel io;
    match r with
    | Some false => server_loop k n fuel io
    | Some true | None => mret tt
    end
  end.

Definition server_run (k n fuel : nat) (io : loc) (sock : Z) : prog web unit :=
  on_io (io_fdopen junk io sock) ≫= fun _ =>
  server_loop k n fuel io ≫= fun _ =>
  on_io (io_fclose io) ≫= fun _ =>
  pth_exit.
End server.
