(* ===== verification/Eg2Spec.v ===== *)
(** * What the file server answers ([examples/pthr_eg2_server.c])

    The answers as functions of the request and of the disk, and the session of
    requests on one connection; the descriptors the server leaves open. *)

From stdpp Require Import base list gmap.
From Stdlib Require Import Strings.Byte.
From S2P Require Import Prelude C2lib ReactorTimers Prog Cstring CgiEscape Iolib IolibSpec.
From S2P Require Import IolibStreams IoWorld IoKeeps IoClose Http HttpSpec HttpResponses Eg1Echo Eg2Server.

#[local] Hint Resolve keeps_ret keeps_bind keeps_fputs keeps_fprintf keeps_fwrite keeps_fgets keeps_setbufmode
  keeps_handle : keeps.

(** ** Open files are not touched by the HTTP library *)

Section files.
Context {E : Type} `{SK : Sockets E} `{DK : Disk} `{FS : !Files E}.
Context `{PS : Pstring} {shash : Type -> Type} `{SH : Shash shash}.
Context (strftime : bytes -> Z -> bytes) (getpeername : Z -> bytes * Z).
Abbreviation web := (web (E := E)).
Abbreviation http_request := (http_request (shash := shash)).

Definition files (e : E) : gmap Z bytes * gmap Z (list bytes) := (opened e, open_dirs e).

Abbreviation calm := (keeps_world files (S := web)).

Lemma files_read s n : keeps files (on_net (pth_read s n)).
Proof.
  intros w. unfold on_net. pose proof (pth_read_files s n (net w)) as H. unfold files.
  destruct (pth_read s n (net w)); try done; destruct H as [H1 H2]; simpl; by rewrite H1, H2.
Qed.

Lemma files_write s bs : keeps files (on_net (pth_write s bs)).
Proof.
  intros w. unfold on_net. pose proof (pth_write_files s bs (net w)) as H. unfold files.
  destruct (pth_write s bs (net w)); try done; destruct H as [H1 H2]; simpl; by rewrite H1, H2.
Qed.

Lemma files_close s : keeps files (on_net (sys_close s)).
Proof.
  intros w. unfold on_net. pose proof (sys_close_files s (net w)) as H. unfold files.
  destruct (sys_close s (net w)); try done; destruct H as [H1 H2]; simpl; by rewrite H1, H2.
Qed.
#[local] Hint Resolve files_read files_write files_close : keeps.

Lemma files_fclose io : keeps files (io_fclose io).
Proof.
  assert (keeps files (do_close io)) as Hd.
  { unfold do_close. apply keeps_bind; [apply keeps_handle|]. intros h. apply keeps_bind.
    - case_match; [apply keeps_flush, files_write|apply keeps_ret].
    - intros _. apply keeps_bind; [apply files_close|]. intros r. case_match; [apply keeps_exit|apply keeps_ret]. }
  unfold io_fclose, andthen. apply keeps_bind; [exact Hd|]. by intros _ w.
Qed.

(** A program made of calls on handles and of tests. *)
Ltac calm := repeat match goal with
  | |- keeps_world _ (on_io _) => apply keeps_world_io; auto with keeps
  | |- keeps_world _ (_ ≫= _) => apply keeps_world_bind; [|intros ?]
  | |- keeps_world _ (mret _) => apply keeps_world_ret
  | |- keeps_world _ (fun w => Ret _ _) => by intros ?
  | |- keeps_world _ (fun _ => NoFuel) => by intros ?
  | |- keeps_world _ (pth_die _) => by intros ?
  | |- keeps_world _ (expect ?o) => by destruct o; intros ?
  | |- keeps_world _ _ => solve [auto with keeps nocore]
  | |- keeps_world _ _ => case_match
  end.

Lemma calm_get_line io : calm (get_line io).
Proof. unfold get_line. calm. Qed.
#[local] Hint Resolve calm_get_line : keeps.

Lemma calm_request fuel io : calm (new_http_request (shash := shash) fuel io).
Proof.
  assert (forall A r msg, calm (faulty (A := A) io r msg)) as Hf by (intros; unfold faulty; calm).
  assert (calm (first_line fuel io)) as H1 by (induction fuel; cbn [first_line]; calm).
  assert (forall hs, calm (read_headers (shash := shash) fuel io hs)) as H2.
  { clear H1. induction fuel; intros hs; cbn [read_headers]; calm. }
  unfold new_http_request. calm.
Qed.

Lemma calm_header h k v : calm (http_response_send_header (shash := shash) h k v).
Proof. unfold http_response_send_header. calm. Qed.
#[local] Hint Resolve calm_header : keeps.

Lemma calm_headers h kvs : calm (http_response_send_headers (shash := shash) h kvs).
Proof.
  assert (forall h, calm (send_all h kvs)) by (induction kvs as [|[k v] kvs IH]; cbn [send_all]; intros; calm).
  unfold http_response_send_headers. calm.
Qed.
#[local] Hint Resolve calm_headers : keeps.

Lemma calm_response q io c msg : calm (new_http_response (shash := shash) q io c msg).
Proof. unfold new_http_response. calm. Qed.
#[local] Hint Resolve calm_response : keeps.

Lemma calm_end h : calm (http_response_end_headers (shash := shash) strftime getpeername h).
Proof.
  assert (forall b k v h, calm (send_missing (shash := shash) b k v h)) by (intros; unfold send_missing; calm).
  assert (forall h, calm (do_logging (shash := shash) strftime getpeername h)).
  { intros g. unfold do_logging, log_text, http_request_method_string, io_fileno. calm. }
  unfold http_response_end_headers. calm.
Qed.

(** ** The answers *)

Definition reply_head (name : bytes) (q : http_request) (c : Z) (msg : bytes)
    (hdrs : list (bytes * bytes)) : bytes :=
  printed (status_line c msg) ++ texts (hdrs ++ extra name (date_of strftime q) q hdrs) ++ CRLF.

(** A response whose body is left out if the method is HEAD. *)
Definition reply (name : bytes) (q : http_request) (c : Z) (msg : bytes) (hdrs : list (bytes * bytes))
    (body : bytes) : bytes :=
  reply_head name q c msg hdrs ++ (if http_request_is_HEAD q then [] else body).

Definition html_headers : list (bytes * bytes) := (lit "Content-Type", lit "text/html") :: NO_CACHE_HEADERS.
Definition moved_headers (location : bytes) : list (bytes * bytes) :=
  [(lit "Content-Length", lit "0"); (lit "Location", location)].
Definition file_headers (st : stat) : list (bytes * bytes) :=
  [(lit "Content-Type", lit "text/plain"); (lit "Content-Length", print_int (to_int (st_size st)))].

(** The row of an entry of the directory [path]; hidden files have none. *)
Definition row (path name : bytes) : bytes :=
  if decide (head name = Some "."%byte) then []
  else
    match sys_lstat (path ++ lit "/" ++ name) with
    | None => []
    | Some st =>
      printed (entry_text st name) ++
      (if decide (st_mode st = S_IFLNK) then printed (link_text (path ++ lit "/" ++ name)) else []) ++
      lit "</td></tr>" ++ CRLF
    end.

Definition listing (path : bytes) (names : list bytes) : bytes :=
  printed (directory_top path) ++ concat (row path <$> names) ++
  printed (lit "</table></body></html>" ++ CRLF).

(** The answer and whether the connection stays open after it. *)
Definition not_found (name : bytes) (q : http_request) : bytes * bool :=
  (reply name q 404 (lit "File or directory not found") html_headers (printed not_found_page),
   keep_alive q html_headers).

Definition answer (name : bytes) (q : http_request) : bytes * bool :=
  match sys_stat (path q) with
  | Some (Stat S_IFDIR _) =>
    if decide (last (path q) <> Some "/"%byte)
    then (reply name q 301 (lit "Moved permanently") (moved_headers (path q ++ lit "/")) [],
          keep_alive q (moved_headers (path q ++ lit "/")))
    else
      match dir_entries (path q) with
      | Some names => (reply name q 200 (lit "OK") html_headers (listing (path q) names),
                       keep_alive q html_headers)
      | None => not_found name q
      end
  | Some (Stat S_IFREG size) =>
    match contents (path q) with
    | Some c => (reply name q 200 (lit "OK") (file_headers (Stat S_IFREG size)) c,
                 keep_alive q (file_headers (Stat S_IFREG size)))
    | None => not_found name q
    end
  | _ => not_found name q
  end.

(** The number of descriptors that stay open: a directory always, a file if the
    method is HEAD. *)
Definition leaks (q : http_request) : nat :=
  match sys_stat (path q) with
  | Some (Stat S_IFDIR _) =>
    if decide (last (path q) <> Some "/"%byte) then 0
    else if dir_entries (path q) is Some _ then 1 else 0
  | Some (Stat S_IFREG _) =>
    if contents (path q) is Some _ then if http_request_is_HEAD q then 1 else 0 else 0
  | _ => 0
  end.

Lemma leaks_le q : (leaks q <= 1)%nat.
Proof. unfold leaks. repeat case_match; lia. Qed.

(** How many iterations the loops of the handlers take at most. *)
Definition work (p : bytes) : nat :=
  length (default [] (contents p)) + length (default [] (dir_entries p)).

(** ** The handlers *)

(** The disk has no errors. *)
Context (reads_work : forall fd n e c, opened e !! fd = Some c -> 0 <= (sys_read fd n e).1.1).

Section handlers.
Context (io : loc) (s : Z) (i name : bytes).

(** [o] has been written and the files [fs] are open. *)
Definition serving (o : bytes) (fs : gmap Z bytes * gmap Z (list bytes)) (w : web) : Prop :=
  (exists h, stream (wio w) io s i o h) /\ servername w = name /\ files (net (wio w)) = fs.

Definition does {A} (m : prog web A) (P : web -> Prop) (Q : A -> web -> Prop) : Prop :=
  forall w, P w -> wpd [s] m w Q (fun _ _ => False).

Lemma does_bind {A B} (m : prog web A) (k : A -> prog web B) P Q R :
  does m P Q -> (forall a, does (k a) (Q a) R) -> does (m ≫= k) P R.
Proof. intros Hm Hk w HP. apply wpd_bind. eapply wpd_mono; [by apply Hm| |done]. intros a w'. apply Hk. Qed.

Lemma does_ret {A} (a : A) (P : web -> Prop) (Q : A -> web -> Prop) :
  (forall w, P w -> Q a w) -> does (mret a) P Q.
Proof. intros H w HP. by apply wpd_ret, H. Qed.

Lemma does_pre {A} (m : prog web A) (P P' : web -> Prop) Q :
  does m P' Q -> (forall w, P w -> P' w) -> does m P Q.
Proof. intros Hm HP w Hw. by apply Hm, HP. Qed.

(** Writing on the handle. *)
Lemma does_write {A} (m : prog web A) text o fs :
  calm m -> (forall w, (exists h, stream (wio w) io s i o h) ->
    wpd [s] m w (fun _ w' => wrote io s i o w text w') (fun _ _ => False)) ->
  does m (serving o fs) (fun _ => serving (o ++ text) fs).
Proof.
  intros Hc Hm w (Hst & Hn & Hf). eapply wpd_mono; [exact (wpd_keeps files [s] _ _ _ _ Hc (Hm w Hst))| |done].
  intros a w' [[Q Hst'] Hf']. split; [exact Hst'|]. split; [|congruence].
  destruct Q as [-> _]. exact Hn.
Qed.

Lemma does_say text o fs : does (say io text) (serving o fs) (fun _ => serving (o ++ printed text) fs).
Proof.
  apply does_write; [unfold say; calm|]. intros w Hst.
  eapply wpd_mono; [by apply (says_say s i io text o w)| |done]. intros a w'. unfold said. simpl.
  by rewrite app_nil_r.
Qed.

Lemma does_puts text o fs :
  does (on_io (io_fputs text io)) (serving o fs) (fun _ => serving (o ++ text) fs).
Proof. apply does_write; [calm|]. intros w Hst. by apply puts_spec; [left|]. Qed.

Lemma does_fwrite data o fs :
  does (on_io (io_fwrite data io)) (serving o fs) (fun _ => serving (o ++ data) fs).
Proof.
  apply does_write; [calm|]. intros w [h Hst].
  eapply wpd_io; [apply (fwrite_spec [s] data io s i o h (wio w)); [by left|done]|].
  intros r io' (_ & h' & Hst' & _ & Hon). split; [by apply quiet_io|]. exists h'. by rewrite wio_with.
Qed.

(** A call of the operating system. *)
Lemma does_files {A} (f : E -> A * E) o fs (Q : A -> _ -> Prop) :
  (forall e, files e = fs -> sockets_same e (f e).2 /\ Q (f e).1 (files (f e).2)) ->
  does (on_files f) (serving o fs) (fun a w => exists fs', Q a fs' /\ serving o fs' w).
Proof.
  intros Hf w ([h [Hh Ok Hsk Hi Ho]] & Hn & Hfs). unfold wpd, on_files.
  destruct (Hf _ Hfs) as [Hsame HQ]. destruct (f (net (wio w))) as [a e']. cbn [fst snd] in *.
  destruct (Hsame s) as (Ei & Eo & Hhe). split.
  - exists (files e'). split; [done|]. split; [|done]. exists h. split; simpl; [done|done|done|by rewrite Ei|by rewrite Eo].
  - unfold all_healthy. rewrite !Forall_singleton. exact Hhe.
Qed.

(** The status line and the headers. *)
Lemma does_respond {A} q c msg hdrs (k : bool -> prog web A) o fs Q :
  is_http09 q = false -> is_Some (method_string (method q)) ->
  does (k (negb (keep_alive q hdrs)))
    (serving (o ++ reply_head name q c msg hdrs) fs) Q ->
  does (r ← new_http_response (shash := shash) q io c msg;
        r ← http_response_send_headers r hdrs;
        '(_, close) ← http_response_end_headers strftime getpeername r;
        k close) (serving o fs) Q.
Proof.
  intros H9 Hm Hk w ([h Hst] & Hn & Hf).
  assert (calm (respond strftime getpeername q io c msg hdrs)) as Hc by (unfold respond; calm; apply calm_end).
  pose proof (wpd_keeps files [s] _ _ _ _ Hc
    (respond_spec strftime getpeername q io c msg hdrs s i o h w Hst H9 Hm)) as Hr.
  unfold respond, wpd, mbind, prog_bind in *.
  destruct (new_http_response q io c msg w) as [r1 w1| | | |]; try done.
  destruct (http_response_send_headers r1 hdrs w1) as [r2 w2| | | |]; try done.
  destruct (http_response_end_headers strftime getpeername r2 w2) as [[r3 cl] w3| | | |]; try done.
  destruct Hr as [[[Hcl (w4 & Hw & Ew)] Hff] Hh]. cbn [snd fst] in Hcl. subst cl.
  assert (does_at : wpd [s] (k (negb (keep_alive q hdrs))) w3 Q (fun _ _ => False)).
  { apply Hk. subst w3. destruct Hw as [Hq Hst4]. split; [rewrite Hn in Hst4; exact Hst4|].
    split; [destruct Hq as [-> _]; exact Hn|congruence]. }
  unfold wpd in does_at. destruct (k _ w3); naive_solver.
Qed.
Abbreviation fileset := (gmap Z bytes * gmap Z (list bytes))%type.
Definition nfiles (fs : fileset) : nat := size fs.1 + size fs.2.

(** [q] has been answered with [a]; [l] more files are open. *)
Definition answered (o : bytes) (fs : fileset) (a : bytes * bool) (l : nat) (close : bool) (w : web) : Prop :=
  close = negb a.2 /\ exists fs', serving (o ++ a.1) fs' w /\ nfiles fs' = (nfiles fs + l)%nat /\
    (l = 0%nat -> fs' = fs).

Lemma answered_same o fs o' a w :
  o' = o ++ a.1 -> serving o' fs w -> answered o fs a 0 (negb a.2) w.
Proof. intros -> Hw. split; [done|]. exists fs. split; [done|]. split; [lia|done]. Qed.

Section request.
Context (q : http_request) (H9 : is_http09 q = false) (Hm : is_Some (method_string (method q))).

Lemma not_found_does o fs :
  does (file_not_found_error strftime getpeername q io) (serving o fs) (answered o fs (not_found name q) 0).
Proof.
  unfold file_not_found_error. apply (does_respond q 404 _ html_headers); [done|done|].
  unfold not_found, reply. destruct (http_request_is_HEAD q).
  - apply does_ret. intros w. apply (answered_same _ _ _ (_, _)). cbn [fst]. by rewrite app_nil_r.
  - eapply does_bind; [apply does_say|]. intros []. apply does_ret. intros w.
    apply (answered_same _ _ _ (_, _)). apply symmetry, app_assoc.
Qed.

Lemma moved_does location o fs :
  does (moved_permanently strftime getpeername q io location) (serving o fs)
    (answered o fs (reply name q 301 (lit "Moved permanently") (moved_headers location) [],
                    keep_alive q (moved_headers location)) 0).
Proof.
  unfold moved_permanently. apply (does_respond q 301 _ (moved_headers location)); [done|done|].
  unfold reply. destruct (http_request_is_HEAD q); apply does_ret; intros w;
    apply (answered_same _ _ _ (_, _)); cbn [fst]; by rewrite app_nil_r.
Qed.

Lemma send_file_does n fd o c op ds :
  op !! fd = Some c -> (length c < n)%nat ->
  does (send_file n io fd) (serving o (op, ds)) (fun _ => serving (o ++ c) (<[fd := []]> op, ds)).
Proof.
  revert o c op. induction n as [|n IH]; intros o c op Hc Hn; [lia|]. cbn [send_file].
  eapply does_bind.
  { apply (does_files _ _ _ (fun a fs => exists k, a = (Z.of_nat k, take k c) /\ (k <= length c)%nat /\
      (k = 0%nat -> c = []) /\ fs = (<[fd := drop k c]> op, ds))).
    intros e [= Eo Ed]. rewrite <- Eo in Hc. pose proof (file_read_law fd 4096 e c Hc ltac:(lia)) as Hl.
    pose proof (reads_work fd 4096 e c Hc) as Hr.
    destruct (sys_read fd 4096 e) as [[r bs] e']. cbn [fst snd] in *.
    destruct Hl as (Hs & Hd & [[Hlt _]|(-> & Hle & Hbs & H0 & Hop)]); [lia|]. split; [done|].
    exists (length bs). rewrite <- Hbs. split; [done|]. split; [rewrite Hbs, length_take; lia|].
    split; [by intros ?%nil_length_inv; apply H0|]. unfold files. by rewrite Hop, Hd, Eo, Ed. }
  intros [r buf]. intros w (fs' & (k & [= -> ->] & Hk & H0 & ->) & Hw). destruct (decide _) as [Hpos|Hpos].
  - revert w Hw. eapply does_bind; [apply does_fwrite|]. intros a. cbv beta. clear a.
    pose proof (IH (o ++ take k c) (drop k c) (<[fd := drop k c]> op)) as Hnext.
    rewrite <- app_assoc, take_drop, insert_insert_eq in Hnext.
    apply Hnext; [apply lookup_insert_eq|]. rewrite length_drop. lia.
  - assert (k = 0%nat) as -> by lia. apply wpd_ret. specialize (H0 eq_refl). subst c. simpl in Hw.
    by rewrite app_nil_r.
Qed.

Lemma open_does p o op ds :
  does (on_files (sys_open p)) (serving o (op, ds)) (fun fd w => exists fs',
    (fd < 0 /\ fs' = (op, ds) /\ (contents p = None \/ max_open <= nfiles (op, ds))%nat \/
     0 <= fd /\ exists c, contents p = Some c /\ op !! fd = None /\ fs' = (<[fd := c]> op, ds)) /\
    serving o fs' w).
Proof.
  apply (does_files _ _ _ (fun fd fs' => _)). intros e [= <- <-]. pose proof (open_law p e) as Hl.
  destruct (sys_open p e) as [fd e']. destruct Hl as (Hs & Hd & Hc). split; [done|]. cbn [fst snd].
  unfold files, nfiles. cbn [fst snd]. rewrite Hd. destruct Hc as [(? & -> & ?)|(? & c & ? & ? & ->)].
  - by left.
  - right. split; [done|]. by exists c.
Qed.

Lemma serve_file_does n st o fs :
  (length (default [] (contents (path q))) < n)%nat -> (nfiles fs < max_open)%nat ->
  does (serve_file strftime getpeername n q io (path q) st) (serving o fs)
    (answered o fs
       (match contents (path q) with
        | Some c => (reply name q 200 (lit "OK") (file_headers st) c, keep_alive q (file_headers st))
        | None => not_found name q
        end)
       (if contents (path q) is Some _ then if http_request_is_HEAD q then 1 else 0 else 0)).
Proof.
  destruct fs as [op ds]. intros Hn Hmax. unfold serve_file. eapply does_bind; [apply open_does|].
  intros fd w (fs' & [(Hlt & -> & [Hc|Hc])|(Hge & c & Hc & Hnew & ->)] & Hw); [|lia|].
  - rewrite decide_True, Hc by done. revert w Hw. apply not_found_does.
  - rewrite decide_False, Hc by lia. rewrite Hc in Hn. revert w Hw.
    apply (does_respond q 200 _ (file_headers st)); [done|done|]. unfold reply.
    destruct (http_request_is_HEAD q).
    + apply does_ret. intros w Hw. split; [done|]. exists (<[fd := c]> op, ds).
      rewrite app_nil_r. split; [done|]. split; [|lia]. unfold nfiles. simpl. rewrite map_size_insert_None by done. lia.
    + eapply does_bind; [by apply (send_file_does n fd _ c); [apply lookup_insert_eq|]|]. intros [].
      eapply does_bind; [apply (does_files _ _ _ (fun _ fs' => fs' = (op, ds)))|].
      { intros e [= Eo Ed]. destruct (file_close_law fd e) as (Hs & Ho & Hd). split; [done|].
        unfold files. rewrite Ho, Hd, Eo, Ed, insert_insert_eq. f_equal. by apply delete_insert_id. }
      intros r. apply does_ret. intros w (fs' & -> & Hw). rewrite <- app_assoc in Hw.
      by apply (answered_same _ _ _ (_, _) _ eq_refl).
Qed.

Lemma show_entry_does dname o fs :
  does (show_entry (path q) io dname) (serving o fs) (fun _ => serving (o ++ row (path q) dname) fs).
Proof.
  unfold show_entry, row. destruct (decide _); [apply does_ret; intros w; by rewrite app_nil_r|].
  destruct (sys_lstat _) as [st|]; [|apply does_ret; intros w; by rewrite app_nil_r].
  eapply does_bind; [apply does_say|]. intros [].
  apply (does_bind _ _ _ (fun _ => serving ((o ++ printed (entry_text st dname)) ++
    if decide (st_mode st = S_IFLNK) then printed (link_text (path q ++ lit "/" ++ dname)) else []) fs)).
  - destruct (decide _); [apply does_say|]. apply does_ret. intros w. by rewrite app_nil_r.
  - intros []. eapply does_bind; [apply does_puts|]. intros r. apply does_ret. intros w.
    by rewrite <- !(app_assoc _ _ (lit "</td></tr>" ++ CRLF)), <- app_assoc.
Qed.

Lemma show_entries_does n d ns o op ds :
  ds !! d = Some ns -> (length ns < n)%nat ->
  does (show_entries n (path q) io d) (serving o (op, ds))
    (fun _ => serving (o ++ concat (row (path q) <$> ns)) (op, <[d := []]> ds)).
Proof.
  revert o ns ds. induction n as [|n IH]; intros o ns ds Hd Hn; [lia|]. cbn [show_entries].
  eapply does_bind.
  { apply (does_files _ _ _ (fun a fs' => a = head ns /\ fs' = (op, <[d := tail ns]> ds))).
    intros e [= Eo Ed]. rewrite <- Ed in Hd. destruct (readdir_law d e ns Hd) as (Hr & Hs & Ho & He).
    split; [done|]. split; [by rewrite Hr|]. unfold files. by rewrite Ho, He, Eo, Ed. }
  intros a w (fs' & [-> ->] & Hw). destruct ns as [|nm ns]; simpl in Hw |- *.
  - apply wpd_ret. by rewrite app_nil_r.
  - revert w Hw. eapply does_bind; [apply show_entry_does|]. intros [].
    pose proof (IH (o ++ row (path q) nm) ns (<[d := ns]> ds)) as Hnext.
    rewrite <- app_assoc, insert_insert_eq in Hnext. simpl in Hn. apply Hnext; [apply lookup_insert_eq|lia].
Qed.

Lemma serve_directory_does n o fs :
  path q <> [] -> (length (default [] (dir_entries (path q))) < n)%nat -> (nfiles fs < max_open)%nat ->
  does (serve_directory strftime getpeername n q io (path q)) (serving o fs)
    (answered o fs
       (if decide (last (path q) <> Some "/"%byte)
        then (reply name q 301 (lit "Moved permanently") (moved_headers (path q ++ lit "/")) [],
              keep_alive q (moved_headers (path q ++ lit "/")))
        else
          match dir_entries (path q) with
          | Some names => (reply name q 200 (lit "OK") html_headers (listing (path q) names),
                           keep_alive q html_headers)
          | None => not_found name q
          end)
       (if decide (last (path q) <> Some "/"%byte) then 0
        else if dir_entries (path q) is Some _ then 1 else 0)).
Proof.
  destruct fs as [op ds]. intros Hne Hn Hmax. unfold serve_directory.
  destruct (last (path q)) as [c|] eqn:Hl; [|by apply last_None in Hl].
  destruct (decide (c <> "/"%byte)) as [Hc|Hc].
  { rewrite decide_True by congruence. rewrite decide_True by congruence. apply moved_does. }
  do 2 (rewrite decide_False by (intros H; apply H; f_equal; by apply dec_stable)).
  eapply does_bind; [apply (does_files _ _ _ (fun d fs' =>
    match d with
    | Some d => exists ns, dir_entries (path q) = Some ns /\ ds !! d = None /\ fs' = (op, <[d := ns]> ds)
    | None => dir_entries (path q) = None /\ fs' = (op, ds)
    end))|].
  { intros e [= Eo Ed]. pose proof (opendir_law (path q) e) as Hlaw. unfold nfiles in Hmax. simpl in Hmax.
    destruct (sys_opendir (path q) e) as [[d|] e']; cbn [fst snd].
    - destruct Hlaw as (ns & ? & ? & Ho & ? & Hd). split; [done|]. exists ns. unfold files.
      rewrite Ho, Hd, <- Eo, <- Ed. done.
    - destruct Hlaw as (? & Ho & Hd & [?|?]); [|subst; lia]. split; [done|]. unfold files.
      rewrite Ho, Hd, Eo, Ed. done. }
  intros [d|] w (fs' & HQ & Hw); [destruct HQ as (ns & Hns & Hd & ->)|destruct HQ as [Hns ->]]; rewrite Hns.
  2:{ revert w Hw. apply not_found_does. }
  rewrite Hns in Hn. simpl in Hn. revert w Hw.
  apply (does_respond q 200 _ html_headers); [done|done|]. unfold reply.
  assert (forall fs', fs' = (op, <[d := ns]> ds) \/ fs' = (op, <[d := []]> ds) ->
    nfiles fs' = (nfiles (op, ds) + 1)%nat) as Hsz.
  { intros fs' [->| ->]; unfold nfiles; simpl; rewrite map_size_insert_None by done; lia. }
  destruct (http_request_is_HEAD q).
  - apply does_ret. intros w Hw. split; [done|]. exists (op, <[d := ns]> ds).
    rewrite app_nil_r. split; [done|]. split; [apply Hsz; by left|lia].
  - eapply does_bind; [apply does_say|]. intros [].
    eapply does_bind; [by apply (show_entries_does n d ns); [apply lookup_insert_eq|]|]. intros [].
    eapply does_bind; [apply does_say|]. intros []. apply does_ret. intros w Hw. split; [done|].
    exists (op, <[d := []]> ds). rewrite insert_insert_eq in Hw.
    split; [|split; [apply Hsz; by right|lia]]. cbn [fst]. unfold listing. by rewrite <- !app_assoc in Hw.
Qed.

(** Whatever the path names. *)
Lemma serve_path_does n o fs :
  (work (path q) < n)%nat -> (nfiles fs < max_open)%nat ->
  does (match sys_stat (path q) with
        | None => file_not_found_error strftime getpeername q io
        | Some st =>
          match st_mode st with
          | S_IFDIR => serve_directory strftime getpeername n q io (path q)
          | S_IFREG => serve_file strftime getpeername n q io (path q) st
          | _ => file_not_found_error strftime getpeername q io
          end
        end) (serving o fs) (answered o fs (answer name q) (leaks q)).
Proof.
  intros Hn Hmax. unfold work in Hn. unfold answer, leaks.
  destruct (sys_stat (path q)) as [[[] size]|] eqn:Hst; cbn [st_mode]; try apply not_found_does.
  - apply serve_directory_does; [|lia|done]. intros Hp. rewrite Hp, stat_empty in Hst. done.
  - apply serve_file_does; [lia|done].
Qed.
End request.
End handlers.

(** ** The requests of a connection *)

Record asked := Asked {
  ask_method : Z; ask_url : bytes; ask_major : Z; ask_minor : Z; ask_headers : list (bytes * bytes)
}.

Definition ask_text (a : asked) : bytes :=
  request_text (ask_method a) (ask_url a) (ask_major a) (ask_minor a) (ask_headers a).

Definition ask_ok (a : asked) : Prop :=
  ask_method a ∈ [HTTP_METHOD_GET; HTTP_METHOD_HEAD; HTTP_METHOD_POST] /\
  clean (ask_url a) /\ (" "%byte ∉ ask_url a) /\ (length (ask_url a) < 4000)%nat /\
  0 <= ask_major a < 10 /\ 0 <= ask_minor a < 10 /\ Forall header_ok (ask_headers a).

Definition ask_reads (a : asked) (q : http_request) : Prop :=
  reads_as (ask_method a) (ask_url a) (ask_major a) (ask_minor a) (ask_headers a) q.

Lemma ask_parses a : ask_ok a -> exists q, ask_reads a q.
Proof.
  intros (? & ? & ? & ? & ? & ? & ?).
  destruct (parse_request_text (shash := shash) (S (length (ask_headers a))) 0 (ask_method a) (ask_url a)
    (ask_major a) (ask_minor a) (ask_headers a) []) as (q & _ & Hq); try done; [lia|]. by exists q.
Qed.

(** The answers up to the first that closes the connection, and the descriptors
    that stay open. *)
Fixpoint session (name : bytes) (qs : list http_request) : bytes * nat :=
  match qs with
  | [] => ([], 0%nat)
  | q :: qs =>
    let a := answer name q in
    if a.2 then (a.1 ++ (session name qs).1, (leaks q + (session name qs).2)%nat) else (a.1, leaks q)
  end.

Lemma end_of_input fuel io s name o fs (w : web) :
  (0 < fuel)%nat -> serving io s [] name o fs w ->
  wpd [s] (new_http_request (shash := shash) fuel io) w (fun r w' => r = None /\ serving io s [] name o fs w')
    (fun _ _ => False).
Proof.
  intros Hfu ([h Hst] & Hn & Hf).
  pose proof (wpd_keeps files [s] _ _ _ _ (calm_request fuel io)
    (new_http_request_spec [s] fuel io s [] o h w ltac:(by left) Hst ltac:(simpl; lia))) as Hr.
  assert (forall t, parse_request (shash := shash) fuel t [] = (Got None, [])) as Hp
    by (destruct fuel; [lia|done]).
  rewrite Hp in Hr. eapply wpd_mono; [exact Hr| |].
  - intros r w' ((Er & Q & Hst') & Hff). simpl in Er. split; [congruence|]. split; [done|].
    split; [destruct Q as [-> _]; exact Hn|congruence].
  - by intros msg w' (reply & ? & _).
Qed.

Lemma next_request fuel io s name o fs (w : web) a rest :
  ask_ok a -> (length (ask_text a ++ rest) < fuel)%nat -> serving io s (ask_text a ++ rest) name o fs w ->
  wpd [s] (new_http_request (shash := shash) fuel io) w (fun r w' => exists q, r = Some q /\ ask_reads a q /\
      serving io s rest name o fs w') (fun _ _ => False).
Proof.
  intros (? & ? & ? & ? & ? & ? & ?) Hfu ([h Hst] & Hn & Hf).
  pose proof (request_text_read fuel io s o h w (ask_method a) (ask_url a) (ask_major a) (ask_minor a)
    (ask_headers a) rest Hst Hfu ltac:(done) ltac:(done) ltac:(done) ltac:(done) ltac:(done) ltac:(done)
    ltac:(done)) as Hr.
  eapply wpd_mono; [exact (wpd_keeps files [s] _ _ _ _ (calm_request fuel io) Hr)| |done].
  intros r w' ((Q & q & h' & -> & Hq & Hst') & Hff). exists q. split; [done|]. split; [done|].
  split; [by exists h'|]. split; [destruct Q as [-> _]; exact Hn|congruence].
Qed.

Lemma reads_known a q : ask_ok a -> ask_reads a q -> is_http09 q = false /\ is_Some (method_string (method q)).
Proof.
  intros (Hm & _) Hq. split; [apply Hq|]. destruct Hq as (-> & _).
  rewrite !elem_of_cons, elem_of_nil in Hm. destruct Hm as [->|[->|[->|[]]]]; by eexists.
Qed.

Lemma server_loop_session k n fuel io s name asks : forall o fs (w : web),
  serving io s (concat (ask_text <$> asks)) name o fs w ->
  (length (concat (ask_text <$> asks)) < fuel)%nat -> (length asks < k)%nat ->
  Forall ask_ok asks -> (forall p, (work p < n)%nat) -> (nfiles fs + length asks <= max_open)%nat ->
  wpd [s] (server_loop strftime getpeername k n fuel io) w (fun _ w' => exists qs fs' i',
      Forall2 ask_reads asks qs /\ serving io s i' name (o ++ (session name qs).1) fs' w' /\
      nfiles fs' = (nfiles fs + (session name qs).2)%nat /\
      ((session name qs).2 = 0%nat -> fs' = fs)) (fun _ _ => False).
Proof.
  revert k. induction asks as [|a asks IH]; intros k o fs w Hw Hfu Hk Hok Hn Hmax;
    (destruct k as [|k]; [simpl in Hk; lia|]); cbn [server_loop]; unfold serve_request; apply wpd_bind, wpd_bind.
  - eapply wpd_mono; [apply (end_of_input fuel io s name o fs w); [simpl in Hfu; lia|exact Hw]| |done].
    intros r w1 [-> Hw1]. apply wpd_ret, wpd_ret. exists [], fs, []. rewrite app_nil_r. split; [done|].
    split; [done|]. split; [simpl; lia|done].
  - inversion Hok as [|? ? Ha Hok']; subst. cbn [length] in Hk, Hmax.
    change (concat (ask_text <$> a :: asks)) with (ask_text a ++ concat (ask_text <$> asks)) in *.
    eapply wpd_mono; [by apply (next_request fuel io s name o fs w a (concat (ask_text <$> asks)))| |done].
    intros r w1 (q & -> & Hq & Hw1). destruct (reads_known a q Ha Hq) as [H9 Hm].
    apply wpd_bind. eapply wpd_mono;
      [apply (serve_path_does io s _ name q H9 Hm n o fs (Hn (path q)) ltac:(lia) w1 Hw1)| |done].
    intros close w2 (-> & fs2 & Hw2 & Hsz & Hsame). apply wpd_ret.
    destruct (answer name q).2 eqn:Hka; cbn [negb].
    + eapply wpd_mono; [apply (IH k (o ++ (answer name q).1) fs2 w2 Hw2); try done; [|lia|]| |done].
      * rewrite length_app in Hfu. lia.
      * pose proof (leaks_le q). lia.
      * intros [] w3 (qs & fs3 & i' & Hqs & Hw3 & Hsz3 & Hsame3). exists (q :: qs), fs3, i'.
        split; [by constructor|]. simpl. rewrite Hka. cbn [fst snd]. rewrite app_assoc.
        split; [done|]. split; [lia|]. intros H0. rewrite Hsame3, Hsame by lia. done.
    + apply wpd_ret. assert (exists qs, Forall2 ask_reads asks qs) as [qs Hqs].
      { clear -Hok'. induction Hok' as [|b asks Hb _ [qs IH]]; [by exists []|].
        destruct (ask_parses b Hb) as [p Hp]. exists (p :: qs). by constructor. }
      exists (q :: qs), fs2, (concat (ask_text <$> asks)). split; [by constructor|]. simpl. rewrite Hka.
      cbn [fst snd]. done.
Qed.

Context (junk : nat -> byte) `{CL : !Closes E}.

(** C6: the file server, from socket to socket: the requests of a connection, in
    whatever pieces they arrive, are answered one after the other, as far as the
    first answer that closes the connection, each by the file (with its length),
    the directory (a row for each entry that is not hidden), the redirection or
    the error page that belongs to its path; everything is sent and the thread
    exits.  The descriptors of directories, and of files asked for with HEAD, stay
    open; all others are closed. *)
Theorem file_server_session k n fuel s io (w : web) asks :
  all_healthy [s] (net (wio w)) ->
  input (net (wio w)) s = concat (ask_text <$> asks) ->
  (length (concat (ask_text <$> asks)) < fuel)%nat -> (length asks < k)%nat ->
  Forall ask_ok asks -> (forall p, (work p < n)%nat) ->
  (nfiles (files (net (wio w))) + length asks <= max_open)%nat ->
  exists w' qs, server_run strftime getpeername junk k n fuel io s w = PthExit w' /\
    Forall2 ask_reads asks qs /\ ios (wio w') !! io = None /\
    output (net (wio w')) s = output (net (wio w)) s ++ (session (servername w) qs).1 /\
    nfiles (files (net (wio w'))) = (nfiles (files (net (wio w))) + (session (servername w) qs).2)%nat /\
    ((session (servername w) qs).2 = 0%nat -> files (net (wio w')) = files (net (wio w))).
Proof.
  intros Hh Hin Hfu Hk Hok Hn Hmax. unfold server_run.
  pose proof (fdopen_spec junk (wio w) io s) as Ho. unfold mbind at 1, prog_bind at 1, on_io.
  unfold io_fdopen, put in *. set (io1 := IoW _ (net (wio w))) in *. destruct Ho as (h & Hst & _).
  rewrite Hin in Hst. set (w1 := with_io io1 w).
  assert (serving io s (concat (ask_text <$> asks)) (servername w) (output (net (wio w)) s)
    (files (net (wio w))) w1) as Hw1 by (split; [by exists h|done]).
  pose proof (server_loop_session k n fuel io s _ asks _ _ w1 Hw1 Hfu Hk Hok Hn Hmax) as Hl.
  unfold wpd in Hl. unfold mbind at 1, prog_bind at 1. cbv beta iota.
  destruct (server_loop _ _ k n fuel io w1) as [[] w2| |w2| |]; try done.
  destruct Hl as [(qs & fs' & i' & Hqs & ([h' Hst2] & Hn2 & Hf2) & Hsz & Hsame) Hh2].
  destruct (fclose_spec io s i' _ h' (wio w2) Hst2 (Hh2 Hh)) as (io3 & Hcl & Hgone & Hout & _).
  pose proof (files_fclose io (wio w2)) as Hff. rewrite Hcl, Hf2 in Hff.
  exists (with_io io3 w2), qs. split; [unfold mbind, prog_bind, on_io; rewrite Hcl; done|].
  change (wio (with_io io3 w2)) with io3. rewrite Hff. done.
Qed.
End files.
