(* ===== verification/Eg2Examples.v ===== *)
(** * A file server at work

    A disk with two files and a directory, a table of open files, and a session
    of five requests on it. *)

From stdpp Require Import base list gmap.
From Stdlib Require Import Strings.Byte.
From S2P Require Import Prelude C2lib ReactorTimers Prog Cstring CgiEscape Iolib IolibSpec.
From S2P Require Import IolibStreams IoWorld IoKeeps IoClose Http HttpSpec HttpResponses Cgi Eg1Echo.
From S2P Require Import Eg2Server Eg2Spec.

(** Sockets with a script, and the open files. *)
Record host := Host { hnet : script; hfiles : gmap Z bytes; hdirs : gmap Z (list bytes) }.

Definition on_script {A} (m : prog script A) : prog host A := fun e =>
  match m (hnet e) with
  | Ret a e' => Ret a (Host e' (hfiles e) (hdirs e))
  | Die msg e' => Die msg (Host e' (hfiles e) (hdirs e))
  | PthExit e' => PthExit (Host e' (hfiles e) (hdirs e))
  | Abort => Abort
  | NoFuel => NoFuel
  end.

#[export] Program Instance host_sockets : Sockets host := {
  input := fun e => input (hnet e);
  output := fun e => output (hnet e);
  healthy := fun e => healthy (hnet e);
  pth_read := fun s n => on_script (pth_read s n);
  pth_write := fun s bs => on_script (pth_write s bs);
  sys_close := fun s => on_script (sys_close s)
}.
Next Obligation.
  intros s n e. pose proof (read_law s n (hnet e)) as H. unfold on_script.
  destruct (pth_read s n (hnet e)) as [[r bs] e'| | | |]; exact H.
Qed.
Next Obligation.
  intros s bs e Hbs. pose proof (write_law s bs (hnet e) Hbs) as H. unfold on_script.
  destruct (pth_write s bs (hnet e)) as [r e'| | | |]; exact H.
Qed.

#[export] Instance host_closes : Closes host.
Proof. intros s e Hh. by exists (Host (hnet e) (hfiles e) (hdirs e)). Qed.

(** A descriptor that is not in use. *)
Definition unused {A} (m : gmap Z A) : Z := 1 + map_fold (fun k _ a => Z.max k a) 0 m.

Lemma unused_spec {A} (m : gmap Z A) : 0 <= unused m /\ m !! unused m = None.
Proof.
  set (f := map_fold (fun k (_ : A) a => Z.max k a) 0).
  assert (0 <= f m /\ forall k, is_Some (m !! k) -> k <= f m) as [H0 H].
  { unfold f. apply (map_fold_weak_ind (fun r m => 0 <= r /\ forall k, is_Some (m !! k) -> k <= r)).
    - split; [done|]. intros k. rewrite lookup_empty. by intros [].
    - intros i x m' r Hi [H0 H]. split; [lia|]. intros k.
      destruct (decide (k = i)) as [->|Hk]; [lia|]. rewrite lookup_insert_ne by done. intros Hs%H. lia. }
  split; [unfold unused; fold (f m); lia|]. apply eq_None_not_Some. intros Hs%H. unfold unused in Hs.
  fold (f m) in Hs. lia.
Qed.

(** ** The disk *)

Definition sample_stats : list (bytes * stat) :=
  [(lit "/a.txt", Stat S_IFREG 5); (lit "/d", Stat S_IFDIR 0); (lit "/d/", Stat S_IFDIR 0);
   (lit "/d//b", Stat S_IFREG 7); (lit "/d//l", Stat S_IFLNK 1)].

Fixpoint find_path {A} (l : list (bytes * A)) (p : bytes) : option A :=
  match l with
  | [] => None
  | (p', a) :: l => if decide (p = p') then Some a else find_path l p
  end.

#[export] Program Instance sample_disk : Disk := {
  sys_stat := find_path sample_stats;
  sys_lstat := find_path sample_stats;
  sys_readlink := find_path [(lit "/d//l", lit "b")];
  contents := find_path [(lit "/a.txt", lit "hello"); (lit "/d//b", lit "goodbye")];
  dir_entries := find_path [(lit "/d/", [lit "."; lit "b"; lit ".secret"; lit "l"; lit "gone"])]
}.
Next Obligation. reflexivity. Qed.

Lemma sample_work p : (work p < 13)%nat.
Proof.
  unfold work, contents, dir_entries, sample_disk, find_path. repeat case_decide; simpl; lia.
Qed.

(** At most three bytes are read at a time; [k] files can be open. *)
Definition host_open (k : nat) (p : bytes) (e : host) : Z * host :=
  if decide (k <= size (hfiles e) + size (hdirs e))%nat then (-1, e)
  else
    match contents p with
    | Some c => (unused (hfiles e), Host (hnet e) (<[unused (hfiles e) := c]> (hfiles e)) (hdirs e))
    | None => (-1, e)
    end.

Definition host_read (fd : Z) (n : nat) (e : host) : (Z * bytes) * host :=
  match hfiles e !! fd with
  | None => ((-1, []), e)
  | Some c =>
    let bs := take (Nat.min n 3) c in
    ((Z.of_nat (length bs), bs), Host (hnet e) (<[fd := drop (length bs) c]> (hfiles e)) (hdirs e))
  end.

Definition host_opendir (k : nat) (p : bytes) (e : host) : option Z * host :=
  if decide (k <= size (hfiles e) + size (hdirs e))%nat then (None, e)
  else
    match dir_entries p with
    | Some ns => (Some (unused (hdirs e)), Host (hnet e) (hfiles e) (<[unused (hdirs e) := ns]> (hdirs e)))
    | None => (None, e)
    end.

Definition host_readdir (d : Z) (e : host) : option bytes * host :=
  match hdirs e !! d with
  | None => (None, e)
  | Some ns => (head ns, Host (hnet e) (hfiles e) (<[d := tail ns]> (hdirs e)))
  end.

#[export] Program Instance sample_files : Files host := {
  opened := hfiles;
  open_dirs := hdirs;
  max_open := 16;
  sys_open := host_open 16;
  sys_read := host_read;
  close_file := fun fd e => (0, Host (hnet e) (delete fd (hfiles e)) (hdirs e));
  sys_opendir := host_opendir 16;
  sys_readdir := host_readdir
}.
Next Obligation.
  intros p e. unfold host_open. destruct (decide _) as [Hk|Hk].
  { split; [done|]. split; [done|]. left. split; [lia|]. split; [done|]. by right. }
  destruct (contents p) as [c|]; (split; [done|]; split; [done|]); [right|left; by split_and!; try left].
  destruct (unused_spec (hfiles e)). split; [done|]. by exists c.
Qed.
Next Obligation.
  intros fd n e c Hc Hn. unfold host_read. rewrite Hc. split; [done|]. split; [done|]. right.
  split; [done|]. rewrite length_take. split; [lia|]. split; [|split; [|done]].
  - destruct (decide (Nat.min n 3 <= length c)%nat); [f_equal; lia|].
    by rewrite !take_ge by lia.
  - destruct c; [done|]. by destruct n; [lia|].
Qed.
Next Obligation. by intros fd e. Qed.
Next Obligation.
  intros p e. unfold host_opendir. destruct (decide _) as [Hk|Hk].
  { split; [done|]. split; [done|]. split; [done|]. by right. }
  destruct (dir_entries p) as [ns|]; [|split_and!; try done; by left].
  destruct (unused_spec (hdirs e)). exists ns. by split_and!.
Qed.
Next Obligation. intros d e ns Hd. unfold host_readdir. rewrite Hd. by split_and!. Qed.
Next Obligation. intros s n e. simpl. unfold on_script. by destruct (script_read s n (hnet e)). Qed.
Next Obligation. intros s bs e. simpl. unfold on_script. by destruct (script_write s bs (hnet e)). Qed.
Next Obligation. by intros s e. Qed.

Lemma sample_reads fd n (e : host) c : opened e !! fd = Some c -> 0 <= (sys_read fd n e).1.1.
Proof. simpl. unfold host_read. intros ->. simpl. lia. Qed.

(** ** The session *)

Definition sample_asks : list asked :=
  [Asked HTTP_METHOD_GET (lit "/a.txt") 1 1 []; Asked HTTP_METHOD_GET (lit "/d") 1 1 [];
   Asked HTTP_METHOD_HEAD (lit "/a.txt?x") 1 1 []; Asked HTTP_METHOD_GET (lit "/d/") 1 1 [];
   Asked HTTP_METHOD_GET (lit "/never") 1 1 []].

Lemma sample_asks_ok : Forall ask_ok sample_asks.
Proof.
  unfold sample_asks. rewrite !Forall_cons. repeat split; try done; simpl; try lia;
    by apply (bool_decide_unpack _).
Qed.

Definition sample_host : web (E := host) :=
  Web (IoW ∅ (Host (Script [(3, concat (ask_text <$> sample_asks))] [] 4 []) ∅ ∅))
    (lit "pthrlib-httpd/3.0") None (-1) 1000000.

Lemma file_server_session_witness :
  exists w' qs, server_run (shash := gmap bytes) (fun _ _ => []) (fun _ => ([], 0)) no_junk 6 13 200 1 3
      sample_host = PthExit w' /\
    Forall2 ask_reads sample_asks qs /\ ios (wio w') !! 1%positive = None /\
    output (net (wio w')) 3 = output (net (wio sample_host)) 3 ++
      (session (fun _ _ => []) (servername sample_host) qs).1 /\
    nfiles (files (net (wio w'))) = (nfiles (files (net (wio sample_host))) +
      (session (fun _ _ => []) (servername sample_host) qs).2)%nat /\
    ((session (fun _ _ => []) (servername sample_host) qs).2 = 0%nat ->
      files (net (wio w')) = files (net (wio sample_host))).
Proof.
  apply (file_server_session (shash := gmap bytes) (fun _ _ => []) (fun _ => ([], 0)) sample_reads no_junk).
  - apply Forall_singleton. by apply (bool_decide_unpack _).
  - reflexivity.
  - apply (bool_decide_unpack _). vm_compute. exact I.
  - simpl. lia.
  - apply sample_asks_ok.
  - apply sample_work.
  - apply (bool_decide_unpack _). vm_compute. exact I.
Defined.

(** Four requests were answered; a file and a directory were left open. *)
Lemma sample_session_leaks :
  match server_run (shash := gmap bytes) (fun _ _ => []) (fun _ => ([], 0)) no_junk 6 13 200 1 3 sample_host with
  | PthExit w => size (hfiles (net (wio w))) = 1%nat /\ size (hdirs (net (wio w))) = 1%nat
  | _ => False
  end.
Proof. vm_compute. split; reflexivity. Qed.
