(* ===== verification/Ftpc.v ===== *)
(** * The FTP client ([src/pthr_ftpc.c])

    The control connection is a handle of [Iolib.v]; sockets, name look-ups and
    local files are the class [Net].  Messages on the standard error output are
    not represented. *)

From stdpp Require Import base list gmap.
From Stdlib Require Import Strings.Byte.
From S2P Require Import Prelude C2lib ReactorTimers Prog Cstring Iolib IolibSpec IoWorld.

(** Nothing changed on the other sockets. *)
Definition elsewhere_same {E} `{SK : Sockets E} (fd : Z) (e e' : E) : Prop :=
  others_same fd e e' /\ forall s, s <> fd -> healthy e s -> healthy e' s.

(** What the client uses of the operating system besides [pth_read] and
    [pth_write].  Addresses are in host byte order.  [open_fds] are the
    descriptors of the process. *)
Class Net (E : Type) `{SK : Sockets E} := {
  open_fds : E -> gset Z;
  sys_socket : prog E Z;
  sys_nonblock : Z -> prog E Z;
  sys_bind : Z -> prog E Z;
  sys_listen : Z -> prog E Z;
  (** the result and the port *)
  sys_getsockname : Z -> prog E (Z * Z);
  pth_connect : Z -> Z -> Z -> prog E Z;
  (** the new socket and the address of the peer *)
  pth_accept : Z -> prog E (Z * Z);
  fopen : bytes -> bool -> prog E (option Z);
  fread : Z -> nat -> prog E bytes;
  fwrite : Z -> bytes -> prog E nat;
  fclose : Z -> prog E Z;
  read_fds : forall s n e,
    match pth_read s n e with
    | Ret _ e' | Die _ e' | PthExit e' => open_fds e' = open_fds e
    | _ => True
    end;
  write_fds : forall s bs e,
    match pth_write s bs e with
    | Ret _ e' | Die _ e' | PthExit e' => open_fds e' = open_fds e
    | _ => True
    end;
  socket_law : forall e,
    match sys_socket e with
    | Ret fd e' =>
      (fd = -1 /\ open_fds e' = open_fds e \/
       (fd ∉ open_fds e) /\ open_fds e' = {[fd]} ∪ open_fds e) /\
      elsewhere_same fd e e'
    | _ => False
    end;
  nonblock_law : forall fd e,
    match sys_nonblock fd e with
    | Ret _ e' =>
      open_fds e' = open_fds e /\ elsewhere_same fd e e'
    | _ => False
    end;
  bind_law : forall fd e,
    match sys_bind fd e with
    | Ret _ e' =>
      open_fds e' = open_fds e /\ elsewhere_same fd e e'
    | _ => False
    end;
  listen_law : forall fd e,
    match sys_listen fd e with
    | Ret _ e' =>
      open_fds e' = open_fds e /\ elsewhere_same fd e e'
    | _ => False
    end;
  getsockname_law : forall fd e,
    match sys_getsockname fd e with
    | Ret (_, port) e' =>
      0 <= port < 65536 /\ open_fds e' = open_fds e /\ elsewhere_same fd e e'
    | _ => False
    end
}.

Definition REPLY_BUFFER_SIZE : Z := 2048.

Definition IS_1xx (c : Z) : bool := (100 <=? c) && (c <=? 199).
Definition IS_2xx (c : Z) : bool := (200 <=? c) && (c <=? 299).
Definition IS_3xx (c : Z) : bool := (300 <=? c) && (c <=? 399).

Record ftpc := Ftpc {
  fio : loc;
  port : Z;
  passive_mode : Z;
  verbose : Z;
  sin_addr : Z;
  sin_port : Z;
  pasv_data_port : Z;
  reply : bytes;
  server : bytes;
  username : option bytes;
  server_greeting : bytes
}.

Definition set_reply (r : bytes) (f : ftpc) : ftpc :=
  Ftpc (fio f) (port f) (passive_mode f) (verbose f) (sin_addr f) (sin_port f) (pasv_data_port f)
    r (server f) (username f) (server_greeting f).
Definition set_passive (p : Z) (f : ftpc) : ftpc :=
  Ftpc (fio f) (port f) p (verbose f) (sin_addr f) (sin_port f) (pasv_data_port f)
    (reply f) (server f) (username f) (server_greeting f).
Definition set_verbose (v : Z) (f : ftpc) : ftpc :=
  Ftpc (fio f) (port f) (passive_mode f) v (sin_addr f) (sin_port f) (pasv_data_port f)
    (reply f) (server f) (username f) (server_greeting f).
Definition set_data_port (p : Z) (f : ftpc) : ftpc :=
  Ftpc (fio f) (port f) (passive_mode f) (verbose f) (sin_addr f) (sin_port f) p
    (reply f) (server f) (username f) (server_greeting f).
Definition set_sin_port (p : Z) (f : ftpc) : ftpc :=
  Ftpc (fio f) (port f) (passive_mode f) (verbose f) (sin_addr f) p (pasv_data_port f)
    (reply f) (server f) (username f) (server_greeting f).
Definition set_username (u : option bytes) (f : ftpc) : ftpc :=
  Ftpc (fio f) (port f) (passive_mode f) (verbose f) (sin_addr f) (sin_port f) (pasv_data_port f)
    (reply f) (server f) u (server_greeting f).
Definition set_greeting (g : bytes) (f : ftpc) : ftpc :=
  Ftpc (fio f) (port f) (passive_mode f) (verbose f) (sin_addr f) (sin_port f) (pasv_data_port f)
    (reply f) (server f) (username f) g.

(** The tests of [eat_reply] on a line. *)
Definition reply_ok (r : bytes) : bool :=
  match r with
  | a :: b :: c :: d :: _ =>
    between "1" "5" a && isdigit b && isdigit c &&
    (bool_decide (d = " "%byte) || bool_decide (d = "-"%byte))
  | _ => false
  end.

Definition last_line (r : bytes) : bool := bool_decide (r !! 3%nat = Some " "%byte).

Definition reply_code (r : bytes) : Z :=
  match r with
  | a :: b :: c :: _ => 100 * (char_val a - 48) + 10 * (char_val b - 48) + (char_val c - 48)
  | _ => 0
  end.

(** [%d] [k] + 1 times, with commas between. *)
Fixpoint scan_list (k : nat) (s : bytes) : option (list Z) :=
  '(v, r) ← scan_int s;
  match k with
  | O => Some [v]
  | S k =>
    match skip_spaces r with
    | c :: r => if decide (c = ","%byte) then vs ← scan_list k r; Some (v :: vs) else None
    | [] => None
    end
  end.

(** The port in the reply to PASV. *)
Definition parse_pasv (r : bytes) : option Z :=
  '(_, t) ← strchr (drop 4 r) "(";
  vs ← scan_list 5 t;
  match vs with
  | [_; _; _; _; p1; p2] => Some (to_int (p1 * 256 + p2))
  | _ => None
  end.

Definition dots (l : list Z) : bytes := join "," (print_int <$> l).

(** The argument of PORT. *)
Definition port_arg (addr p : Z) : bytes :=
  dots [Z.land (Z.shiftr addr 24) 255; Z.land (Z.shiftr addr 16) 255;
        Z.land (Z.shiftr addr 8) 255; Z.land addr 255; p / 256; p mod 256].

Definition strrchr (s : bytes) (c : byte) : option (bytes * bytes) :=
  '(a, b) ← strchr (reverse s) c; Some (reverse b, reverse a).

Section ftpc.
Context {E : Type} `{SK : Sockets E} `{NT : !Net E}.
(** The service and host data bases, the environment, and the address and
    contents of new memory. *)
Context (getservbyname : option Z) (gethostbyname : bytes -> option Z) (logname : option bytes).
Context (pmalloc : iow (E := E) -> loc) (junk : nat -> byte).

(** [fuel] bounds the number of lines or blocks read from a connection. *)
Context (fuel : nat).

Record ftpw := FtpW { ftp_io : iow (E := E); ftp : ftpc }.

#[export] Program Instance ftp_world : IoWorld E ftpw := {|
  wio := ftp_io;
  with_io io w := FtpW io (ftp w) |}.
Solve All Obligations with by intros; try destruct w.

Definition the_ftpc : prog ftpw ftpc := fun w => Ret (ftp w) w.
Definition modify (g : ftpc -> ftpc) : prog ftpw unit := fun w => Ret tt (FtpW (ftp_io w) (g (ftp w))).

Definition on_sys {A} (m : prog E A) : prog ftpw A := on_io (on_net m).

Definition sys_closed (fd : Z) : prog ftpw unit := on_sys (sys_close fd) ≫= fun _ => mret tt.

(** [io_fgets] into [f->reply]: the string is empty after the end of the file. *)
Definition get_reply (io : loc) : prog ftpw (option bytes) :=
  r ← on_io (io_fgets REPLY_BUFFER_SIZE io false);
  modify (set_reply (cstr (default [] r))) ≫= fun _ => mret (cstr <$> r).

Fixpoint eat_lines (k : nat) : prog ftpw Z :=
  match k with
  | O => fun _ => NoFuel
  | S k =>
    f ← the_ftpc;
    r ← get_reply (fio f);
    match r with
    | None => pth_die (lit "server closed the connection unexpectedly")
    | Some r =>
      if reply_ok r then
        if last_line r then mret (reply_code r) else eat_lines k
      else pth_die (lit "badly formatted reply from server")
    end
  end.

Definition eat_reply : prog ftpw Z := eat_lines fuel.

Definition command_text (cmd : bytes) (arg : option bytes) : bytes :=
  match arg with
  | None => cmd ++ [CR; LF]
  | Some arg => cmd ++ lit " " ++ arg ++ [CR; LF]
  end.

Definition do_command (cmd : bytes) (arg : option bytes) : prog ftpw Z :=
  f ← the_ftpc;
  on_io (io_fprintf (fio f) (command_text cmd arg)) ≫= fun _ => eat_reply.

(** Most commands: 0 when the reply is 2xx. *)
Definition expect_2xx (cmd : bytes) (arg : option bytes) : prog ftpw Z :=
  code ← do_command cmd arg; mret (if IS_2xx code then 0 else -1).

Definition new_ftpc (name : bytes) : prog ftpw (option ftpc) :=
  let f0 := Ftpc 1 0 0 0 0 0 0 [] name None [] in
  let port_ok := match strrchr name ":" with
                 | Some (h, p) => '(p, _) ← scan_int p; Some (h, p)
                 | None => Some (name, default 21 getservbyname)
                 end in
  match port_ok with
  | None => mret None
  | Some (host, p) =>
    match gethostbyname host with
    | None => mret None
    | Some addr =>
      sock ← on_sys sys_socket;
      if decide (sock = -1) then mret None
      else
        r ← on_sys (sys_nonblock sock);
        if decide (r = -1) then mret None
        else
          r ← on_sys (pth_connect sock addr (wrapu 16 p));
          if decide (r = -1) then mret None
          else
            io ← (fun w : ftpw => Ret (pmalloc (wio w)) w);
            on_io (io_fdopen junk io sock) ≫= fun _ =>
            modify (fun _ => Ftpc io p 0 0 addr (wrapu 16 p) 0 [] host None []) ≫= fun _ =>
            code ← eat_reply;
            f ← the_ftpc;
            modify (set_greeting (drop 4 (reply f))) ≫= fun _ =>
            f ← the_ftpc;
            mret (if IS_2xx code then Some f else None)
    end
  end.

Definition ftpc_set_passive_mode (flag : Z) : prog ftpw Z :=
  modify (set_passive flag) ≫= fun _ => mret flag.

Definition ftpc_set_verbose (flag : Z) : prog ftpw Z :=
  modify (set_verbose flag) ≫= fun _ => mret flag.

Definition ftpc_login (user password : option bytes) : prog ftpw Z :=
  let is_anonymous := match user with
                      | None => true
                      | Some u => bool_decide (u = lit "ftp") || bool_decide (u = lit "anonymous")
                      end in
  let u := default (lit "ftp") user in
  let p := match password with
           | Some p => p
           | None => if is_anonymous then default (lit "nobody") logname ++ lit "@" else []
           end in
  modify (set_username (Some u)) ≫= fun _ =>
  code ← do_command (lit "USER") (Some u);
  if negb (IS_3xx code) then mret (-1)
  else
    code ← do_command (lit "PASS") (Some p);
    mret (if negb (IS_2xx code) then -1 else 0).

Definition ftpc_type (type : byte) : prog ftpw Z := expect_2xx (lit "TYPE") (Some (cstr [type])).
Definition ftpc_ascii : prog ftpw Z := ftpc_type "a".
Definition ftpc_binary : prog ftpw Z := ftpc_type "i".
Definition ftpc_cwd (pathname : bytes) : prog ftpw Z := expect_2xx (lit "CWD") (Some pathname).
Definition ftpc_cdup : prog ftpw Z := expect_2xx (lit "CDUP") None.
Definition ftpc_mkdir (pathname : bytes) : prog ftpw Z := expect_2xx (lit "MKD") (Some pathname).
Definition ftpc_rmdir (pathname : bytes) : prog ftpw Z := expect_2xx (lit "RMD") (Some pathname).
Definition ftpc_delete (pathname : bytes) : prog ftpw Z := expect_2xx (lit "DELE") (Some pathname).
Definition ftpc_quote (cmd : bytes) : prog ftpw Z := expect_2xx cmd None.

(** The quotes around a path name are removed. *)
Definition unquote (path : bytes) : bytes :=
  let q := x22 in
  if decide (2 <= length path /\ head path = Some q /\ last path = Some q)%nat
  then removelast (tail path) else path.

Definition ftpc_pwd : prog ftpw (option bytes) :=
  code ← do_command (lit "PWD") None;
  if negb (IS_2xx code) then mret None
  else f ← the_ftpc; mret (Some (unquote (drop 4 (reply f)))).

Definition issue_port_or_pasv : prog ftpw Z :=
  data_sock ← on_sys sys_socket;
  if decide (data_sock = -1) then mret (-1)
  else
    r ← on_sys (sys_nonblock data_sock);
    if decide (r = -1) then abort
    else
      f ← the_ftpc;
      if decide (passive_mode f <> 0) then
        code ← do_command (lit "PASV") None;
        if negb (IS_2xx code) then mret (-1)
        else
          f ← the_ftpc;
          match parse_pasv (reply f) with
          | None => sys_closed data_sock ≫= fun _ => mret (-1)
          | Some p => modify (set_data_port p) ≫= fun _ => mret data_sock
          end
      else
        r ← on_sys (sys_bind data_sock);
        if decide (r = -1) then sys_closed data_sock ≫= fun _ => mret (-1)
        else
          r ← on_sys (sys_listen data_sock);
          if decide (r = -1) then sys_closed data_sock ≫= fun _ => mret (-1)
          else
            '(r, p) ← on_sys (sys_getsockname data_sock);
            if decide (r = -1) then sys_closed data_sock ≫= fun _ => mret (-1)
            else
              code ← do_command (lit "PORT") (Some (port_arg (sin_addr f) p));
              mret (if negb (IS_2xx code) then -1 else data_sock).

(** A new handle on a connected socket. *)
Definition open_handle (sock : Z) : prog ftpw (option loc) :=
  io ← (fun w : ftpw => Ret (pmalloc (wio w)) w);
  on_io (io_fdopen junk io sock) ≫= fun _ => mret (Some io).

Definition open_data (data_sock : Z) : prog ftpw (option loc) :=
  f ← the_ftpc;
  if decide (passive_mode f <> 0) then
    modify (set_sin_port (wrapu 16 (pasv_data_port f))) ≫= fun _ =>
    r ← on_sys (pth_connect data_sock (sin_addr f) (wrapu 16 (pasv_data_port f)));
    if decide (r = -1) then sys_closed data_sock ≫= fun _ => mret None
    else open_handle data_sock
  else
    '(sock, addr) ← on_sys (pth_accept data_sock);
    if decide (sock = -1) then sys_closed data_sock ≫= fun _ => mret None
    else
      sys_closed data_sock ≫= fun _ =>
      if decide (addr <> sin_addr f) then mret None else open_handle sock.

(** The lines of a listing. *)
Fixpoint read_list (k : nat) (io : loc) (v : list bytes) : prog ftpw (list bytes) :=
  match k with
  | O => fun _ => NoFuel
  | S k =>
    r ← get_reply io;
    match r with
    | None => mret v
    | Some l => read_list k io (v ++ [l])
    end
  end.

Definition listing (cmd : bytes) (pathname : option bytes) : prog ftpw (option (list bytes)) :=
  data_sock ← issue_port_or_pasv;
  if decide (data_sock = -1) then mret None
  else
    code ← do_command cmd pathname;
    if negb (IS_1xx code) then sys_closed data_sock ≫= fun _ => mret None
    else
      io ← open_data data_sock;
      match io with
      | None => mret None
      | Some io =>
        v ← read_list fuel io [];
        on_io (io_fclose io) ≫= fun _ =>
        code ← eat_reply;
        mret (if IS_2xx code then Some v else None)
      end.

Definition ftpc_ls (pathname : option bytes) : prog ftpw (option (list bytes)) :=
  listing (lit "NLST -a") pathname.
Definition ftpc_dir (pathname : option bytes) : prog ftpw (option (list bytes)) :=
  listing (lit "LIST -a") pathname.

(** The loops that copy a connection to a file and a file to a connection;
    [false] when a write was short. *)
Fixpoint to_file (k : nat) (io : loc) (fp : Z) : prog ftpw bool :=
  match k with
  | O => fun _ => NoFuel
  | S k =>
    buf ← on_io (io_fread 1024 io);
    if decide (buf = []) then mret true
    else
      n ← on_sys (fwrite fp buf);
      if decide (n <> length buf) then mret false else to_file k io fp
  end.

Fixpoint from_file (k : nat) (fp : Z) (io : loc) : prog ftpw bool :=
  match k with
  | O => fun _ => NoFuel
  | S k =>
    buf ← on_sys (fread fp 1024);
    if decide (buf = []) then mret true
    else
      n ← on_io (io_fwrite buf io);
      if decide (n <> length buf) then mret false else from_file k fp io
  end.

(** [ftpc_get] and [ftpc_put] from the transfer command on. *)
Definition transfer (cmd remote_file local_file : bytes) (writing : bool)
    (copy : Z -> loc -> prog ftpw bool) : prog ftpw Z :=
  data_sock ← issue_port_or_pasv;
  if decide (data_sock = -1) then mret (-1)
  else
    code ← do_command cmd (Some remote_file);
    if negb (IS_1xx code) then sys_closed data_sock ≫= fun _ => mret (-1)
    else
      fp ← on_sys (fopen local_file writing);
      match fp with
      | None => mret (-1)
      | Some fp =>
        io ← open_data data_sock;
        match io with
        | None => mret (-1)
        | Some io =>
          ok ← copy fp io;
          on_sys (fclose fp) ≫= fun _ =>
          on_io (io_fclose io) ≫= fun _ =>
          if (ok : bool) then code ← eat_reply; mret (if IS_2xx code then 0 else -1)
          else mret (-1)
        end
      end.

Definition ftpc_get (remote_file local_file : bytes) : prog ftpw Z :=
  transfer (lit "RETR") remote_file local_file true (fun fp io => to_file fuel io fp).

Definition ftpc_put (local_file remote_file : bytes) : prog ftpw Z :=
  transfer (lit "STOR") remote_file local_file false (fun fp io => from_file fuel fp io).

Definition ftpc_quit : prog ftpw Z :=
  f ← the_ftpc;
  code ← do_command (lit "QUIT") None;
  on_io (io_fclose (fio f)) ≫= fun _ => mret (if IS_2xx code then 0 else -1).
End ftpc.
