(* ===== verification/FtpcSpec.v ===== *)
(** * Proofs about the FTP client

    Replies and commands on the control connection, the numbers in the PASV and
    PORT exchanges, and what becomes of the data socket when PORT is refused. *)

From stdpp Require Import base list gmap.
From Stdlib Require Import Strings.Byte.
From S2P Require Import Prelude C2lib ReactorTimers Prog Cstring CgiEscape Iolib IolibSpec.
From S2P Require Import IolibStreams IoWorld IoKeeps Ftpc.

(** ** Replies *)

(** A reply (RFC 959, 4.2): lines that start with a code of three digits, which a
    hyphen follows in all but the last and a space in the last. *)
Record ftp_reply := FtpReply { more : list (Z * bytes); r_code : Z; r_text : bytes }.

Definition code_ok (c : Z) : Prop := 100 <= c <= 599.

(** The text of a line, which fits the buffer with its code. *)
Definition text_ok (t : bytes) : Prop := clean t /\ ~ ends_in_eol t /\ (length t < 2042)%nat.

Definition reply_fine (r : ftp_reply) : Prop :=
  Forall (fun l => code_ok l.1 /\ text_ok l.2) (more r) /\ code_ok (r_code r) /\ text_ok (r_text r).

Definition line_text (sep : byte) (c : Z) (t : bytes) : bytes := print_int c ++ sep :: t.

Definition final (r : ftp_reply) : bytes := line_text " " (r_code r) (r_text r).

Definition reply_text (r : ftp_reply) : bytes :=
  concat ((fun l => line_text "-" l.1 l.2 ++ [CR; LF]) <$> more r) ++ final r ++ [CR; LF].

(** What the client does with a line. *)
Definition line_ok (l : bytes) : Prop :=
  clean l /\ ~ ends_in_eol l /\ (length l < 2046)%nat /\ reply_ok l = true.

Lemma code_digits c : code_ok c ->
  exists x y z, print_int c = [x; y; z] /\ between "1" "5" x && isdigit y && isdigit z = true /\
    clean [x; y; z] /\ forall t, reply_code (x :: y :: z :: t) = c.
Proof.
  intros Hc.
  assert (forallb (fun c => match print_int c with
    | [x; y; z] => between "1" "5" x && isdigit y && isdigit z &&
        bool_decide ((LF ∉ [x; y; z]) /\ (xff ∉ [x; y; z]) /\ (NUL ∉ [x; y; z])) &&
        (reply_code [x; y; z] =? c)
    | _ => false end) (seqZ 100 500) = true) as H by (vm_compute; reflexivity).
  rewrite forallb_forall in H. specialize (H c). destruct (print_int c) as [|x [|y [|z [|? ?]]]];
    try (exfalso; discriminate H; apply list_elem_of_In, elem_of_seqZ; unfold code_ok in Hc; lia).
  apply andb_prop in H as [[H Hcl]%andb_prop Hcode%Z.eqb_eq];
    [|apply list_elem_of_In, elem_of_seqZ; unfold code_ok in Hc; lia].
  exists x, y, z. split; [done|]. split; [done|]. split; [by apply clean_dec|]. intros t. exact Hcode.
Qed.

Lemma line_fine (sep : byte) c t :
  sep = " "%byte \/ sep = "-"%byte -> code_ok c -> text_ok t ->
  line_ok (line_text sep c t) /\ last_line (line_text sep c t) = bool_decide (sep = " "%byte) /\
  reply_code (line_text sep c t) = c.
Proof.
  intros Hsep Hc (Hcl & Hend & Hlen). destruct (code_digits c Hc) as (x & y & z & E & Hd & Hxyz & Hcode).
  unfold line_text. rewrite E. split; [split; [|split; [|split]]|split].
  - apply clean_app; [done|]. apply (clean_app [sep]); [|done].
    destruct Hsep as [-> | ->]; by apply clean_dec.
  - unfold ends_in_eol in *. cbn [app]. destruct t as [|b t].
    + simpl. destruct Hsep as [-> | ->]; naive_solver.
    + change (last (x :: y :: z :: sep :: b :: t)) with (last (b :: t)). done.
  - simpl. lia.
  - cbn [app reply_ok]. rewrite Hd. by destruct Hsep as [-> | ->].
  - unfold last_line. cbn. apply bool_decide_ext. naive_solver.
  - apply Hcode.
Qed.

(** ** The numbers of PASV and PORT *)

Lemma skip_comma t : skip_spaces (","%byte :: t) = ","%byte :: t.
Proof. done. Qed.

Lemma scan_dots v l tail :
  Forall (fun n => 0 <= n <= INT_MAX) (v :: l) ->
  (forall b, head tail = Some b -> digit_val b = None) ->
  scan_list (length l) (dots (v :: l) ++ tail) = Some (v :: l).
Proof.
  intros Hl Ht. revert v Hl. induction l as [|v' l IH]; intros v Hl;
    apply Forall_cons in Hl as [Hv Hl]; cbn [length scan_list].
  - unfold dots. cbn [fmap list_fmap join]. by rewrite scan_int_print.
  - unfold dots in *. cbn [fmap list_fmap join] in *. rewrite <- app_assoc.
    rewrite scan_int_print by (done || by intros b [= <-]). cbn [mbind option_bind app].
    rewrite skip_comma, decide_True by done. by rewrite (IH v' Hl).
Qed.

(** The port in a PASV reply is read back from six numbers with commas
    between, as the client itself writes them in a PORT command, whatever text
    stands before the bracket and after the numbers. *)
Theorem pasv_port_roundtrip code txt tail addr p :
  length code = 4%nat -> "("%byte ∉ txt -> 0 <= p < 65536 ->
  parse_pasv (code ++ txt ++ lit "(" ++ port_arg addr p ++ lit ")" ++ tail) = Some p.
Proof.
  intros Hc Ht Hp. unfold parse_pasv.
  rewrite (drop_app_length' code) by done.
  assert (strchr (txt ++ lit "(" ++ port_arg addr p ++ lit ")" ++ tail) "(" =
    Some (txt, port_arg addr p ++ lit ")" ++ tail)) as -> by (by apply (strchr_app txt)).
  cbn [mbind option_bind]. unfold port_arg.
  assert (forall z, 0 <= Z.land z 255 <= INT_MAX) as Hb.
  { intros z. change 255 with (Z.ones 8). rewrite Z.land_ones by lia.
    pose proof (Z.mod_pos_bound z (2 ^ 8)). unfold INT_MAX. lia. }
  assert (0 <= p / 256 < 256) as H1
    by (split; [apply Z.div_pos; lia|apply Z.div_lt_upper_bound; lia]).
  assert (0 <= p mod 256 < 256) as H2 by (apply Z.mod_pos_bound; lia).
  rewrite (scan_dots _ [_; _; _; _; _]).
  - cbn [mbind option_bind]. rewrite wraps_small by lia. f_equal.
    rewrite (Z.div_mod p 256) at 3 by lia. lia.
  - repeat (apply Forall_cons; split; [apply Hb || (unfold INT_MAX; lia)|]). done.
  - by intros b [= <-].
Qed.

Lemma pasv_port_roundtrip_witness :
  parse_pasv (lit "227 Entering Passive Mode (127,0,0,1,200,13).") = Some 51213.
Proof.
  apply (pasv_port_roundtrip (lit "227 ") (lit "Entering Passive Mode ") (lit ".") 2130706433 51213);
    [done|by apply (bool_decide_unpack _)|lia].
Defined.

Section ftp_spec.
Context {E : Type} `{SK : Sockets E} `{NT : !Net E}.
Abbreviation ftpw := (ftpw (E := E)).

Lemma get_reply_line ss io s l rest o h (w : ftpw) D :
  s ∈ ss -> line_ok l -> stream (wio w) io s (l ++ [CR; LF] ++ rest) o h ->
  wpd ss (get_reply io) w (fun r w' => r = Some l /\ ftp w' = set_reply l (ftp w) /\
    only io s (wio w) (wio w') /\ exists h', stream (wio w') io s rest o h') D.
Proof.
  intros Hs ((Hlf & Hff & Hn) & Hend & Hlen & _) Hst. eapply wpd_io_bind.
  { apply (fgets_spec ss REPLY_BUFFER_SIZE false io s (l ++ [CR; LF] ++ rest) o h (wio w) Hs Hst). }
  assert (gets_result REPLY_BUFFER_SIZE false (l ++ [CR; LF] ++ rest) = (Some l, rest)) as ->.
  { apply gets_result_line; try done; [by right|]. unfold REPLY_BUFFER_SIZE. simpl. lia. }
  intros r io' (h' & -> & Hst' & Hon). apply wpd_bind. split; [|done]. apply wpd_ret. simpl.
  rewrite cstr_id by done. split; [done|]. split; [done|]. split; [done|by exists h'].
Qed.

Lemma eat_lines_text ss k s r rest o h (w : ftpw) D :
  s ∈ ss -> reply_fine r -> (length (more r) < k)%nat ->
  stream (wio w) (fio (ftp w)) s (reply_text r ++ rest) o h ->
  wpd ss (eat_lines k) w (fun c w' => c = r_code r /\
    ftp w' = set_reply (final r) (ftp w) /\ only (fio (ftp w)) s (wio w) (wio w') /\
    exists h', stream (wio w') (fio (ftp w)) s rest o h') D.
Proof.
  destruct r as [conts c0 t0]. unfold reply_fine, reply_text. cbn [more r_code r_text].
  intros Hs (Hc & Hc0 & Ht0) Hk. set (lst := final _).
  destruct (line_fine " " c0 t0) as (Hl & Hlast & Hcode); [by left|done|done|].
  change (line_text " " c0 t0) with lst in Hl, Hlast, Hcode. rewrite <- Hcode. clear Hcode. clearbody lst.
  revert k h w Hk.
  induction Hc as [|[cl tl] conts [Hcl Htl] _ IH]; intros k h w Hk Hst;
    (destruct k as [|k]; [simpl in Hk; lia|]); cbn [eat_lines fmap list_fmap concat fst snd] in *.
  - apply wpd_bind. split; [|done]. apply wpd_bind. simpl app in Hst. rewrite <- app_assoc in Hst.
    eapply wpd_mono; [by apply (get_reply_line ss (fio (ftp w)) s lst rest o h w)| |done].
    intros x w' (-> & Hf & Hon & Hst'). destruct Hl as (_ & _ & _ & ->). rewrite Hlast.
    apply wpd_ret. auto.
  - destruct (line_fine "-" cl tl) as (Hnl & Hnlast & _); [by right|done|done|].
    apply wpd_bind. split; [|done]. apply wpd_bind. rewrite <- !app_assoc in Hst.
    eapply wpd_mono; [by eapply (get_reply_line ss (fio (ftp w)) s (line_text "-" cl tl))| |
      intros ? ? HD; exact HD].
    intros x w1 (-> & Hf & Hon & h1 & Hst1). destruct Hnl as (_ & _ & _ & ->). rewrite Hnlast.
    cbn [bool_decide]. assert (fio (ftp w1) = fio (ftp w)) as Hio by (by rewrite Hf).
    eapply wpd_mono; [apply (IH k h1 w1)| |done].
    + simpl in Hk. lia.
    + rewrite Hio. by rewrite <- !app_assoc.
    + intros c w2 (-> & Hf2 & Hon2 & Hst2). rewrite Hio in *. split; [done|].
      split; [by rewrite Hf2, Hf|]. split; [by eapply only_trans|done].
Qed.

(** The client after a command was sent and its reply read. *)
Definition exchanged (s : Z) (rest o : bytes) (r : ftp_reply) (w w' : ftpw) : Prop :=
  ftp w' = set_reply (final r) (ftp w) /\ only (fio (ftp w)) s (wio w) (wio w') /\
  exists h', stream (wio w') (fio (ftp w)) s rest o h'.

Lemma do_command_spec ss fuel cmd arg s r rest o h (w : ftpw) D :
  s ∈ ss -> reply_fine r -> (length (more r) < fuel)%nat ->
  stream (wio w) (fio (ftp w)) s (reply_text r ++ rest) o h ->
  wpd ss (do_command fuel cmd arg) w (fun c w' => c = r_code r /\
    exchanged s rest (o ++ printed (command_text cmd arg)) r w w') D.
Proof.
  intros Hs Hr Hk Hst. unfold do_command. apply wpd_bind. split; [|done].
  apply wpd_bind. eapply wpd_mono; [eapply (printf_spec ss (command_text cmd arg) (fio (ftp w)) s);
    [done|by exists h]| |intros ? ? HD; exact HD].
  intros x w1 [[Hq Hon] [h1 Hst1]]. clear x.
  assert (ftp w1 = ftp w) as Hf by (by rewrite Hq).
  eapply wpd_mono; [eapply (eat_lines_text ss fuel s r rest); [done|done|done|by rewrite Hf]| |
    intros ? ? HD; exact HD].
  intros c w2 (-> & Hf2 & Hon2 & Hst2). rewrite Hf in *. split; [done|]. split; [done|].
  split; [by eapply only_trans|done].
Qed.

(** ** Sessions of simple commands *)

Inductive simple_command :=
  | Type_ (t : byte)
  | Cwd (p : bytes)
  | Cdup
  | Mkdir (p : bytes)
  | Rmdir (p : bytes)
  | Delete (p : bytes)
  | Quote (c : bytes).

Definition run_simple (fuel : nat) (c : simple_command) : prog ftpw Z :=
  match c with
  | Type_ t => ftpc_type fuel t
  | Cwd p => ftpc_cwd fuel p
  | Cdup => ftpc_cdup fuel
  | Mkdir p => ftpc_mkdir fuel p
  | Rmdir p => ftpc_rmdir fuel p
  | Delete p => ftpc_delete fuel p
  | Quote c => ftpc_quote fuel c
  end.

(** What goes over the wire (RFC 959). *)
Definition wire (c : simple_command) : bytes :=
  match c with
  | Type_ t => lit "TYPE " ++ cstr [t]
  | Cwd p => lit "CWD " ++ p
  | Cdup => lit "CDUP"
  | Mkdir p => lit "MKD " ++ p
  | Rmdir p => lit "RMD " ++ p
  | Delete p => lit "DELE " ++ p
  | Quote c => c
  end ++ [CR; LF].

Fixpoint run_session (fuel : nat) (l : list simple_command) : prog ftpw (list Z) :=
  match l with
  | [] => mret []
  | c :: l => r ← run_simple fuel c; rs ← run_session fuel l; mret (r :: rs)
  end.

(** What a call reports: 0 for a positive completion reply, a code from 200 to 299. *)
Definition status (r : ftp_reply) : Z := if decide (200 <= r_code r < 300) then 0 else -1.

Lemma is_2xx_range c : IS_2xx c = bool_decide (200 <= c < 300).
Proof. unfold IS_2xx. apply eq_true_iff_eq. rewrite bool_decide_eq_true, andb_true_iff, !Z.leb_le. lia. Qed.

Lemma expect_2xx_spec ss fuel cmd arg s r rest o h (w : ftpw) D :
  s ∈ ss -> reply_fine r -> (length (more r) < fuel)%nat ->
  stream (wio w) (fio (ftp w)) s (reply_text r ++ rest) o h ->
  wpd ss (expect_2xx fuel cmd arg) w (fun c w' => c = status r /\
    exchanged s rest (o ++ printed (command_text cmd arg)) r w w') D.
Proof.
  intros Hs Hr Hk Hst. unfold expect_2xx. apply wpd_bind.
  eapply wpd_mono; [by eapply (do_command_spec ss fuel cmd arg s r rest)| |intros ? ? HD; exact HD].
  intros c w' (-> & He). apply wpd_ret. split; [|done]. unfold status. rewrite is_2xx_range.
  by destruct (decide _) as [H|H]; [rewrite bool_decide_true|rewrite bool_decide_false].
Qed.

Lemma run_simple_spec ss fuel c s r rest o h (w : ftpw) D :
  s ∈ ss -> reply_fine r -> (length (more r) < fuel)%nat ->
  stream (wio w) (fio (ftp w)) s (reply_text r ++ rest) o h ->
  wpd ss (run_simple fuel c) w (fun x w' => x = status r /\
    exchanged s rest (o ++ printed (wire c)) r w w') D.
Proof.
  intros Hs Hr Hk Hst. destruct c;
    (eapply wpd_mono; [by eapply (expect_2xx_spec ss fuel _ _ s r rest o)|done|
      intros ? ? HD; exact HD]).
Qed.

(** A line. *)
Definition one_line (x : bytes) : Prop := exists l, x = l ++ [CR; LF] /\ (CR ∉ l) /\ LF ∉ l.

(** Arguments hold no line ends, and the line does not have exactly the length that
    [io_fprintf] cuts. *)
Definition command_ok (c : simple_command) : Prop := one_line (wire c) /\ length (wire c) <> 4096%nat.

Lemma command_printed c : command_ok c -> printed (wire c) = wire c.
Proof. intros [_ Hl]. unfold printed. by rewrite decide_False. Qed.

(** C25: in a session of commands whose arguments hold no line ends, the client puts
    each command on the control connection as exactly one line, in order, reads
    exactly the reply to each, of one line or of many, before the next, and reports 0
    for a reply with a code from 200 to 299 and -1 for any other; the last line of the
    last reply stays available. Every line of a reply starts with a code from 100 to
    599, with a hyphen after it in all but the last. *)
Theorem ftp_session fuel s (l : list (simple_command * ftp_reply)) rest o h (w : ftpw) :
  Forall (fun cr => command_ok cr.1 /\ reply_fine cr.2 /\ (length (more cr.2) < fuel)%nat) l ->
  stream (wio w) (fio (ftp w)) s (concat (reply_text <$> l.*2) ++ rest) o h ->
  wpd [s] (run_session fuel l.*1) w (fun rs w' => rs = status <$> l.*2 /\
    only (fio (ftp w)) s (wio w) (wio w') /\
    (exists h', stream (wio w') (fio (ftp w)) s rest (o ++ concat (wire <$> l.*1)) h') /\
    Forall one_line (wire <$> l.*1) /\
    ftp w' = (if last l is Some cr then set_reply (final cr.2) (ftp w) else ftp w))
    (fun _ _ => False).
Proof.
  intros Hl. revert o h w. induction Hl as [|[c r] l (Hc & Hr & Hk) Hl IH]; intros o h w Hst.
  { apply wpd_ret. split; [done|]. split; [apply only_refl|]. split; [|done].
    exists h. cbn. by rewrite app_nil_r. }
  cbn [run_session fmap list_fmap concat fst snd] in *. rewrite <- app_assoc in Hst.
  apply wpd_bind. eapply wpd_mono; [eapply (run_simple_spec [s] fuel c s r); [by left|done|done|done]|
    |intros ? ? HD; exact HD].
  intros x w1 (-> & Hf & Hon & h1 & Hst1). rewrite command_printed in Hst1 by done.
  assert (fio (ftp w1) = fio (ftp w)) as Hio by (by rewrite Hf). apply wpd_bind.
  eapply wpd_mono; [eapply (IH _ h1 w1); by rewrite Hio| |intros ? ? HD; exact HD].
  intros rs w2 (-> & Hon2 & (h2 & Hst2) & Hlines & Hf2). rewrite Hio in *. apply wpd_ret. split; [done|].
  split; [by eapply only_trans|]. split; [exists h2; by rewrite app_assoc|].
  split; [constructor; [apply Hc|done]|].
  rewrite Hf2. destruct l as [|cr l]; [exact Hf|].
  change (last ((c, r) :: cr :: l)) with (last (cr :: l)).
  destruct (last (cr :: l)) as [cr'|] eqn:El; [by rewrite Hf|by apply last_None in El].
Qed.

(** ** Descriptors *)

Definition fds (w : ftpw) : gset Z := open_fds (net (wio w)).

(** The program leaves the set of open descriptors as it is. *)
Definition keeps_fds {A} (m : prog ftpw A) : Prop := forall w,
  match m w with
  | Ret _ w' | Die _ w' | PthExit w' => fds w' = fds w
  | _ => True
  end.

Lemma keeps_fds_io {A} (m : prog (iow (E := E)) A) : keeps open_fds m -> keeps_fds (on_io m).
Proof.
  intros Hm w. specialize (Hm (wio w)). unfold on_io. destruct (m (wio w)); try done; by simpl.
Qed.

Lemma keeps_fds_bind {A B} (m : prog ftpw A) (k : A -> prog ftpw B) :
  keeps_fds m -> (forall a, keeps_fds (k a)) -> keeps_fds (m ≫= k).
Proof.
  intros Hm Hk w. specialize (Hm w). unfold mbind, prog_bind. destruct (m w) as [a w'| | | |]; try done.
  specialize (Hk a w'). destruct (k a w'); congruence.
Qed.

Lemma read_keeps s n : keeps open_fds (on_net (pth_read s n)).
Proof.
  intros w. pose proof (read_fds s n (net w)) as H. unfold on_net.
  by destruct (pth_read s n (net w)).
Qed.

Lemma write_keeps s bs : keeps open_fds (on_net (pth_write s bs)).
Proof.
  intros w. pose proof (write_fds s bs (net w)) as H. unfold on_net.
  by destruct (pth_write s bs (net w)).
Qed.

Lemma eat_lines_fds k : keeps_fds (eat_lines k).
Proof.
  induction k as [|k IH]; cbn [eat_lines]; [by intros w|].
  apply keeps_fds_bind; [by intros w|]. intros f. apply keeps_fds_bind.
  { unfold get_reply. apply keeps_fds_bind; [|by intros r w].
    apply keeps_fds_io, keeps_fgets; [apply read_keeps|apply write_keeps]. }
  intros [r|]; [|by intros w]. destruct (reply_ok r); [|by intros w].
  destruct (last_line r); [by intros w|done].
Qed.

Lemma do_command_fds fuel cmd arg : keeps_fds (do_command fuel cmd arg).
Proof.
  unfold do_command. apply keeps_fds_bind; [by intros w|]. intros f.
  apply keeps_fds_bind; [|intros _; apply eat_lines_fds].
  apply keeps_fds_io, keeps_fprintf. apply write_keeps.
Qed.

Lemma wpd_fds {A} ss (m : prog ftpw A) w (Q : A -> ftpw -> Prop) D :
  keeps_fds m -> wpd ss m w Q D -> wpd ss m w (fun a w' => Q a w' /\ fds w' = fds w) D.
Proof. intros Hm. specialize (Hm w). unfold wpd. destruct (m w); naive_solver. Qed.

(** A system call that succeeds and leaves the other sockets alone. *)
Lemma wpd_sys {A B} s fd (m : prog E A) (k : A -> prog ftpw B) w a e' Q D :
  m (net (wio w)) = Ret a e' -> elsewhere_same fd (net (wio w)) e' -> s <> fd ->
  wpd [s] (k a) (with_io (IoW (ios (wio w)) e') w) Q D ->
  wpd [s] (on_sys m ≫= k) w Q D.
Proof.
  intros Hm [_ Hh] Hs Hk. apply wpd_bind. unfold wpd at 1, on_sys, on_io, on_net. rewrite Hm.
  split; [exact Hk|]. unfold all_healthy. rewrite !Forall_singleton. auto.
Qed.

Lemma stream_elsewhere (w : ftpw) io s i o h fd e' :
  stream (wio w) io s i o h -> elsewhere_same fd (net (wio w)) e' -> s <> fd ->
  stream (wio (with_io (IoW (ios (wio w)) e') w)) io s i o h.
Proof.
  intros [H1 H2 H3 H4 H5] [Ho _] Hs. destruct (Ho s Hs) as [Hi Hout].
  split; simpl; try done; [by rewrite Hi|by rewrite Hout].
Qed.

(** The system calls of an active data connection before PORT is sent. *)
Record listening (e : E) (fd p : Z) (e5 : E) : Prop := {
  ls_steps : exists e1 e2 e3 e4 r2 r3 r4 r5,
    sys_socket e = Ret fd e1 /\ sys_nonblock fd e1 = Ret r2 e2 /\ r2 <> -1 /\
    sys_bind fd e2 = Ret r3 e3 /\ r3 <> -1 /\ sys_listen fd e3 = Ret r4 e4 /\ r4 <> -1 /\
    sys_getsockname fd e4 = Ret (r5, p) e5 /\ r5 <> -1;
  ls_fd : fd <> -1
}.

Lemma elsewhere_trans fd (e1 e2 e3 : E) :
  elsewhere_same fd e1 e2 -> elsewhere_same fd e2 e3 -> elsewhere_same fd e1 e3.
Proof. intros [O1 H1] [O2 H2]. split; [by eapply same_trans|auto]. Qed.

Lemma socket_fd (e : E) fd e1 :
  sys_socket e = Ret fd e1 -> fd <> -1 ->
  (fd ∉ open_fds e) /\ open_fds e1 = {[fd]} ∪ open_fds e /\ elsewhere_same fd e e1.
Proof. intros Hs Hfd. pose proof (socket_law e) as H. rewrite Hs in H. naive_solver. Qed.

Lemma nonblock_same (e : E) fd r e' :
  sys_nonblock fd e = Ret r e' -> open_fds e' = open_fds e /\ elsewhere_same fd e e'.
Proof. intros H. pose proof (nonblock_law fd e) as L. by rewrite H in L. Qed.

Lemma bind_same (e : E) fd r e' :
  sys_bind fd e = Ret r e' -> open_fds e' = open_fds e /\ elsewhere_same fd e e'.
Proof. intros H. pose proof (bind_law fd e) as L. by rewrite H in L. Qed.

Lemma listen_same (e : E) fd r e' :
  sys_listen fd e = Ret r e' -> open_fds e' = open_fds e /\ elsewhere_same fd e e'.
Proof. intros H. pose proof (listen_law fd e) as L. by rewrite H in L. Qed.

Lemma getsockname_same (e : E) fd r p e' :
  sys_getsockname fd e = Ret (r, p) e' -> open_fds e' = open_fds e /\ elsewhere_same fd e e'.
Proof. intros H. pose proof (getsockname_law fd e) as L. rewrite H in L. naive_solver. Qed.

Lemma listening_spec e fd p e5 :
  listening e fd p e5 ->
  (fd ∉ open_fds e) /\ open_fds e5 = {[fd]} ∪ open_fds e /\ elsewhere_same fd e e5 /\
  forall s fuel (w : ftpw) Q D,
    net (wio w) = e -> s <> fd -> passive_mode (ftp w) = 0 ->
    wpd [s] (code ← do_command fuel (lit "PORT") (Some (port_arg (sin_addr (ftp w)) p));
             mret (if negb (IS_2xx code) then -1 else fd))
      (with_io (IoW (ios (wio w)) e5) w) Q D ->
    wpd [s] (issue_port_or_pasv fuel) w Q D.
Proof.
  intros [(e1 & e2 & e3 & e4 & r2 & r3 & r4 & r5 & H1 & H2 & N2 & H3 & N3 & H4 & N4 & H5 & N5) Hfd].
  destruct (socket_fd _ _ _ H1 Hfd) as (F1 & O1 & S1).
  destruct (nonblock_same _ _ _ _ H2) as [O2 S2]. destruct (bind_same _ _ _ _ H3) as [O3 S3].
  destruct (listen_same _ _ _ _ H4) as [O4 S4].
  destruct (getsockname_same _ _ _ _ _ H5) as [O5 S5].
  split; [done|]. split; [congruence|].
  split; [eauto using elsewhere_trans|]. intros s fuel w Q D He Hs Hp Hk.
  unfold issue_port_or_pasv.
  apply (wpd_sys s fd sys_socket _ w fd e1); [by rewrite He|by rewrite He|done|].
  rewrite decide_False by done. eapply (wpd_sys s fd); [exact H2|exact S2|done|].
  rewrite decide_False by done. unfold the_ftpc at 1. apply (wpd_read [s] ftp).
  cbn [ftp with_io ftp_world].
  rewrite decide_False by (by intros []).
  eapply (wpd_sys s fd); [exact H3|exact S3|done|]. rewrite decide_False by done.
  eapply (wpd_sys s fd); [exact H4|exact S4|done|]. rewrite decide_False by done.
  eapply (wpd_sys s fd); [exact H5|exact S5|done|]. cbv beta iota.
  rewrite decide_False by done. exact Hk.
Qed.

(** A data connection in active mode that the server refuses: the PORT
    command named the address of the server, not the client's own, with the
    port of the client's socket; the call returns -1 and the socket, new in the
    process, stays open. *)
Theorem ftp_port_refused fuel s r rest o h fd p e5 (w : ftpw) :
  passive_mode (ftp w) = 0 -> listening (net (wio w)) fd p e5 -> s ∈ fds w ->
  reply_fine r -> (length (more r) < fuel)%nat -> ~ 200 <= r_code r < 300 ->
  stream (wio w) (fio (ftp w)) s (reply_text r ++ rest) o h ->
  wpd [s] (issue_port_or_pasv fuel) w (fun x w' => x = -1 /\
    (fd ∉ fds w) /\ fds w' = {[fd]} ∪ fds w /\
    exists h', stream (wio w') (fio (ftp w)) s rest
      (o ++ printed (lit "PORT " ++ port_arg (sin_addr (ftp w)) p ++ [CR; LF])) h')
    (fun _ _ => False).
Proof.
  intros Hp Hls Hin Hr Hk Hcode Hst. destruct (listening_spec _ _ _ _ Hls) as (F & O & Hel & Hrun).
  assert (s <> fd) as Hs by (intros ->; exact (F Hin)).
  apply Hrun; [done|done|done|]. apply wpd_bind.
  eapply wpd_mono; [apply wpd_fds; [apply do_command_fds|];
    eapply (do_command_spec [s] fuel _ _ s r rest); [by left|done|done|]| |intros ? ? HD; exact HD].
  - by eapply stream_elsewhere.
  - intros c w' ((-> & He & _ & Hst') & Hf). apply wpd_ret.
    rewrite is_2xx_range, bool_decide_false by done. split; [done|].
    split; [done|]. split; [|done]. rewrite Hf. exact O.
Qed.
End ftp_spec.

(** ** Examples *)

(** The scripted sockets with a set of descriptors; there is one free
    descriptor, 7. *)
Record ftp_env := FtpEnv { scr : script; fdset : gset Z }.

Definition on_script {A} (m : prog script A) : prog ftp_env A := fun e =>
  match m (scr e) with
  | Ret a c => Ret a (FtpEnv c (fdset e))
  | Die msg c => Die msg (FtpEnv c (fdset e))
  | PthExit c => PthExit (FtpEnv c (fdset e))
  | Abort => Abort
  | NoFuel => NoFuel
  end.

#[export] Program Instance env_sockets : Sockets ftp_env := {|
  input e := input (scr e);
  output e := output (scr e);
  healthy e := healthy (scr e);
  pth_read s n := on_script (pth_read s n);
  pth_write s bs := on_script (pth_write s bs);
  sys_close s e := Ret 0 (FtpEnv (scr e) (fdset e ∖ {[s]})) |}.
Next Obligation.
  intros s n e. unfold on_script. pose proof (read_law s n (scr e)) as H.
  by destruct (pth_read s n (scr e)).
Qed.
Next Obligation.
  intros s bs e Hbs. unfold on_script. pose proof (write_law s bs (scr e) Hbs) as H.
  by destruct (pth_write s bs (scr e)).
Qed.

#[export] Program Instance env_net : Net ftp_env := {|
  open_fds := fdset;
  sys_socket e := if decide (7 ∈ fdset e) then Ret (-1) e
                  else Ret 7 (FtpEnv (scr e) ({[7]} ∪ fdset e));
  sys_nonblock fd := mret 0;
  sys_bind fd := mret 0;
  sys_listen fd := mret 0;
  sys_getsockname fd := mret (0, 51213);
  pth_connect fd addr port := mret 0;
  pth_accept fd := mret (-1, 0);
  fopen name writing := mret None;
  fread fp n := mret [];
  fwrite fp bs := mret 0%nat;
  fclose fp := mret 0 |}.
Next Obligation.
  intros s n e. simpl. unfold on_script. by destruct (script_read s n (scr e)).
Qed.
Next Obligation.
  intros s bs e. simpl. unfold on_script. by destruct (script_write s bs (scr e)).
Qed.
Next Obligation.
  intros e. simpl. destruct (decide (7 ∈ fdset e)); (split; [|done]); auto.
Qed.
Next Obligation. by intros fd e. Qed.
Next Obligation. by intros fd e. Qed.
Next Obligation. by intros fd e. Qed.
Next Obligation. intros fd e. simpl. split; [lia|done]. Qed.

Definition sample_ftp (input : bytes) : ftpw (E := ftp_env) :=
  FtpW (IoW {[1%positive := fresh_handle 3]} (FtpEnv (Script [(3, input)] [] 2 []) {[3]}))
    (Ftpc 1 21 0 0 2130706433 21 0 [] (lit "localhost") None []).

Lemma sample_ftp_stream input : stream (wio (sample_ftp input)) 1 3 input [] (fresh_handle 3).
Proof. exact (fresh_stream (wio (sample_ftp input)) 1 3 eq_refl). Qed.

Definition long_reply : ftp_reply :=
  FtpReply [(250, lit "The directory holds"); (250, lit "many files.")] 250 (lit "Done.").
Definition refusal : ftp_reply := FtpReply [] 500 (lit "Illegal PORT command.").

Lemma text_ok_dec t :
  bool_decide ((LF ∉ t) /\ (xff ∉ t) /\ (NUL ∉ t)) = true ->
  bool_decide (last t <> Some CR /\ last t <> Some LF) = true ->
  (length t <? 2042)%nat = true -> text_ok t.
Proof.
  intros H1 H2%bool_decide_eq_true H3%Nat.ltb_lt. split; [by apply clean_dec|].
  split; [|done]. intros [?|?]; by destruct H2.
Qed.

Lemma replies_fine : reply_fine long_reply /\ reply_fine refusal.
Proof.
  split; (split; [|split; [unfold code_ok; simpl; lia|by apply text_ok_dec]]); simpl;
    repeat (apply Forall_cons; split; [split; [unfold code_ok; simpl; lia|by apply text_ok_dec]|]); done.
Qed.

Lemma commands_fine : command_ok (Cwd (lit "pub")) /\ command_ok (Delete (lit "x")).
Proof.
  split; (split; [|done]); [exists (lit "CWD pub")|exists (lit "DELE x")]; (split; [done|]);
    by apply (bool_decide_unpack _).
Qed.

Lemma ftp_session_witness :
  let w := sample_ftp (concat (reply_text <$> [long_reply; refusal]) ++ lit "rest") in
  wpd [3] (run_session 5 [Cwd (lit "pub"); Delete (lit "x")]) w (fun rs w' => rs = [0; -1] /\
    only 1 3 (wio w) (wio w') /\
    (exists h', stream (wio w') 1 3 (lit "rest")
       ([] ++ lit "CWD pub" ++ [CR; LF] ++ lit "DELE x" ++ [CR; LF]) h') /\
    Forall one_line (wire <$> [Cwd (lit "pub"); Delete (lit "x")]) /\
    ftp w' = set_reply (lit "500 Illegal PORT command.") (ftp w))
    (fun _ _ => False).
Proof.
  apply (ftp_session 5 3 [(Cwd (lit "pub"), long_reply); (Delete (lit "x"), refusal)] (lit "rest") []
    (fresh_handle 3)).
  - destruct replies_fine as [H1 H2], commands_fine as [C1 C2].
    apply Forall_cons. split; [split; [exact C1|split; [exact H1|simpl; lia]]|].
    apply Forall_singleton. split; [exact C2|split; [exact H2|simpl; lia]].
  - apply sample_ftp_stream.
Defined.

Lemma ftp_port_refused_witness :
  let w := sample_ftp (reply_text refusal ++ lit "rest") in
  wpd [3] (issue_port_or_pasv 5) w (fun x w' => x = -1 /\
    (7 ∉ fds w) /\ fds w' = {[7]} ∪ fds w /\
    exists h', stream (wio w') 1 3 (lit "rest")
      ([] ++ printed (lit "PORT " ++ port_arg 2130706433 51213 ++ [CR; LF])) h')
    (fun _ _ => False).
Proof.
  apply (ftp_port_refused 5 3 refusal (lit "rest") [] (fresh_handle 3) 7 51213
    (FtpEnv (Script [(3, reply_text refusal ++ lit "rest")] [] 2 []) ({[7]} ∪ {[3]}))
    (sample_ftp (reply_text refusal ++ lit "rest"))).
  - done.
  - split; [|done]. do 4 eexists. do 4 exists 0. repeat split; done.
  - change (3 ∈ ({[3]} : gset Z)). by apply elem_of_singleton.
  - apply replies_fine.
  - simpl. lia.
  - simpl. lia.
  - apply sample_ftp_stream.
Defined.
