(* ===== verification/Regex.v ===== *)
(** * Regular expressions

    The database code uses Perl-compatible regular expressions through c2lib
    ([pre.h], [pstring.h]), which is not part of the repository.  The patterns of
    the source are values of [regex]; how Perl matches them, trying alternatives
    in order and repeating as often as possible first, is [rmatch].  The class
    [Pre] is the interface of c2lib. *)

From stdpp Require Import base list gmap.
From Stdlib Require Import Strings.Byte.
From S2P Require Import Prelude C2lib Prog Cstring.

Inductive regex :=
  | Class (p : byte -> bool)
  | Many (p : byte -> bool)
  | Seq (r1 r2 : regex)
  | Alt (r1 r2 : regex)
  | Opt (r : regex)
  | Group (n : nat) (r : regex).

(** The groups matched so far. *)
Abbreviation captures := (list (nat * bytes)).

Fixpoint get_group (c : captures) (n : nat) : option bytes :=
  match c with
  | [] => None
  | (m, l) :: c => if decide (n = m) then Some l else get_group c n
  end.

Section many.
Context (p : byte -> bool) (k : bytes -> option captures).

(** The longest run first, then shorter ones. *)
Fixpoint many (s : bytes) : option captures :=
  match s with
  | b :: t =>
    if p b then match many t with Some c => Some c | None => k s end else k s
  | [] => k []
  end.
End many.

(** [k] is what is left to be matched. *)
Fixpoint rmatch (r : regex) (s : bytes) (c : captures) (k : bytes -> captures -> option captures)
  : option captures :=
  match r with
  | Class p => match s with b :: t => if p b then k t c else None | [] => None end
  | Many p => many p (fun s => k s c) s
  | Seq r1 r2 => rmatch r1 s c (fun s c => rmatch r2 s c k)
  | Alt r1 r2 => match rmatch r1 s c k with Some x => Some x | None => rmatch r2 s c k end
  | Opt r => match rmatch r s c k with Some x => Some x | None => k s c end
  | Group n r => rmatch r s c (fun s' c => k s' ((n, take (length s - length s') s) :: c))
  end.

(** The first match in a string; group 0 is all of it. *)
Fixpoint search (r : regex) (s : bytes) : option captures :=
  match rmatch (Group 0 r) s [] (fun _ c => Some c) with
  | Some c => Some c
  | None => match s with _ :: t => search r t | [] => None end
  end.

(** The groups up to the last one that took part in the match. *)
Definition last_group (c : captures) : nat := foldr Nat.max 0%nat c.*1.
Definition groups (c : captures) : list (option bytes) :=
  get_group c <$> seq 0 (S (last_group c)).

Definition perl_match (r : regex) (s : bytes) : option (list (option bytes)) :=
  groups <$> search r s.

(** Literal characters and classes of the patterns. *)
Definition is_char (c : byte) (b : byte) : bool := bool_decide (b = c).
Definition Chr (c : byte) : regex := Class (is_char c).
Definition re_space (b : byte) : bool :=
  bool_decide (b ∈ [" "%byte; x09; LF; x0c; CR]).
Definition Digit : regex := Class isdigit.
Definition Space : regex := Class re_space.
Definition Digits1 : regex := Seq Digit (Many isdigit).
Fixpoint Word (s : bytes) : regex :=
  match s with [] => Many (fun _ => false) | [c] => Chr c | c :: s => Seq (Chr c) (Word s) end.

Class Pre (vec : Type -> Type) `{VL : Vector vec} := {
  (** [prematch] without flags; [None] is the null pointer *)
  prematch : bytes -> regex -> option (vec (option bytes));
  (** the string split at the matches, which are elements of their own *)
  pstrresplit2 : bytes -> regex -> vec bytes;
  prematch_law : forall s r, fmap (M := option) elems (prematch s r) = perl_match r s;
  pstrresplit2_law : forall s r p,
    (forall s c k, rmatch r s c k = rmatch (Class p) s c k) ->
    let v := elems (pstrresplit2 s r) in
    concat v = s /\
    Forall (fun x => (exists c, p c = true /\ x = [c]) \/ Forall (fun c => p c = false) x) v
}.

(** ** Matching step by step *)

(** [r] matches exactly [l], and cannot match otherwise there. *)
Definition exactly (r : regex) (l : bytes) : Prop :=
  forall t c k, rmatch r (l ++ t) c k = k t c.

(** [r] cannot match at the front of [s]. *)
Definition nowhere (r : regex) (s : bytes) : Prop := forall c k, rmatch r s c k = None.

(** The rest of the pattern always matches. *)
Definition total (k : bytes -> captures -> option captures) : Prop :=
  forall s c, is_Some (k s c).

Lemma rmatch_seq r1 r2 s c k :
  rmatch (Seq r1 r2) s c k = rmatch r1 s c (fun s c => rmatch r2 s c k).
Proof. done. Qed.

Lemma exactly_class p b : p b = true -> exactly (Class p) [b].
Proof. intros H t c k. simpl. by rewrite H. Qed.

Lemma exactly_chr b : exactly (Chr b) [b].
Proof. apply exactly_class. unfold is_char. by rewrite bool_decide_true. Qed.

Lemma exactly_seq r1 r2 l1 l2 : exactly r1 l1 -> exactly r2 l2 -> exactly (Seq r1 r2) (l1 ++ l2).
Proof. intros H1 H2 t c k. cbn [rmatch]. by rewrite <- app_assoc, H1, H2. Qed.

Lemma exactly_group r l n t c k :
  exactly r l -> rmatch (Group n r) (l ++ t) c k = k t ((n, l) :: c).
Proof.
  intros H. cbn [rmatch]. rewrite H, length_app, Nat.add_sub, take_app_length. done.
Qed.

Lemma nowhere_class p s : (forall b, head s = Some b -> p b = false) -> nowhere (Class p) s.
Proof. intros H c k. destruct s as [|b t]; [done|]. simpl. by rewrite (H b). Qed.

Lemma nowhere_seq r1 r2 s : nowhere r1 s -> nowhere (Seq r1 r2) s.
Proof. intros H c k. apply H. Qed.

Lemma nowhere_group r n s : nowhere r s -> nowhere (Group n r) s.
Proof. intros H c k. apply H. Qed.

Lemma opt_total r k : total k -> total (fun s c => rmatch (Opt r) s c k).
Proof. intros H s c. simpl. destruct (rmatch r s c k); eauto. Qed.

Lemma opt_take r s c k t c' :
  total k -> rmatch r s c k = k t c' -> rmatch (Opt r) s c k = k t c'.
Proof. intros Hk H. simpl. rewrite H. by destruct (Hk t c') as [x ->]. Qed.

Lemma opt_skip r s c k : nowhere r s -> rmatch (Opt r) s c k = k s c.
Proof. intros H. simpl. by rewrite H. Qed.

(** A run that the rest of the pattern accepts as a whole. *)
Lemma many_all p k l t :
  Forall (fun b => p b = true) l -> (forall b, head t = Some b -> p b = false) ->
  is_Some (k t) -> many p k (l ++ t) = k t.
Proof.
  intros Hl Ht [x Hx]. induction Hl as [|b l Hb Hl IH]; simpl.
  - destruct t as [|b t]; [done|]. simpl. by rewrite (Ht b).
  - by rewrite Hb, IH, Hx.
Qed.

Lemma many_total p k c : total k -> forall s, is_Some (many p (fun s => k s c) s).
Proof.
  intros Hk. induction s as [|b s [x IH]]; simpl; [apply Hk|].
  destruct (p b); [rewrite IH; eauto|apply Hk].
Qed.

(** A run of which no part can be followed by the rest. *)
Lemma many_none p k l t :
  (forall l1 l2, l = l1 ++ l2 -> k (l2 ++ t) = None) ->
  (forall b, head t = Some b -> p b = false) -> many p k (l ++ t) = None.
Proof.
  intros Hk Ht. induction l as [|b l IH]; simpl.
  - specialize (Hk [] [] eq_refl). simpl in Hk.
    destruct t as [|b t]; [done|]. simpl. by rewrite (Ht b).
  - pose proof (Hk [] (b :: l) eq_refl) as H0. simpl in H0. destruct (p b); [|done].
    rewrite IH; [done|]. intros l1 l2 ->. apply (Hk (b :: l1) l2). done.
Qed.

Lemma many_run p l t c k :
  Forall (fun b => p b = true) l -> (forall b, head t = Some b -> p b = false) ->
  is_Some (k t c) -> rmatch (Many p) (l ++ t) c k = k t c.
Proof. intros Hl Ht Hk. cbn [rmatch]. by apply (many_all p (fun s => k s c)). Qed.

(** A run of digits in a group. *)
Lemma digits1_group n l t c k :
  l <> [] -> Forall (fun b => isdigit b = true) l ->
  (forall b, head t = Some b -> isdigit b = false) ->
  is_Some (k t ((n, l) :: c)) ->
  rmatch (Group n Digits1) (l ++ t) c k = k t ((n, l) :: c).
Proof.
  intros Hl Hd Ht Hk. destruct l as [|b l]; [done|]. inversion_clear Hd as [|? ? Hb Hd'].
  cbn [rmatch app Digits1 Digit]. rewrite Hb.
  assert (take (length (b :: l ++ t) - length t) (b :: l ++ t) = b :: l) as E.
  { change (b :: l ++ t) with ((b :: l) ++ t).
    by rewrite length_app, Nat.add_sub, take_app_length. }
  rewrite many_all; [by rewrite E|done|done|]. by rewrite E.
Qed.

Lemma digits1_none n l t c k :
  Forall (fun b => isdigit b = true) l -> (forall b, head t = Some b -> isdigit b = false) ->
  (forall l1 l2 c, l = l1 ++ l2 -> k (l2 ++ t) c = None) ->
  rmatch (Group n Digits1) (l ++ t) c k = None.
Proof.
  intros Hd Ht Hk. cbn [rmatch Digits1 Digit]. destruct l as [|b l].
  - destruct t as [|b t]; [done|]. simpl. by rewrite (Ht b).
  - inversion_clear Hd as [|? ? Hb Hd']. cbn [app]. rewrite Hb. apply many_none; [|done].
    intros l1 l2 ->. by apply (Hk (b :: l1)).
Qed.

Lemma search_first r s c :
  rmatch (Group 0 r) s [] (fun _ c => Some c) = Some c -> search r s = Some c.
Proof. intros H. destruct s; cbn [search]; by rewrite H. Qed.

(** ** An executable instance *)

Fixpoint split_keep (r : regex) (cur s : bytes) : list bytes :=
  match s with
  | [] => match cur with [] => [] | _ => [cur] end
  | b :: t =>
    match rmatch r [b] [] (fun s c => match s with [] => Some c | _ => None end) with
    | Some _ => match cur with [] => [b] :: split_keep r [] t | _ => cur :: [b] :: split_keep r [] t end
    | None => split_keep r (cur ++ [b]) t
    end
  end.

Lemma split_keep_law r p s cur :
  (forall s c k, rmatch r s c k = rmatch (Class p) s c k) ->
  Forall (fun c => p c = false) cur ->
  concat (split_keep r cur s) = cur ++ s /\
  Forall (fun x => (exists c, p c = true /\ x = [c]) \/ Forall (fun c => p c = false) x)
    (split_keep r cur s).
Proof.
  intros Hr. revert cur. induction s as [|b s IH]; intros cur Hc.
  - destruct cur; simpl; rewrite ?app_nil_r; (split; [done|]); [constructor|].
    constructor; [by right|constructor].
  - cbn [split_keep]. rewrite Hr. cbn [rmatch]. destruct (p b) eqn:Hb.
    + destruct (IH [] ltac:(constructor)) as [E F].
      assert ((exists c, p c = true /\ [b] = [c]) \/ Forall (fun c => p c = false) [b]) by eauto.
      destruct cur; simpl; rewrite ?E; (split; [done|]); [by constructor|].
      constructor; [by right|by constructor].
    + destruct (IH (cur ++ [b])) as [E F]; [apply Forall_app; auto|].
      rewrite E, <- app_assoc. auto.
Qed.

#[export] Program Instance list_pre : Pre list := {|
  prematch s r := perl_match r s;
  pstrresplit2 s r := split_keep r [] s |}.
Next Obligation. intros s r. simpl. by destruct (perl_match r s). Qed.
Next Obligation. intros s r p Hr. simpl. apply (split_keep_law r p s []); auto. Qed.
