(* ===== verification/DbiTime.v ===== *)
(** * Timestamps and intervals of the database ([src/pthr_dbi.c])

    [parse_timestamp] and [parse_interval] with their regular expressions, and
    what they read from the texts a PostgreSQL server prints. *)

From stdpp Require Import base list gmap.
From Stdlib Require Import Strings.Byte.
From S2P Require Import Prelude C2lib Prog Cstring Regex.

Record dbi_timestamp := Timestamp {
  ts_is_null : Z;
  year : Z; month : Z; day : Z;
  hour : Z; min : Z; sec : Z;
  microsecs : Z;
  utc_offset : Z
}.

Record dbi_interval := Interval {
  inv_is_null : Z;
  secs : Z; mins : Z; hours : Z;
  days : Z; months : Z; years : Z
}.

(** After [memset]. *)
Definition zero_timestamp : dbi_timestamp := Timestamp 0 0 0 0 0 0 0 0 0.
Definition zero_interval : dbi_interval := Interval 0 0 0 0 0 0 0.

Definition set_year v t :=
  Timestamp (ts_is_null t) v (month t) (day t) (hour t) (min t) (sec t) (microsecs t) (utc_offset t).
Definition set_month v t :=
  Timestamp (ts_is_null t) (year t) v (day t) (hour t) (min t) (sec t) (microsecs t) (utc_offset t).
Definition set_day v t :=
  Timestamp (ts_is_null t) (year t) (month t) v (hour t) (min t) (sec t) (microsecs t) (utc_offset t).
Definition set_hour v t :=
  Timestamp (ts_is_null t) (year t) (month t) (day t) v (min t) (sec t) (microsecs t) (utc_offset t).
Definition set_min v t :=
  Timestamp (ts_is_null t) (year t) (month t) (day t) (hour t) v (sec t) (microsecs t) (utc_offset t).
Definition set_sec v t :=
  Timestamp (ts_is_null t) (year t) (month t) (day t) (hour t) (min t) v (microsecs t) (utc_offset t).
Definition set_microsecs v t :=
  Timestamp (ts_is_null t) (year t) (month t) (day t) (hour t) (min t) (sec t) v (utc_offset t).
Definition set_utc_offset v t :=
  Timestamp (ts_is_null t) (year t) (month t) (day t) (hour t) (min t) (sec t) (microsecs t) v.

Definition set_years v i :=
  Interval (inv_is_null i) (secs i) (mins i) (hours i) (days i) (months i) v.
Definition set_months v i :=
  Interval (inv_is_null i) (secs i) (mins i) (hours i) (days i) v (years i).
Definition set_days v i :=
  Interval (inv_is_null i) (secs i) (mins i) (hours i) v (months i) (years i).
Definition set_hours v i :=
  Interval (inv_is_null i) (secs i) (mins i) v (days i) (months i) (years i).
Definition set_mins v i :=
  Interval (inv_is_null i) (secs i) v (hours i) (days i) (months i) (years i).
Definition set_secs v i :=
  Interval (inv_is_null i) v (mins i) (hours i) (days i) (months i) (years i).

(** The patterns of [init_dbi]. *)
Definition two_digits (n : nat) : regex := Group n (Seq Digit Digit).

Definition re_date : regex :=
  Seq (Group 1 (Seq Digit (Seq Digit (Seq Digit Digit))))
      (Seq (Chr "-") (Seq (two_digits 2) (Seq (Chr "-") (two_digits 3)))).
Definition re_sec : regex := Opt (Seq (Chr ":") (two_digits 6)).
Definition re_frac : regex := Opt (Seq (Chr ".") (Group 7 Digits1)).
Definition re_offset : regex :=
  Opt (Seq (Group 8 (Class (fun b => is_char "+" b || is_char "-" b))) (two_digits 9)).
Definition re_clock : regex :=
  Seq (two_digits 4) (Seq (Chr ":") (Seq (two_digits 5) (Seq re_sec (Seq re_frac re_offset)))).

Definition re_timestamp : regex := Seq re_date (Seq (Many re_space) (Opt re_clock)).

Definition amount (n : nat) (unit : bytes) : regex :=
  Opt (Seq (Group n Digits1) (Seq Space (Seq (Word unit) (Opt (Chr "s"))))).

Definition re_hms : regex :=
  Seq (two_digits 4) (Seq (Chr ":") (Seq (two_digits 5) re_sec)).

Definition re_interval : regex :=
  Seq (amount 1 (lit "year")) (Seq (Many re_space)
  (Seq (amount 2 (lit "mon")) (Seq (Many re_space)
  (Seq (amount 3 (lit "day")) (Seq (Many re_space) (Opt re_hms)))))).

Section parse.
Context {vec : Type -> Type} `{PR : Pre vec} {S : Type}.

(** The loop; [None]: a read after the end of the string. *)
Fixpoint fixed_width_loop (width : nat) (str : bytes) (r : Z) : option Z :=
  match width with
  | O => Some r
  | Datatypes.S w =>
    match str with
    | c :: str => fixed_width_loop w str (to_int (to_int (r * 10) + (char_val c - 48)))
    | [] => None
    end
  end.

Definition parse_fixed_width_int (str : bytes) (width : nat) : option Z :=
  fixed_width_loop width (str ++ [NUL]) 0.

(** [if (s) field = parse_fixed_width_int (s, width)] *)
Definition fixed_field {A} (s : option bytes) (width : nat) (set : Z -> A -> A) (a : A)
  : prog S A :=
  match s with
  | Some s => n ← expect (parse_fixed_width_int s width); mret (set n a)
  | None => mret a
  end.

(** [if (s) sscanf (s, "%d", &field)] *)
Definition scanned_field {A} (s : option bytes) (set : Z -> A -> A) (a : A) : A :=
  match s with
  | Some s => match scan_int s with Some (n, _) => set n a | None => a end
  | None => a
  end.

(** [if (vector_size (v) <= i) return; vector_get (v, i, s); ...] *)
Definition field {A} (v : vec (option bytes)) (i : nat) (use : option bytes -> A -> prog S A)
    (rest : A -> prog S A) (a : A) : prog S A :=
  if decide (vector_size v <= i)%nat then mret a
  else s ← expect (vector_get v i); a ← use s a; rest a.

Definition read_offset (v : vec (option bytes)) (ts : dbi_timestamp) : prog S dbi_timestamp :=
  if decide (vector_size v <= 9)%nat then mret ts
  else
    sign ← expect (vector_get v 8);
    s ← expect (vector_get v 9);
    match sign, s with
    | Some sign, Some s =>
      n ← expect (parse_fixed_width_int s 2);
      c ← expect (head (sign ++ [NUL]));
      mret (set_utc_offset (if decide (c = "-"%byte) then - n else n) ts)
    | _, _ => mret ts
    end.

Definition parse_timestamp (str : bytes) (ts : dbi_timestamp) : prog S dbi_timestamp :=
  match prematch str re_timestamp with
  | None => pth_die (lit "dbi: parse_timestamp: invalid timestamp: " ++ str)
  | Some v =>
    field v 1 (fun s => fixed_field s 4 set_year) (
    field v 2 (fun s => fixed_field s 2 set_month) (
    field v 3 (fun s => fixed_field s 2 set_day) (
    field v 4 (fun s => fixed_field s 2 set_hour) (
    field v 5 (fun s => fixed_field s 2 set_min) (
    field v 6 (fun s => fixed_field s 2 set_sec) (
    field v 7 (fun s ts => mret (scanned_field s set_microsecs ts)) (
    read_offset v))))))) ts
  end.

Definition parse_interval (str : bytes) (inv : dbi_interval) : prog S dbi_interval :=
  match prematch str re_interval with
  | None => pth_die (lit "dbi: parse_interval: invalid interval: " ++ str)
  | Some v =>
    field v 1 (fun s inv => mret (scanned_field s set_years inv)) (
    field v 2 (fun s inv => mret (scanned_field s set_months inv)) (
    field v 3 (fun s inv => mret (scanned_field s set_days inv)) (
    field v 4 (fun s => fixed_field s 2 set_hours) (
    field v 5 (fun s => fixed_field s 2 set_mins) (
    field v 6 (fun s => fixed_field s 2 set_secs) (fun inv => mret inv)))))) inv
  end.
End parse.

(** ** Numbers of a fixed width *)

Fixpoint fixed (w : nat) (n : Z) : bytes :=
  match w with O => [] | S w => fixed w (n / 10) ++ [digit_char (n mod 10)] end.

Lemma digit_char_spec d :
  0 <= d < 10 -> isdigit (digit_char d) = true /\ char_val (digit_char d) - 48 = d.
Proof.
  intros Hd.
  assert (forallb (fun d => bool_decide (isdigit (digit_char d) = true /\
    char_val (digit_char d) - 48 = d)) (seqZ 0 10) = true) as H by (vm_compute; reflexivity).
  rewrite forallb_forall in H. eapply bool_decide_eq_true, H, list_elem_of_In, elem_of_seqZ. lia.
Qed.

Lemma digit_no_space b : isdigit b = true -> re_space b = false.
Proof.
  revert b. apply (byte_prop (fun b => isdigit b = true -> re_space b = false)).
  vm_compute. reflexivity.
Qed.

Lemma fixed_digits w n : length (fixed w n) = w /\ Forall (fun b => isdigit b = true) (fixed w n).
Proof.
  revert n. induction w as [|w IH]; intros n; simpl; [done|].
  destruct (IH (n / 10)) as [Hl Hd]. rewrite length_app, Hl. split; [simpl; lia|].
  apply Forall_app. split; [done|]. constructor; [|done].
  apply digit_char_spec, Z.mod_pos_bound. lia.
Qed.

Lemma fixed_width_app w l t r :
  length l = w -> fixed_width_loop w (l ++ t) r = fixed_width_loop w l r.
Proof.
  revert l r. induction w as [|w IH]; intros [|c l] r; simpl; try done. intros [= H]. by apply IH.
Qed.

Lemma fixed_width_snoc w l c r :
  length l = w ->
  fixed_width_loop (S w) (l ++ [c]) r =
  (r' ← fixed_width_loop w l r; Some (to_int (to_int (r' * 10) + (char_val c - 48)))).
Proof.
  revert l r. induction w as [|w IH]; intros [|b l] r; simpl; try done.
  intros [= H]. exact (IH l _ H).
Qed.

Lemma parse_fixed w n :
  0 <= n < 10 ^ Z.of_nat w -> (w <= 9)%nat -> parse_fixed_width_int (fixed w n) w = Some n.
Proof.
  intros Hn Hw. unfold parse_fixed_width_int.
  rewrite fixed_width_app by apply fixed_digits. revert n Hn.
  induction w as [|w IH]; intros n Hn; [simpl in Hn; f_equal; lia|]. cbn [fixed].
  rewrite fixed_width_snoc by apply fixed_digits.
  rewrite Nat2Z.inj_succ, Z.pow_succ_r in Hn by lia.
  assert (10 ^ Z.of_nat w <= 10 ^ 8) by (apply Z.pow_le_mono_r; lia).
  pose proof (Z.div_mod n 10 ltac:(lia)). pose proof (Z.mod_pos_bound n 10 ltac:(lia)).
  rewrite IH by (lia || (split; [apply Z.div_pos; lia|apply Z.div_lt_upper_bound; lia])).
  destruct (digit_char_spec (n mod 10)) as [_ ->]; [done|]. simpl.
  rewrite (wraps_small 32 (n / 10 * 10)) by lia. rewrite wraps_small by lia. f_equal. lia.
Qed.

Lemma two_exactly n : exactly (Seq Digit Digit) (fixed 2 n).
Proof.
  destruct (fixed_digits 2 n) as [Hl Hd]. destruct (fixed 2 n) as [|a [|b [|]]]; try done.
  inversion_clear Hd as [|? ? Ha Hd']. inversion_clear Hd' as [|? ? Hb _].
  apply (exactly_seq _ _ [a] [b]); by apply exactly_class.
Qed.

Lemma two_digits_group g n t c k :
  rmatch (two_digits g) (fixed 2 n ++ t) c k = k t ((g, fixed 2 n) :: c).
Proof. apply exactly_group, two_exactly. Qed.

(** ** Timestamps as PostgreSQL prints them *)

(** The time of day, its fraction of a second and the offset from UTC, where
    [true] is for an offset west of Greenwich. *)
Record clock := Clock {
  c_hour : Z; c_min : Z; c_sec : option Z;
  c_frac : option bytes;
  c_offset : option (bool * Z)
}.

Definition opt_text {A} (f : A -> bytes) (o : option A) : bytes :=
  match o with Some a => f a | None => [] end.

Definition offset_text (x : bool * Z) : bytes :=
  (if x.1 then "-"%byte else "+"%byte) :: fixed 2 x.2.
Definition frac_text (f : bytes) : bytes := "."%byte :: f.
Definition sec_text (s : Z) : bytes := ":"%byte :: fixed 2 s.

Definition clock_text (x : clock) : bytes :=
  fixed 2 (c_hour x) ++ ":"%byte :: fixed 2 (c_min x) ++
  opt_text sec_text (c_sec x) ++ opt_text frac_text (c_frac x) ++
  opt_text offset_text (c_offset x).

Definition date_text (y m d : Z) : bytes :=
  fixed 4 y ++ "-"%byte :: fixed 2 m ++ "-"%byte :: fixed 2 d.

Definition timestamp_text (y m d : Z) (space : bytes) (x : option clock) : bytes :=
  date_text y m d ++ space ++ opt_text clock_text x.

Definition is_digits (l : bytes) : Prop := l <> [] /\ Forall (fun b => isdigit b = true) l.

Definition clock_ok (x : clock) : Prop :=
  0 <= c_hour x < 100 /\ 0 <= c_min x < 100 /\
  (forall s, c_sec x = Some s -> 0 <= s < 100) /\
  (forall f, c_frac x = Some f -> is_digits f) /\
  (forall b o, c_offset x = Some (b, o) -> 0 <= o < 100).

(** The number that [sscanf] reads from a string of digits, for [%d]. *)
Definition spelled (f : bytes) : Z := match scan_int f with Some (n, _) => n | None => 0 end.

(** What the code makes of the time of day: the digits of the fraction are read as
    a number of microseconds, however many there are. *)
Definition clock_read (x : option clock) (t : dbi_timestamp) : dbi_timestamp :=
  match x with
  | None => t
  | Some x =>
    Timestamp (ts_is_null t) (year t) (month t) (day t) (c_hour x) (c_min x)
      (default 0 (c_sec x)) (from_option spelled 0 (c_frac x))
      (from_option (fun '(west, o) => if west : bool then - o else o) 0 (c_offset x))
  end.

Definition opt_insert {A} (n : nat) (f : A -> bytes) (o : option A) (c : captures) : captures :=
  match o with Some a => (n, f a) :: c | None => c end.

Lemma offset_match o c k :
  total k ->
  rmatch re_offset (opt_text offset_text o) c k =
  k [] (opt_insert 9 (fixed 2 ∘ snd) o (opt_insert 8 (fun x : bool * Z => take 1 (offset_text x)) o c)).
Proof.
  intros Hk. destruct o as [[west o]|]; [|by apply opt_skip, nowhere_seq, nowhere_group, nowhere_class].
  apply opt_take; [done|]. unfold opt_text, offset_text. simpl fst. simpl snd.
  cbn [rmatch opt_insert]. destruct west; cbn -[two_digits fixed rmatch];
    (etransitivity; [rewrite <- (app_nil_r (fixed 2 o)); apply two_digits_group|]);
    by rewrite app_nil_r, Nat.sub_succ_l, Nat.sub_diag by lia.
Qed.

(** The text [t] starts with none of the characters of [p]. *)
Definition no_start (p : byte -> bool) (t : bytes) : Prop := forall b, head t = Some b -> p b = false.

Lemma no_start_nil p : no_start p [].
Proof. by intros b. Qed.

Lemma no_start_cons p b t : p b = false -> no_start p (b :: t).
Proof. by intros H ? [= <-]. Qed.

Lemma no_start_opt {A} p (f : A -> bytes) o t :
  (forall a, exists b l, f a = b :: l /\ p b = false) -> no_start p t ->
  no_start p (opt_text f o ++ t).
Proof.
  intros Hf Ht. destruct o as [a|]; [|done]. destruct (Hf a) as (b & l & E & Hb).
  simpl. rewrite E. by apply no_start_cons.
Qed.

Lemma no_start_offset p o : p "+"%byte = false -> p "-"%byte = false ->
  no_start p (opt_text offset_text o).
Proof.
  intros H1 H2. destruct o as [[[] n]|]; [by apply no_start_cons..|apply no_start_nil].
Qed.

Lemma frac_match f t c k :
  (forall l, f = Some l -> is_digits l) -> no_start isdigit t -> no_start (is_char ".") t ->
  total k ->
  rmatch re_frac (opt_text frac_text f ++ t) c k =
  k t (opt_insert 7 id f c).
Proof.
  intros Hf Ht Hd Hk. destruct f as [l|]; [|by apply opt_skip, nowhere_seq, nowhere_class].
  destruct (Hf l eq_refl) as [Hl Hds]. apply opt_take; [done|].
  change (opt_text frac_text (Some l) ++ t) with (["."%byte] ++ (l ++ t)).
  rewrite rmatch_seq. etransitivity; [apply exactly_chr|]. by apply digits1_group.
Qed.

Lemma sec_match s t c k :
  no_start (is_char ":") t -> total k ->
  rmatch re_sec (opt_text sec_text s ++ t) c k =
  k t (opt_insert 6 (fixed 2) s c).
Proof.
  intros Ht Hk. destruct s as [n|]; [|by apply opt_skip, nowhere_seq, nowhere_class].
  apply opt_take; [done|].
  change (opt_text sec_text (Some n) ++ t) with ([":"%byte] ++ (fixed 2 n ++ t)).
  rewrite rmatch_seq. etransitivity; [apply exactly_chr|]. apply two_digits_group.
Qed.

(** The groups of a clock. *)
Definition clock_caps (x : clock) (c : captures) : captures :=
  opt_insert 9 (fixed 2 ∘ snd) (c_offset x)
  (opt_insert 8 (fun o : bool * Z => take 1 (offset_text o)) (c_offset x)
  (opt_insert 7 id (c_frac x) (opt_insert 6 (fixed 2) (c_sec x)
  ((5%nat, fixed 2 (c_min x)) :: (4%nat, fixed 2 (c_hour x)) :: c)))).

Lemma clock_match x c k :
  clock_ok x -> total k ->
  rmatch re_clock (clock_text x) c k = k [] (clock_caps x c).
Proof.
  intros (_ & _ & _ & Hf & _) Hk. unfold re_clock, clock_text.
  rewrite rmatch_seq. etransitivity; [apply two_digits_group|].
  change (":"%byte :: fixed 2 (c_min x) ++ ?t) with ([":"%byte] ++ (fixed 2 (c_min x) ++ t)).
  rewrite rmatch_seq. etransitivity; [apply exactly_chr|].
  rewrite rmatch_seq. etransitivity; [apply two_digits_group|].
  rewrite rmatch_seq. etransitivity; [apply sec_match|].
  - apply no_start_opt; [by intros a; eexists _, _|]. by apply no_start_offset.
  - intros s c'. rewrite rmatch_seq. apply opt_total, opt_total, Hk.
  - rewrite rmatch_seq. etransitivity; [apply frac_match|by apply offset_match];
      [done|by apply no_start_offset..|apply opt_total, Hk].
Qed.

Lemma four_exactly n : exactly (Seq Digit (Seq Digit (Seq Digit Digit))) (fixed 4 n).
Proof.
  destruct (fixed_digits 4 n) as [Hl Hd]. destruct (fixed 4 n) as [|a [|b [|c [|d [|]]]]]; try done.
  rewrite !Forall_cons in Hd. destruct Hd as (Ha & Hb & Hc & Hd & _).
  apply (exactly_seq _ _ [a] [b; c; d]); [by apply exactly_class|].
  apply (exactly_seq _ _ [b] [c; d]); [by apply exactly_class|].
  apply (exactly_seq _ _ [c] [d]); by apply exactly_class.
Qed.

Definition date_caps (y m d : Z) : captures :=
  [(3%nat, fixed 2 d); (2%nat, fixed 2 m); (1%nat, fixed 4 y)].

Lemma date_match y m d t k :
  rmatch re_date (date_text y m d ++ t) [] k = k t (date_caps y m d).
Proof.
  unfold date_text, re_date. rewrite <- app_assoc. rewrite rmatch_seq.
  etransitivity; [apply (exactly_group _ (fixed 4 y)), four_exactly|].
  cbn [app]. rewrite <- app_assoc.
  change ("-"%byte :: fixed 2 m ++ ?t) with (["-"%byte] ++ (fixed 2 m ++ t)).
  rewrite rmatch_seq. etransitivity; [apply exactly_chr|].
  rewrite rmatch_seq. etransitivity; [apply two_digits_group|].
  cbn [app]. change ("-"%byte :: fixed 2 d ++ ?t) with (["-"%byte] ++ (fixed 2 d ++ t)).
  rewrite rmatch_seq. etransitivity; [apply exactly_chr|]. apply two_digits_group.
Qed.

Lemma clock_no_space x : no_start re_space (opt_text clock_text x).
Proof.
  destruct x as [x|]; [|apply no_start_nil]. unfold opt_text, clock_text.
  destruct (fixed_digits 2 (c_hour x)) as [Hl Hd]. destruct (fixed 2 (c_hour x)) as [|b l]; [done|].
  inversion_clear Hd as [|? ? Hb _]. by apply no_start_cons, digit_no_space.
Qed.

Definition timestamp_caps (y m d : Z) (x : option clock) : captures :=
  match x with
  | Some x => clock_caps x (date_caps y m d)
  | None => date_caps y m d
  end.

Lemma timestamp_search y m d space x :
  Forall (fun b => re_space b = true) space -> (forall x', x = Some x' -> clock_ok x') ->
  exists c0, search re_timestamp (timestamp_text y m d space x) =
    Some ((0%nat, c0) :: timestamp_caps y m d x).
Proof.
  intros Hs Hx. exists (take (length (timestamp_text y m d space x) - 0) (timestamp_text y m d space x)).
  apply search_first. cbn [rmatch].
  match goal with |- rmatch _ _ _ ?k = _ => set (k0 := k) end.
  assert (total k0) as Hk by (intros ? ?; by eexists).
  change (Some _) with (k0 [] (timestamp_caps y m d x)). clearbody k0.
  unfold timestamp_text, re_timestamp. rewrite rmatch_seq, date_match.
  rewrite rmatch_seq. etransitivity;
    [apply many_run; [done|apply clock_no_space|apply opt_total, Hk]|].
  destruct x as [x|]; [|by apply opt_skip, nowhere_seq, nowhere_group, nowhere_seq, nowhere_class].
  apply opt_take; [done|]. by apply clock_match; [apply Hx|].
Qed.

(** ** Reading the groups *)

Section read.
Context {vec : Type -> Type} `{PR : Pre vec} {S : Type}.

Lemma field_elems {A} (v : vec (option bytes)) l i use (rest : A -> prog S A) a w :
  elems v = l ->
  field v i use rest a w =
    match l !! i with Some s => (use s a ≫= rest) w | None => Ret a w end.
Proof.
  intros <-. unfold field. rewrite size_elems. destruct (decide _) as [Hi|Hi].
  - by rewrite lookup_ge_None_2.
  - destruct (lookup_lt_is_Some_2 (elems v) i) as [s Hs]; [lia|].
    rewrite get_elems by lia. by rewrite Hs.
Qed.

Lemma fixed_field_some {A} n w (set : Z -> A -> A) a :
  0 <= n < 10 ^ Z.of_nat w -> (w <= 9)%nat ->
  fixed_field (S := S) (Some (fixed w n)) w set a = mret (set n a).
Proof. intros Hn Hw. unfold fixed_field. by rewrite parse_fixed. Qed.

Lemma fixed_field_none {A} w (set : Z -> A -> A) a :
  fixed_field (S := S) None w set a = mret a.
Proof. done. Qed.

Lemma bind_mret {A B} (a : A) (k : A -> prog S B) w : (mret a ≫= k) w = k a w.
Proof. done. Qed.

Lemma read_offset_elems (v : vec (option bytes)) l ts (w : S) :
  elems v = l ->
  read_offset v ts w =
    match l !! 8%nat, l !! 9%nat with
    | Some (Some sign), Some (Some s) =>
      match parse_fixed_width_int s 2, head (sign ++ [NUL]) with
      | Some n, Some c => Ret (set_utc_offset (if decide (c = "-"%byte) then - n else n) ts) w
      | _, _ => Abort
      end
    | _, Some _ | _, None => Ret ts w
    end.
Proof.
  intros <-. unfold read_offset. rewrite size_elems. destruct (decide _) as [Hi|Hi].
  - rewrite (lookup_ge_None_2 _ 9) by lia. by destruct (elems v !! 8%nat) as [[|]|].
  - destruct (lookup_lt_is_Some_2 (elems v) 8) as [s8 H8]; [lia|].
    destruct (lookup_lt_is_Some_2 (elems v) 9) as [s9 H9]; [lia|].
    rewrite !get_elems by lia. rewrite H8, H9. unfold mbind, prog_bind. simpl.
    destruct s8 as [sign|], s9 as [s|]; try done.
    by destruct (parse_fixed_width_int s 2), (head (sign ++ [NUL])).
Qed.
End read.

(** The groups of concrete captures, with the texts left as they are. *)
Ltac read_groups Hv :=
  match type of Hv with
  | _ = groups ?c =>
    let l := eval cbv -[fixed] in (groups c) in
    change (groups c) with l in Hv
  end.

Ltac read_fields Hv :=
  repeat first
    [ rewrite (field_elems _ _ _ _ _ _ _ Hv); cbn [lookup list_lookup]
    | rewrite fixed_field_some by (simpl; lia)
    | rewrite fixed_field_none
    | rewrite bind_mret ].

(** [parse_timestamp] reads every timestamp that PostgreSQL prints, a date
    with or without a time of day, seconds, a fraction and an offset: each field
    is the number printed, the offset with its sign.  The field of microseconds
    is the number the digits of the fraction spell, however many there are. *)
Lemma parse_timestamp_text {vec S} `{PR : Pre vec} (w : S) y m d space x :
  0 <= y < 10000 -> 0 <= m < 100 -> 0 <= d < 100 ->
  Forall (fun b => re_space b = true) space -> (forall x', x = Some x' -> clock_ok x') ->
  parse_timestamp (timestamp_text y m d space x) zero_timestamp w =
    Ret (clock_read x (Timestamp 0 y m d 0 0 0 0 0)) w.
Proof.
  intros Hy Hm Hd Hs Hx. destruct (timestamp_search y m d space x Hs Hx) as [c0 Hc].
  pose proof (prematch_law (timestamp_text y m d space x) re_timestamp) as Hv.
  unfold parse_timestamp, perl_match in *. rewrite Hc in Hv.
  destruct (prematch _ _) as [v|]; [|discriminate Hv]. injection Hv as Hv.
  destruct x as [[h mi s f o]|]; [|read_groups Hv; by read_fields Hv].
  destruct (Hx _ eq_refl) as (Hh & Hmi & Hs' & _ & Ho). cbn [c_hour c_min c_sec c_offset] in *.
  destruct s as [s|]; [specialize (Hs' s eq_refl)|];
  (destruct o as [[west o]|]; [specialize (Ho west o eq_refl)|]); destruct f as [f|];
    read_groups Hv; read_fields Hv; rewrite ?(read_offset_elems _ _ _ _ Hv);
    cbn [lookup list_lookup]; rewrite ?parse_fixed by (simpl; lia);
    unfold scanned_field, clock_read, spelled; cbn;
    try destruct west; try destruct (scan_int f) as [[? ?]|]; done.
Qed.

(** ** Intervals as PostgreSQL prints them *)

(** A number of units, in digits, and whether the unit has its plural s. *)
Definition amount_text (unit : bytes) (a : bytes * bool) : bytes :=
  a.1 ++ " "%byte :: unit ++ (if a.2 then ["s"%byte] else []).

(** One part and what follows it. *)
Definition part (unit : bytes) (a : option (bytes * bool)) (t : bytes) : bytes :=
  match a with
  | None => t
  | Some a => amount_text unit a ++ match t with [] => [] | _ => " "%byte :: t end
  end.

Definition hms_text (x : Z * Z * option Z) : bytes :=
  fixed 2 x.1.1 ++ ":"%byte :: fixed 2 x.1.2 ++ opt_text sec_text x.2.

Definition interval_text (y m d : option (bytes * bool)) (x : option (Z * Z * option Z)) : bytes :=
  part (lit "year") y (part (lit "mon") m (part (lit "day") d (opt_text hms_text x))).

Definition amount_ok (a : option (bytes * bool)) : Prop := forall l p, a = Some (l, p) -> is_digits l.
Definition hms_ok (x : option (Z * Z * option Z)) : Prop :=
  forall h m s, x = Some (h, m, s) ->
    0 <= h < 100 /\ 0 <= m < 100 /\ forall n, s = Some n -> 0 <= n < 100.

Definition spelled_units (a : option (bytes * bool)) : Z := from_option (spelled ∘ fst) 0 a.

(** What the code makes of an interval. *)
Definition interval_read (y m d : option (bytes * bool)) (x : option (Z * Z * option Z))
  : dbi_interval :=
  Interval 0 (from_option (fun x => default 0 x.2) 0 x) (from_option (fun x => x.1.2) 0 x)
    (from_option (fun x => x.1.1) 0 x) (spelled_units d) (spelled_units m) (spelled_units y).

Definition re_unit (u : bytes) : regex := Seq Space (Seq (Word u) (Opt (Chr "s"))).

(** The text [t] does not start with a number of [u]. *)
Definition unlike (u t : bytes) : Prop :=
  exists l x, t = l ++ x /\ Forall (fun b => isdigit b = true) l /\ no_start isdigit x /\
    nowhere (re_unit u) x.

Lemma unlike_skip g u t c k : unlike u t -> rmatch (amount g u) t c k = k t c.
Proof.
  intros (l & x & -> & Hl & Hx & Hn). apply opt_skip. intros c' k'. rewrite rmatch_seq.
  apply digits1_none; [done|done|]. intros l1 l2 c2 ->. destruct l2 as [|b l2]; [apply Hn|].
  apply nowhere_seq, nowhere_class. intros b' [= <-]. apply digit_no_space.
  apply Forall_app in Hl as [_ Hl]. by inversion Hl.
Qed.

Lemma exactly_word u : u <> [] -> exactly (Word u) u.
Proof.
  induction u as [|c u IH]; [done|]. intros _. destruct u as [|d u]; [apply exactly_chr|].
  apply (exactly_seq _ _ [c] (d :: u)); [apply exactly_chr|by apply IH].
Qed.

Lemma amount_match g u a t c k :
  u <> [] -> is_digits a.1 -> no_start (is_char "s") t -> no_start isdigit t -> total k ->
  rmatch (amount g u) (amount_text u a ++ t) c k = k t ((g, a.1) :: c).
Proof.
  intros Hu [Hl Hd] Ht Ht' Hk. apply opt_take; [done|]. unfold amount_text.
  rewrite <- app_assoc. rewrite rmatch_seq.
  assert (forall c', rmatch (re_unit u)
    ((" "%byte :: u ++ (if a.2 then ["s"%byte] else [])) ++ t) c' k = k t c') as Hr.
  { intros c'. unfold re_unit. rewrite rmatch_seq.
    change ((" "%byte :: u ++ ?x) ++ t) with ([" "%byte] ++ ((u ++ x) ++ t)).
    etransitivity; [by apply exactly_class|]. rewrite rmatch_seq, <- app_assoc.
    etransitivity; [by apply exactly_word|]. destruct a.2.
    - apply opt_take; [done|]. apply exactly_chr.
    - by apply opt_skip, nowhere_class. }
  etransitivity; [apply digits1_group; [done|done|by apply no_start_cons|]|apply Hr].
  destruct (Hk t ((g, a.1) :: c)) as [x Hx]. exists x. by rewrite <- Hx.
Qed.

(** Patterns that always match something. *)
Definition optional (r : regex) : Prop := forall k, total k -> total (fun s c => rmatch r s c k).

Lemma optional_opt r : optional (Opt r).
Proof. intros k. apply opt_total. Qed.
Lemma optional_many p : optional (Many p).
Proof. intros k Hk s c. by apply many_total. Qed.
Lemma optional_seq r1 r2 : optional r1 -> optional r2 -> optional (Seq r1 r2).
Proof. intros H1 H2 k Hk s c. by apply (H1 _ (H2 k Hk)). Qed.

Create HintDb optional.
Lemma optional_amount g u : optional (amount g u).
Proof. apply optional_opt. Qed.
#[local] Hint Resolve optional_amount optional_opt optional_many optional_seq : optional.

Lemma part_match g u a t c r k :
  u <> [] -> amount_ok a -> unlike u t -> no_start re_space t -> optional r -> total k ->
  rmatch (Seq (amount g u) (Seq (Many re_space) r)) (part u a t) c k =
  rmatch r t (opt_insert g fst a c) k.
Proof.
  intros Hu Ha Hun Hs Hr Hk. specialize (Hr k Hk). rewrite rmatch_seq.
  assert (forall c', rmatch (Many re_space) t c' (fun s c => rmatch r s c k) = rmatch r t c' k) as Hm.
  { intros c'. apply (many_run re_space [] t); [constructor|done|apply Hr]. }
  destruct a as [[l p]|]; cbn [part opt_insert].
  - etransitivity; [apply amount_match|].
    + done.
    + by apply (Ha l p).
    + destruct t; [apply no_start_nil|by apply no_start_cons].
    + destruct t; [apply no_start_nil|by apply no_start_cons].
    + intros s c'. by apply optional_many.
    + rewrite rmatch_seq. destruct t as [|b t]; [apply Hm|].
      apply (many_run re_space [" "%byte] (b :: t)); [by repeat constructor|done|apply Hr].
  - etransitivity; [by apply unlike_skip|]. rewrite rmatch_seq. apply Hm.
Qed.

Lemma unlike_nil u : unlike u [].
Proof.
  exists [], []. split; [done|]. split; [constructor|]. split; [apply no_start_nil|].
  by apply nowhere_seq, nowhere_class.
Qed.

Lemma unlike_hms u x : unlike u (opt_text hms_text x).
Proof.
  destruct x as [x|]; [|apply unlike_nil]. eexists _, _. split; [done|].
  split; [apply fixed_digits|]. split; [by apply no_start_cons|].
  apply nowhere_seq, nowhere_class. by intros b [= <-].
Qed.

Lemma unlike_part u u' a t :
  amount_ok a -> no_start (fun b => bool_decide (head u = Some b)) u' -> u <> [] -> u' <> [] ->
  unlike u t -> unlike u (part u' a t).
Proof.
  intros Ha Hu Hne Hne' Ht. destruct a as [[l p]|]; [|done]. unfold part, amount_text.
  rewrite <- app_assoc. eexists _, _. split; [done|]. split; [by apply (Ha l p)|].
  split; [by apply no_start_cons|]. intros c k. unfold re_unit. rewrite rmatch_seq.
  cbn [app]. etransitivity; [apply (exactly_class re_space " "%byte eq_refl (_ ++ _))|].
  rewrite rmatch_seq. destruct u as [|x u], u' as [|y u']; try done.
  specialize (Hu y eq_refl). apply bool_decide_eq_false in Hu.
  assert (nowhere (Word (x :: u)) (((y :: u') ++ (if (l, p).2 then ["s"%byte] else [])) ++
    match t with [] => [] | _ :: _ => " "%byte :: t end)) as Hn; [|apply Hn].
  assert (nowhere (Chr x) (((y :: u') ++ (if (l, p).2 then ["s"%byte] else [])) ++
    match t with [] => [] | _ :: _ => " "%byte :: t end)) as Hc.
  { apply nowhere_class. intros b [= <-]. apply bool_decide_eq_false. simpl in Hu. congruence. }
  destruct u; [exact Hc|by apply nowhere_seq].
Qed.

Lemma no_space_digits l t :
  Forall (fun b => isdigit b = true) l -> no_start re_space t -> no_start re_space (l ++ t).
Proof.
  intros Hl Ht. destruct Hl as [|b l Hb _]; [done|]. by apply no_start_cons, digit_no_space.
Qed.

Lemma no_space_part u a t :
  amount_ok a -> no_start re_space t -> no_start re_space (part u a t).
Proof.
  intros Ha Ht. destruct a as [[l p]|]; [|done]. destruct (Ha l p eq_refl) as [Hl Hd].
  unfold part, amount_text. rewrite <- app_assoc. destruct l as [|b l]; [done|].
  inversion_clear Hd. by apply no_start_cons, digit_no_space.
Qed.

Lemma no_space_hms x : no_start re_space (opt_text hms_text x).
Proof.
  destruct x as [x|]; [|apply no_start_nil]. apply no_space_digits; [apply fixed_digits|].
  by apply no_start_cons.
Qed.

Definition hms_caps (x : option (Z * Z * option Z)) (c : captures) : captures :=
  match x with
  | Some (h, m, s) => opt_insert 6 (fixed 2) s ((5%nat, fixed 2 m) :: (4%nat, fixed 2 h) :: c)
  | None => c
  end.

Lemma hms_match x c k :
  total k -> rmatch (Opt re_hms) (opt_text hms_text x) c k = k [] (hms_caps x c).
Proof.
  intros Hk. destruct x as [[[h m] s]|];
    [|by apply opt_skip, nowhere_seq, nowhere_group, nowhere_seq, nowhere_class].
  apply opt_take; [done|]. unfold re_hms, opt_text at 1, hms_text. cbn [fst snd].
  rewrite rmatch_seq. etransitivity; [apply two_digits_group|].
  change (":"%byte :: fixed 2 m ++ ?t) with ([":"%byte] ++ (fixed 2 m ++ t)).
  rewrite rmatch_seq. etransitivity; [apply exactly_chr|].
  rewrite rmatch_seq. etransitivity; [apply two_digits_group|].
  rewrite <- (app_nil_r (opt_text sec_text s)). by apply sec_match; [apply no_start_nil|].
Qed.

Definition interval_caps (y m d : option (bytes * bool)) (x : option (Z * Z * option Z)) : captures :=
  hms_caps x (opt_insert 3 fst d (opt_insert 2 fst m (opt_insert 1 fst y []))).

Lemma interval_search y m d x :
  amount_ok y -> amount_ok m -> amount_ok d ->
  exists c0, search re_interval (interval_text y m d x) = Some ((0%nat, c0) :: interval_caps y m d x).
Proof.
  intros Hy Hm Hd. exists (take (length (interval_text y m d x) - 0) (interval_text y m d x)).
  apply search_first. cbn [rmatch].
  match goal with |- rmatch _ _ _ ?k = _ => set (k0 := k) end.
  assert (total k0) as Hk by (intros ? ?; by eexists).
  change (Some _) with (k0 [] (interval_caps y m d x)). clearbody k0.
  unfold interval_text, re_interval.
  pose proof (unlike_hms (lit "day") x). pose proof (no_space_hms x).
  assert (unlike (lit "mon") (part (lit "day") d (opt_text hms_text x))).
  { apply unlike_part; [done|by apply no_start_cons|done|done|apply unlike_hms]. }
  assert (unlike (lit "year") (part (lit "mon") m (part (lit "day") d (opt_text hms_text x)))).
  { apply unlike_part; [done|by apply no_start_cons|done|done|].
    apply unlike_part; [done|by apply no_start_cons|done|done|apply unlike_hms]. }
  rewrite !part_match; (try done); auto 10 using no_space_part with optional. by apply hms_match.
Qed.

(** [parse_interval] reads every combination of years, months, days and time
    of day that PostgreSQL prints, with the units in the singular or plural. *)
Lemma parse_interval_text {vec S} `{PR : Pre vec} (w : S) y m d x :
  amount_ok y -> amount_ok m -> amount_ok d -> hms_ok x ->
  parse_interval (interval_text y m d x) zero_interval w = Ret (interval_read y m d x) w.
Proof.
  intros Hy Hm Hd Hx. destruct (interval_search y m d x Hy Hm Hd) as [c0 Hc].
  pose proof (prematch_law (interval_text y m d x) re_interval) as Hv.
  unfold parse_interval, perl_match in *. rewrite Hc in Hv.
  destruct (prematch _ _) as [v|]; [|discriminate Hv]. injection Hv as Hv. 
  clear Hc Hy Hm Hd.
  destruct x as [[[h mi] [s|]]|];
    [destruct (Hx _ _ _ eq_refl) as (Hh & Hmi & Hs); specialize (Hs s eq_refl)
    |destruct (Hx _ _ _ eq_refl) as (Hh & Hmi & _)|];
  destruct y as [[y py]|], m as [[m pm]|], d as [[d pd]|]; read_groups Hv; read_fields Hv;
    unfold scanned_field, interval_read, spelled_units, compose, spelled; cbn;
    repeat (match goal with |- context [scan_int ?l] => destruct (scan_int l) as [[? ?]|] end); done.
Qed.

(** ** Texts that are not understood *)

Lemma nowhere_date s : ("-"%byte ∉ s) -> nowhere re_date s.
Proof.
  intros Hs c k. unfold re_date, Digit, Chr, two_digits.
  destruct s as [|b1 [|b2 [|b3 [|b4 [|b5 s]]]]]; cbn [rmatch];
    repeat (match goal with |- context [isdigit ?b] => destruct (isdigit b) end); try done.
  rewrite !not_elem_of_cons in Hs. unfold is_char. rewrite bool_decide_false; [done|]. naive_solver.
Qed.

Lemma search_none r s : (forall a b, s = a ++ b -> nowhere r b) -> search r s = None.
Proof.
  intros H. induction s as [|b s IH]; cbn [search].
  - by rewrite (nowhere_group _ _ _ (H [] [] eq_refl)).
  - rewrite (nowhere_group _ _ _ (H [] (b :: s) eq_refl)). apply IH.
    intros a t ->. by apply (H (b :: a)).
Qed.

(** A text without a date is not a timestamp for [parse_timestamp]: it ends in
    an exception, also for a time of day. *)
Theorem parse_timestamp_needs_date {vec S} `{PR : Pre vec} (w : S) s t :
  ("-"%byte ∉ s) ->
  parse_timestamp s t w = Die (lit "dbi: parse_timestamp: invalid timestamp: " ++ s) w.
Proof.
  intros Hs. pose proof (prematch_law s re_timestamp) as Hv. unfold parse_timestamp, perl_match in *.
  rewrite search_none in Hv.
  - by destruct (prematch _ _).
  - intros a b ->. apply nowhere_seq, nowhere_date. rewrite not_elem_of_app in Hs. tauto.
Qed.

Lemma interval_search_none b t :
  isdigit b = false -> re_space b = false -> search re_interval (b :: t) = Some [(0%nat, [])].
Proof.
  intros Hd Hs. apply search_first. cbn [rmatch].
  match goal with |- rmatch _ _ _ ?k = _ => set (k0 := k) end.
  assert (total k0) as Hk by (intros ? ?; by eexists).
  assert (k0 (b :: t) [] = Some [(0%nat, [])]) as <- by (unfold k0; by rewrite Nat.sub_diag).
  clearbody k0. unfold re_interval.
  assert (forall u, unlike u (b :: t)) as Hu.
  { intros u. exists [], (b :: t). split; [done|]. split; [constructor|].
    split; [by apply no_start_cons|]. apply nowhere_seq, nowhere_class. by apply no_start_cons. }
  change (b :: t) with (part (lit "year") None (part (lit "mon") None (part (lit "day") None (b :: t)))) at 1.
  assert (no_start re_space (b :: t)) by (by apply no_start_cons).
  rewrite !part_match; (try done); auto 10 with optional.
  apply opt_skip, nowhere_seq, nowhere_group, nowhere_seq, nowhere_class. by apply no_start_cons.
Qed.

(** [parse_interval] reports no error for a text that it does not
    understand: one that starts with a sign, as a negative interval does, leaves
    every field as it was. *)
Theorem parse_interval_ignores {vec S} `{PR : Pre vec} (w : S) b t inv :
  isdigit b = false -> re_space b = false -> parse_interval (b :: t) inv w = Ret inv w.
Proof.
  intros Hd Hs. pose proof (prematch_law (b :: t) re_interval) as Hv.
  unfold parse_interval, perl_match in *. rewrite interval_search_none in Hv by done.
  destruct (prematch _ _) as [v|]; [|discriminate Hv]. injection Hv as Hv. by read_fields Hv.
Qed.

(** ** No read outside the groups *)

Section caps.
(** What the groups of a pattern hold. *)
Context (width_ok : nat -> bytes -> Prop).

Definition caps_ok (c : captures) : Prop := forall g l, (g, l) ∈ c -> width_ok g l.

(** Matching [r] keeps the captures well-formed. *)
Definition keeps_caps (r : regex) : Prop := forall s c k x,
  caps_ok c -> (forall s' c', caps_ok c' -> k s' c' = Some x -> caps_ok x) ->
  rmatch r s c k = Some x -> caps_ok x.

(** [r] has no groups and matches [n] characters. *)
Definition takes (r : regex) (n : nat) : Prop := forall s c k x,
  rmatch r s c k = Some x -> exists l t, s = l ++ t /\ length l = n /\ k t c = Some x.

Lemma takes_class p : takes (Class p) 1.
Proof.
  intros [|b s] c k x; simpl; [done|]. destruct (p b); [|done]. intros H. by exists [b], s.
Qed.

Lemma takes_seq r1 r2 n1 n2 : takes r1 n1 -> takes r2 n2 -> takes (Seq r1 r2) (n1 + n2).
Proof.
  intros H1 H2 s c k x H. apply H1 in H as (l1 & t1 & -> & <- & H).
  apply H2 in H as (l2 & t2 & -> & <- & H). exists (l1 ++ l2), t2.
  by rewrite length_app, app_assoc.
Qed.

Lemma keeps_class p : keeps_caps (Class p).
Proof. intros s c k x Hc Hk H. apply takes_class in H as (l & t & _ & _ & H). eauto. Qed.

Lemma keeps_many p : keeps_caps (Many p).
Proof.
  intros s c k x Hc Hk. cbn [rmatch]. induction s as [|b s IH]; simpl; [by apply Hk|].
  destruct (p b); [|by apply Hk]. destruct (many p (fun s => k s c) s); [|by apply Hk].
  intros [= ->]. by apply IH.
Qed.

Lemma keeps_seq r1 r2 : keeps_caps r1 -> keeps_caps r2 -> keeps_caps (Seq r1 r2).
Proof.
  intros H1 H2 s c k x Hc Hk H. eapply H1; [exact Hc| |exact H].
  intros s' c' Hc' H'. exact (H2 _ _ _ _ Hc' Hk H').
Qed.

Lemma keeps_opt r : keeps_caps r -> keeps_caps (Opt r).
Proof.
  intros Hr s c k x Hc Hk. cbn [rmatch]. destruct (rmatch r s c k) eqn:E.
  - intros [= ->]. exact (Hr _ _ _ _ Hc Hk E).
  - by apply Hk.
Qed.

Lemma caps_cons g l c : width_ok g l -> caps_ok c -> caps_ok ((g, l) :: c).
Proof. intros Hl Hc g' l' [[= -> ->]|H]%elem_of_cons; auto. Qed.

Lemma keeps_group g n r :
  takes r n -> (forall l, length l = n -> width_ok g l) -> keeps_caps (Group g r).
Proof.
  intros Hr Hg s c k x Hc Hk H. cbn [rmatch] in H. apply Hr in H as (l & t & -> & Hl & H).
  eapply Hk; [|exact H]. apply caps_cons; [|done]. apply Hg.
  by rewrite length_app, Nat.add_sub, take_app_length.
Qed.

(** Groups of any content. *)
Lemma keeps_free_group g r :
  (forall l, width_ok g l) -> keeps_caps r -> keeps_caps (Group g r).
Proof.
  intros Hg Hr s c k x Hc Hk H. cbn [rmatch] in H. eapply Hr; [exact Hc| |exact H].
  intros s' c' Hc' H'. eapply Hk; [|exact H']. by apply caps_cons.
Qed.

Lemma keeps_two g :
  (forall l, length l = 2%nat -> width_ok g l) -> keeps_caps (two_digits g).
Proof. intros Hg. apply (keeps_group g 2); [apply (takes_seq _ _ 1 1); apply takes_class|done]. Qed.

Lemma keeps_digits1 g : (forall l, width_ok g l) -> keeps_caps (Group g Digits1).
Proof.
  intros Hg. apply keeps_free_group; [done|]. apply keeps_seq; [apply keeps_class|apply keeps_many].
Qed.

Lemma keeps_word u : keeps_caps (Word u).
Proof.
  induction u as [|b u IH]; [apply keeps_many|]. destruct u; [apply keeps_class|].
  apply keeps_seq; [apply keeps_class|done].
Qed.

Lemma search_caps r s c : keeps_caps r -> (forall l, width_ok 0 l) -> search r s = Some c -> caps_ok c.
Proof.
  intros Hr H0.
  assert (forall s x, rmatch (Group 0 r) s [] (fun _ c => Some c) = Some x -> caps_ok x) as Hone.
  { intros s' x. apply (keeps_free_group 0 r H0 Hr); [by intros g l ?%not_elem_of_nil|].
    intros s2 c2 Hc2 E. by injection E as <-. }
  induction s as [|b s IH]; cbn [search]; destruct (rmatch (Group 0 r) _ [] _) as [x|] eqn:E;
    try done; intros H; injection H as <-; by apply Hone in E.
Qed.
End caps.

Create HintDb caps.
#[local] Hint Resolve keeps_class keeps_many keeps_seq keeps_opt keeps_two keeps_word
  keeps_digits1 : caps.

Definition ts_width (g : nat) (l : bytes) : Prop :=
  match g with
  | 1%nat => length l = 4%nat
  | 2%nat | 3%nat | 4%nat | 5%nat | 6%nat | 9%nat => length l = 2%nat
  | _ => True
  end.

Definition inv_width (g : nat) (l : bytes) : Prop :=
  match g with 4%nat | 5%nat | 6%nat => length l = 2%nat | _ => True end.

Lemma keeps_timestamp : keeps_caps ts_width re_timestamp.
Proof.
  assert (keeps_caps ts_width (Group 1 (Seq Digit (Seq Digit (Seq Digit Digit))))) as H1.
  { apply (keeps_group _ 1 4); [|done]. apply (takes_seq _ _ 1 3); [apply takes_class|].
    apply (takes_seq _ _ 1 2); [apply takes_class|].
    apply (takes_seq _ _ 1 1); apply takes_class. }
  assert (keeps_caps ts_width (Group 8 (Class (fun b => is_char "+" b || is_char "-" b)))) as H8
    by (apply keeps_free_group; [done|]; auto with caps).
  assert (forall g, (forall l, length l = 2%nat -> ts_width g l) -> keeps_caps ts_width (two_digits g))
    as H2 by auto with caps.
  unfold re_timestamp, re_date, re_clock, re_sec, re_frac, re_offset, Chr.
  repeat first [apply keeps_seq|apply keeps_opt|done|apply H2; done|apply keeps_class
    |apply keeps_many|apply keeps_digits1; done].
Qed.

Lemma keeps_interval : keeps_caps inv_width re_interval.
Proof.
  unfold re_interval, amount, re_hms, re_sec, Chr, Space.
  repeat first [apply keeps_seq|apply keeps_opt|done|apply keeps_two; done|apply keeps_class
    |apply keeps_many|apply keeps_digits1; done|apply keeps_word].
Qed.

Lemma get_group_elem c g l : get_group c g = Some l -> (g, l) ∈ c.
Proof.
  induction c as [|[m l'] c IH]; simpl; [done|]. destruct (decide (g = m)) as [->|Hne].
  - intros [= ->]. by left.
  - intros H. right. auto.
Qed.

Lemma groups_lookup c i s : groups c !! i = Some s -> s = get_group c i.
Proof.
  unfold groups. rewrite list_lookup_fmap_Some. intros (n & -> & [Hn _]%lookup_seq). by rewrite Hn.
Qed.

Lemma fixed_width_some w str r : (w <= length str)%nat -> is_Some (fixed_width_loop w str r).
Proof.
  revert str r. induction w as [|w IH]; intros [|c str] r; simpl; intros H; try (lia || by eexists).
  apply IH. lia.
Qed.

Section total.
Context {vec : Type -> Type} `{PR : Pre vec} {S : Type}.

Definition returns_in (w : S) {A} (m : prog S A) : Prop := exists a, m w = Ret a w.

Lemma field_returns {A} (v : vec (option bytes)) c i use (rest : A -> prog S A) a w :
  elems v = groups c ->
  (forall s a, s = get_group c i -> returns_in w (use s a)) -> (forall a, returns_in w (rest a)) ->
  returns_in w (field v i use rest a).
Proof.
  intros Hv Hu Hr. unfold returns_in. rewrite (field_elems _ _ _ _ _ _ _ Hv).
  destruct (groups c !! i) as [s|] eqn:E; [|by eexists]. apply groups_lookup in E.
  destruct (Hu s a E) as [a' Ha]. unfold mbind, prog_bind. rewrite Ha. apply Hr.
Qed.

Lemma fixed_returns {A} s n (set : Z -> A -> A) a w :
  (forall l, s = Some l -> length l = n) -> returns_in w (fixed_field s n set a).
Proof.
  intros Hs. destruct s as [l|]; [|by eexists]. simpl.
  destruct (fixed_width_some n (l ++ [NUL]) 0) as [r Hr].
  { rewrite length_app, (Hs l eq_refl). lia. }
  unfold parse_fixed_width_int. rewrite Hr. by eexists.
Qed.

Lemma offset_returns (v : vec (option bytes)) c t w :
  elems v = groups c -> (forall l, get_group c 9 = Some l -> length l = 2%nat) ->
  returns_in w (read_offset v t).
Proof.
  intros Hv H9. unfold returns_in. rewrite (read_offset_elems _ _ _ _ Hv).
  destruct (groups c !! 8%nat) as [[sign|]|], (groups c !! 9%nat) as [[l|]|] eqn:E9;
    try (by eexists).
  apply groups_lookup in E9. destruct (fixed_width_some 2 (l ++ [NUL]) 0) as [r Hr].
  { rewrite length_app, (H9 l) by done. lia. }
  unfold parse_fixed_width_int. rewrite Hr. destruct sign; by eexists.
Qed.

Lemma scanned_returns {A} s (set : Z -> A -> A) a w :
  returns_in w (mret (scanned_field s set a)).
Proof. by eexists. Qed.

Lemma caps_length W c g l : caps_ok W c -> get_group c g = Some l -> W g l.
Proof. intros Hc H%get_group_elem. by apply Hc. Qed.

(** The groups of a match, field by field. *)
Ltac fields_return v c Hok :=
  repeat (apply (field_returns v c);
    [done
    |intros ? ? ->;
     first [apply scanned_returns
           |apply fixed_returns; intros ? ?; exact (caps_length _ c _ _ Hok ltac:(eassumption))]
    |intros ?]).

(** For any text a server can send, [parse_timestamp] returns or dies with the
    message for an invalid timestamp; it reads nothing after the end of the text. *)
Lemma parse_timestamp_total (s : bytes) t (w : S) :
  returns_in w (parse_timestamp s t) \/
  parse_timestamp s t w = Die (lit "dbi: parse_timestamp: invalid timestamp: " ++ s) w.
Proof.
  pose proof (prematch_law s re_timestamp) as Hv. unfold parse_timestamp, perl_match in *.
  destruct (prematch s re_timestamp) as [v|]; [left|by right].
  destruct (search re_timestamp s) as [c|] eqn:Hc; [|done]. injection Hv as Hv.
  pose proof (search_caps _ _ _ _ keeps_timestamp ltac:(done) Hc) as Hok.
  fields_return v c Hok. apply (offset_returns v c); [done|].
  intros l Hl. exact (caps_length _ _ _ _ Hok Hl).
Qed.

(** [parse_interval] always returns or dies with its message. *)
Lemma parse_interval_total (s : bytes) t (w : S) :
  returns_in w (parse_interval s t) \/
  parse_interval s t w = Die (lit "dbi: parse_interval: invalid interval: " ++ s) w.
Proof.
  pose proof (prematch_law s re_interval) as Hv. unfold parse_interval, perl_match in *.
  destruct (prematch s re_interval) as [v|]; [left|by right].
  destruct (search re_interval s) as [c|] eqn:Hc; [|done]. injection Hv as Hv.
  pose proof (search_caps _ _ _ _ keeps_interval ltac:(done) Hc) as Hok.
  fields_return v c Hok. by eexists.
Qed.
End total.

(** ** Examples *)

Lemma parse_timestamp_text_witness :
  parse_timestamp (vec := list) (lit "2002-11-05 12:34:56.5-03") zero_timestamp tt =
    Ret (Timestamp 0 2002 11 5 12 34 56 5 (-3)) tt.
Proof.
  apply (parse_timestamp_text tt 2002 11 5 (lit " ")
    (Some (Clock 12 34 (Some 56) (Some (lit "5")) (Some (true, 3))))); try lia.
  - by repeat constructor.
  - intros x [= <-]. split_and!; simpl; try lia.
    + by intros s [= <-].
    + intros f [= <-]. split; [done|by repeat constructor].
    + by intros b o [= <- <-].
Defined.

Lemma parse_interval_text_witness :
  parse_interval (vec := list) (lit "1 year 2 mons 04:05:06") zero_interval tt =
    Ret (Interval 0 6 5 4 0 2 1) tt.
Proof.
  apply (parse_interval_text tt (Some (lit "1", false)) (Some (lit "2", true)) None
    (Some (4, 5, Some 6))).
  - intros l p [= <- <-]. split; [done|by repeat constructor].
  - intros l p [= <- <-]. split; [done|by repeat constructor].
  - by intros l p.
  - intros h m s [= <- <- <-]. split_and!; try lia. by intros n [= <-].
Defined.

Lemma parse_timestamp_needs_date_witness :
  parse_timestamp (vec := list) (lit "12:30:00") zero_timestamp tt =
    Die (lit "dbi: parse_timestamp: invalid timestamp: 12:30:00") tt.
Proof.
  apply (parse_timestamp_needs_date tt (lit "12:30:00")). by apply (bool_decide_unpack _).
Defined.

Lemma parse_interval_ignores_witness :
  parse_interval (vec := list) (lit "-1 days") zero_interval tt = Ret zero_interval tt.
Proof. apply (parse_interval_ignores tt "-"%byte (lit "1 days")); reflexivity. Defined.
