(* ===== verification/DbiQuery.v ===== *)
(** * Building of queries ([src/pthr_dbi.c])

    The placeholders of a statement, the types given for them and the
    substitution of arguments in [st_execute], with [PQescapeString] as the
    source has it for libraries that lack it. *)

From stdpp Require Import base list gmap.
From Stdlib Require Import Strings.Byte.
From S2P Require Import Prelude C2lib Prog Cstring CgiEscape Regex.

Definition DBI_MIN_TYPE : Z := 1001.
Definition DBI_INT : Z := 1001.
Definition DBI_STRING : Z := 1002.
Definition DBI_BOOL : Z := 1003.
Definition DBI_CHAR : Z := 1004.
Definition DBI_TIMESTAMP : Z := 1005.
Definition DBI_INTERVAL : Z := 1006.
Definition DBI_INT_OR_NULL : Z := 1007.
Definition DBI_MAX_TYPE : Z := 1007.

Fixpoint intersperse {A} (x : A) (l : list A) : list A :=
  match l with
  | [] => []
  | [a] => [a]
  | a :: l => a :: x :: intersperse x l
  end.

(** Functions of c2lib on vectors of strings. *)
Class PstringVec (vec : Type -> Type) `{VL : Vector vec} := {
  pitoa : Z -> bytes;
  pvitostr : vec Z -> vec bytes;
  pmap : vec bytes -> (bytes -> option bytes) -> option (vec bytes);
  pjoin : vec bytes -> bytes -> bytes;
  pitoa_law : forall n, pitoa n = print_int n;
  pvitostr_law : forall v, elems (pvitostr v) = print_int <$> elems v;
  pmap_law : forall v f, fmap (M := option) elems (pmap v f) = mapM f (elems v);
  pjoin_law : forall v sep, pjoin v sep = concat (intersperse sep (elems v))
}.

Definition re_qs : regex := Alt (Chr "?") (Chr "@").

Section query.
Context {vec : Type -> Type} `{VL : Vector vec} `{PR : !Pre vec} `{PV : !PstringVec vec}.
Context (junk : nat -> byte).

(** ** Escaping *)

(** The loop from [source] on; [to] is filled from [target] on. *)
Fixpoint escape_from (source : bytes) (target : nat) (to : bytes) : option (nat * bytes) :=
  match source with
  | [] => Some (target, to)
  | b :: source =>
    if decide (b = "\"%byte) then
      to ← poke target "\" to;
      to ← poke (S target) "\" to;
      escape_from source (S (S target)) to
    else if decide (b = "'"%byte) then
      to ← poke target "'" to;
      to ← poke (S target) "'" to;
      escape_from source (S (S target)) to
    else
      to ← poke target b to;
      escape_from source (S target) to
  end.

(** The length written, and the buffer. *)
Definition PQescapeString (to from : bytes) (length : nat) : option (nat * bytes) :=
  '(n, to) ← escape_from (take length from) 0 to;
  to ← poke n NUL to;
  Some (n, to).

Definition escape_string (s : bytes) : option bytes :=
  let len := to_int (Z.of_nat (length s)) in
  r ← pmalloc junk (to_int (to_int (len * 2) + 1));
  '(_, r) ← PQescapeString r s (Z.to_nat len);
  Some (cstr r).

(** ** Placeholders *)

(** The loop of [new_st_handle]: the types are the arguments after [flags];
    [None]: an assertion fails or there are too few arguments. *)
Fixpoint input_types (n i : nat) (query : vec bytes) (args : list Z) (intypes : vec Z)
  : option (vec Z) :=
  match n with
  | O => Some intypes
  | S n =>
    q ← vector_get query i;
    if decide (q = ["?"%byte] \/ q = ["@"%byte]) then
      match args with
      | type :: args =>
        if decide (DBI_MIN_TYPE <= type <= DBI_MAX_TYPE)
        then input_types n (S i) query args (vector_push_back intypes type)
        else None
      | [] => None
      end
    else input_types n (S i) query args intypes
  end.

(** ** Arguments *)

Inductive dbi_arg :=
  | AInt (n : Z)
  | AString (s : option bytes)
  | AInts (v : vec Z)
  | AStrings (v : vec bytes).

Definition quoted (s : bytes) : option bytes :=
  e ← escape_string s; Some ("'"%byte :: e ++ ["'"%byte]).

(** What replaces a [?]. *)
Definition scalar_text (type : Z) (a : dbi_arg) : option bytes :=
  if decide (type = DBI_INT) then
    match a with AInt n => Some (pitoa n) | _ => None end
  else if decide (type = DBI_INT_OR_NULL) then
    match a with
    | AInt r => Some (if decide (r <> 0) then pitoa r else lit "null")
    | _ => None
    end
  else if decide (type = DBI_STRING) then
    match a with
    | AString (Some str) => quoted str
    | AString None => Some (lit "null")
    | _ => None
    end
  else if decide (type = DBI_BOOL) then
    match a with
    | AInt n => Some (if decide (n <> 0) then lit "'t'" else lit "'f'")
    | _ => None
    end
  else if decide (type = DBI_CHAR) then
    match a with AInt n => quoted (cstr [to_byte n; NUL]) | _ => None end
  else None.

(** What replaces a [@]. *)
Definition list_text (type : Z) (a : dbi_arg) : option bytes :=
  if decide (type = DBI_INT) then
    match a with
    | AInts v => if decide (0 < vector_size v)%nat then Some (pjoin (pvitostr v) (lit ",")) else None
    | _ => None
    end
  else if decide (type = DBI_STRING) then
    match a with
    | AStrings v =>
      if decide (0 < vector_size v)%nat then
        match pmap v escape_string with
        | Some es => Some ("'"%byte :: pjoin es (lit "','") ++ ["'"%byte])
        | None => None
        end
      else None
    | _ => None
    end
  else None.

(** The loop of [st_execute]; [None]: an assertion fails, [abort], or an argument
    that is missing or has another type. *)
Fixpoint substitute (n i typeidx : nat) (pieces : vec bytes) (intypes : vec Z)
    (args : list dbi_arg) (query : bytes) : option bytes :=
  match n with
  | O => Some query
  | S n =>
    q ← vector_get pieces i;
    if decide (q = ["?"%byte]) then
      type ← vector_get intypes typeidx;
      match args with
      | a :: args =>
        x ← scalar_text type a;
        substitute n (S i) (S typeidx) pieces intypes args (query ++ x)
      | [] => None
      end
    else if decide (q = ["@"%byte]) then
      type ← vector_get intypes typeidx;
      match args with
      | a :: args =>
        x ← list_text type a;
        substitute n (S i) (S typeidx) pieces intypes args (query ++ x)
      | [] => None
      end
    else substitute n (S i) typeidx pieces intypes args (query ++ q)
  end.
End query.

(** ** Escaped strings *)

Definition sql_escape_char (b : byte) : bytes :=
  if decide (b = "\"%byte) then ["\"%byte; "\"%byte]
  else if decide (b = "'"%byte) then ["'"%byte; "'"%byte] else [b].

Definition sql_escaped (s : bytes) : bytes := s ≫= sql_escape_char.

Lemma sql_escaped_length s : (length (sql_escaped s) <= 2 * length s)%nat.
Proof.
  unfold sql_escaped. induction s as [|b s IH]; [done|]. cbn [mbind list_bind length].
  rewrite length_app. assert (length (sql_escape_char b) <= 2)%nat; [|lia].
  unfold sql_escape_char. repeat destruct (decide _); simpl; lia.
Qed.

Lemma sql_escaped_no_nul s : (NUL ∉ s) -> NUL ∉ sql_escaped s.
Proof.
  intros Hs (b & Hc & Hb)%list_elem_of_bind. unfold sql_escape_char in Hc.
  repeat destruct (decide _); rewrite ?elem_of_cons, ?elem_of_nil in Hc; naive_solver.
Qed.

Lemma escape_from_spec s j buf :
  (j + length (sql_escaped s) <= length buf)%nat ->
  escape_from s j buf = Some ((j + length (sql_escaped s))%nat, filled j (sql_escaped s) buf).
Proof.
  revert j buf. induction s as [|b s IH]; intros j buf Hl.
  { simpl in *. rewrite Nat.add_0_r, filled_nil by lia. done. }
  unfold sql_escaped in *. cbn [mbind list_bind] in *. rewrite length_app in Hl.
  rewrite length_app. cbn [escape_from]. unfold sql_escape_char in *.
  destruct (decide (b = "\"%byte)); [|destruct (decide (b = "'"%byte))]; cbn [length app] in *;
    (rewrite (poke_some j) by lia); cbn [mbind option_bind];
    try ((rewrite (poke_some (S j)) by (rewrite length_insert; lia)); cbn [mbind option_bind]);
    (rewrite IH by (rewrite ?length_insert; lia));
    (rewrite !filled_cons by (rewrite ?length_insert; lia)); do 2 f_equal; lia.
Qed.

Lemma escape_string_spec junk s :
  (NUL ∉ s) -> 2 * Z.of_nat (length s) + 1 < 2 ^ 31 -> escape_string junk s = Some (sql_escaped s).
Proof.
  intros Hs Hl. unfold escape_string. rewrite (wraps_small 32 (Z.of_nat (length s))) by lia.
  rewrite (wraps_small 32 (_ * 2)) by lia. rewrite wraps_small by lia.
  destruct (pmalloc_some junk (Z.of_nat (length s) * 2 + 1)) as (buf & -> & Hbuf); [lia|].
  cbn [mbind option_bind]. unfold PQescapeString. rewrite Nat2Z.id, take_ge by lia.
  pose proof (sql_escaped_length s). rewrite escape_from_spec by lia. cbn [mbind option_bind].
  pose proof (cstr_filled (sql_escaped s) buf ltac:(lia)) as H1. simpl.
  destruct (poke (length (sql_escaped s)) NUL (filled 0 (sql_escaped s) buf)) as [b|];
    [|discriminate H1]. simpl in *. rewrite H1. f_equal. by apply cstr_id, sql_escaped_no_nul.
Qed.

(** ** How the server reads a query

    The scanner of PostgreSQL is not part of the sources: it is a parameter, an
    automaton that reads the query byte by byte. What is relied on is in the laws of
    the class [SqlLexer], from the chapter on lexical structure of PostgreSQL's
    manual: string constants in single quotes, in which a quote is written twice and a
    backslash starts an escape (ordinary constants are read so by the servers of the
    library's time, and by later ones with [standard_conforming_strings] off), numbers
    and key words. What it does in all other states, such as comments, quoted
    identifiers and dollar quotes, is arbitrary. *)

(** Tokens: string constants with their values, words and numbers, special
    characters, and others. *)
Inductive token {X : Type} :=
  | TLit (s : bytes)
  | TWord (w : bytes)
  | TSym (b : byte)
  | TOther (x : X).
#[global] Arguments token : clear implicits.

(** [Rest]: between two tokens; [Lit]: in a string constant whose value up to here is
    [acc]; [LitQuote]: after a quote in it, [LitSpace]: after white space that follows
    it, since two constants with a new line between them are one. *)
Inductive lex_state {O : Type} :=
  | Rest
  | Word (w : bytes)
  | Minus
  | Lit (acc : bytes)
  | LitEsc (acc : bytes)
  | LitQuote (acc : bytes)
  | LitSpace (acc : bytes)
  | Other (o : O).
#[global] Arguments lex_state : clear implicits.

Definition sql_space (b : byte) : bool := bool_decide (b ∈ [" "%byte; "009"%byte; LF; CR; "012"%byte]).
Definition sql_delimiter (b : byte) : bool := bool_decide (b ∈ lit ",();").
Definition sql_digit (b : byte) : bool := bool_decide (b ∈ lit "0123456789").
Definition sql_letter (b : byte) : bool := bool_decide (b ∈ lit "abcdefghijklmnopqrstuvwxyz").

(** Characters that may continue a constant that seems to have ended, or start a
    comment. *)
Definition sql_joins (b : byte) : bool := bool_decide (b ∈ lit "'-/").

Class SqlLexer (O X : Type) := {
  lex_step : lex_state O -> byte -> lex_state O * list (token X);
  lex_finish : lex_state O -> list (token X);
  rest_space b : sql_space b = true -> lex_step Rest b = (Rest, []);
  rest_comma : lex_step Rest "," = (Rest, [TSym ","]);
  rest_minus : lex_step Rest "-" = (Minus, []);
  rest_quote : lex_step Rest "'" = (Lit [], []);
  rest_digit b : sql_digit b = true -> lex_step Rest b = (Word [b], []);
  rest_letter b : sql_letter b = true -> lex_step Rest b = (Word [b], []);
  minus_digit b : sql_digit b = true -> lex_step Minus b = (Word [b], [TSym "-"]);
  word_digit w b : forallb sql_digit w = true -> sql_digit b = true ->
    lex_step (Word w) b = (Word (w ++ [b]), []);
  word_letter w b : forallb sql_letter w = true -> sql_letter b = true ->
    lex_step (Word w) b = (Word (w ++ [b]), []);
  word_ends w b : sql_space b = true \/ sql_delimiter b = true ->
    lex_step (Word w) b = ((lex_step Rest b).1, TWord w :: (lex_step Rest b).2);
  lit_char acc b : b <> "'"%byte -> b <> "\"%byte -> lex_step (Lit acc) b = (Lit (acc ++ [b]), []);
  lit_quote acc : lex_step (Lit acc) "'" = (LitQuote acc, []);
  lit_doubled acc : lex_step (LitQuote acc) "'" = (Lit (acc ++ ["'"%byte]), []);
  lit_escape acc : lex_step (Lit acc) "\" = (LitEsc acc, []);
  lit_backslash acc : lex_step (LitEsc acc) "\" = (Lit (acc ++ ["\"%byte]), []);
  lit_ends acc b : sql_delimiter b = true ->
    lex_step (LitQuote acc) b = ((lex_step Rest b).1, TLit acc :: (lex_step Rest b).2);
  lit_space acc b : sql_space b = true -> lex_step (LitQuote acc) b = (LitSpace acc, []);
  space_space acc b : sql_space b = true -> lex_step (LitSpace acc) b = (LitSpace acc, []);
  space_ends acc b : sql_space b = false -> sql_joins b = false ->
    lex_step (LitSpace acc) b = ((lex_step Rest b).1, TLit acc :: (lex_step Rest b).2);
  finish_rest : lex_finish Rest = [];
  finish_word w : lex_finish (Word w) = [TWord w];
  finish_lit acc : lex_finish (LitQuote acc) = [TLit acc]
}.

Create Rewrite HintDb lexer.
#[export] Hint Rewrite @rest_comma @rest_minus @rest_quote @lit_quote @lit_doubled @lit_escape
  @lit_backslash @finish_rest @finish_word @finish_lit : lexer.

Section lexer.
Context {O X : Type} `{LX : SqlLexer O X}.
Abbreviation token := (token X).
Abbreviation lex_state := (lex_state O).

Fixpoint lex_run (st : lex_state) (s : bytes) : lex_state * list token :=
  match s with
  | [] => (st, [])
  | b :: s => let '(st, out) := lex_step st b in let '(st, out') := lex_run st s in (st, out ++ out')
  end.

(** The tokens of a query. *)
Definition sql_tokens (s : bytes) : list token :=
  let '(st, out) := lex_run Rest s in out ++ lex_finish st.

Lemma lex_cons st b s :
  lex_run st (b :: s) =
  ((lex_run (lex_step st b).1 s).1, (lex_step st b).2 ++ (lex_run (lex_step st b).1 s).2).
Proof. cbn [lex_run]. destruct (lex_step st b) as [st1 o1]. cbn. by destruct (lex_run st1 s). Qed.

Lemma lex_run_app st a b :
  lex_run st (a ++ b) =
  ((lex_run (lex_run st a).1 b).1, (lex_run st a).2 ++ (lex_run (lex_run st a).1 b).2).
Proof.
  revert st. induction a as [|x a IH]; intros st; [cbn; by destruct (lex_run st b)|].
  rewrite <- app_comm_cons, !lex_cons, IH. cbn [fst snd]. by rewrite app_assoc.
Qed.

Lemma lex_app st a b st1 o1 st2 o2 :
  lex_run st a = (st1, o1) -> lex_run st1 b = (st2, o2) -> lex_run st (a ++ b) = (st2, o1 ++ o2).
Proof. intros Ha Hb. rewrite lex_run_app, Ha. cbn. by rewrite Hb. Qed.

Lemma lex_one st b : lex_run st [b] = lex_step st b.
Proof. rewrite lex_cons. destruct (lex_step st b) as [? o]. cbn. by rewrite app_nil_r. Qed.

(** Reads on, byte by byte. *)
Ltac lex_on := repeat (rewrite lex_cons; autorewrite with lexer; cbn [fst snd]); cbn [lex_run fst snd app].

Lemma lex_escaped acc s : lex_run (Lit acc) (sql_escaped s) = (Lit (acc ++ s), []).
Proof.
  revert acc. induction s as [|b s IH]; intros acc; [simpl; by rewrite app_nil_r|].
  change (sql_escaped (b :: s)) with (sql_escape_char b ++ sql_escaped s).
  apply (lex_app _ _ _ (Lit (acc ++ [b])) []); [|by rewrite IH, <- app_assoc].
  unfold sql_escape_char. destruct (decide (b = "\"%byte)) as [->|H1];
    [|destruct (decide (b = "'"%byte)) as [->|H2]].
  - by lex_on.
  - by lex_on.
  - rewrite lex_one. by apply lit_char.
Qed.

Lemma lex_quoted s : lex_run Rest ("'"%byte :: sql_escaped s ++ ["'"%byte]) = (LitQuote s, []).
Proof.
  rewrite lex_cons, rest_quote. cbn [fst snd app].
  rewrite (lex_app _ _ _ _ _ (LitQuote s) [] (lex_escaped [] s)); [done|]. rewrite lex_one. apply lit_quote.
Qed.

(** ** Words *)

Lemma lex_digits w l :
  forallb sql_digit w = true -> forallb sql_digit l = true -> lex_run (Word w) l = (Word (w ++ l), []).
Proof.
  revert w. induction l as [|b l IH]; intros w Hw Hl; [by rewrite app_nil_r|].
  cbn [forallb] in Hl. apply andb_prop in Hl as [Hb Hl]. rewrite lex_cons, word_digit by done.
  cbn [fst snd]. rewrite IH; [by rewrite <- app_assoc| |done]. rewrite forallb_app, Hw. simpl. by rewrite Hb.
Qed.

Lemma lex_letters w l :
  forallb sql_letter w = true -> forallb sql_letter l = true -> lex_run (Word w) l = (Word (w ++ l), []).
Proof.
  revert w. induction l as [|b l IH]; intros w Hw Hl; [by rewrite app_nil_r|].
  cbn [forallb] in Hl. apply andb_prop in Hl as [Hb Hl]. rewrite lex_cons, word_letter by done.
  cbn [fst snd]. rewrite IH; [by rewrite <- app_assoc| |done]. rewrite forallb_app, Hw. simpl. by rewrite Hb.
Qed.

Lemma digits_digits n k acc :
  0 <= n -> forallb sql_digit acc = true -> forallb sql_digit (digits 10 k n acc) = true.
Proof.
  revert n acc. induction k as [|k IH]; intros n acc Hn Ha; [done|]. cbn [digits].
  assert (sql_digit (digit_char (n mod 10)) = true) as Hd.
  { assert (forallb (fun d => sql_digit (digit_char d)) (seqZ 0 10) = true) as H
      by (vm_compute; reflexivity).
    rewrite forallb_forall in H. apply H, list_elem_of_In, elem_of_seqZ.
    pose proof (Z.mod_pos_bound n 10). lia. }
  destruct (decide _); [simpl; by rewrite Hd|]. apply IH; [by apply Z.div_pos|simpl; by rewrite Hd].
Qed.

(** A natural number is a digit and more digits. *)
Lemma print_uint_digits n :
  0 <= n -> exists d ds, print_uint 10 n = d :: ds /\ sql_digit d = true /\ forallb sql_digit ds = true.
Proof.
  intros Hn. pose proof (digits_digits n (S (Z.to_nat (Z.log2 n))) [] Hn eq_refl) as H.
  destruct (print_uint_spec 10 n) as (_ & (x & ds & _ & E) & _); [lia|lia|].
  unfold print_uint in *. rewrite E in *. cbn [forallb] in H. apply andb_prop in H as [? ?]. eauto.
Qed.

(** A number is a word, after a minus sign if it is negative. *)
Definition int_tokens (n : Z) : list token :=
  if decide (n < 0) then [TSym "-"; TWord (print_uint 10 (- n))] else [TWord (print_uint 10 n)].

(** The token that is complete once something else follows. *)
Definition unfinished (st : lex_state) : list token :=
  match st with LitQuote acc => [TLit acc] | Word w => [TWord w] | _ => [] end.

Definition complete (st : lex_state) : Prop := (exists acc, st = LitQuote acc) \/ exists w, st = Word w.

(** The text [x] is read as [toks], when it starts between two tokens and something
    that separates follows. *)
Definition reads (x : bytes) (toks : list token) : Prop :=
  exists st out, lex_run Rest x = (st, out) /\ complete st /\ out ++ unfinished st = toks.

Lemma reads_int n : reads (print_int n) (int_tokens n).
Proof.
  unfold print_int, int_tokens. destruct (decide (n < 0)) as [Hn|Hn].
  - destruct (print_uint_digits (- n)) as (d & ds & -> & Hd & Hds); [lia|].
    exists (Word (d :: ds)), [TSym "-"]. split; [|split; [right; eauto|done]].
    rewrite lex_cons, rest_minus. cbn [fst snd]. rewrite lex_cons, minus_digit by done. cbn [fst snd].
    by rewrite lex_digits by (simpl; rewrite ?Hd; done).
  - destruct (print_uint_digits n) as (d & ds & -> & Hd & Hds); [lia|].
    exists (Word (d :: ds)), []. split; [|split; [right; eauto|done]].
    rewrite lex_cons, rest_digit by done. cbn [fst snd].
    by rewrite lex_digits by (simpl; rewrite ?Hd; done).
Qed.

Lemma reads_null : reads (lit "null") [TWord (lit "null")].
Proof.
  exists (Word (lit "null")), []. split; [|split; [right; eauto|done]].
  change (lit "null") with ("n"%byte :: lit "ull") at 1. rewrite lex_cons, rest_letter by done.
  cbn [fst snd]. by rewrite lex_letters.
Qed.

Lemma reads_quoted s : reads ("'"%byte :: sql_escaped s ++ ["'"%byte]) [TLit s].
Proof. exists (LitQuote s), []. split; [apply lex_quoted|]. split; [left; eauto|done]. Qed.

(** ** Reading on *)

Lemma complete_delimiter st b :
  complete st -> sql_delimiter b = true ->
  lex_step st b = ((lex_step Rest b).1, unfinished st ++ (lex_step Rest b).2).
Proof. intros [[acc ->]|[w ->]] Hb; [by apply lit_ends|]. apply word_ends. by right. Qed.

(** After a comma, the next of a list is read. *)
Lemma reads_comma x y a b :
  reads x a -> reads y b -> reads (x ++ ","%byte :: y) (a ++ TSym "," :: b).
Proof.
  intros (st1 & o1 & H1 & C1 & <-) (st2 & o2 & H2 & C2 & <-).
  exists st2, (o1 ++ (unfinished st1 ++ [TSym ","]) ++ o2). split; [|split; [done|]].
  - eapply lex_app; [exact H1|]. rewrite lex_cons, complete_delimiter, rest_comma by done. cbn [fst snd].
    by rewrite H2.
  - by rewrite <- !app_assoc.
Qed.

(** The text goes on after white space with something that neither continues a string
    constant nor starts a comment. *)
Fixpoint goes_on (q : bytes) : bool :=
  match q with [] => false | b :: q => if sql_space b then goes_on q else negb (sql_joins b) end.

Definition separates (q : bytes) : bool :=
  match q with [] => false | b :: _ => (sql_space b || sql_delimiter b) && goes_on q end.

Lemma lex_space acc q :
  goes_on q = true -> lex_run (LitSpace acc) q = ((lex_run Rest q).1, TLit acc :: (lex_run Rest q).2).
Proof.
  induction q as [|b q IH]; [done|]. cbn [goes_on]. rewrite !lex_cons.
  destruct (sql_space b) eqn:Hb; intros Hq.
  - rewrite space_space, rest_space by done. cbn [fst snd app]. by rewrite IH.
  - apply negb_true_iff in Hq. by rewrite space_ends.
Qed.

Lemma lex_after st q :
  complete st -> separates q = true ->
  lex_run st q = ((lex_run Rest q).1, unfinished st ++ (lex_run Rest q).2).
Proof.
  intros Hst Hq. destruct q as [|b q]; [done|]. cbn [separates goes_on] in Hq.
  apply andb_prop in Hq as [Hb Hq]. rewrite !lex_cons.
  destruct (sql_delimiter b) eqn:Hdel.
  { rewrite complete_delimiter by done. cbn [fst snd]. by rewrite <- app_assoc. }
  rewrite orb_false_r in Hb. rewrite Hb in Hq. rewrite (rest_space b) by done. cbn [fst snd app].
  destruct Hst as [[acc ->]|[w ->]].
  - rewrite lit_space by done. cbn [fst snd app]. by rewrite lex_space.
  - rewrite word_ends, rest_space by (try left; done). done.
Qed.

Lemma finish_complete st : complete st -> lex_finish st = unfinished st.
Proof. intros [[acc ->]|[w ->]]; [apply finish_lit|apply finish_word]. Qed.
End lexer.

(** ** Queries with arguments *)

Section spec.
Context {vec : Type -> Type} `{VL : Vector vec} `{PR : !Pre vec} `{PV : !PstringVec vec}.
Context (junk : nat -> byte) {O X : Type} `{LX : SqlLexer O X}.
Abbreviation dbi_arg := (dbi_arg (vec := vec)).
Abbreviation token := (token X).

(** What the server is meant to read for an argument. *)
Definition scalar_tokens (type : Z) (a : dbi_arg) : option (list token) :=
  match a with
  | AInt n =>
    if decide (type = DBI_INT) then Some (int_tokens n)
    else if decide (type = DBI_INT_OR_NULL) then
      Some (if decide (n = 0) then [TWord (lit "null")] else int_tokens n)
    else if decide (type = DBI_BOOL) then Some [TLit (if decide (n = 0) then lit "f" else lit "t")]
    else if decide (type = DBI_CHAR) then Some [TLit (cstr [to_byte n; NUL])]
    else None
  | AString s =>
    if decide (type = DBI_STRING)
    then Some (match s with Some s => [TLit s] | None => [TWord (lit "null")] end)
    else None
  | _ => None
  end.

Definition list_tokens (type : Z) (a : dbi_arg) : option (list token) :=
  match a with
  | AInts v =>
    if decide (type = DBI_INT /\ elems v <> [])
    then Some (concat (intersperse [TSym ","] (int_tokens <$> elems v))) else None
  | AStrings v =>
    if decide (type = DBI_STRING /\ elems v <> [])
    then Some (intersperse (TSym ",") (TLit <$> elems v)) else None
  | _ => None
  end.

(** C strings whose escaped form fits an [int]. *)
Definition string_ok (s : bytes) : Prop := (NUL ∉ s) /\ 2 * Z.of_nat (length s) + 1 < 2 ^ 31.

Definition arg_ok (a : dbi_arg) : Prop :=
  match a with
  | AString (Some s) => string_ok s
  | AStrings v => Forall string_ok (elems v)
  | _ => True
  end.

Definition placeholder (q : bytes) : bool := bool_decide (q = ["?"%byte] \/ q = ["@"%byte]).

(** What the server is meant to read for a statement: what it reads in each piece of
    its text alone, and the arguments in between. *)
Fixpoint expected (pieces : list bytes) (types : list Z) (args : list dbi_arg)
  : option (list token) :=
  match pieces with
  | [] => Some []
  | q :: pieces =>
    if placeholder q then
      match types, args with
      | type :: types, a :: args =>
        x ← (if decide (q = ["?"%byte]) then scalar_tokens type a else list_tokens type a);
        y ← expected pieces types args;
        Some (x ++ y)
      | _, _ => None
      end
    else y ← expected pieces types args; Some (sql_tokens q ++ y)
  end.

(** The server is between two tokens after the text [q]: it is not in a string
    constant, a comment, a quoted identifier, a word or an operator. *)
Definition ends_at_rest (q : bytes) : bool :=
  match (lex_run Rest q).1 with Rest => true | _ => false end.

(** The server is between two tokens before every placeholder, and the text after
    one separates it from what follows. *)
Fixpoint template_ok (after : bool) (pieces : list bytes) : bool :=
  match pieces with
  | [] => true
  | q :: pieces =>
    if placeholder q then negb after && template_ok true pieces
    else (negb after || separates q) && (bool_decide (pieces = []) || ends_at_rest q) &&
         template_ok false pieces
  end.

(** The loop of [st_execute] on lists. *)
Fixpoint substituted (pieces : list bytes) (types : list Z) (args : list dbi_arg) (query : bytes)
  : option bytes :=
  match pieces with
  | [] => Some query
  | q :: pieces =>
    if placeholder q then
      match types, args with
      | type :: types, a :: args =>
        x ← (if decide (q = ["?"%byte]) then scalar_text junk type a else list_text junk type a);
        substituted pieces types args (query ++ x)
      | _, _ => None
      end
    else substituted pieces types args (query ++ q)
  end.

(** Where there are types for all placeholders, or the query is known to exist. *)
Definition enough (pieces : list bytes) (types : list Z) : Prop :=
  (length (filter (fun p => placeholder p = true) pieces) <= length types)%nat.

Lemma substitute_elems n i ti pieces intypes args query :
  (n + i = length (elems pieces))%nat ->
  is_Some (substituted (drop i (elems pieces)) (drop ti (elems intypes)) args query) \/
  enough (drop i (elems pieces)) (drop ti (elems intypes)) ->
  substitute junk n i ti pieces intypes args query =
  substituted (drop i (elems pieces)) (drop ti (elems intypes)) args query.
Proof.
  revert i ti args query. induction n as [|n IH]; intros i ti args query Hn.
  - by rewrite drop_ge by lia.
  - destruct (lookup_lt_is_Some_2 (elems pieces) i) as [p Hp]; [lia|].
    rewrite (drop_S _ p) by done. unfold enough. cbn [substitute substituted]. rewrite filter_cons.
    rewrite (get_elems _ pieces) by lia. rewrite Hp. cbn [mbind option_bind].
    destruct (placeholder p) eqn:Hph.
    2: { apply bool_decide_eq_false in Hph. rewrite !(decide_False (P := p = _)) by naive_solver.
      rewrite decide_False by done. intros He. apply IH; [lia|exact He]. }
    apply bool_decide_eq_true in Hph. rewrite (decide_True (P := true = true)) by done. cbn [length].
    intros He. destruct (drop ti (elems intypes)) as [|ty types] eqn:Hty.
    { destruct He as [[? He]|He]; [done|simpl in He; lia]. }
    assert (elems intypes !! ti = Some ty /\ drop (S ti) (elems intypes) = types) as [Hti Hrest].
    { split; [by rewrite <- (Nat.add_0_r ti), <- lookup_drop, Hty|].
      by rewrite <- Nat.add_1_r, <- drop_drop, Hty. }
    pose proof (lookup_lt_Some _ _ _ Hti) as Hlt. rewrite get_elems, Hti by done. cbn [mbind option_bind].
    rewrite <- Hrest in *. destruct args as [|a args]; [destruct (decide (p = ["?"%byte])), (decide (p = ["@"%byte])); naive_solver|].
    destruct (decide (p = ["?"%byte])) as [->|Hne];
      [destruct (scalar_text junk ty a)|rewrite decide_True by naive_solver; destruct (list_text junk ty a)];
      cbn [mbind option_bind] in *; try done;
      (apply IH; [lia|destruct He as [He|He]; [by left|right; unfold enough; simpl in He; lia]]).
Qed.

Lemma quoted_reads s : string_ok s -> exists x, quoted junk s = Some x /\ reads x [TLit s].
Proof.
  intros [Hn Hl]. unfold quoted. rewrite escape_string_spec by done. eexists. split; [done|].
  apply reads_quoted.
Qed.

Lemma scalar_reads type a toks :
  scalar_tokens type a = Some toks -> arg_ok a ->
  exists x, scalar_text junk type a = Some x /\ reads x toks.
Proof.
  unfold scalar_tokens, scalar_text. intros Ht Ha. destruct a as [n|s| |]; [| |done|done].
  - rewrite !pitoa_law.
    destruct (decide (type = DBI_INT)); [injection Ht as <-; eauto using reads_int|].
    destruct (decide (type = DBI_INT_OR_NULL)).
    { injection Ht as <-. destruct (decide (n = 0)) as [Hn|Hn].
      - rewrite decide_False by naive_solver. eauto using reads_null.
      - rewrite decide_True by done. eauto using reads_int. }
    destruct (decide (type = DBI_STRING)) as [->|]; [done|].
    destruct (decide (type = DBI_BOOL)).
    { injection Ht as <-. eexists. split; [done|]. destruct (decide (n = 0)) as [->|Hn].
      - exact (reads_quoted (lit "f")).
      - rewrite decide_True by done. exact (reads_quoted (lit "t")). }
    destruct (decide (type = DBI_CHAR)); [|done]. injection Ht as <-. apply quoted_reads.
    generalize (to_byte n). intros b. cbn. destruct (decide (b = NUL)) as [->|Hb].
    + split; [apply not_elem_of_nil|done].
    + split; [|done]. rewrite list_elem_of_singleton. congruence.
  - destruct (decide (type = DBI_STRING)) as [->|]; [|done]. injection Ht as <-.
    cbn [decide]. destruct s as [s|]; [by apply quoted_reads|]. eauto using reads_null.
Qed.

Lemma reads_ints n l :
  reads (concat (intersperse (lit ",") (print_int <$> n :: l)))
    (concat (intersperse [TSym ","] (int_tokens <$> n :: l))).
Proof.
  revert n. induction l as [|m l IH]; intros n; cbn [fmap list_fmap intersperse concat] in *.
  - rewrite !app_nil_r. apply reads_int.
  - apply reads_comma; [apply reads_int|apply IH].
Qed.

Lemma reads_strings s l :
  reads ("'"%byte :: concat (intersperse (lit "','") (sql_escaped <$> s :: l)) ++ ["'"%byte])
    (intersperse (TSym ",") (TLit <$> s :: l)).
Proof.
  revert s. induction l as [|s' l IH]; intros s; cbn [fmap list_fmap intersperse concat] in *.
  - rewrite app_nil_r. apply reads_quoted.
  - set (rest := concat _) in IH |- *.
    assert ("'"%byte :: (sql_escaped s ++ lit "','" ++ rest) ++ ["'"%byte] =
      ("'"%byte :: sql_escaped s ++ ["'"%byte]) ++ ","%byte :: ("'"%byte :: rest ++ ["'"%byte])) as ->.
    { cbn. by rewrite <- !app_assoc. }
    apply (reads_comma _ _ [TLit s]); [apply reads_quoted|apply IH].
Qed.

Lemma list_reads type a toks :
  list_tokens type a = Some toks -> arg_ok a ->
  exists x, list_text junk type a = Some x /\ reads x toks.
Proof.
  unfold list_tokens, list_text. intros Ht Ha. destruct a as [| |v|v]; [done|done| |].
  - destruct (decide _) as [[-> Hv]|]; [|done]. injection Ht as <-. rewrite decide_True by done.
    rewrite size_elems, decide_True by (destruct (elems v); [done|simpl; lia]).
    eexists. split; [done|]. rewrite pjoin_law, pvitostr_law.
    destruct (elems v) as [|n l]; [done|]. apply reads_ints.
  - destruct (decide _) as [[-> Hv]|]; [|done]. injection Ht as <-.
    rewrite decide_False by done. rewrite decide_True by done.
    rewrite size_elems, decide_True by (destruct (elems v); [done|simpl; lia]).
    assert (mapM (escape_string junk) (elems v) = Some (sql_escaped <$> elems v)) as Hm.
    { simpl in Ha. clear Hv. induction Ha as [|s l [Hn Hl] _ IH]; [done|]. cbn.
      by rewrite escape_string_spec, IH by done. }
    rewrite <- pmap_law in Hm. destruct (pmap v (escape_string junk)) as [es|]; [|done].
    injection Hm as Hm. eexists. split; [done|]. rewrite pjoin_law, Hm.
    destruct (elems v) as [|s l]; [done|]. apply reads_strings.
Qed.

(** The state before a piece: between two tokens, or just after an argument. *)
Definition before (after : bool) (st : lex_state O) : Prop := if after then complete st else st = Rest.

(** A piece of text. *)
Lemma text_reads (after : bool) p query st out :
  negb after || separates p = true -> lex_run Rest query = (st, out) -> before after st ->
  lex_run Rest (query ++ p) = ((lex_run Rest p).1, out ++ unfinished st ++ (lex_run Rest p).2).
Proof.
  intros Hp Hq Hst. rewrite lex_run_app, Hq. cbn [fst snd]. destruct after; simpl in *.
  - by rewrite lex_after.
  - by subst st.
Qed.

Lemma finish_before after st : before after st -> lex_finish st = unfinished st.
Proof. destruct after; simpl; [apply finish_complete|intros ->; apply finish_rest]. Qed.

Lemma substituted_reads after pieces types args query st out toks :
  template_ok after pieces = true -> expected pieces types args = Some toks ->
  Forall arg_ok args -> lex_run Rest query = (st, out) -> before after st ->
  exists q, substituted pieces types args query = Some q /\ sql_tokens q = out ++ unfinished st ++ toks.
Proof.
  revert after types args query st out toks.
  induction pieces as [|p pieces IH]; intros after types args query st out toks Ht He Ha Hq Hst.
  { injection He as <-. exists query. split; [done|]. unfold sql_tokens. rewrite Hq, app_nil_r.
    by rewrite (finish_before after). }
  cbn [template_ok expected substituted] in *. destruct (placeholder p).
  - apply andb_prop in Ht as [Hafter Ht]. apply negb_true_iff in Hafter as ->. simpl in Hst. subst st.
    destruct types as [|ty types], args as [|a args]; try done. apply Forall_cons in Ha as [Ha Has].
    destruct (if decide (p = ["?"%byte]) then scalar_tokens ty a else list_tokens ty a) as [t1|] eqn:Hx;
      [|done]. simpl in He. destruct (expected pieces types args) as [t2|] eqn:Hy; [|done].
    injection He as <-.
    assert (exists x, (if decide (p = ["?"%byte]) then scalar_text junk ty a
      else list_text junk ty a) = Some x /\ reads x t1) as (x & -> & st1 & o1 & Hr & Hc1 & <-).
    { destruct (decide (p = ["?"%byte])); [by apply scalar_reads|by apply list_reads]. }
    cbn [mbind option_bind].
    destruct (IH true types args (query ++ x) st1 (out ++ o1) t2) as (q & -> & Hs); try done.
    { by eapply lex_app. }
    exists q. split; [done|]. rewrite Hs. cbn [unfinished app]. by rewrite <- !app_assoc.
  - apply andb_prop in Ht as [Ht Htp]. apply andb_prop in Ht as [Hstart Hend].
    pose proof (text_reads after p query st out Hstart Hq Hst) as Hqp.
    destruct (expected pieces types args) as [t2|] eqn:Hy; [|done]. injection He as <-.
    unfold ends_at_rest in Hend. unfold sql_tokens at 2. destruct (lex_run Rest p) as [st2 o2].
    cbn [fst snd] in *. apply orb_prop in Hend as [->%bool_decide_eq_true|Hend].
    + injection Hy as <-. exists (query ++ p). split; [done|]. unfold sql_tokens. rewrite Hqp.
      by rewrite app_nil_r, <- !app_assoc.
    + destruct st2; try done.
      destruct (IH false types args (query ++ p) Rest (out ++ unfinished st ++ o2) t2)
        as (q & -> & Hs); try done.
      exists q. split; [done|]. rewrite Hs, finish_rest, app_nil_r. cbn [unfinished]. by rewrite <- !app_assoc.
Qed.

End spec.

(** ** Placeholders of a statement *)

Definition is_mark (b : byte) : bool := is_char "?" b || is_char "@" b.

Lemma re_qs_class s c k : rmatch re_qs s c k = rmatch (Class is_mark) s c k.
Proof.
  destruct s as [|b s]; [done|]. unfold re_qs, Chr, is_mark. cbn [rmatch].
  destruct (is_char "?" b) eqn:E1, (is_char "@" b) eqn:E2; cbn; try done; by destruct (k s c).
Qed.

Section prepare.
Context {vec : Type -> Type} `{VL : Vector vec} `{PR : !Pre vec} `{PV : !PstringVec vec}.

Lemma pieces_concat (query : bytes) : concat (elems (pstrresplit2 query re_qs)) = query.
Proof. by destruct (pstrresplit2_law query re_qs is_mark re_qs_class). Qed.

Lemma placeholder_mark c : is_mark c = true -> placeholder [c] = true.
Proof.
  unfold is_mark, is_char, placeholder. intros H. apply bool_decide_eq_true.
  apply orb_prop in H as [->%bool_decide_eq_true| ->%bool_decide_eq_true]; auto.
Qed.

Lemma unmarked_piece p : Forall (fun c => is_mark c = false) p -> placeholder p = false.
Proof.
  intros H. apply bool_decide_eq_false. intros [-> | ->]; by inversion H.
Qed.

Lemma placeholders_marks query :
  length (filter (fun p => placeholder p = true) (elems (pstrresplit2 query re_qs))) =
  length (filter (fun c => is_mark c = true) query).
Proof.
  destruct (pstrresplit2_law query re_qs is_mark re_qs_class) as [E H]. rewrite <- E at 2.
  clear E. induction H as [|p l Hp _ IH]; [done|]. cbn [concat].
  rewrite filter_app, length_app, <- IH, filter_cons. destruct Hp as [(c & Hc & ->)|Hp].
  - rewrite decide_True by (by apply placeholder_mark).
    rewrite filter_cons_True by done. done.
  - rewrite decide_False by (by rewrite unmarked_piece).
    assert (filter (fun c => is_mark c = true) p = []) as ->; [|done].
    induction Hp as [|c p Hc _ IHp]; [done|]. rewrite filter_cons_False; [exact IHp|by rewrite Hc].
Qed.

Lemma input_types_spec n i query args intypes :
  (n + i = length (elems query))%nat -> Forall (fun t => DBI_MIN_TYPE <= t <= DBI_MAX_TYPE) args ->
  length (filter (fun p => placeholder p = true) (drop i (elems query))) = length args ->
  exists v, input_types n i query args intypes = Some v /\ elems v = elems intypes ++ args.
Proof.
  revert i args intypes. induction n as [|n IH]; intros i args intypes Hn Ha Hl.
  - rewrite drop_ge in Hl by lia. destruct args; [|done]. exists intypes. by rewrite app_nil_r.
  - destruct (lookup_lt_is_Some_2 (elems query) i) as [p Hp]; [lia|].
    rewrite (drop_S _ p), filter_cons in Hl by done. cbn [input_types].
    rewrite get_elems by lia. rewrite Hp. cbn [mbind option_bind].
    destruct (decide (placeholder p = true)) as [Hph|Hph].
    + apply bool_decide_eq_true in Hph. rewrite decide_True by done.
      destruct args as [|t args]; [done|]. apply Forall_cons in Ha as [Ht Ha].
      rewrite decide_True by done.
      destruct (IH (S i) args (vector_push_back intypes t)) as (v & -> & Hv); [lia|done|by injection Hl|].
      exists v. split; [done|]. by rewrite Hv, elems_push_back, <- app_assoc.
    + rewrite decide_False; [apply IH; [lia|done|done]|].
      intros H. apply Hph. by apply bool_decide_eq_true.
Qed.

(** [new_st_handle] accepts a statement exactly when there is a type for each [?]
    and [@] of its text, also for those within literals. *)
Lemma prepare_types query args :
  Forall (fun t => DBI_MIN_TYPE <= t <= DBI_MAX_TYPE) args ->
  length (filter (fun c => is_mark c = true) query) = length args ->
  exists v, input_types (vector_size (pstrresplit2 query re_qs)) 0 (pstrresplit2 query re_qs)
    args new_vector = Some v /\ elems v = args.
Proof.
  intros Ha Hl. destruct (input_types_spec (vector_size (pstrresplit2 query re_qs)) 0
    (pstrresplit2 query re_qs) args new_vector) as (v & Hv & E).
  - by rewrite size_elems, Nat.add_0_r.
  - done.
  - rewrite drop_0. by rewrite placeholders_marks.
  - exists v. split; [done|]. by rewrite E, elems_new.
Qed.

(** The query character by character. *)
Fixpoint fill junk (query : bytes) (types : list Z) (args : list (dbi_arg (vec := vec)))
    (q0 : bytes) : option bytes :=
  match query with
  | [] => Some q0
  | c :: query =>
    if is_mark c then
      match types, args with
      | type :: types, a :: args =>
        x ← (if decide (c = "?"%byte) then scalar_text junk type a else list_text junk type a);
        fill junk query types args (q0 ++ x)
      | _, _ => None
      end
    else fill junk query types args (q0 ++ [c])
  end.

Lemma fill_text junk p query types args q0 :
  Forall (fun c => is_mark c = false) p ->
  fill junk (p ++ query) types args q0 = fill junk query types args (q0 ++ p).
Proof.
  intros H. revert q0. induction H as [|c p Hc _ IH]; intros q0; [by rewrite app_nil_r|].
  cbn [app fill]. rewrite Hc, IH. by rewrite <- app_assoc.
Qed.

Lemma substitute_fill junk query (intypes : vec Z) args q :
  fill junk query (elems intypes) args [] = Some q ->
  substitute junk (vector_size (pstrresplit2 query re_qs)) 0 0 (pstrresplit2 query re_qs) intypes
    args [] = Some q.
Proof.
  intros Hq. assert (substituted junk (elems (pstrresplit2 query re_qs)) (elems intypes) args [] = Some q) as Hs.
  2: { rewrite substitute_elems, !drop_0; [done|by rewrite size_elems, Nat.add_0_r|left; rewrite !drop_0; eauto]. }
  destruct (pstrresplit2_law query re_qs is_mark re_qs_class) as [E H]. rewrite <- E in Hq. clear E.
  revert Hq. generalize (elems intypes) as types, args, (@nil byte) as q0.
  induction H as [|p l Hp _ IH]; intros types args0 q0; cbn [concat substituted]; [done|].
  destruct Hp as [(c & Hc & ->)|Hp].
  - rewrite placeholder_mark by done. cbn [app fill]. rewrite Hc.
    destruct types as [|t types], args0 as [|a args0]; try done.
    destruct (decide (c = "?"%byte)) as [->|Hne].
    + rewrite decide_True by done. destruct (scalar_text junk t a); simpl; [apply IH|done].
    + rewrite decide_False by congruence. destruct (list_text junk t a); simpl; [apply IH|done].
  - rewrite unmarked_piece, fill_text by done. apply IH.
Qed.

(** A statement without placeholders is sent as it is. *)
Lemma substitute_plain junk query (intypes : vec Z) :
  Forall (fun c => is_mark c = false) query ->
  substitute junk (vector_size (pstrresplit2 query re_qs)) 0 0 (pstrresplit2 query re_qs) intypes
    [] [] = Some query.
Proof.
  intros Hq. apply substitute_fill. rewrite <- (app_nil_r query) at 1. by rewrite fill_text.
Qed.
End prepare.

(** ** Examples *)

#[export] Program Instance list_pstring_vec : PstringVec list := {|
  pitoa := print_int;
  pvitostr v := print_int <$> v;
  pmap v f := mapM f v;
  pjoin v sep := concat (intersperse sep v) |}.
Next Obligation. done. Qed.
Next Obligation. done. Qed.
Next Obligation. intros v f. simpl. by destruct (mapM f v). Qed.
Next Obligation. done. Qed.

(** A scanner with words, operators, comments of both kinds, quoted identifiers and
    dollar quotes. *)
Inductive sample_state :=
  | Comment | Slash
  | Block (depth : nat) | BlockStar (depth : nat) | BlockSlash (depth : nat)
  | Ident (acc : bytes)
  | Dollar (tag : bytes) | Body (tag acc : bytes).

Abbreviation sample_lex := (lex_state sample_state).

(** The first byte of a token. *)
Definition sample_rest (b : byte) : sample_lex * list (token bytes) :=
  if sql_space b then (Rest, [])
  else if sql_digit b || sql_letter b then (Word [b], [])
  else if is_char "'" b then (Lit [], [])
  else if is_char "-" b then (Minus, [])
  else if is_char "/" b then (Other Slash, [])
  else if is_char x22 b then (Other (Ident []), [])
  else if is_char "$" b then (Other (Dollar []), [])
  else (Rest, [TSym b]).

(** A token ends, and [b] is the first byte of the next. *)
Definition sample_next (toks : list (token bytes)) (b : byte) : sample_lex * list (token bytes) :=
  ((sample_rest b).1, toks ++ (sample_rest b).2).

Definition ends_with (tag acc : bytes) : bool :=
  bool_decide (drop (length acc - length tag) acc = tag).

Definition sample_other (o : sample_state) (b : byte) : sample_lex * list (token bytes) :=
  match o with
  | Comment => if is_char LF b then (Rest, []) else (Other Comment, [])
  | Slash => if is_char "*" b then (Other (Block 0), []) else sample_next [TSym "/"] b
  | Block d => (Other (if is_char "*" b then BlockStar d else if is_char "/" b then BlockSlash d
                       else Block d), [])
  | BlockStar d =>
    if is_char "/" b then (match d with O => Rest | S d => Other (Block d) end, [])
    else (Other (if is_char "*" b then BlockStar d else Block d), [])
  | BlockSlash d => (Other (if is_char "*" b then Block (S d) else if is_char "/" b then BlockSlash d
                            else Block d), [])
  | Ident acc => if is_char x22 b then (Rest, [TOther acc]) else (Other (Ident (acc ++ [b])), [])
  | Dollar tag =>
    if sql_letter b then (Other (Dollar (tag ++ [b])), [])
    else if is_char "$" b then (Other (Body ("$"%byte :: tag ++ ["$"%byte]) []), [])
    else sample_next (TSym "$" :: match tag with [] => [] | _ => [TWord tag] end) b
  | Body tag acc =>
    if ends_with tag (acc ++ [b])
    then (Rest, [TLit (take (length acc + 1 - length tag) (acc ++ [b]))])
    else (Other (Body tag (acc ++ [b])), [])
  end.

Definition sample_step (st : sample_lex) (b : byte) : sample_lex * list (token bytes) :=
  match st with
  | Rest => sample_rest b
  | Word w => if sql_digit b || sql_letter b || is_char "_" b then (Word (w ++ [b]), [])
              else sample_next [TWord w] b
  | Minus => if is_char "-" b then (Other Comment, []) else sample_next [TSym "-"] b
  | Lit acc => if is_char "'" b then (LitQuote acc, [])
               else if is_char "\" b then (LitEsc acc, []) else (Lit (acc ++ [b]), [])
  | LitEsc acc => (Lit (acc ++ [b]), [])
  | LitQuote acc => if is_char "'" b then (Lit (acc ++ [b]), [])
                    else if sql_space b then (LitSpace acc, []) else sample_next [TLit acc] b
  | LitSpace acc => if sql_space b then (LitSpace acc, [])
                    else if is_char "'" b then (Lit acc, []) else sample_next [TLit acc] b
  | Other o => sample_other o b
  end.

Definition sample_finish (st : sample_lex) : list (token bytes) :=
  match st with
  | Word w => [TWord w]
  | LitQuote acc | LitSpace acc => [TLit acc]
  | Minus => [TSym "-"]
  | Other (Ident acc) => [TOther acc]
  | _ => []
  end.

(** The laws of a scanner, by evaluation for each byte. *)
Ltac sample_law :=
  intros; try match goal with b : byte |- _ => destruct b end;
  first [reflexivity | exfalso; repeat match goal with H : _ \/ _ |- _ => destruct H end; done].

#[local] Obligation Tactic := sample_law.

#[export] Program Instance sample_lexer : SqlLexer sample_state bytes := {|
  lex_step := sample_step;
  lex_finish := sample_finish |}.

Definition sample_pieces : list bytes :=
  [lit "select x /* all 'em */ from t where a='it' and s = "; lit "?"; lit " and n in ("; lit "@"; lit ")"].

Definition words (l : list bytes) : list (token bytes) := TWord <$> l.


(** A negative number after a minus sign starts a comment: the server reads
    nothing of what follows. *)
Lemma minus_starts_comment :
  substitute (vec := list) (fun _ => x00) 3 0 0 [lit "select a-"; lit "?"; lit ", b"] [DBI_INT]
    [AInt (-1)] [] = Some (lit "select a--1, b") /\
  sql_tokens (lit "select a--1, b") = words [lit "select"; lit "a"].
Proof. split; vm_compute; reflexivity. Qed.

(** A placeholder in a comment is replaced like any other, and its argument can end the
    comment: the places of the placeholders matter. *)
Lemma comment_is_no_place :
  template_ok false [lit "select 1 /* "; lit "?"; lit " */"] = false /\
  substitute (vec := list) (fun _ => x00) 3 0 0 [lit "select 1 /* "; lit "?"; lit " */"] [DBI_STRING]
    [AString (Some (lit "*/; drop table t; --"))] [] =
    Some (lit "select 1 /* '*/; drop table t; --' */") /\
  sql_tokens (lit "select 1 /* '*/; drop table t; --' */") =
    words [lit "select"; lit "1"] ++ [TSym ";"] ++ words [lit "drop"; lit "table"; lit "t"] ++ [TSym ";"].
Proof. split_and!; vm_compute; reflexivity. Qed.
