(* ===== verification/Dbi.v ===== *)
(** * The database interface ([src/pthr_dbi.c])

    Database and statement handles.  libpq and the waiting for the connection's
    socket are the class [Libpq]; messages of the debugging mode and on the
    standard error output are not represented. *)

From stdpp Require Import base list gmap.
From Stdlib Require Import Strings.Byte.
From S2P Require Import Prelude C2lib ReactorTimers Prog Cstring Regex DbiTime DbiQuery.

Definition DBI_THROW_ERRORS : Z := 1.
Definition DBI_DEBUG : Z := 2.

(** ** libpq *)

Definition CONNECTION_BAD : Z := 1.
Definition PGRES_POLLING_FAILED : Z := 0.
Definition PGRES_POLLING_READING : Z := 1.
Definition PGRES_POLLING_WRITING : Z := 2.
Definition PGRES_POLLING_OK : Z := 3.
Definition PGRES_COMMAND_OK : Z := 1.
Definition PGRES_TUPLES_OK : Z := 2.
Definition PGRES_FATAL_ERROR : Z := 7.

(** What a result holds: rows of fields, where [None] is the null value. *)
Record pgresult := PgResult {
  pg_status : Z;
  pg_cmdTuples : bytes;
  pg_nfields : nat;
  pg_rows : list (list (option bytes));
  pg_error : bytes
}.

(** [results]: the results that exist; [conns]: the open connections; [sent]: the
    queries sent on a connection; [pending] bounds how much of an answer is still
    to come. *)
Class Libpq (E : Type) := {
  results : E -> gmap loc pgresult;
  conns : E -> gset loc;
  sent : E -> loc -> list bytes;
  pending : E -> loc -> nat;
  PQconnectStart : bytes -> E -> option loc * E;
  PQstatus : loc -> E -> Z;
  PQsetnonblocking : loc -> E -> Z * E;
  PQisnonblocking : loc -> E -> bool;
  PQsocket : loc -> E -> Z;
  PQconnectPoll : loc -> E -> Z * E;
  PQfinish : loc -> E -> E;
  PQsendQuery : loc -> bytes -> E -> Z * E;
  PQisBusy : loc -> E -> bool;
  PQflush : loc -> E -> Z * E;
  PQconsumeInput : loc -> E -> Z * E;
  PQgetResult : loc -> E -> option loc * E;
  PQclear : loc -> E -> E;
  PQgetisnull : pgresult -> nat -> nat -> bool;
  PQgetvalue : pgresult -> nat -> nat -> bytes;
  pth_wait_readable : Z -> prog E Z;
  pth_wait_writable : Z -> prog E Z
}.

(** Nothing that the database code depends on changed. *)
Definition quiet_pq {E} `{PQ : Libpq E} (e e' : E) : Prop :=
  results e' = results e /\ conns e' = conns e /\
  forall c, sent e' c = sent e c /\ PQisnonblocking c e' = PQisnonblocking c e.

Definition quiet_wait {E} `{PQ : Libpq E} (e : E) (r : result E Z) : Prop :=
  match r with
  | Ret _ e' | PthExit e' => quiet_pq e e' /\ forall c, (pending e' c <= pending e c)%nat
  | _ => False
  end.

(** What libpq documents. *)
Class LibpqLaws (E : Type) `{PQ : Libpq E} := {
  connectStart_law : forall s e,
    match PQconnectStart s e with
    | (Some c, e') =>
      (c ∉ conns e) /\ conns e' = {[c]} ∪ conns e /\ results e' = results e /\ sent e' c = [] /\
      forall c', c' <> c -> sent e' c' = sent e c' /\ PQisnonblocking c' e' = PQisnonblocking c' e
    | (None, e') => quiet_pq e e'
    end;
  setnonblocking_law : forall c e,
    let '(r, e') := PQsetnonblocking c e in
    results e' = results e /\ conns e' = conns e /\ (forall c', sent e' c' = sent e c') /\
    (r <> -1 -> PQisnonblocking c e' = true) /\
    forall c', c' <> c -> PQisnonblocking c' e' = PQisnonblocking c' e;
  connectPoll_law : forall c e,
    let '(r, e') := PQconnectPoll c e in
    quiet_pq e e' /\
    (r <> PGRES_POLLING_OK -> r <> PGRES_POLLING_FAILED -> (pending e' c < pending e c)%nat);
  finish_law : forall c e,
    results (PQfinish c e) = results e /\ conns (PQfinish c e) = conns e ∖ {[c]} /\
    (forall c', sent (PQfinish c e) c' = sent e c') /\
    forall c', c' <> c -> PQisnonblocking c' (PQfinish c e) = PQisnonblocking c' e;
  sendQuery_law : forall c q e,
    let '(r, e') := PQsendQuery c q e in
    results e' = results e /\ conns e' = conns e /\
    sent e' c = (if decide (r = 1) then sent e c ++ [q] else sent e c) /\
    (forall c', c' <> c -> sent e' c' = sent e c') /\
    forall c', PQisnonblocking c' e' = PQisnonblocking c' e;
  isBusy_law : forall c e, PQisBusy c e = true -> (0 < pending e c)%nat;
  flush_law : forall c e,
    quiet_pq e (PQflush c e).2 /\ forall c', (pending (PQflush c e).2 c' <= pending e c')%nat;
  consumeInput_law : forall c e,
    quiet_pq e (PQconsumeInput c e).2 /\
    (pending (PQconsumeInput c e).2 c <= pred (pending e c))%nat;
  getResult_law : forall c e,
    match PQgetResult c e with
    | (Some l, e') =>
      results e !! l = None /\ (exists x, results e' = <[l := x]> (results e)) /\
      conns e' = conns e /\
      (forall c', sent e' c' = sent e c' /\ PQisnonblocking c' e' = PQisnonblocking c' e) /\
      (pending e' c < pending e c)%nat
    | (None, e') => quiet_pq e e'
    end;
  clear_law : forall l e,
    results (PQclear l e) = delete l (results e) /\ conns (PQclear l e) = conns e /\
    forall c, sent (PQclear l e) c = sent e c /\ pending (PQclear l e) c = pending e c /\
      PQisnonblocking c (PQclear l e) = PQisnonblocking c e;
  cells_law : forall x i j row v,
    pg_rows x !! i = Some row -> row !! j = Some v ->
    PQgetisnull x i j = bool_decide (v = None) /\ (forall s, v = Some s -> PQgetvalue x i j = s);
  wait_readable_law : forall fd e, quiet_wait e (pth_wait_readable fd e);
  wait_writable_law : forall fd e, quiet_wait e (pth_wait_writable fd e)
}.

(** ** Handles *)

(** Clean-up functions: [disconnect] and [finish_handle]. *)
Inductive db_cleanup := Disconnect (dbh : loc) | FinishHandle (sth : loc).

(** The variables that columns are bound to; a string is a pointer into a
    result. *)
Inductive dbi_value :=
  | VString (p : option (loc * nat * nat))
  | VInt (n : Z)
  | VChar (c : byte)
  | VTimestamp (t : dbi_timestamp)
  | VInterval (i : dbi_interval).

(** [varptr] is null in a column that is not bound. *)
Record otype := OType { ot_type : Z; varptr : option loc }.

Section dbi.
Context {vec : Type -> Type} `{VL : Vector vec} `{PR : !Pre vec} `{PV : !PstringVec vec}.
Context {E : Type} `{PQ : Libpq E} `{PL : Pools db_cleanup}.
Context (junk : nat -> byte).
(** An integer that was not initialised. *)
Context (uninit : Z).

Record db_handle := DbHandle {
  db_pool : pool;
  conninfo : bytes;
  flags : Z;
  in_transaction : bool;
  conn : loc
}.

Record st_handle := StHandle {
  st_pool : pool;
  st_dbh : loc;
  orig_query : bytes;
  query : vec bytes;
  intypes : vec Z;
  st_result : option loc;
  fetch_allowed : bool;
  next_tuple : Z;
  outtypes : option (vec otype)
}.

Record dbw := DbW {
  db_pools : pools;
  dbhs : gmap loc db_handle;
  sths : gmap loc st_handle;
  vars : gmap loc dbi_value;
  lib : E
}.

Definition with_lib e (w : dbw) : dbw := DbW (db_pools w) (dbhs w) (sths w) (vars w) e.
Definition with_dbhs m (w : dbw) : dbw := DbW (db_pools w) m (sths w) (vars w) (lib w).
Definition with_sths m (w : dbw) : dbw := DbW (db_pools w) (dbhs w) m (vars w) (lib w).
Definition with_vars m (w : dbw) : dbw := DbW (db_pools w) (dbhs w) (sths w) m (lib w).
Definition with_db_pools p (w : dbw) : dbw := DbW p (dbhs w) (sths w) (vars w) (lib w).

Definition set_in_transaction b (h : db_handle) : db_handle :=
  DbHandle (db_pool h) (conninfo h) (flags h) b (conn h).
Definition set_flags f (h : db_handle) : db_handle :=
  DbHandle (db_pool h) (conninfo h) f (in_transaction h) (conn h).
Definition set_result r (h : st_handle) : st_handle :=
  StHandle (st_pool h) (st_dbh h) (orig_query h) (query h) (intypes h) r (fetch_allowed h)
    (next_tuple h) (outtypes h).
Definition set_fetch a n (h : st_handle) : st_handle :=
  StHandle (st_pool h) (st_dbh h) (orig_query h) (query h) (intypes h) (st_result h) a n
    (outtypes h).
Definition set_outtypes o (h : st_handle) : st_handle :=
  StHandle (st_pool h) (st_dbh h) (orig_query h) (query h) (intypes h) (st_result h)
    (fetch_allowed h) (next_tuple h) o.

Definition get_dbh (d : loc) : prog dbw db_handle := w ← get_state; expect (dbhs w !! d).
Definition put_dbh (d : loc) (h : db_handle) : prog dbw unit := fun w =>
  Ret tt (with_dbhs (<[d := h]> (dbhs w)) w).
Definition get_sth (s : loc) : prog dbw st_handle := w ← get_state; expect (sths w !! s).
Definition put_sth (s : loc) (h : st_handle) : prog dbw unit := fun w =>
  Ret tt (with_sths (<[s := h]> (sths w)) w).

(** A call of libpq. *)
Definition pq {A} (f : E -> A * E) : prog dbw A := fun w =>
  let '(a, e) := f (lib w) in Ret a (with_lib e w).
Definition on_lib {A} (m : prog E A) : prog dbw A := fun w =>
  match m (lib w) with
  | Ret a e => Ret a (with_lib e w)
  | Die msg e => Die msg (with_lib e w)
  | PthExit e => PthExit (with_lib e w)
  | Abort => Abort
  | NoFuel => NoFuel
  end.

(** What a result holds; one that does not exist must not be used. *)
Definition get_result (l : loc) : prog dbw pgresult := w ← get_state; expect (results (lib w) !! l).
Definition clear_result (l : loc) : prog dbw unit :=
  get_result l ≫= fun _ => pq (fun e => (tt, PQclear l e)).
Definition finish_conn (c : loc) : prog dbw unit := fun w =>
  if decide (c ∈ conns (lib w)) then Ret tt (with_lib (PQfinish c (lib w)) w) else Abort.

(** ** Connecting *)

Fixpoint connect_loop (fuel : nat) (c : loc) (fd status : Z) : prog dbw Z :=
  match fuel with
  | O => fun _ => NoFuel
  | S k =>
    if decide (status = PGRES_POLLING_OK \/ status = PGRES_POLLING_FAILED) then mret status
    else
      (if decide (status = PGRES_POLLING_WRITING)
       then on_lib (pth_wait_writable fd) ≫= fun _ => mret tt
       else if decide (status = PGRES_POLLING_READING)
       then on_lib (pth_wait_readable fd) ≫= fun _ => mret tt
       else mret tt) ≫= fun _ =>
      status ← pq (PQconnectPoll c);
      connect_loop k c fd status
  end.

(** [dbh] is the address of the new handle. *)
Definition new_db_handle (dbh : loc) (p : pool) (info : bytes) (fl : Z)
  : prog dbw (option loc) :=
  c ← pq (PQconnectStart info);
  match c with
  | None => mret None
  | Some c =>
    w ← get_state;
    if decide (PQstatus c (lib w) = CONNECTION_BAD)
    then finish_conn c ≫= fun _ => mret None
    else
      r ← pq (PQsetnonblocking c);
      if decide (r = -1) then abort
      else
        w ← get_state;
        status ← connect_loop (S (S (pending (lib w) c))) c (PQsocket c (lib w))
                   PGRES_POLLING_WRITING;
        if decide (status = PGRES_POLLING_FAILED)
        then finish_conn c ≫= fun _ => mret None
        else
          put_dbh dbh (DbHandle p info fl false c) ≫= fun _ =>
          w ← get_state;
          put_state (with_db_pools (pool_register_cleanup_fn p (Disconnect dbh) (db_pools w)) w)
            ≫= fun _ => mret (Some dbh)
  end.

Definition disconnect (dbh : loc) : prog dbw unit := h ← get_dbh dbh; finish_conn (conn h).

Definition db_set_debug (dbh : loc) (d : Z) : prog dbw unit :=
  h ← get_dbh dbh;
  put_dbh dbh (set_flags (if decide (d <> 0) then Z.lor (flags h) DBI_DEBUG
                          else Z.land (flags h) (Z.lnot DBI_DEBUG)) h).

Definition db_get_debug (dbh : loc) : prog dbw Z :=
  h ← get_dbh dbh; mret (Z.land (flags h) DBI_DEBUG).

Definition throws (h : db_handle) : bool := bool_decide (Z.land (flags h) DBI_THROW_ERRORS <> 0).

(** ** Statements *)

(** The new handle is at an address of its own. *)
Definition new_st_handle (dbh : loc) (q : bytes) (types : list Z) : prog dbw loc :=
  h ← get_dbh dbh;
  w ← get_state;
  let '(p, ps) := new_subpool (db_pool h) (db_pools w) in
  let sth := fresh (dom (sths w)) in
  let pieces := pstrresplit2 q re_qs in
  its ← expect (input_types (vector_size pieces) 0 pieces types new_vector);
  put_sth sth (StHandle p dbh q pieces its None false uninit None) ≫= fun _ =>
  w ← get_state;
  put_state (with_db_pools (pool_register_cleanup_fn p (FinishHandle sth) ps) w) ≫= fun _ =>
  mret sth.

(** [st_finish], and the clean-up function [finish_handle]. *)
Definition st_finish (sth : loc) : prog dbw unit :=
  h ← get_sth sth;
  match st_result h with
  | Some l => clear_result l ≫= fun _ => put_sth sth (set_result None h)
  | None => put_sth sth (set_result None h)
  end.

Definition finish_handle (sth : loc) : prog dbw unit := st_finish sth.

Definition exec_error (sth : loc) (r : option loc) : prog dbw Z :=
  h ← get_sth sth;
  d ← get_dbh (st_dbh h);
  match r with
  | None =>
    if throws d then pth_die (lit "dbi: st_execute: database execution error") else mret (-1)
  | Some l =>
    x ← get_result l;
    if throws d then pth_die (lit "dbi: st_execute: " ++ pg_error x) else mret (-1)
  end.

(** The loop that waits for a result; [false]: an error of the connection.  What
    is [pending] bounds the number of rounds. *)
Fixpoint wait_result (fuel : nat) (c : loc) (fd : Z) : prog dbw bool :=
  match fuel with
  | O => fun _ => NoFuel
  | S k =>
    w ← get_state;
    if PQisBusy c (lib w) then
      r ← pq (PQflush c);
      if decide (r = -1) then mret false
      else
        on_lib (pth_wait_readable fd) ≫= fun _ =>
        r ← pq (PQconsumeInput c);
        if decide (r <> 1) then mret false else wait_result k c fd
    else mret true
  end.

Fixpoint get_results (fuel : nat) (sth c : loc) (fd : Z) : prog dbw bool :=
  match fuel with
  | O => fun _ => NoFuel
  | S k =>
    ok ← wait_result fuel c fd;
    if negb ok then mret false
    else
      r ← pq (PQgetResult c);
      match r with
      | None => mret true
      | Some l =>
        h ← get_sth sth;
        match st_result h with
        | Some old => clear_result old ≫= fun _ => put_sth sth (set_result (Some l) h)
        | None => put_sth sth (set_result (Some l) h)
        end ≫= fun _ => get_results k sth c fd
      end
  end.

(** The status of a null pointer is that of a fatal error. *)
Definition result_status (r : option loc) : prog dbw Z :=
  match r with
  | None => mret PGRES_FATAL_ERROR
  | Some l => x ← get_result l; mret (pg_status x)
  end.

(** The number of rows is an [int]. *)
Definition PQntuples (x : pgresult) : Z := to_int (Z.of_nat (length (pg_rows x))).

(** The number that [PQcmdTuples] gives, 0 if there is none. *)
Definition rows_affected (x : pgresult) : Z :=
  match scan_int (pg_cmdTuples x) with Some (rv, _) => rv | None => 0 end.

(** The end of [st_execute]: the status of the last result. *)
Definition query_result (sth : loc) : prog dbw Z :=
  h ← get_sth sth;
  status ← result_status (st_result h);
  if decide (status = PGRES_COMMAND_OK) then
    x ← expect (st_result h) ≫= get_result;
    put_sth sth (set_fetch false (next_tuple h) h) ≫= fun _ => mret (rows_affected x)
  else if decide (status = PGRES_TUPLES_OK) then
    x ← expect (st_result h) ≫= get_result;
    put_sth sth (set_fetch true 0 h) ≫= fun _ => mret (PQntuples x)
  else exec_error sth (st_result h).

(** The part of [st_execute] after the transaction was begun. *)
Definition run_query (sth : loc) (q : bytes) : prog dbw Z :=
  h ← get_sth sth;
  d ← get_dbh (st_dbh h);
  let c := conn d in
  w ← get_state;
  if negb (PQisnonblocking c (lib w)) then abort
  else
    r ← pq (PQsendQuery c q);
    if decide (r <> 1) then exec_error sth None
    else
      w ← get_state;
      ok ← get_results (S (pending (lib w) c)) sth c (PQsocket c (lib w));
      if negb ok then exec_error sth None else query_result sth.

(** [depth] bounds the recursion: the statement that begins a transaction is
    executed by [st_execute] itself. *)
Fixpoint st_execute (depth : nat) (sth : loc) (args : list (dbi_arg (vec := vec)))
  : prog dbw Z :=
  match depth with
  | O => fun _ => NoFuel
  | S n =>
    h ← get_sth sth;
    q ← expect (substitute junk (vector_size (query h)) 0 0 (query h) (intypes h) args []);
    d ← get_dbh (st_dbh h);
    if in_transaction d then run_query sth q
    else
      put_dbh (st_dbh h) (set_in_transaction true d) ≫= fun _ =>
      bw ← new_st_handle (st_dbh h) (lit "begin work") [];
      r ← st_execute n bw [];
      if decide (r = -1) then
        d ← get_dbh (st_dbh h);
        put_dbh (st_dbh h) (set_in_transaction false d) ≫= fun _ => exec_error sth None
      else run_query sth q
  end.

Definition end_transaction (command : bytes) (dbh : loc) : prog dbw unit :=
  sth ← new_st_handle dbh command [];
  st_execute 2 sth [] ≫= fun _ =>
  d ← get_dbh dbh;
  put_dbh dbh (set_in_transaction false d).

Definition db_commit : loc -> prog dbw unit := end_transaction (lit "commit work").
Definition db_rollback : loc -> prog dbw unit := end_transaction (lit "rollback work").

(** ** Results *)

(** [_st_bind] *)
Definition st_bind (sth : loc) (colidx : Z) (var : option loc) (type : Z) : prog dbw unit :=
  h ← get_sth sth;
  let v := match outtypes h with Some v => v | None => new_vector end in
  let extend_by := colidx - Z.of_nat (vector_size v) + 1 in
  let v := if decide (0 < extend_by) then vector_fill v (OType 0 None) (Z.to_nat extend_by) else v in
  if decide (0 <= colidx)
  then put_sth sth (set_outtypes (Some (vector_replace v (Z.to_nat colidx) (OType type var))) h)
  else abort.

Definition set_var (v : loc) (x : dbi_value) : prog dbw unit := fun w =>
  Ret tt (with_vars (<[v := x]> (vars w)) w).
Definition get_int (v : loc) : prog dbw Z :=
  w ← get_state; match vars w !! v with Some (VInt n) => mret n | _ => abort end.

(** One column: [r] is the field of row [i] and column [j], null or not. *)
Definition store (l : loc) (i j : nat) (type : Z) (var : loc) (r : option bytes) : prog dbw unit :=
  if decide (type = DBI_STRING) then
    set_var var (VString (match r with Some _ => Some (l, i, j) | None => None end))
  else if decide (type = DBI_INT \/ type = DBI_INT_OR_NULL) then
    match r with
    | None => set_var var (VInt 0)
    | Some s => match scan_int s with Some (n, _) => set_var var (VInt n) | None => mret tt end
    end
  else if decide (type = DBI_BOOL) then
    set_var var (VInt (match r with
                       | Some s => if decide (s = lit "t") then 1 else 0
                       | None => 0
                       end))
  else if decide (type = DBI_CHAR) then
    set_var var (VChar (match r with Some s => default NUL (head s) | None => NUL end))
  else if decide (type = DBI_TIMESTAMP) then
    match r with
    | None => set_var var (VTimestamp (Timestamp 1 0 0 0 0 0 0 0 0))
    | Some s =>
      set_var var (VTimestamp zero_timestamp) ≫= fun _ =>
      t ← parse_timestamp s zero_timestamp; set_var var (VTimestamp t)
    end
  else if decide (type = DBI_INTERVAL) then
    match r with
    | None => set_var var (VInterval (Interval 1 0 0 0 0 0 0))
    | Some s =>
      set_var var (VInterval zero_interval) ≫= fun _ =>
      x ← parse_interval s zero_interval; set_var var (VInterval x)
    end
  else abort.

Definition field_of (x : pgresult) (i j : nat) : option bytes :=
  if PQgetisnull x i j then None else Some (PQgetvalue x i j).

Fixpoint fetch_columns (n j : nat) (l : loc) (x : pgresult) (i : nat) (v : vec otype)
  : prog dbw unit :=
  match n with
  | O => mret tt
  | S n =>
    ot ← expect (vector_get v j);
    match varptr ot with
    | Some var =>
      if decide (ot_type ot <> 0) then store l i j (ot_type ot) var (field_of x i j) else mret tt
    | None => mret tt
    end ≫= fun _ => fetch_columns n (S j) l x i v
  end.

(** The check of [st_fetch] and [st_fetch_all_rows]: the result, if there are
    rows to fetch. *)
Definition fetch_check (h : st_handle) (error : bytes) : prog dbw (option loc) :=
  match st_result h with
  | Some l =>
    if fetch_allowed h then mret (Some l)
    else d ← get_dbh (st_dbh h); if throws d then pth_die error else mret None
  | None => d ← get_dbh (st_dbh h); if throws d then pth_die error else mret None
  end.

Definition st_fetch (sth : loc) : prog dbw Z :=
  h ← get_sth sth;
  l ← fetch_check h (lit "dbi: st_fetch: fetch without execute, or on a non-SELECT statement");
  match l with
  | None => mret (-1)
  | Some l =>
    x ← get_result l;
    if decide (PQntuples x <= next_tuple h) then mret 0
    else
      match outtypes h with
      | Some v => fetch_columns (vector_size v) 0 l x (Z.to_nat (next_tuple h)) v
      | None => mret tt
      end ≫= fun _ =>
      h ← get_sth sth;
      put_sth sth (set_fetch (fetch_allowed h) (to_int (next_tuple h + 1)) h) ≫= fun _ => mret 1
  end.

Fixpoint all_columns (n col : nat) (x : pgresult) (row : nat) (v : vec (option bytes))
  : vec (option bytes) :=
  match n with
  | O => v
  | S n => all_columns n (S col) x row (vector_push_back v (field_of x row col))
  end.

Fixpoint all_rows (n row : nat) (x : pgresult) (v : vec (vec (option bytes)))
  : vec (vec (option bytes)) :=
  match n with
  | O => v
  | S n => all_rows n (S row) x (vector_push_back v (all_columns (pg_nfields x) 0 x row new_vector))
  end.

Definition st_fetch_all_rows (sth : loc) : prog dbw (option (vec (vec (option bytes)))) :=
  h ← get_sth sth;
  l ← fetch_check h
    (lit "dbi: st_fetch_all_rows: fetch without execute, or on a non-SELECT statement");
  match l with
  | None => mret None
  | Some l => x ← get_result l; mret (Some (all_rows (Z.to_nat (PQntuples x)) 0 x new_vector))
  end.

(** [var] is the address of the local variable [serial]. *)
Definition st_serial (var sth : loc) (seq_name : bytes) : prog dbw Z :=
  h ← get_sth sth;
  let dbh := st_dbh h in
  sth2 ← new_st_handle dbh (lit "select currval (?)") [DBI_STRING];
  st_execute 2 sth2 [AString (Some seq_name)] ≫= fun _ =>
  set_var var (VInt uninit) ≫= fun _ =>
  st_bind sth2 0 (Some var) DBI_INT ≫= fun _ =>
  r ← st_fetch sth2;
  if decide (r = 0) then
    d ← get_dbh dbh;
    if throws d then pth_die (lit "dbi: st_serial: failed to fetch sequence value") else mret (-1)
  else get_int var.

(** ** Deletion of the pool of a handle *)

Definition run_cleanup (c : db_cleanup) : prog dbw unit :=
  match c with Disconnect d => disconnect d | FinishHandle s => finish_handle s end.

(** A handle is in the pool where its clean-up function is registered, and its
    memory goes with the pool. *)
Definition free_handle (c : db_cleanup) (w : dbw) : dbw :=
  match c with
  | Disconnect d => with_dbhs (delete d (dbhs w)) w
  | FinishHandle s => with_sths (delete s (sths w)) w
  end.

(** The clean-up functions run in the order [delete_pool] gives. *)
Definition delete_db_pool (p : pool) : prog dbw unit :=
  w ← get_state;
  let '(cs, ps) := delete_pool p (db_pools w) in
  put_state (with_db_pools ps w) ≫= fun _ =>
  for_each run_cleanup cs ≫= fun _ =>
  w ← get_state;
  put_state (foldr free_handle w cs).
End dbi.
