(* ===== verification/DbiSpec.v ===== *)
(** * Correctness of the database interface

    The results that libpq allocates are owned by the statement handles, each by
    one; connections and pools; and the transactions seen by the server. *)

From stdpp Require Import base list gmap.
From Stdlib Require Import Strings.Byte.
From S2P Require Import Prelude C2lib ReactorTimers Prog Cstring Regex DbiTime DbiQuery Dbi.

Definition BEGIN : bytes := lit "begin work".
Definition COMMIT : bytes := lit "commit work".
Definition ROLLBACK : bytes := lit "rollback work".

(** The queries that begin a transaction and those that end one are known to the
    server: PostgreSQL documents several commands for each. *)
Class TxCommands := {
  tx_begins : bytes -> bool;
  tx_ends : bytes -> bool;
  begin_law : tx_begins BEGIN = true;
  commit_law : tx_begins COMMIT = false /\ tx_ends COMMIT = true;
  rollback_law : tx_begins ROLLBACK = false /\ tx_ends ROLLBACK = true;
  currval_law : forall s, let q := lit "select currval ('" ++ sql_escaped s ++ lit "')" in
    tx_begins q = false /\ tx_ends q = false
}.

(** Just the commands that the library uses. *)
#[local] Obligation Tactic := idtac.
Program Definition library_commands : TxCommands := {|
  tx_begins q := bool_decide (q = BEGIN);
  tx_ends q := bool_decide (q = COMMIT \/ q = ROLLBACK) |}.
Next Obligation. reflexivity. Qed.
Next Obligation. split; reflexivity. Qed.
Next Obligation. split; reflexivity. Qed.
Next Obligation. intros s. split; apply bool_decide_eq_false; naive_solver. Qed.

Section spec.
Context {vec : Type -> Type} `{VL : Vector vec} `{PR : !Pre vec} `{PV : !PstringVec vec}.
Context {E : Type} `{PQ : Libpq E} `{LL : !LibpqLaws E} `{PL : Pools db_cleanup} `{TX : TxCommands}.
Context (junk : nat -> byte) (uninit : Z).
Abbreviation dbw := (dbw (vec := vec) (E := E)).
Abbreviation st_handle := (st_handle (vec := vec)).
Implicit Types w : dbw.

(** ** The invariant *)

(** Where a clean-up function is registered. *)
Definition registered w (x : pool) (c : db_cleanup) : Prop :=
  match c with
  | Disconnect d => exists h, dbhs w !! d = Some h /\ db_pool h = x
  | FinishHandle s => exists h, sths w !! s = Some h /\ st_pool h = x
  end.

Record core w : Prop := {
  (** the results are those of the handles, each of one handle *)
  c_owned : forall l, is_Some (results (lib w) !! l) <->
    exists s h, sths w !! s = Some h /\ st_result h = Some l;
  c_once : forall s1 s2 h1 h2 l, sths w !! s1 = Some h1 -> sths w !! s2 = Some h2 ->
    st_result h1 = Some l -> st_result h2 = Some l -> s1 = s2;
  c_dbh : forall s h, sths w !! s = Some h -> live (db_pools w) (st_pool h) /\
    exists d, dbhs w !! st_dbh h = Some d /\ within (db_pools w) (st_pool h) (db_pool d);
  c_conn : forall d h, dbhs w !! d = Some h ->
    conn h ∈ conns (lib w) /\ PQisnonblocking (conn h) (lib w) = true /\
    live (db_pools w) (db_pool h);
  c_conns : forall d1 d2 h1 h2, dbhs w !! d1 = Some h1 -> dbhs w !! d2 = Some h2 ->
    conn h1 = conn h2 -> d1 = d2;
  c_cleanups : forall x, live (db_pools w) x ->
    NoDup (cleanups (db_pools w) x) /\
    forall c, c ∈ cleanups (db_pools w) x <-> registered w x c;
  c_within : forall x y, within (db_pools w) x y -> live (db_pools w) x;
  c_trans : forall x y z, within (db_pools w) x y -> within (db_pools w) y z ->
    within (db_pools w) x z
}.

(** ** Programs *)

(** [m] returns with [Q], or ends with an exception or the exit of the thread in a
    state with [X]. *)
Definition ends {A} (m : prog dbw A) w (Q : A -> dbw -> Prop) (X : dbw -> Prop) : Prop :=
  match m w with
  | Ret a w' => Q a w'
  | Die _ w' | PthExit w' => X w'
  | Abort | NoFuel => False
  end.

Lemma ends_ret {A} (a : A) w (Q : A -> dbw -> Prop) X : Q a w -> ends (mret a) w Q X.
Proof. done. Qed.

Lemma ends_bind {A B} (m : prog dbw A) (k : A -> prog dbw B) w Q X :
  ends m w (fun a w' => ends (k a) w' Q X) X -> ends (m ≫= k) w Q X.
Proof. unfold ends, mbind, prog_bind. by destruct (m w). Qed.

Lemma ends_mono {A} (m : prog dbw A) w (Q Q' : A -> dbw -> Prop) (X X' : dbw -> Prop) :
  ends m w Q X -> (forall a w', Q a w' -> Q' a w') -> (forall w', X w' -> X' w') ->
  ends m w Q' X'.
Proof. unfold ends. destruct (m w); naive_solver. Qed.

(** Two programs in a row, given what is known of them together. *)
Lemma ends_bind2 {A B C} (m : prog dbw A) (k : A -> prog dbw B) (k' : B -> prog dbw C) w
    (Q : B -> dbw -> Prop) Q' X X' :
  ends (m ≫= k) w Q X -> (forall b w', Q b w' -> ends (k' b) w' Q' X') ->
  (forall w', X w' -> X' w') -> ends (m ≫= fun a => k a ≫= k') w Q' X'.
Proof.
  intros Hm Hk HX. unfold ends, mbind, prog_bind in *. destruct (m w) as [a w1| | | |]; auto.
  destruct (k a w1) as [b w2| | | |]; auto. apply (Hk b w2 Hm).
Qed.

Lemma ends_get_state {B} (k : dbw -> prog dbw B) w Q X :
  ends (k w) w Q X -> ends (get_state ≫= k) w Q X.
Proof. intros H. by apply ends_bind. Qed.

Lemma ends_get_dbh {B} d h (k : db_handle -> prog dbw B) w Q X :
  dbhs w !! d = Some h -> ends (k h) w Q X -> ends (get_dbh d ≫= k) w Q X.
Proof.
  intros Hd H. apply ends_bind. unfold ends, get_dbh, mbind at 1, prog_bind, get_state.
  by rewrite Hd.
Qed.

Lemma ends_get_sth {B} s h (k : st_handle -> prog dbw B) w Q X :
  sths w !! s = Some h -> ends (k h) w Q X -> ends (get_sth s ≫= k) w Q X.
Proof.
  intros Hd H. apply ends_bind. unfold ends, get_sth, mbind at 1, prog_bind, get_state.
  by rewrite Hd.
Qed.

Lemma ends_put_sth {B} s h (k : unit -> prog dbw B) w Q X :
  ends (k tt) (with_sths (<[s := h]> (sths w)) w) Q X -> ends (put_sth s h ≫= k) w Q X.
Proof. intros H. by apply ends_bind. Qed.

Lemma ends_put_dbh {B} d h (k : unit -> prog dbw B) w Q X :
  ends (k tt) (with_dbhs (<[d := h]> (dbhs w)) w) Q X -> ends (put_dbh d h ≫= k) w Q X.
Proof. intros H. by apply ends_bind. Qed.

Lemma ends_get_result {B} l x (k : pgresult -> prog dbw B) w Q X :
  results (lib w) !! l = Some x -> ends (k x) w Q X -> ends (get_result l ≫= k) w Q X.
Proof.
  intros Hd H. apply ends_bind. unfold ends, get_result, mbind at 1, prog_bind, get_state.
  by rewrite Hd.
Qed.

Lemma ends_result l x w (Q : pgresult -> dbw -> Prop) X :
  results (lib w) !! l = Some x -> Q x w -> ends (get_result l) w Q X.
Proof. intros Hd H. unfold ends, get_result, mbind, prog_bind, get_state. by rewrite Hd. Qed.

Lemma ends_pq {A B} (f : E -> A * E) (k : A -> prog dbw B) w Q X :
  ends (k (f (lib w)).1) (with_lib (f (lib w)).2 w) Q X -> ends (pq f ≫= k) w Q X.
Proof. intros H. apply ends_bind. unfold ends, pq. by destruct (f (lib w)). Qed.

Lemma ends_expect {A B} (a : A) (k : A -> prog dbw B) w Q X :
  ends (k a) w Q X -> ends (expect (Some a) ≫= k) w Q X.
Proof. intros H. by apply ends_bind. Qed.

(** ** What keeps the invariant *)

Lemma core_quiet w e : core w -> quiet_pq (lib w) e -> core (with_lib e w).
Proof.
  intros [H1 H2 H3 H4 H5 H6 H7 H8] (Er & Ec & Es). split; simpl; try done.
  - intros l. by rewrite Er.
  - intros d h Hd. rewrite Ec. destruct (Es (conn h)) as [_ ->]. by apply (H4 d).
Qed.

Lemma ends_wait {B} (m : prog E Z) (k : Z -> prog dbw B) w Q X :
  quiet_wait (lib w) (m (lib w)) ->
  (forall r e, quiet_pq (lib w) e -> (forall c, (pending e c <= pending (lib w) c)%nat) ->
     ends (k r) (with_lib e w) Q X) ->
  (forall e, quiet_pq (lib w) e -> X (with_lib e w)) ->
  ends (on_lib m ≫= k) w Q X.
Proof.
  intros Hq Hk HX. apply ends_bind. unfold ends at 1, on_lib. unfold quiet_wait in Hq.
  destruct (m (lib w)) as [r e| |e| |]; try done; destruct Hq; eauto.
Qed.

Lemma pq_quiet_refl e : quiet_pq (E := E) e e.
Proof. done. Qed.

Lemma pq_quiet_trans e1 e2 e3 : quiet_pq (E := E) e1 e2 -> quiet_pq e2 e3 -> quiet_pq e1 e3.
Proof.
  intros (R1 & C1 & S1) (R2 & C2 & S2). split; [congruence|]. split; [congruence|].
  intros c. destruct (S1 c), (S2 c). split; congruence.
Qed.

(** The next row has been set where rows can be fetched, and there are types for all
    placeholders. *)
Definition fetchable (h : st_handle) : Prop :=
  (fetch_allowed h = true -> 0 <= next_tuple h) /\ enough (elems (query h)) (elems (intypes h)).

Lemma fetchable_set h a n : fetchable h -> (a = true -> 0 <= n) -> fetchable (set_fetch a n h).
Proof. by intros [_ He] Hn. Qed.

(** The fields that do not change. *)
Definition same_st (h h' : st_handle) : Prop :=
  st_pool h' = st_pool h /\ st_dbh h' = st_dbh h /\ query h' = query h /\
  intypes h' = intypes h /\ outtypes h' = outtypes h /\ (fetchable h -> fetchable h').

Lemma same_st_refl h : same_st h h.
Proof. done. Qed.

Lemma same_st_trans h1 h2 h3 : same_st h1 h2 -> same_st h2 h3 -> same_st h1 h3.
Proof. unfold same_st. intros (-> & -> & -> & -> & -> & F). naive_solver. Qed.

(** A handle gets a new result: [r] is what exists afterwards. *)
Lemma core_sth w s h h' e :
  core w -> sths w !! s = Some h -> st_pool h' = st_pool h -> st_dbh h' = st_dbh h ->
  conns e = conns (lib w) ->
  (forall c, PQisnonblocking c e = PQisnonblocking c (lib w)) ->
  (forall l, is_Some (results e !! l) <->
     st_result h' = Some l \/ is_Some (results (lib w) !! l) /\ st_result h <> Some l) ->
  (forall l, st_result h' = Some l -> st_result h = Some l \/ results (lib w) !! l = None) ->
  core (with_sths (<[s := h']> (sths w)) (with_lib e w)).
Proof.
  intros [H1 H2 H3 H4 H5 H6 H7 H8] Hs Ep Ed Ec En Er Hnew. split; simpl.
  - intros l. rewrite Er, H1. split.
    + intros [Hl|[(s' & h1 & Hs' & Hl) Hne]].
      * exists s, h'. by rewrite lookup_insert_eq.
      * exists s', h1. rewrite lookup_insert_ne by naive_solver. done.
    + intros (s' & h1 & Hs' & Hl). apply lookup_insert_Some in Hs' as [[<- <-]|[Hne Hs']]; [by left|].
      right. split; [eauto|]. intros Hl'. by apply Hne, (H2 s s' h h1 l).
  - assert (forall s' h1 l, s <> s' -> sths w !! s' = Some h1 -> st_result h1 = Some l ->
      st_result h' = Some l -> False) as Hx.
    { intros s' h1 l Hne Hs' Hl Hl'. destruct (Hnew l Hl') as [Ho|Hn].
      - by apply Hne, (H2 s s' h h1 l).
      - assert (is_Some (results (lib w) !! l)) as [? ?] by (apply H1; eauto). congruence. }
    intros s1 s2 h1 h2 l Hs1 Hs2 Hl1 Hl2.
    apply lookup_insert_Some in Hs1 as [[<- <-]|[Hne1 Hs1]];
      apply lookup_insert_Some in Hs2 as [[<- <-]|[Hne2 Hs2]]; [done| | |by eapply H2];
      exfalso; eauto.
  - intros s' h1 Hs'. apply lookup_insert_Some in Hs' as [[<- <-]|[Hne Hs']]; [|by apply (H3 s')].
    rewrite Ep, Ed. by apply (H3 s).
  - intros d hd Hd. rewrite Ec, En. by apply (H4 d).
  - done.
  - intros x Hx. destruct (H6 x Hx) as [Hnd Hc]. split; [done|]. intros c. rewrite Hc.
    destruct c as [d|s']; [done|]. simpl. split.
    + intros (h1 & Hs' & Hp). destruct (decide (s = s')) as [<-|Hne].
      * exists h'. rewrite lookup_insert_eq. split; [done|]. rewrite Ep. congruence.
      * exists h1. by rewrite lookup_insert_ne.
    + intros (h1 & Hs' & Hp). apply lookup_insert_Some in Hs' as [[<- <-]|[Hne Hs']]; [|eauto].
      exists h. split; [done|]. congruence.
  - done.
  - done.
Qed.

(** Only libpq went on. *)
Definition lib_only w w' : Prop := exists e, w' = with_lib e w /\ quiet_pq (lib w) e.

Lemma wait_result_ends fuel c fd w :
  (pending (lib w) c < fuel)%nat ->
  ends (wait_result fuel c fd) w
    (fun _ w' => lib_only w w' /\ (pending (lib w') c <= pending (lib w) c)%nat) (lib_only w).
Proof.
  revert w. induction fuel as [|k IH]; intros w Hf; [lia|]. cbn [wait_result].
  apply ends_get_state. destruct (PQisBusy c (lib w)) eqn:Hb.
  2: { apply ends_ret. split; [|done]. exists (lib w). by destruct w. }
  apply isBusy_law in Hb. apply ends_pq. destruct (flush_law c (lib w)) as [Fq Fp].
  specialize (Fp c). set (e1 := (PQflush c (lib w)).2) in *. clearbody e1.
  destruct (decide _); [apply ends_ret; split; [by exists e1|done]|].
  apply ends_wait; simpl; [apply wait_readable_law| |].
  - intros _ e2 Wq Wp. apply ends_pq. simpl.
    destruct (consumeInput_law c e2) as [Cq Cp]. specialize (Wp c).
    set (e3 := (PQconsumeInput c e2).2) in *. clearbody e3.
    assert (quiet_pq (lib w) e3) as Hq by (eauto using pq_quiet_trans).
    destruct (decide _); [apply ends_ret; split; [by exists e3|simpl; lia]|].
    eapply ends_mono; [apply IH; simpl; lia| |]; simpl.
    + intros _ w' [(e & -> & He) Hp]. split; [|simpl in *; lia]. exists e. eauto using pq_quiet_trans.
    + intros w' (e & -> & He). exists e. eauto using pq_quiet_trans.
  - intros e2 Wq. exists e2. eauto using pq_quiet_trans.
Qed.

(** Only the results of [s] changed; nothing was sent. *)
Record only_sth (s : loc) w w' : Prop := {
  os_pools : db_pools w' = db_pools w;
  os_dbhs : dbhs w' = dbhs w;
  os_vars : vars w' = vars w;
  os_others : forall s', s' <> s -> sths w' !! s' = sths w !! s';
  os_same : forall h, sths w !! s = Some h -> exists h', sths w' !! s = Some h' /\ same_st h h';
  os_conns : conns (lib w') = conns (lib w);
}.

Lemma only_sth_refl s w : only_sth s w w.
Proof. split; try done. intros h Hh. exists h. by split. Qed.

Lemma only_sth_trans s w1 w2 w3 : only_sth s w1 w2 -> only_sth s w2 w3 -> only_sth s w1 w3.
Proof.
  intros [A1 A2 A3 A4 A5 A6] [B1 B2 B3 B4 B5 B6]. split; try congruence.
  - intros s' Hs. rewrite B4, A4; done.
  - intros h Hh. destruct (A5 h Hh) as (h2 & H2 & S2). destruct (B5 h2 H2) as (h3 & H3 & S3).
    exists h3. split; [done|]. by eapply same_st_trans.
Qed.

Lemma only_sth_lib s w e : conns e = conns (lib w) -> only_sth s w (with_lib e w).
Proof. intros He. split; try done. intros h Hh. exists h. by split. Qed.

Lemma only_sth_put s w h h' e :
  sths w !! s = Some h -> same_st h h' -> conns e = conns (lib w) ->
  only_sth s w (with_sths (<[s := h']> (sths w)) (with_lib e w)).
Proof.
  intros Hs Hh He. split; simpl; try done.
  - intros s' Hne. by rewrite lookup_insert_ne.
  - intros h0 Hh0. exists h'. rewrite lookup_insert_eq. split; [done|]. congruence.
Qed.

Definition same_sent w w' : Prop := forall c, sent (lib w') c = sent (lib w) c.

(** The state in which reading results can end. *)
Definition reading (s : loc) w w' : Prop := core w' /\ only_sth s w w' /\ same_sent w w'.

Lemma reading_refl s w : core w -> reading s w w.
Proof. intros H. split; [done|]. split; [apply only_sth_refl|done]. Qed.

Lemma reading_lib s w w' : core w -> lib_only w w' -> reading s w w'.
Proof.
  intros Hc (e & -> & He). split; [by apply core_quiet|]. destruct He as (_ & Ec & Es).
  split; [by apply only_sth_lib|]. intros c. apply Es.
Qed.

Lemma reading_trans s w1 w2 w3 : reading s w1 w2 -> reading s w2 w3 -> reading s w1 w3.
Proof.
  intros (_ & O1 & S1) (C2 & O2 & S2). split; [done|]. split; [by eapply only_sth_trans|].
  intros c. by rewrite S2, S1.
Qed.

(** A new result replaces the one of the handle. *)
Lemma take_result s h l e w (k : unit -> prog dbw bool) Q X :
  core w -> sths w !! s = Some h -> results (lib w) !! l = None ->
  (exists x, results e = <[l := x]> (results (lib w))) -> conns e = conns (lib w) ->
  (forall c, sent e c = sent (lib w) c /\ PQisnonblocking c e = PQisnonblocking c (lib w)) ->
  (forall w', reading s w w' -> (forall c, pending (lib w') c = pending e c) ->
     (exists h', sths w' !! s = Some h' /\ st_result h' = Some l) -> ends (k tt) w' Q X) ->
  ends (match st_result h with
        | Some old => clear_result old ≫= fun _ => put_sth s (set_result (Some l) h)
        | None => put_sth s (set_result (Some l) h)
        end ≫= k) (with_lib e w) Q X.
Proof.
  intros Hc Hs Hl [x Hx] Hcon Hse Hk.
  destruct (st_result h) as [old|] eqn:Hr.
  - assert (is_Some (results (lib w) !! old)) as [y Hy] by (apply (c_owned _ Hc); eauto).
    assert (old <> l) as Hne by congruence.
    apply ends_bind, ends_bind. unfold clear_result.
    apply (ends_get_result _ y); [simpl; rewrite Hx; by rewrite lookup_insert_ne|].
    destruct (clear_law old e) as (Kr & Kc & Ks). set (e' := PQclear old e) in *.
    unfold ends at 1, pq. simpl. fold e'. clearbody e'.
    apply (Hk (with_sths (<[s := set_result (Some l) h]> (sths w)) (with_lib e' w))).
    + split; [|split].
      * apply core_sth with (h := h); [done|done|done|done|congruence| | |].
        -- intros c. destruct (Ks c) as (_ & _ & ->). apply Hse.
        -- intros l'. rewrite Kr, Hx. simpl. destruct (decide (l' = old)) as [->|H1].
           { rewrite lookup_delete_eq. split; [by intros []|]. intros [[= ->]|[_ []]]; done. }
           rewrite lookup_delete_ne by done. destruct (decide (l' = l)) as [->|H2].
           { rewrite lookup_insert_eq. split; [by left|eauto]. }
           rewrite lookup_insert_ne by done. split; [right; split; [done|congruence]|].
           intros [[= ->]|[? _]]; done.
        -- intros l' [= <-]. by right.
      * apply only_sth_put with (h := h); [done|done|congruence].
      * intros c. simpl. destruct (Ks c) as (-> & _). apply Hse.
    + intros c. simpl. by destruct (Ks c) as (_ & -> & _).
    + eexists. simpl. by rewrite lookup_insert_eq.
  - apply (Hk (with_sths (<[s := set_result (Some l) h]> (sths w)) (with_lib e w))); [|done|].
    + split; [|split].
      * apply core_sth with (h := h); [done|done|done|done|done|intros c; apply Hse| |].
        -- intros l'. rewrite Hx, Hr. simpl. destruct (decide (l' = l)) as [->|H2].
           { rewrite lookup_insert_eq. split; [by left|eauto]. }
           rewrite lookup_insert_ne by done. split; [by right|]. intros [[= ->]|[? _]]; done.
        -- intros l' [= <-]. by right.
      * by apply only_sth_put with (h := h).
      * intros c. apply Hse.
    + eexists. simpl. by rewrite lookup_insert_eq.
Qed.

Lemma get_results_ends fuel s c fd w h :
  core w -> sths w !! s = Some h -> (pending (lib w) c < fuel)%nat ->
  ends (get_results fuel s c fd) w (fun _ => reading s w) (reading s w).
Proof.
  revert w h. induction fuel as [|k IH]; intros w h Hc Hs Hf; [lia|]. cbn [get_results].
  apply ends_bind. eapply ends_mono; [apply wait_result_ends; lia| |by intros; apply reading_lib].
  intros ok w1 [Ho Hp]. pose proof (reading_lib s w w1 Hc Ho) as Hr1.
  destruct ok; [|by apply ends_ret]. cbn [negb]. apply ends_pq.
  assert (sths w1 !! s = Some h) as Hs1 by (by destruct Ho as (e & -> & _)).
  pose proof (getResult_law c (lib w1)) as G.
  destruct (PQgetResult c (lib w1)) as [[l|] e]; simpl.
  - destruct G as (Gl & Gx & Gc & Gs & Gp). apply (ends_get_sth _ h); [done|].
    destruct Hr1 as (Hc1 & O1 & S1).
    apply take_result; try done. intros w2 R2 Hp2 (h2 & Hs2 & _).
    assert (reading s w w2) as R by (eapply reading_trans; [|done]; done).
    eapply ends_mono; [apply (IH w2 h2); [apply R2|done|]| |]; simpl.
    + rewrite Hp2. lia.
    + intros _ w3. by apply reading_trans.
    + intros w3. by apply reading_trans.
  - apply ends_ret. eapply reading_trans; [done|]. apply reading_lib; [apply Hr1|]. by exists e.
Qed.

(** ** Executing a statement *)

Lemma exec_error_ends s h d r w Q (X : dbw -> Prop) :
  core w -> sths w !! s = Some h -> dbhs w !! st_dbh h = Some d ->
  (r = None \/ r = st_result h) -> Q (-1) w -> (throws d = true -> X w) ->
  ends (exec_error s r) w Q X.
Proof.
  intros Hc Hs Hd Hr HQ HX. apply (ends_get_sth _ h); [done|]. apply (ends_get_dbh _ d); [done|].
  assert (forall l, st_result h = Some l -> is_Some (results (lib w) !! l)) as Hl
    by (intros l Hl; apply (c_owned _ Hc); eauto).
  destruct r as [l|].
  - destruct (Hl l) as [x Hx]; [naive_solver|]. apply (ends_get_result _ x); [done|].
    destruct (throws d); [by apply HX|done].
  - destruct (throws d); [by apply HX|done].
Qed.

(** The query [q] was sent on [c]. *)
Definition logged (c : loc) (q : bytes) w w' : Prop :=
  sent (lib w') c = sent (lib w) c ++ [q] /\
  forall c', c' <> c -> sent (lib w') c' = sent (lib w) c'.

(** A change of a statement handle that keeps its result, pool and database. *)
Lemma core_put_sth w s h h' :
  core w -> sths w !! s = Some h -> st_pool h' = st_pool h -> st_dbh h' = st_dbh h ->
  st_result h' = st_result h -> core (with_sths (<[s := h']> (sths w)) w).
Proof.
  intros Hc Hs Ep Ed Er. pose proof (core_sth w s h h' (lib w)) as H.
  replace (with_lib (lib w) w) with w in H by (by destruct w). apply H; try done.
  - intros l. rewrite Er. split; [|intros [Hl|[? _]]; [apply (c_owned _ Hc); eauto|done]].
    intros Hl. destruct (decide (st_result h = Some l)); [by left|by right].
  - intros l. rewrite Er. by left.
Qed.

Lemma reading_put w s h a n :
  core w -> sths w !! s = Some h -> (a = true -> 0 <= n) ->
  reading s w (with_sths (<[s := set_fetch a n h]> (sths w)) w).
Proof.
  intros Hc Hs Hf. split; [by apply (core_put_sth w s h)|]. split; [|done].
  assert (same_st h (set_fetch a n h)) as Hst by (repeat split; [done|by apply H]).
  pose proof (only_sth_put s w h (set_fetch a n h) (lib w) Hs Hst eq_refl) as O.
  replace (with_lib (lib w) w) with w in O by (by destruct w). exact O.
Qed.

Lemma query_result_ends s h d w :
  core w -> sths w !! s = Some h -> dbhs w !! st_dbh h = Some d ->
  ends (query_result s) w (fun _ => reading s w) (reading s w).
Proof.
  intros Hc Hs Hd. pose proof (reading_refl s w Hc) as Hr.
  apply (ends_get_sth _ h); [done|]. destruct (st_result h) as [l|] eqn:Hl.
  - assert (is_Some (results (lib w) !! l)) as [x Hx] by (apply (c_owned _ Hc); eauto).
    cbn [result_status]. apply ends_bind, (ends_get_result _ x), ends_ret; [done|].
    destruct (decide _); [|destruct (decide _)];
      [| |apply (exec_error_ends s h d); auto];
      apply ends_bind, ends_expect, (ends_result _ x); try done;
      apply ends_put_sth, ends_ret, reading_put; done.
  - apply ends_bind, ends_ret. rewrite !decide_False by done. apply (exec_error_ends s h d); auto.
Qed.

(** The state after a query [q] on [c], or after its sending has failed. *)
Definition ran (s c : loc) (q : bytes) (fail : Prop) w w' : Prop :=
  core w' /\ only_sth s w w' /\ (logged c q w w' \/ same_sent w w' /\ fail).

Lemma send_core c q w :
  core w -> core (with_lib (PQsendQuery c q (lib w)).2 w).
Proof.
  intros [H1 H2 H3 H4 H5 H6 H7 H8]. pose proof (sendQuery_law c q (lib w)) as L.
  destruct (PQsendQuery c q (lib w)) as [r e]. destruct L as (Lr & Lc & _ & _ & Ln).
  split; simpl; try done.
  - intros l. by rewrite Lr.
  - intros d' h' Hd'. rewrite Lc, Ln. by apply (H4 d').
Qed.

Lemma run_query_ends s h d q w :
  core w -> sths w !! s = Some h -> dbhs w !! st_dbh h = Some d ->
  ends (run_query s q) w (fun r => ran s (conn d) q (r = -1) w)
    (ran s (conn d) q (throws d = true) w).
Proof.
  intros Hc Hs Hd. apply (ends_get_sth _ h); [done|]. apply (ends_get_dbh _ d); [done|].
  apply ends_get_state. destruct (c_conn _ Hc _ _ Hd) as (_ & -> & _). cbn [negb].
  apply ends_pq. pose proof (send_core (conn d) q w Hc) as Hc1.
  pose proof (sendQuery_law (conn d) q (lib w)) as L.
  destruct (PQsendQuery (conn d) q (lib w)) as [r e]. cbn [fst snd] in *.
  destruct L as (Lr & Lc & Ls & Lo & Ln).
  pose proof (only_sth_lib s w e Lc) as Ho.
  destruct (decide (r = 1)) as [Hr|Hr].
  2: { assert (same_sent w (with_lib e w)) as Hse.
    { intros c. simpl. destruct (decide (c = conn d)) as [->|]; auto. }
    rewrite decide_True by done. apply (exec_error_ends s h d); unfold ran; auto. }
  rewrite decide_False by naive_solver. apply ends_get_state.
  assert (forall fail w', reading s (with_lib e w) w' -> ran s (conn d) q fail w w') as Hlog.
  { intros fail w' (Hc' & Ho' & Hse). split; [done|]. split; [by eapply only_sth_trans|].
    left. split; [by rewrite Hse|]. intros c Hne. rewrite Hse. by apply Lo. }
  apply ends_bind.
  eapply ends_mono; [apply (get_results_ends _ s _ _ _ h); [done|done|simpl; lia]| |by apply Hlog].
  intros ok w1 R1. pose proof R1 as (Hc' & Ho' & _).
  destruct (os_same _ _ _ Ho' h Hs) as (h1 & Hs1 & Hst).
  assert (dbhs w1 !! st_dbh h1 = Some d) as Hd1.
  { rewrite (os_dbhs _ _ _ Ho'). destruct Hst as (_ & -> & _). done. }
  destruct ok; cbn [negb].
  - eapply ends_mono; [by apply (query_result_ends s h1 d)| |];
      intros; eapply Hlog, reading_trans; eassumption.
  - apply (exec_error_ends s h1 d); auto.
Qed.

(** ** New handles *)

(** The new handle [s] of the database [d] and the statement [q]. *)
Record prepared (d : loc) (q : bytes) (types : list Z) (s : loc) w w' : Prop := {
  p_core : core w';
  p_fresh : sths w !! s = None;
  p_sth : exists p its, elems its = types /\
    sths w' = <[s := StHandle p d q (pstrresplit2 q re_qs) its None false uninit None]> (sths w);
  p_dbhs : dbhs w' = dbhs w;
  p_vars : vars w' = vars w;
  p_lib : lib w' = lib w
}.

Lemma prepared_fetchable p d q (its : vec Z) :
  length (filter (fun c => is_mark c = true) q) = length (elems its) ->
  fetchable (StHandle p d q (pstrresplit2 q re_qs) its None false uninit None).
Proof. intros Hl. split; [done|]. unfold enough. simpl. rewrite placeholders_marks. lia. Qed.

Lemma core_new_sth w d hd s p ps h :
  core w -> dbhs w !! d = Some hd -> sths w !! s = None ->
  new_subpool (db_pool hd) (db_pools w) = (p, ps) ->
  st_pool h = p -> st_dbh h = d -> st_result h = None ->
  core (with_db_pools (pool_register_cleanup_fn p (FinishHandle s) ps)
          (with_sths (<[s := h]> (sths w)) w)).
Proof.
  intros [H1 H2 H3 H4 H5 H6 H7 H8] Hd Hs Hsub Ep Ed Er.
  destruct (H4 _ _ Hd) as (_ & _ & Hlive).
  destruct (new_subpool_spec _ _ _ _ Hlive Hsub) as (Hf & Hc & Hw & Ho).
  assert (live ps p) as Hlp by (apply Hw; auto).
  destruct (register_spec p (FinishHandle s) ps Hlp) as (Rw & Rc & Ro).
  assert (forall x y, within (db_pools w) x y ->
    within (pool_register_cleanup_fn p (FinishHandle s) ps) x y) as Hmono
    by (intros x y Hxy; apply Rw, Hw; by left).
  assert (forall x, live (db_pools w) x -> x <> p) as Hne by (intros x Hx ->; by apply (Hf p)).
  split; simpl.
  - intros l. rewrite H1. split; intros (s' & h' & Hs' & Hl); exists s', h'.
    + rewrite lookup_insert_ne by congruence. done.
    + apply lookup_insert_Some in Hs' as [[<- <-]|[_ ?]]; [congruence|done].
  - intros s1 s2 h1 h2 l Hs1 Hs2 Hl1 Hl2.
    apply lookup_insert_Some in Hs1 as [[<- <-]|[_ Hs1]]; [congruence|].
    apply lookup_insert_Some in Hs2 as [[<- <-]|[_ Hs2]]; [congruence|]. by eapply H2.
  - intros s' h' Hs'. apply lookup_insert_Some in Hs' as [[<- <-]|[_ Hs']].
    + rewrite Ep, Ed. split; [by apply Rw|]. exists hd. split; [done|]. apply Rw, Hw. auto.
    + destruct (H3 s' h' Hs') as (Hl & d' & Hd' & Hin). eauto 6.
  - intros d' h' Hd'. destruct (H4 d' h' Hd') as (? & ? & ?). auto.
  - done.
  - intros x Hx. rewrite Rw, Hw in Hx. destruct (decide (x = p)) as [->|Hxp].
    + assert (cleanups (pool_register_cleanup_fn p (FinishHandle s) ps) p = [FinishHandle s]) as ->.
      { rewrite Hc in Rc. by apply Permutation_singleton_r in Rc. }
      split; [apply NoDup_singleton|]. intros c. rewrite list_elem_of_singleton. split.
      * intros ->. exists h. simpl. by rewrite lookup_insert_eq.
      * destruct c as [d'|s']; simpl.
        -- intros (h' & Hd' & Hp). exfalso. apply (Hne (db_pool h')); [by apply (H4 d')|done].
        -- intros (h' & Hs' & Hp). apply lookup_insert_Some in Hs' as [[<- <-]|[_ Hs']]; [done|].
           exfalso. apply (Hne (st_pool h')); [by apply (H3 s')|done].
    + destruct Hx as [Hx|[? _]]; [|done]. destruct (H6 x Hx) as [Hnd Hcx].
      rewrite Ro, Ho by done. split; [done|]. intros c. rewrite Hcx. destruct c as [d'|s']; [done|].
      simpl. split.
      * intros (h' & Hs' & Hp). exists h'. rewrite lookup_insert_ne by congruence. done.
      * intros (h' & Hs' & Hp). apply lookup_insert_Some in Hs' as [[<- <-]|[_ Hs']]; [congruence|eauto].
  - intros x y. rewrite !Rw, !Hw. naive_solver.
  - intros x y z. rewrite !Rw, !Hw. naive_solver.
Qed.

Lemma new_st_handle_ends d hd q types w :
  core w -> dbhs w !! d = Some hd -> Forall (fun t => DBI_MIN_TYPE <= t <= DBI_MAX_TYPE) types ->
  length (filter (fun c => is_mark c = true) q) = length types ->
  ends (new_st_handle uninit d q types) w (fun s w' => prepared d q types s w w') (fun _ => False).
Proof.
  intros Hc Hd Ht Hl. apply (ends_get_dbh _ hd); [done|]. apply ends_get_state.
  destruct (new_subpool (db_pool hd) (db_pools w)) as [p ps] eqn:Hsub.
  cbv zeta. destruct (prepare_types q types Ht Hl) as (its & -> & Hits). apply ends_expect, ends_put_sth.
  apply ends_get_state. apply ends_bind, ends_ret.
  assert (sths w !! fresh (dom (sths w)) = None) as Hf
    by (apply not_elem_of_dom, is_fresh).
  split; try done; simpl.
  - by eapply core_new_sth.
  - eauto.
Qed.

(** ** Transactions *)

(** The state after the queries of a connection. *)
Definition open_step (o : bool) (q : bytes) : bool :=
  if tx_begins q then true else if tx_ends q then false else o.
Definition open_tx (log : list bytes) : bool := foldl open_step false log.

(** Every query but those that begin a transaction was sent within one. *)
Definition inside (log : list bytes) : Prop :=
  forall l1 q l2, log = l1 ++ q :: l2 -> q = BEGIN \/ open_tx l1 = true.

(** What [st_execute] sends for a query [q]; [t] and [t'] are the flag
    [in_transaction] before and after. *)
Definition exec_log (q : bytes) (t t' : bool) (l l' : list bytes) : Prop :=
  exists more, l' = l ++ more /\
    if t then t' = true /\ (more = [] \/ more = [q])
    else if t' then more = [BEGIN] \/ more = [BEGIN; q]
    else more = [] \/ more = [BEGIN].

(** Handles other than [s] are as they were, and there may be new ones, with no
    columns bound. *)
Definition grows (s : loc) w w' : Prop :=
  (forall s' h, s' <> s -> sths w !! s' = Some h -> sths w' !! s' = Some h) /\
  (forall h, sths w !! s = Some h -> exists h', sths w' !! s = Some h' /\ same_st h h') /\
  (forall s' h', sths w' !! s' = Some h' -> sths w !! s' = None ->
     outtypes h' = None /\ fetchable h').

(** The effect of an execution of the query [q] on the database [dbh]. *)
Definition executed (s dbh : loc) (d : db_handle) (q : bytes) (t' : bool) w w' : Prop :=
  core w' /\ grows s w w' /\ vars w' = vars w /\
  dbhs w' = <[dbh := set_in_transaction t' d]> (dbhs w) /\
  exec_log q (in_transaction d) t' (sent (lib w) (conn d)) (sent (lib w') (conn d)) /\
  forall c, c <> conn d -> sent (lib w') c = sent (lib w) c.

Lemma only_grows s w w' : is_Some (sths w !! s) -> only_sth s w w' -> grows s w w'.
Proof.
  intros [h Hh] [_ _ _ Ho Hs _]. split; [intros s' h1 Hne; by rewrite Ho|]. split; [done|].
  intros s' h' H' Hn. rewrite Ho in H' by congruence. congruence.
Qed.

Lemma grows_trans s w1 w2 w3 :
  is_Some (sths w1 !! s) -> grows s w1 w2 -> grows s w2 w3 -> grows s w1 w3.
Proof.
  intros [h1 H1] (A1 & A2 & A3) (B1 & B2 & B3). split; [eauto|].
  assert (forall h, sths w1 !! s = Some h -> exists h', sths w3 !! s = Some h' /\ same_st h h') as C2.
  { intros h Hh. destruct (A2 h Hh) as (h2 & H2 & S2). destruct (B2 h2 H2) as (h3 & H3 & S3).
    exists h3. split; [done|]. by eapply same_st_trans. }
  split; [done|]. intros s' h' H' Hn. assert (s' <> s) as Hne by congruence.
  destruct (sths w2 !! s') as [h2|] eqn:E2; [|by apply (B3 s')].
  rewrite (B1 s' h2 Hne E2) in H'. injection H' as <-. by apply (A3 s').
Qed.

(** An execution within a transaction. *)
Lemma execute_inside n s h d q args w :
  core w -> sths w !! s = Some h -> dbhs w !! st_dbh h = Some d -> in_transaction d = true ->
  substitute junk (vector_size (query h)) 0 0 (query h) (intypes h) args [] = Some q ->
  ends (st_execute junk uninit (S n) s args) w (fun r => ran s (conn d) q (r = -1) w)
    (ran s (conn d) q (throws d = true) w).
Proof.
  intros Hc Hs Hd Ht Hq. cbn [st_execute]. apply (ends_get_sth _ h); [done|].
  rewrite Hq. apply ends_expect, (ends_get_dbh _ d); [done|]. rewrite Ht. by apply (run_query_ends s h).
Qed.

Lemma set_transaction_id d : set_in_transaction (in_transaction d) d = d.
Proof. by destruct d. Qed.

Lemma ran_executed s (h : st_handle) d q fail w w' :
  sths w !! s = Some h -> dbhs w !! st_dbh h = Some d -> in_transaction d = true ->
  ran s (conn d) q fail w w' -> executed s (st_dbh h) d q true w w'.
Proof.
  intros Hs Hd Ht (Hc & Ho & Hl). split; [done|]. split; [by apply only_grows|].
  split; [apply Ho|]. split.
  { rewrite <- Ht, set_transaction_id. rewrite insert_id by done. apply Ho. }
  rewrite Ht. destruct Hl as [[Hl Hoth]|[Hl _]]; (split; [|auto]).
  - exists [q]. auto.
  - exists []. rewrite app_nil_r. auto.
Qed.

(** A change of a database handle that keeps its pool and connection. *)
Lemma core_dbh w d h h' :
  core w -> dbhs w !! d = Some h -> db_pool h' = db_pool h -> conn h' = conn h ->
  core (with_dbhs (<[d := h']> (dbhs w)) w).
Proof.
  intros [H1 H2 H3 H4 H5 H6 H7 H8] Hd Ep Ec.
  assert (forall d1 h1, <[d := h']> (dbhs w) !! d1 = Some h1 ->
    exists h2, dbhs w !! d1 = Some h2 /\ db_pool h1 = db_pool h2 /\ conn h1 = conn h2) as Hx.
  { intros d1 h1. rewrite lookup_insert_Some. intros [[<- <-]|[_ ?]]; eauto. }
  split; simpl; try done.
  - intros s1 h1 Hs1. destruct (H3 s1 h1 Hs1) as (Hl & d1 & Hd1 & Hin). split; [done|].
    destruct (decide (st_dbh h1 = d)) as [E1|Hne].
    + rewrite E1, lookup_insert_eq. exists h'. split; [done|]. rewrite Ep. congruence.
    + rewrite lookup_insert_ne by done. eauto.
  - intros d1 h1 (h2 & Hd2 & -> & ->)%Hx. by apply (H4 d1).
  - intros d1 d2 h1 h2 (h3 & Hd3 & _ & E3)%Hx (h4 & Hd4 & _ & E4)%Hx Hcc.
    apply (H5 d1 d2 h3 h4); congruence.
  - intros x Hlx. destruct (H6 x Hlx) as [Hnd Hc]. split; [done|]. intros c. rewrite Hc.
    destruct c as [d1|s1]; [|done]. simpl. split.
    + intros (h1 & Hd1 & Hp). destruct (decide (d1 = d)) as [->|Hne].
      * exists h'. rewrite lookup_insert_eq. split; [done|]. rewrite Ep. congruence.
      * exists h1. by rewrite lookup_insert_ne.
    + intros (h1 & (h2 & Hd2 & E2 & _)%Hx & Hp). exists h2. split; [done|]. congruence.
Qed.

(** After an exception from the statement that begins a transaction. *)
Definition broken_begin (s dbh : loc) (d : db_handle) w w' : Prop :=
  throws d = true /\ core w' /\ grows s w w' /\ vars w' = vars w /\
  dbhs w' = <[dbh := set_in_transaction true d]> (dbhs w) /\ same_sent w w'.

Lemma prepared_lookup d q types s s' h w w' :
  prepared d q types s w w' -> sths w !! s' = Some h -> sths w' !! s' = Some h /\ s' <> s.
Proof.
  intros [_ Hf (p & its & _ & E1) _ _ _] Hs. assert (s' <> s) as Hne by congruence.
  rewrite E1, lookup_insert_ne by done. done.
Qed.

Lemma begun_grows s bw w w1 w' h :
  sths w1 = <[bw := h]> (sths w) -> outtypes h = None -> fetchable h ->
  (forall s' h', sths w !! s' = Some h' -> sths w' !! s' = Some h') ->
  (forall s', s' <> bw -> sths w' !! s' = sths w1 !! s') ->
  (forall h, sths w1 !! bw = Some h -> exists h', sths w' !! bw = Some h' /\ same_st h h') ->
  grows s w w'.
Proof.
  intros E1 Ho Hf Hall Hne Hbw. split; [auto|]. split.
  { intros h0 Hh0. exists h0. split; [auto|apply same_st_refl]. }
  intros s' h' H' Hn. destruct (decide (s' = bw)) as [->|Hs'].
  - destruct (Hbw h) as (h2 & H2 & (_ & _ & _ & _ & E2 & F2)); [by rewrite E1, lookup_insert_eq|].
    rewrite H' in H2. injection H2 as <-. split; [congruence|auto].
  - rewrite Hne, E1, lookup_insert_ne in H' by done. congruence.
Qed.

(** Beginning a transaction. *)
Lemma begin_ends s h d w :
  core w -> sths w !! s = Some h -> dbhs w !! st_dbh h = Some d ->
  let w0 := with_dbhs (<[st_dbh h := set_in_transaction true d]> (dbhs w)) w in
  let post fail w' := core w' /\ grows s w w' /\ sths w' !! s = Some h /\ vars w' = vars w /\
    dbhs w' = dbhs w0 /\ (logged (conn d) BEGIN w w' \/ same_sent w w' /\ fail) in
  ends (bw ← new_st_handle uninit (st_dbh h) (lit "begin work") []; st_execute junk uninit 1 bw [])
    w0 (fun r => post (r = -1)) (post (throws d = true)).
Proof.
  intros Hc Hs Hd w0 post.
  assert (core w0) as Hc0 by (by apply (core_dbh w _ d)).
  apply ends_bind. eapply ends_mono;
    [eapply (new_st_handle_ends (st_dbh h) (set_in_transaction true d)); [done| |done|done]| |done].
  { simpl. by rewrite lookup_insert_eq. }
  intros bw w1 P1. pose proof (prepared_lookup _ _ _ _ s h _ _ P1 Hs) as [Hs1 Hne].
  assert (forall s' h', sths w !! s' = Some h' -> sths w1 !! s' = Some h' /\ s' <> bw) as Hold
    by (intros s' h'; by apply (prepared_lookup _ _ _ _ s' h' w0 w1 P1)).
  destruct P1 as [Hc1 _ (p & its & Hits & E1) Hd1 Hv1 Hl1].
  assert (dbhs w1 !! st_dbh h = Some (set_in_transaction true d)) as Hdd
    by (rewrite Hd1; simpl; by rewrite lookup_insert_eq).
  assert (forall fail w', ran bw (conn d) BEGIN fail w1 w' -> post fail w') as Hpost.
  { intros fail w' (Hc' & [O1 O2 O3 O4 O5 _] & Hlog). split; [done|].
    assert (forall s' h', sths w !! s' = Some h' -> sths w' !! s' = Some h') as Hall.
    { intros s' h' H1. destruct (Hold s' h' H1). rewrite O4 by done. done. }
    split; [apply (begun_grows s bw w w1 w' _ E1); try done; apply prepared_fetchable; by rewrite Hits|].
    split; [auto|]. split; [by rewrite O3, Hv1|]. split; [by rewrite O2, Hd1|].
    unfold logged, same_sent in *. by rewrite Hl1 in Hlog. }
  eapply ends_mono; [eapply (execute_inside 0 bw _ (set_in_transaction true d) BEGIN);
    [done|by rewrite E1, lookup_insert_eq|done|done|]| |].
  - simpl. apply substitute_plain. by repeat constructor.
  - intros r w'. apply Hpost.
  - intros w'. apply Hpost.
Qed.

(** The flag is reset when the transaction could not be begun. *)
Lemma executed_failed s dbh d q w w2 :
  in_transaction d = false -> core w2 -> grows s w w2 -> vars w2 = vars w ->
  dbhs w2 = <[dbh := set_in_transaction true d]> (dbhs w) ->
  logged (conn d) BEGIN w w2 \/ same_sent w w2 ->
  executed s dbh d q false w (with_dbhs (<[dbh := set_in_transaction false d]> (dbhs w2)) w2).
Proof.
  intros Ht Hc Hg Hv Hd Hl. split.
  { apply (core_dbh w2 dbh (set_in_transaction true d)); [done| |done|done].
    rewrite Hd. apply lookup_insert_eq. }
  split; [done|]. split; [done|].
  split; [simpl; rewrite Hd; apply insert_insert_eq|].
  rewrite Ht. destruct Hl as [[Hl Ho]|Hl]; (split; [|auto]).
  - exists [BEGIN]. auto.
  - exists []. rewrite app_nil_r. auto.
Qed.

(** The query follows in the new transaction. *)
Lemma executed_begun s dbh d q fail w w2 w3 :
  in_transaction d = false -> is_Some (sths w !! s) -> grows s w w2 -> vars w2 = vars w ->
  dbhs w2 = <[dbh := set_in_transaction true d]> (dbhs w) -> logged (conn d) BEGIN w w2 ->
  ran s (conn d) q fail w2 w3 -> executed s dbh d q true w w3.
Proof.
  intros Ht Hs Hg Hv Hd [Hl Ho] (Hc3 & Ho3 & Hl3). split; [done|].
  split.
  { eapply grows_trans; [done|done|]. apply only_grows; [|done]. destruct Hs as [h Hs].
    destruct Hg as (_ & Hg & _). destruct (Hg h Hs) as (h2 & H2 & _). by eexists. }
  split; [by rewrite (os_vars _ _ _ Ho3)|]. split; [by rewrite (os_dbhs _ _ _ Ho3)|].
  rewrite Ht. destruct Hl3 as [[Hl3 Ho3']|[Hl3 _]].
  - split; [exists [BEGIN; q]; rewrite Hl3, Hl, <- app_assoc; auto|].
    intros c Hne. rewrite Ho3', Ho; done.
  - split; [exists [BEGIN]; rewrite Hl3, Hl; auto|]. intros c Hne. rewrite Hl3, Ho; done.
Qed.

Lemma st_execute_ends s h d q args w :
  core w -> sths w !! s = Some h -> dbhs w !! st_dbh h = Some d ->
  substitute junk (vector_size (query h)) 0 0 (query h) (intypes h) args [] = Some q ->
  ends (st_execute junk uninit 2 s args) w
    (fun _ w' => exists t', executed s (st_dbh h) d q t' w w')
    (fun w' => (exists t', executed s (st_dbh h) d q t' w w') \/ broken_begin s (st_dbh h) d w w').
Proof.
  intros Hc Hs Hd Hq. destruct (in_transaction d) eqn:Ht.
  { eapply ends_mono; [by eapply (execute_inside 1 s h d q)| |].
    - intros r w' Hr. exists true. exact (ran_executed s h d q _ w w' Hs Hd Ht Hr).
    - intros w' Hr. left. exists true. exact (ran_executed s h d q _ w w' Hs Hd Ht Hr). }
  remember 1%nat as one eqn:E1. cbn [st_execute]. subst one. apply (ends_get_sth _ h); [done|].
  rewrite Hq. apply ends_expect, (ends_get_dbh _ d); [done|]. rewrite Ht. apply ends_put_dbh.
  pose proof (begin_ends s h d w Hc Hs Hd) as HB. cbv zeta in HB.
  eapply ends_bind2; [exact HB| |]; clear HB.
  - intros r w2 (Hc2 & Hg2 & Hs2 & Hv2 & Hd2 & Hl2). simpl in Hd2.
    assert (dbhs w2 !! st_dbh h = Some (set_in_transaction true d)) as Hdd
      by (rewrite Hd2; apply lookup_insert_eq).
    destruct (decide (r = -1)) as [->|Hr].
    + apply (ends_get_dbh _ (set_in_transaction true d)); [done|]. apply ends_put_dbh.
      assert (executed s (st_dbh h) d q false w
        (with_dbhs (<[st_dbh h := set_in_transaction false d]> (dbhs w2)) w2)) as He
        by (apply executed_failed; try done; tauto).
      eapply (exec_error_ends s h); [apply He|done|apply lookup_insert_eq|by left|eauto|eauto].
    + destruct Hl2 as [Hl2|[_ ?]]; [|done].
      eapply ends_mono; [by eapply (run_query_ends s h (set_in_transaction true d))| |].
      * intros r3 w3 Hr3. exists true.
        exact (executed_begun s (st_dbh h) d q _ w w2 w3 Ht (mk_is_Some _ _ Hs) Hg2 Hv2 Hd2 Hl2 Hr3).
      * intros w3 Hr3. left. exists true.
        exact (executed_begun s (st_dbh h) d q _ w w2 w3 Ht (mk_is_Some _ _ Hs) Hg2 Hv2 Hd2 Hl2 Hr3).
  - intros w2 (Hc2 & Hg2 & Hs2 & Hv2 & Hd2 & Hl2).
    destruct Hl2 as [[Hl Ho]|[Hl Hth]]; [left|right; done]. exists true.
    split; [done|]. split; [done|]. split; [done|]. split; [done|]. rewrite Ht.
    split; [|done]. exists [BEGIN]. auto.
Qed.

(** ** The log of the server *)

Lemma open_tx_snoc l q : open_tx (l ++ [q]) = open_step (open_tx l) q.
Proof. unfold open_tx. by rewrite foldl_app. Qed.

Lemma inside_snoc l q : inside l -> q = BEGIN \/ open_tx l = true -> inside (l ++ [q]).
Proof.
  intros Hl Hq l1 q1 l2 E1. destruct l2 as [|q2 l2 _] using rev_ind.
  - apply app_inj_tail in E1 as [-> ->]. done.
  - rewrite app_comm_cons, app_assoc in E1. apply app_inj_tail in E1 as [-> _]. by eapply Hl.
Qed.

Lemma inside_nil : inside [].
Proof. by intros [|] ? ?. Qed.

Lemma exec_log_inside q t t' l l' :
  exec_log q t t' l l' -> inside l -> (t = true -> open_tx l = true) -> inside l'.
Proof.
  intros (more & -> & Hm) Hl Ho. destruct t; [destruct Hm as [-> [->| ->]]|destruct t'].
  - by rewrite app_nil_r.
  - apply inside_snoc; auto.
  - destruct Hm as [->| ->]; [by apply inside_snoc; auto|].
    change [BEGIN; q] with ([BEGIN] ++ [q]). rewrite app_assoc.
    apply inside_snoc; [by apply inside_snoc; auto|]. right. by rewrite open_tx_snoc; unfold open_step; rewrite begin_law.
  - destruct Hm as [->| ->]; [by rewrite app_nil_r|]. apply inside_snoc; auto.
Qed.

(** Queries other than those about transactions. *)
Definition plain_query (q : bytes) : Prop := tx_begins q = false /\ tx_ends q = false.

Lemma open_begin o : open_step o BEGIN = true.
Proof. unfold open_step. by rewrite begin_law. Qed.

Lemma exec_log_open q t t' l l' :
  exec_log q t t' l l' -> plain_query q -> (t = true -> open_tx l = true) ->
  t' = true -> open_tx l' = true.
Proof.
  intros (more & -> & Hm) [Hb He] Ho ->.
  assert (forall o, open_step o q = o) as Hq by (intros o; unfold open_step; by rewrite Hb, He).
  destruct t; [destruct Hm as [_ [->| ->]]|destruct Hm as [->| ->]].
  - rewrite app_nil_r. auto.
  - rewrite open_tx_snoc, Hq. auto.
  - by rewrite open_tx_snoc, open_begin.
  - change [BEGIN; q] with ([BEGIN] ++ [q]). rewrite app_assoc, !open_tx_snoc, open_begin. apply Hq.
Qed.

(** No transaction is open, unless a command to begin one was the last that was sent:
    the server did not accept it. *)
Definition closed_tx (log : list bytes) : Prop := open_tx log = false \/ last log = Some BEGIN.

Lemma exec_log_closed q t t' l l' :
  exec_log q t t' l l' -> (t = false -> closed_tx l) -> t' = false -> closed_tx l'.
Proof.
  intros (more & -> & Hm) Hl ->. destruct t; [by destruct Hm as [? _]|].
  destruct Hm as [->| ->]; [by rewrite app_nil_r; apply Hl|]. right. by rewrite last_snoc.
Qed.

(** The flag of a handle is right, for handles whose errors are not exceptions: it is
    set only within a transaction and, if [all] is true, it is clear only outside. *)
Definition tx_ok (all : bool) w : Prop := forall d h, dbhs w !! d = Some h -> throws h = false ->
  inside (sent (lib w) (conn h)) /\
  (in_transaction h = true -> open_tx (sent (lib w) (conn h)) = true) /\
  (all = true -> in_transaction h = false -> closed_tx (sent (lib w) (conn h))).

Lemma executed_tx all s dbh d q t' w w' :
  core w -> tx_ok all w -> dbhs w !! dbh = Some d -> executed s dbh d q t' w w' ->
  plain_query q -> tx_ok all w'.
Proof.
  intros Hc Htx Hd (_ & _ & _ & Hd' & Hl & Ho) Hq d1 h1. rewrite Hd'.
  rewrite lookup_insert_Some. intros [[<- <-]|[Hne H1]] Hth.
  - destruct (Htx _ _ Hd Hth) as (Hi & Hop & Hcl). simpl. split_and!.
    + by eapply exec_log_inside.
    + by eapply exec_log_open.
    + intros Ha. eapply exec_log_closed; [done|auto].
  - rewrite (Ho (conn h1)); [by apply (Htx d1)|].
    intros E1. by apply Hne, (c_conns _ Hc dbh d1 d h1).
Qed.
End spec.
