(* ===== verification/DbiOps.v ===== *)
(** * Operations on database handles

    The variables that results are fetched into, the operations a program can
    make on database and statement handles, and the invariant of all of them. *)

From stdpp Require Import base list gmap.
From Stdlib Require Import Strings.Byte.
From S2P Require Import Prelude C2lib ReactorTimers Prog Cstring Regex DbiTime DbiQuery Dbi DbiSpec.

(** ** The types of variables *)

Inductive var_kind := KString | KInt | KChar | KTimestamp | KInterval.

#[export] Instance var_kind_eq : EqDecision var_kind.
Proof. solve_decision. Defined.

Definition kind_of (x : dbi_value) : var_kind :=
  match x with
  | VString _ => KString
  | VInt _ => KInt
  | VChar _ => KChar
  | VTimestamp _ => KTimestamp
  | VInterval _ => KInterval
  end.

(** The kind of variable that a column type needs. *)
Definition type_kind (t : Z) : option var_kind :=
  if decide (t = DBI_STRING) then Some KString
  else if decide (t = DBI_INT \/ t = DBI_INT_OR_NULL \/ t = DBI_BOOL) then Some KInt
  else if decide (t = DBI_CHAR) then Some KChar
  else if decide (t = DBI_TIMESTAMP) then Some KTimestamp
  else if decide (t = DBI_INTERVAL) then Some KInterval
  else None.

Definition is_int (n : Z) : Prop := INT_MIN <= n <= INT_MAX.
Definition value_ok (x : dbi_value) : Prop := match x with VInt n => is_int n | _ => True end.

Lemma scan_int_range s n t : scan_int s = Some (n, t) -> is_int n.
Proof.
  unfold scan_int, is_int. destruct (skip_spaces s) as [|b r]; [done|].
  assert (forall v, INT_MIN <= Z.max INT_MIN (Z.min INT_MAX v) <= INT_MAX) as Hc
    by (unfold INT_MIN, INT_MAX; lia).
  destruct (decide _); [|destruct (decide _)];
    match goal with |- context [scan_uint 10 ?l] => destruct (scan_uint 10 l) as [[v r']|] end;
    simpl; try done; intros [= <- <-]; apply Hc.
Qed.

#[export] Instance db_cleanup_eq : EqDecision db_cleanup.
Proof. solve_decision. Defined.

Lemma concat_bind {A B} (f : A -> list B) l : concat (f <$> l) = l ≫= f.
Proof. induction l as [|a l IH]; [done|]. cbn. by f_equal. Qed.

Section ops.
Context {vec : Type -> Type} `{VL : Vector vec} `{PR : !Pre vec} `{PV : !PstringVec vec}.
Context {E : Type} `{PQ : Libpq E} `{LL : !LibpqLaws E} `{PL : Pools db_cleanup} `{TX : TxCommands}.
Context (junk : nat -> byte) (uninit : Z).
Abbreviation dbw := (dbw (vec := vec) (E := E)).
Abbreviation st_handle := (st_handle (vec := vec)).
Implicit Types w : dbw.

Definition bound_ok (vs : gmap loc dbi_value) (ot : otype) : Prop :=
  forall var, varptr ot = Some var -> ot_type ot <> 0 ->
  exists x, vs !! var = Some x /\ type_kind (ot_type ot) = Some (kind_of x).

Record typed w : Prop := {
  t_bound : forall s h v, sths w !! s = Some h -> outtypes h = Some v ->
    Forall (bound_ok (vars w)) (elems v);
  t_vars : forall var x, vars w !! var = Some x -> value_ok x;
  t_fetch : forall s h, sths w !! s = Some h -> fetchable h
}.

(** Variables keep their kind and hold proper values. *)
Definition vars_kept (vs vs' : gmap loc dbi_value) : Prop :=
  (forall var x, vs !! var = Some x -> exists x', vs' !! var = Some x' /\ kind_of x' = kind_of x) /\
  ((forall var x, vs !! var = Some x -> value_ok x) -> forall var x, vs' !! var = Some x -> value_ok x).

Lemma vars_kept_refl vs : vars_kept vs vs.
Proof. split; [eauto|done]. Qed.

Lemma vars_kept_trans vs1 vs2 vs3 : vars_kept vs1 vs2 -> vars_kept vs2 vs3 -> vars_kept vs1 vs3.
Proof.
  intros [A1 A2] [B1 B2]. split; [|by intros H; apply B2, A2].
  intros var x Hx. destruct (A1 var x Hx) as (y & Hy & Ky).
  destruct (B1 var y Hy) as (z & Hz & Kz). exists z. split; [done|congruence].
Qed.

Lemma vars_kept_insert vs var x x' :
  vs !! var = Some x -> kind_of x' = kind_of x -> value_ok x' -> vars_kept vs (<[var := x']> vs).
Proof.
  intros Hx Hk Hok. split.
  - intros var1 y Hy. destruct (decide (var1 = var)) as [->|Hne].
    + rewrite lookup_insert_eq. exists x'. split; [done|congruence].
    + rewrite lookup_insert_ne by done. eauto.
  - intros Hall var1 y. rewrite lookup_insert_Some. intros [[_ <-]|[_ ?]]; eauto.
Qed.

Lemma bound_kept vs vs' ot : vars_kept vs vs' -> bound_ok vs ot -> bound_ok vs' ot.
Proof.
  intros [Hk _] Hb var Hv Ht. destruct (Hb var Hv Ht) as (x & Hx & Hkx).
  destruct (Hk var x Hx) as (x' & Hx' & E'). exists x'. by rewrite E'.
Qed.

(** Only variables changed, each to a value of its kind. *)
Definition stored w w' : Prop := exists vs, w' = with_vars vs w /\ vars_kept (vars w) vs.

Lemma stored_refl w : stored w w.
Proof. exists (vars w). split; [by destruct w|apply vars_kept_refl]. Qed.

Lemma stored_trans w1 w2 w3 : stored w1 w2 -> stored w2 w3 -> stored w1 w3.
Proof.
  intros (v2 & -> & K2) (v3 & -> & K3). exists v3. split; [done|]. by eapply vars_kept_trans.
Qed.

Lemma stored_set w var x x' :
  vars w !! var = Some x -> kind_of x' = kind_of x -> value_ok x' ->
  stored w (with_vars (<[var := x']> (vars w)) w).
Proof. intros Hx Hk Hok. eexists. split; [done|]. by eapply vars_kept_insert. Qed.

Lemma ends_set_var w var x x' :
  vars w !! var = Some x -> kind_of x' = kind_of x -> value_ok x' ->
  ends (set_var var x') w (fun _ => stored w) (stored w).
Proof. intros. by eapply stored_set. Qed.

(** A parser that changes no state. *)
Lemma ends_parse {A B} (m : prog dbw A) (k : A -> prog dbw B) w msg Q (X : dbw -> Prop) :
  returns_in w m \/ m w = Die msg w -> (forall a, ends (k a) w Q X) -> X w ->
  ends (m ≫= k) w Q X.
Proof.
  intros [[a Ha]|Hd] Hk HX; apply ends_bind; unfold ends at 1; [rewrite Ha; apply Hk|by rewrite Hd].
Qed.

Lemma store_ends l i j t var r x w :
  vars w !! var = Some x -> type_kind t = Some (kind_of x) ->
  ends (store l i j t var r) w (fun _ => stored w) (stored w).
Proof.
  intros Hx. unfold type_kind, store.
  destruct (decide (t = DBI_STRING)) as [->|N1].
  { intros [= Hk]. by eapply ends_set_var. }
  destruct (decide (t = DBI_INT \/ t = DBI_INT_OR_NULL \/ t = DBI_BOOL)) as [HI|NI].
  { intros [= Hk]. assert (forall n, is_int n -> ends (set_var var (VInt n)) w (fun _ => stored w) (stored w))
      as Hset by (intros n Hn; by eapply ends_set_var).
    assert (is_int 0 /\ is_int 1) as [H0 H1] by (unfold is_int, INT_MIN, INT_MAX; lia).
    destruct (decide (t = DBI_INT \/ t = DBI_INT_OR_NULL)) as [_|NI].
    - destruct r as [s|]; [|by apply Hset]. destruct (scan_int s) as [[n q]|] eqn:Es.
      + apply scan_int_range in Es. by apply Hset.
      + apply ends_ret, stored_refl.
    - rewrite decide_True by tauto. apply Hset. destruct r as [s|]; [|done]. by destruct (decide _). }
  rewrite (decide_False (P := t = DBI_INT \/ t = DBI_INT_OR_NULL)) by tauto.
  rewrite (decide_False (P := t = DBI_BOOL)) by tauto.
  destruct (decide (t = DBI_CHAR)) as [->|N2]; [intros [= Hk]; by eapply ends_set_var|].
  assert (forall x1 x2, kind_of x1 = kind_of x -> kind_of x2 = kind_of x -> value_ok x1 -> value_ok x2 ->
    let w1 := with_vars (<[var := x1]> (vars w)) w in
    stored w w1 /\ ends (set_var var x2) w1 (fun _ => stored w) (stored w)) as Htwo.
  { intros x1 x2 K1 K2 V1 V2 w1. assert (stored w w1) as S1 by (by eapply stored_set). split; [done|].
    eapply ends_mono; [eapply (ends_set_var w1 var x1 x2); [apply lookup_insert_eq|congruence|done]| |];
      intros; by eapply stored_trans. }
  destruct (decide (t = DBI_TIMESTAMP)) as [->|N3].
  { intros [= Hk]. destruct r as [s|]; [|by eapply ends_set_var]. apply ends_bind. unfold ends at 1. simpl.
    eapply ends_parse; [apply parse_timestamp_total|intros t; by apply Htwo|].
    by apply (Htwo (VTimestamp zero_timestamp) (VTimestamp zero_timestamp)). }
  destruct (decide (t = DBI_INTERVAL)) as [->|N4]; [|done].
  intros [= Hk]. destruct r as [s|]; [|by eapply ends_set_var]. apply ends_bind. unfold ends at 1. simpl.
  eapply ends_parse; [apply parse_interval_total|intros t; by apply Htwo|].
  by apply (Htwo (VInterval zero_interval) (VInterval zero_interval)).
Qed.

Lemma fetch_columns_ends n j l x i v w :
  (j + n = vector_size v)%nat -> Forall (bound_ok (vars w)) (elems v) ->
  ends (fetch_columns n j l x i v) w (fun _ => stored w) (stored w).
Proof.
  revert j w. induction n as [|n IH]; intros j w Hj Hb; cbn [fetch_columns];
    [apply ends_ret, stored_refl|].
  destruct (lookup_lt_is_Some_2 (elems v) j) as [ot Hot]; [rewrite <- size_elems; lia|].
  rewrite get_elems, Hot by (rewrite <- size_elems; lia).
  apply ends_expect.
  assert (bound_ok (vars w) ot) as Hbo by (by eapply Forall_lookup_1).
  assert (forall w', stored w w' -> ends (fetch_columns n (S j) l x i v) w' (fun _ => stored w) (stored w))
    as Hrest.
  { intros w' Hw'. eapply ends_mono; [apply IH; [lia|]| |]; [|intros; by eapply stored_trans..].
    destruct Hw' as (vs & -> & Hk). eapply Forall_impl; [done|]. intros o. by apply bound_kept. }
  apply ends_bind. destruct (varptr ot) as [var|] eqn:Ev; [|apply ends_ret, Hrest, stored_refl].
  destruct (decide (ot_type ot <> 0)) as [Ht|Ht]; [|apply ends_ret, Hrest, stored_refl].
  destruct (Hbo var Ev Ht) as (y & Hy & Hk).
  eapply ends_mono; [by eapply store_ends|intros ? w'; apply Hrest|done].
Qed.

(** ** The invariant of all operations *)

Definition inv w : Prop := core w /\ typed w.

(** An operation keeps the invariant, and what is known of transactions. *)
Definition kept w w' : Prop := inv w' /\ forall all, tx_ok all w -> tx_ok all w'.

(** Nothing was sent, database handles are as they were and variables keep their
    kind. *)
Definition calm w w' : Prop :=
  kept w w' /\ dbhs w' = dbhs w /\ vars_kept (vars w) (vars w').

Lemma kept_refl w : inv w -> kept w w.
Proof. done. Qed.

Lemma kept_trans w1 w2 w3 : kept w1 w2 -> kept w2 w3 -> kept w1 w3.
Proof. intros [_ T1] [I2 T2]. split; [done|auto]. Qed.

Lemma calm_refl w : inv w -> calm w w.
Proof. intros Hi. split; [by apply kept_refl|]. split; [done|apply vars_kept_refl]. Qed.

Lemma calm_trans w1 w2 w3 : calm w1 w2 -> calm w2 w3 -> calm w1 w3.
Proof.
  intros (K1 & D1 & V1) (K2 & D2 & V2). split; [by eapply kept_trans|].
  split; [congruence|by eapply vars_kept_trans].
Qed.

Lemma tx_same w w' : dbhs w' = dbhs w -> same_sent w w' -> forall all, tx_ok all w -> tx_ok all w'.
Proof. intros Hd Hs all Ht d h. rewrite Hd, Hs. apply Ht. Qed.

Lemma typed_grows s w w' :
  is_Some (sths w !! s) -> typed w -> grows s w w' -> vars w' = vars w -> typed w'.
Proof.
  intros [h0 H0] [T1 T2 T3] (G1 & G2 & G3) Ev.
  assert (forall s' h', sths w' !! s' = Some h' ->
    (exists h, sths w !! s' = Some h /\ outtypes h' = outtypes h /\ (fetchable h -> fetchable h')) \/
    outtypes h' = None /\ fetchable h') as Hx.
  { intros s' h' H'. destruct (sths w !! s') as [h|] eqn:E1; [left|right; by apply (G3 s')].
    exists h. split; [done|]. destruct (decide (s' = s)) as [->|Hne].
    - destruct (G2 h E1) as (h2 & H2 & S2). rewrite H' in H2. injection H2 as <-. split; apply S2.
    - rewrite (G1 s' h Hne E1) in H'. by injection H' as <-. }
  split; rewrite ?Ev; [|done|].
  - intros s' h' v [(h & Hh & Eo & _)|[En _]]%Hx Hv; [|congruence]. apply (T1 s' h); [done|congruence].
  - intros s' h' [(h & Hh & _ & Hf)|[_ Hf]]%Hx; [|done]. by apply Hf, (T3 s').
Qed.

Lemma inv_stored w w' : inv w -> stored w w' -> calm w w'.
Proof.
  intros [[H1 H2 H3 H4 H5 H6 H7 H8] [T1 T2 T3]] (vs & -> & Hk). split; [|done].
  split; [split; split; try done|done].
  - intros s h v Hs Hv. eapply Forall_impl; [by eapply T1|]. intros ot. by apply bound_kept.
  - apply Hk, T2.
Qed.

Lemma typed_put w s h h' :
  typed w -> sths w !! s = Some h -> fetchable h' ->
  (forall v, outtypes h' = Some v -> Forall (bound_ok (vars w)) (elems v)) ->
  typed (with_sths (<[s := h']> (sths w)) w).
Proof.
  intros [T1 T2 T3] Hs Hf Ho. split; simpl; [|done|].
  - intros s' h1 v. rewrite lookup_insert_Some. intros [[_ <-]|[_ ?]]; eauto.
  - intros s' h1. rewrite lookup_insert_Some. intros [[_ <-]|[_ ?]]; eauto.
Qed.

(** A change of a handle that keeps its result. *)
Lemma inv_put_sth w s h h' :
  inv w -> sths w !! s = Some h -> st_pool h' = st_pool h -> st_dbh h' = st_dbh h ->
  st_result h' = st_result h -> fetchable h' ->
  (forall v, outtypes h' = Some v -> Forall (bound_ok (vars w)) (elems v)) ->
  kept w (with_sths (<[s := h']> (sths w)) w).
Proof.
  intros [Hc Ht] Hs Ep Ed Er Hf Ho. split; [split|done].
  - by apply (core_put_sth w s h).
  - by apply (typed_put w s h).
Qed.

Lemma prepare_ends d hd q types w :
  inv w -> dbhs w !! d = Some hd -> Forall (fun t => DBI_MIN_TYPE <= t <= DBI_MAX_TYPE) types ->
  length (filter (fun c => is_mark c = true) q) = length types ->
  ends (new_st_handle uninit d q types) w
    (fun s w' => prepared uninit d q types s w w' /\ kept w w') (fun _ => False).
Proof.
  intros [Hc [T1 T2 T3]] Hd Ht Hl. eapply ends_mono; [by eapply new_st_handle_ends| |done].
  intros s w' P. split; [done|]. destruct P as [Hc' _ (p & its & Hits & Es) Ed Ev El]. split.
  - split; [done|]. split; rewrite ?Es, ?Ev; [|done|].
    + intros s' h' v. rewrite lookup_insert_Some. intros [[_ <-]|[_ ?]]; [done|eauto].
    + intros s' h'. rewrite lookup_insert_Some. intros [[_ <-]|[_ ?]]; [|eauto].
      apply prepared_fetchable. by rewrite Hits.
  - apply tx_same; [done|]. intros c. by rewrite El.
Qed.

(** ** Fetching *)

Lemma fetch_check_ends (h : st_handle) d err w (Q : option loc -> dbw -> Prop) (X : dbw -> Prop) :
  dbhs w !! st_dbh h = Some d ->
  (forall l, st_result h = Some l -> fetch_allowed h = true -> Q (Some l) w) ->
  Q None w -> X w -> ends (fetch_check h err) w Q X.
Proof.
  intros Hd HS HN HX. unfold fetch_check.
  destruct (st_result h) as [l|]; [destruct (fetch_allowed h) eqn:Ea; [by apply (HS l)|]|];
    apply (ends_get_dbh _ d); try done; by destruct (throws d).
Qed.

Lemma next_row_range (h : st_handle) x :
  fetchable h -> fetch_allowed h = true -> next_tuple h < PQntuples x ->
  0 <= next_tuple h < Z.of_nat (length (pg_rows x)) /\ to_int (next_tuple h + 1) = next_tuple h + 1.
Proof.
  intros [Hf _] Ha Hn. specialize (Hf Ha). unfold PQntuples in Hn.
  assert (Z.of_nat (length (pg_rows x)) <= 2147483647 \/ 2147483647 < Z.of_nat (length (pg_rows x)))
    as [Hs|Hs] by lia.
  - rewrite wraps_small in Hn by lia. split; [lia|]. apply wraps_small; lia.
  - pose proof (wraps_range 32 (Z.of_nat (length (pg_rows x))) ltac:(lia)). split; [lia|].
    apply wraps_small; lia.
Qed.

Lemma st_fetch_ends s h w :
  inv w -> sths w !! s = Some h -> ends (st_fetch s) w (fun _ => calm w) (calm w).
Proof.
  intros Hi Hs. pose proof Hi as [Hc Ht]. destruct (c_dbh _ Hc s h Hs) as (_ & d & Hd & _).
  apply (ends_get_sth _ h); [done|]. apply ends_bind.
  apply (fetch_check_ends h d); [done| |by apply ends_ret, calm_refl|by apply calm_refl].
  intros l Hl Ha.
  assert (is_Some (results (lib w) !! l)) as [x Hx] by (apply (c_owned _ Hc); eauto).
  apply (ends_get_result _ x); [done|]. destruct (decide _) as [_|Hn]; [by apply ends_ret, calm_refl|].
  assert (ends (match outtypes h with
    | Some v => fetch_columns (vector_size v) 0 l x (Z.to_nat (next_tuple h)) v
    | None => mret tt end) w (fun _ => stored w) (stored w)) as Hcol.
  { destruct (outtypes h) as [v|] eqn:Ev; [|apply ends_ret, stored_refl].
    apply fetch_columns_ends; [done|]. by eapply (t_bound _ Ht). }
  apply ends_bind. eapply ends_mono; [exact Hcol| |intros w' Hw'; by apply inv_stored].
  intros ? w' Hw'. pose proof (inv_stored w w' Hi Hw') as K1.
  assert (sths w' !! s = Some h) as Hs' by (by destruct Hw' as (vs & -> & _)).
  apply (ends_get_sth _ h); [done|]. apply ends_put_sth, ends_ret. eapply calm_trans; [exact K1|].
  destruct K1 as [[Hi' _] _]. split; [|split; [done|apply vars_kept_refl]]. apply (inv_put_sth w' s h); try done.
  - apply fetchable_set; [by apply (t_fetch _ Ht s)|]. intros _.
    destruct (next_row_range h x) as [? E1]; [by apply (t_fetch _ Ht s)|done|lia|]. rewrite E1. lia.
  - intros v. simpl. by eapply (t_bound _ (proj2 Hi')).
Qed.

Lemma fetch_all_ends s h w :
  inv w -> sths w !! s = Some h -> ends (st_fetch_all_rows s) w (fun _ => eq w) (eq w).
Proof.
  intros [Hc Ht] Hs. destruct (c_dbh _ Hc s h Hs) as (_ & d & Hd & _).
  apply (ends_get_sth _ h); [done|]. apply ends_bind.
  apply (fetch_check_ends h d); [done| |done|done]. intros l Hl Ha.
  assert (is_Some (results (lib w) !! l)) as [x Hx] by (apply (c_owned _ Hc); eauto).
  by apply (ends_get_result _ x).
Qed.

(** ** Finishing, binding, debugging *)

(** The state after [st_finish]. *)
Definition finished (s : loc) (h : st_handle) w : dbw :=
  with_sths (<[s := set_result None h]> (sths w))
    (with_lib (match st_result h with Some l => PQclear l (lib w) | None => lib w end) w).

Lemma finish_known s h w (Q : unit -> dbw -> Prop) X :
  sths w !! s = Some h -> (forall l, st_result h = Some l -> is_Some (results (lib w) !! l)) ->
  Q tt (finished s h w) -> ends (st_finish s) w Q X.
Proof.
  intros Hs Hr HQ. apply (ends_get_sth _ h); [done|]. unfold finished in HQ.
  destruct (st_result h) as [l|] eqn:Hl.
  - destruct (Hr l eq_refl) as [x Hx]. apply ends_bind. unfold clear_result.
    by apply (ends_get_result _ x).
  - by destruct w.
Qed.

Lemma st_finish_ends s h w (Q : unit -> dbw -> Prop) X :
  core w -> sths w !! s = Some h -> Q tt (finished s h w) -> ends (st_finish s) w Q X.
Proof.
  intros Hc Hs. apply finish_known; [done|]. intros l Hl. apply (c_owned _ Hc). eauto.
Qed.

Lemma finished_core s h w : core w -> sths w !! s = Some h -> core (finished s h w).
Proof.
  intros Hc Hs. unfold finished. destruct (st_result h) as [l|] eqn:Hl.
  - destruct (clear_law l (lib w)) as (Kr & Kc & Ks).
    apply core_sth with (h := h); try done; [intros c; by destruct (Ks c) as (_ & _ & ->)|].
    intros l'. rewrite Kr, Hl, lookup_delete_is_Some. simpl. naive_solver.
  - destruct w. by apply (core_put_sth _ s h).
Qed.

Lemma finished_kept s h w : inv w -> sths w !! s = Some h -> kept w (finished s h w).
Proof.
  intros [Hc Ht] Hs. split; [split; [by apply finished_core|]|].
  - assert (typed (with_sths (<[s := set_result None h]> (sths w)) w)) as [T1 T2 T3].
    { apply (typed_put w s h); try done; [exact (t_fetch _ Ht s h Hs)|].
      intros v. exact (t_bound _ Ht s h v Hs). }
    by split.
  - apply tx_same; [done|]. intros c. simpl. destruct (st_result h) as [l|]; [|done].
    destruct (clear_law l (lib w)) as (_ & _ & Ks). by destruct (Ks c) as (-> & _).
Qed.

Lemma st_bind_ends s h col var t w :
  inv w -> sths w !! s = Some h -> 0 <= col -> bound_ok (vars w) (OType t var) ->
  ends (st_bind s col var t) w (fun _ w' => calm w w' /\ is_Some (sths w' !! s)) (fun _ => False).
Proof.
  intros Hi Hs Hcol Hb. apply (ends_get_sth _ h); [done|]. cbv zeta.
  rewrite (decide_True (P := 0 <= col)) by done.
  match goal with |- context [vector_replace ?v0 _ _] => set (v := v0) end.
  assert (Forall (bound_ok (vars w)) (elems v) /\ (Z.to_nat col < length (elems v))%nat) as [Hv Hlen].
  { assert (Forall (bound_ok (vars w)) (elems (match outtypes h with Some v => v | None => new_vector end)))
      as H0.
    { destruct (outtypes h) as [v0|] eqn:Ev; [by eapply (t_bound _ (proj2 Hi))|].
      rewrite elems_new. constructor. }
    unfold v. destruct (decide _) as [Hd|Hd].
    - rewrite elems_fill, length_app, length_replicate. split; [|rewrite size_elems in *; lia].
      apply Forall_app. split; [done|]. by apply Forall_replicate.
    - split; [done|]. rewrite <- size_elems. lia. }
  clearbody v. unfold ends, put_sth. split; [|simpl; by rewrite lookup_insert_eq].
  split; [|split; [done|apply vars_kept_refl]]. apply (inv_put_sth w s h); try done.
  - exact (t_fetch _ (proj2 Hi) s h Hs).
  - intros v' [= <-]. rewrite elems_replace by done. by apply Forall_insert.
Qed.

Lemma inv_put_dbh w d h h' :
  inv w -> dbhs w !! d = Some h -> db_pool h' = db_pool h -> conn h' = conn h ->
  inv (with_dbhs (<[d := h']> (dbhs w)) w).
Proof.
  intros [Hc [T1 T2 T3]] Hd Ep Ec. split; [by apply (core_dbh w d h)|by split].
Qed.

Lemma throws_debug f p c t k d :
  throws (DbHandle p c (if decide (d <> 0) then Z.lor f DBI_DEBUG else Z.land f (Z.lnot DBI_DEBUG)) t k) =
  throws (DbHandle p c f t k).
Proof.
  unfold throws, DBI_DEBUG, DBI_THROW_ERRORS. simpl. destruct (decide _).
  - by rewrite Z.land_lor_distr_l, Z.lor_0_r.
  - by rewrite <- Z.land_assoc.
Qed.

Lemma set_debug_ends d h v w :
  inv w -> dbhs w !! d = Some h -> ends (db_set_debug d v) w (fun _ => kept w) (fun _ => False).
Proof.
  intros Hi Hd. apply (ends_get_dbh _ h); [done|]. unfold ends, put_dbh. split.
  - by apply (inv_put_dbh w d h).
  - intros all Ht d1 h1. simpl. rewrite lookup_insert_Some. intros [[<- <-]|[_ H1]]; [|by apply (Ht d1)].
    unfold set_flags. rewrite throws_debug. destruct h as [p c f t k]. apply (Ht d _ Hd).
Qed.

(** ** Executing *)

Lemma execute_ends s h d q args w :
  inv w -> sths w !! s = Some h -> dbhs w !! st_dbh h = Some d ->
  substitute junk (vector_size (query h)) 0 0 (query h) (intypes h) args [] = Some q ->
  ends (st_execute junk uninit 2 s args) w
    (fun _ w' => inv w' /\ exists t', executed s (st_dbh h) d q t' w w')
    (fun w' => inv w' /\ (plain_query q -> forall all, tx_ok all w -> tx_ok all w')).
Proof.
  intros [Hc Ht] Hs Hd Hq.
  assert (forall t' w', executed s (st_dbh h) d q t' w w' -> inv w') as He.
  { intros t' w' (Hc' & Hg & Hv & _). split; [done|]. by eapply typed_grows. }
  eapply ends_mono; [by eapply (st_execute_ends junk uninit s h d q)| |].
  - intros _ w' [t' H']. split; [by eapply He|by exists t'].
  - intros w' [[t' H']|(Hth & Hc' & Hg & Hv & Hd' & Hse)].
    + split; [by eapply He|]. intros Hpl all Htx. by eapply executed_tx.
    + split; [split; [done|]; by eapply typed_grows|]. intros _ all Htx d1 h1. rewrite Hd', Hse.
      rewrite lookup_insert_Some. intros [[_ <-]|[_ H1]] Hth1; [|by apply (Htx d1)].
      unfold throws in *. simpl in Hth1. congruence.
Qed.

(** ** Ending a transaction *)

(** The flag is cleared; [all]: it is, if the command was sent. *)
Lemma executed_ended all s dbh d q t' w w' :
  core w -> dbhs w !! dbh = Some d -> executed s dbh d q t' w w' -> tx_ok all w ->
  (all = true -> closed_tx (sent (lib w') (conn d))) ->
  tx_ok all (with_dbhs (<[dbh := set_in_transaction false d]> (dbhs w')) w').
Proof.
  intros Hc Hd (_ & _ & _ & Hd' & Hl & Ho) Htx Hend d1 h1. simpl. rewrite Hd', insert_insert_eq.
  rewrite lookup_insert_Some. intros [[<- <-]|[Hne H1]] Hth.
  - destruct (Htx _ _ Hd Hth) as (Hi & Hop & _). split; [by eapply exec_log_inside|]. split; [done|auto].
  - simpl. rewrite (Ho (conn h1)); [by apply (Htx d1)|].
    intros E1. by apply Hne, (c_conns _ Hc dbh d1 d h1).
Qed.

Lemma closed_last l command : tx_begins command = false -> tx_ends command = true ->
  last l = Some command -> closed_tx l.
Proof.
  intros Hb He [l' ->]%last_Some. left. rewrite open_tx_snoc. unfold open_step. by rewrite Hb, He.
Qed.

Lemma end_transaction_ends command d hd w :
  inv w -> dbhs w !! d = Some hd -> Forall (fun c => is_mark c = false) command ->
  tx_begins command = false -> tx_ends command = true ->
  ends (end_transaction junk uninit command d) w
    (fun _ w' => inv w' /\ (forall all, (all = true -> last (sent (lib w') (conn hd)) = Some command) ->
       tx_ok all w -> tx_ok all w') /\ dbhs w' = <[d := set_in_transaction false hd]> (dbhs w)) inv.
Proof.
  intros Hi Hd Hm Hb He0. apply ends_bind.
  eapply ends_mono; [apply (prepare_ends d hd command []); try done| |done].
  { assert (filter (fun c => is_mark c = true) command = []) as ->; [|done].
    clear Hb He0. induction Hm as [|c l Hc _ IH]; [done|]. rewrite filter_cons_False; [done|by rewrite Hc]. }
  intros s w1 ([Hc1 _ (p & its & _ & Es) Ed _ _] & Hi1 & Ht1). apply ends_bind.
  eapply ends_mono;
    [eapply (execute_ends s _ hd command []); [done|by rewrite Es, lookup_insert_eq|by rewrite Ed|]| |].
  - by apply substitute_plain.
  - simpl. intros _ w2 (Hi2 & t' & He). pose proof He as (_ & _ & _ & Hd2 & _).
    apply (ends_get_dbh _ (set_in_transaction t' hd)); [by rewrite Hd2, lookup_insert_eq|].
    unfold ends, put_dbh. change (set_in_transaction false (set_in_transaction t' hd)) with
      (set_in_transaction false hd).
    split; [|split; [|simpl; by rewrite Hd2, insert_insert_eq, Ed]].
    + apply (inv_put_dbh w2 d (set_in_transaction t' hd)); [done| |done|done].
      by rewrite Hd2, lookup_insert_eq.
    + intros all Hsent Htx. apply (executed_ended all s d hd command t' w1 w2); [done|by rewrite Ed|done|auto|].
      intros Ha. by apply (closed_last _ command), Hsent.
  - by intros w2 [Hi2 _].
Qed.

(** ** Sequences *)

Lemma serial_query seq x (its : vec Z) :
  quoted junk seq = Some x -> elems its = [DBI_STRING] ->
  let q := lit "select currval (?)" in
  substitute junk (vector_size (pstrresplit2 q re_qs)) 0 0 (pstrresplit2 q re_qs) its
    [AString (Some seq)] [] = Some (lit "select currval (" ++ x ++ lit ")").
Proof.
  intros Hx Hi q. apply substitute_fill. rewrite Hi.
  change (fill junk q [DBI_STRING] [AString (Some seq)] []) with
    (x ← quoted junk seq; Some ((lit "select currval (" ++ x) ++ lit ")")).
  rewrite Hx. cbn [mbind option_bind]. by rewrite <- app_assoc.
Qed.

Lemma inv_set_var w var x :
  inv w -> value_ok x -> (forall y, vars w !! var = Some y -> kind_of x = kind_of y) ->
  calm w (with_vars (<[var := x]> (vars w)) w).
Proof.
  intros Hi Hx Hk. apply inv_stored; [done|]. eexists. split; [done|].
  destruct (vars w !! var) as [y|] eqn:Hy; [eapply vars_kept_insert; eauto|].
  split.
  - intros var1 y1 Hy1. rewrite lookup_insert_ne by congruence. eauto.
  - intros Hall var1 y1. rewrite lookup_insert_Some. intros [[_ <-]|[_ ?]]; eauto.
Qed.

(** Reading the number, after the query. *)
Lemma read_serial_ends s h dbh d var n w :
  inv w -> sths w !! s = Some h -> dbhs w !! dbh = Some d -> vars w !! var = Some (VInt n) ->
  ends (st_bind s 0 (Some var) DBI_INT ≫= fun _ =>
        r ← st_fetch s;
        if decide (r = 0) then
          d ← get_dbh dbh;
          if throws d then pth_die (lit "dbi: st_serial: failed to fetch sequence value")
          else mret (-1)
        else get_int var) w (fun _ => calm w) (calm w).
Proof.
  intros Hi Hs Hd Hv. apply ends_bind. eapply ends_mono; [apply (st_bind_ends s h)| |done]; [done..| |].
  { intros var0 [= <-] _. by exists (VInt n). }
  intros _ w1 (K1 & h1 & Hs1). apply ends_bind.
  eapply ends_mono; [apply (st_fetch_ends s h1); [apply K1|done]| |intros; by eapply calm_trans].
  intros r w2 K2. pose proof (calm_trans _ _ _ K1 K2) as K. pose proof K as (_ & D & (V & _)).
  destruct (decide (r = 0)).
  - apply (ends_get_dbh _ d); [by rewrite D|]. by destruct (throws d).
  - destruct (V var (VInt n) Hv) as (y & Hy & Hk). destruct y; try done.
    unfold ends, get_int, get_state, mbind, prog_bind. by rewrite Hy.
Qed.

Lemma serial_ends s h var seq w :
  is_int uninit -> inv w -> sths w !! s = Some h -> string_ok seq ->
  (forall y, vars w !! var = Some y -> kind_of y = KInt) ->
  ends (st_serial junk uninit var s seq) w (fun _ => kept w) (kept w).
Proof.
  intros Hu Hi Hs [Hnul Hlen] Hvar. pose proof Hi as [Hc _].
  set (x := "'"%byte :: sql_escaped seq ++ ["'"%byte]).
  assert (quoted junk seq = Some x) as Hx by (unfold quoted; by rewrite escape_string_spec). destruct (c_dbh _ Hc s h Hs) as (_ & d & Hd & _).
  apply (ends_get_sth _ h); [done|]. apply ends_bind.
  eapply ends_mono; [apply (prepare_ends (st_dbh h) d _ [DBI_STRING]); try done| |done].
  { by repeat constructor. }
  intros s2 w1 ([Hc1 _ (p & its & Hits & Es) Ed Ev _] & K1). apply ends_bind.
  assert (dbhs w1 !! st_dbh h = Some d) as Hd1 by (by rewrite Ed).
  assert (plain_query (lit "select currval (" ++ x ++ lit ")")) as Hpl.
  { pose proof (currval_law seq) as Hcv. unfold x. simpl in *. by rewrite <- app_assoc. }
  eapply ends_mono; [eapply (execute_ends s2 _ d); [apply K1|by rewrite Es, lookup_insert_eq|done|];
    by apply serial_query| |].
  2: { intros w2 [Hi2 T2]. eapply kept_trans; [done|]. split; auto. }
  intros _ w2 (Hi2 & t' & He). simpl in He.
  assert (kept w w2) as K2.
  { eapply kept_trans; [done|]. split; [done|]. intros all Htx. by eapply executed_tx. }
  destruct He as (_ & (_ & Hg & _) & Hv2 & Hd2 & _).
  destruct (Hg _ ltac:(rewrite Es; apply lookup_insert_eq)) as (h2 & Hs2 & _).
  apply ends_bind. unfold ends at 1, set_var.
  set (w3 := with_vars (<[var := VInt uninit]> (vars w2)) w2).
  assert (calm w2 w3) as K3.
  { apply inv_set_var; [done|exact Hu|]. rewrite Hv2, Ev. intros y Hy. by rewrite (Hvar y Hy). }
  eapply ends_mono; [apply (read_serial_ends s2 h2 (st_dbh h) (set_in_transaction t' d) var uninit)| |];
    [apply K3|done|simpl; by rewrite Hd2, lookup_insert_eq|apply lookup_insert_eq| |].
  - intros r w4 K4. eapply kept_trans; [exact K2|]. eapply kept_trans; [apply K3|apply K4].
  - intros w4 K4. eapply kept_trans; [exact K2|]. eapply kept_trans; [apply K3|apply K4].
Qed.

(** ** Connecting *)

(** What a step of libpq leaves of the connections that were there. *)
Definition others_quiet (e e' : E) : Prop :=
  results e' = results e /\
  forall c, c ∈ conns e -> (c ∈ conns e') /\ sent e' c = sent e c /\
    PQisnonblocking c e' = PQisnonblocking c e.

Lemma others_trans e1 e2 e3 : others_quiet e1 e2 -> others_quiet e2 e3 -> others_quiet e1 e3.
Proof.
  intros [R1 C1] [R2 C2]. split; [congruence|]. intros c Hc. destruct (C1 c Hc) as (H1 & S1 & N1).
  destruct (C2 c H1) as (H2 & S2 & N2). split; [done|]. split; congruence.
Qed.

Lemma others_pq e e' : quiet_pq e e' -> others_quiet e e'.
Proof. intros (R & C & S). split; [done|]. intros c Hc. destruct (S c). by rewrite C. Qed.

Lemma kept_lib w e : inv w -> others_quiet (lib w) e -> kept w (with_lib e w).
Proof.
  intros [[H1 H2 H3 H4 H5 H6 H7 H8] [T1 T2 T3]] [Er Ec].
  split; [split; split; try done|]; simpl.
  - intros l. by rewrite Er.
  - intros d h Hd. destruct (H4 d h Hd) as (A1 & A2 & A3). destruct (Ec _ A1) as (? & _ & ->). done.
  - intros all Ht d h Hd Hth. simpl in *. destruct (H4 d h Hd) as (A1 & _ & _).
    destruct (Ec _ A1) as (_ & -> & _). by apply (Ht d).
Qed.

Definition final (status : Z) : Prop :=
  status = PGRES_POLLING_OK \/ status = PGRES_POLLING_FAILED.

Lemma connect_loop_ends fuel c fd status w :
  (1 <= fuel)%nat -> final status \/ (pending (lib w) c + 2 <= fuel)%nat ->
  ends (connect_loop fuel c fd status) w (fun _ => lib_only w) (lib_only w).
Proof.
  revert status w. induction fuel as [|k IH]; intros status w Hf Hs; [lia|]. cbn [connect_loop].
  destruct (decide _) as [Hfin|Hfin].
  { apply ends_ret. exists (lib w). split; [by destruct w|apply pq_quiet_refl]. }
  destruct Hs as [?|Hs]; [done|].
  assert (forall e, quiet_pq (lib w) e -> (pending e c <= pending (lib w) c)%nat ->
    ends (status ← pq (PQconnectPoll c); connect_loop k c fd status) (with_lib e w)
      (fun _ => lib_only w) (lib_only w)) as Hpoll.
  { intros e He Hp. apply ends_pq. simpl. pose proof (connectPoll_law c e) as L.
    destruct (PQconnectPoll c e) as [r e'] eqn:El. destruct L as [Lq Lp]. cbn [fst snd].
    assert (forall w', lib_only (with_lib e' (with_lib e w)) w' -> lib_only w w') as Hlo.
    { intros w' (e2 & -> & H2). exists e2. split; [done|]. eauto using pq_quiet_trans. }
    eapply ends_mono; [apply IH; [lia|]|intros ?; apply Hlo|apply Hlo].
    destruct (decide (final r)) as [?|Hr]; [by left|right]. unfold final in Hr.
    specialize (Lp ltac:(tauto) ltac:(tauto)). simpl. lia. }
  apply ends_bind. destruct (decide _) as [_|_]; [|destruct (decide _) as [_|_]].
  - apply ends_wait; [apply wait_writable_law| |intros e He; by exists e].
    intros r e He Hp. by apply ends_ret, Hpoll.
  - apply ends_wait; [apply wait_readable_law| |intros e He; by exists e].
    intros r e He Hp. by apply ends_ret, Hpoll.
  - apply ends_ret. specialize (Hpoll (lib w) (pq_quiet_refl _) ltac:(lia)). by destruct w.
Qed.

(** A new database handle. *)
Lemma core_new_dbh w dbh p info fl c e :
  core w -> dbhs w !! dbh = None -> live (db_pools w) p -> others_quiet (lib w) e ->
  (c ∉ conns (lib w)) -> c ∈ conns e -> PQisnonblocking c e = true ->
  core (with_db_pools (pool_register_cleanup_fn p (Disconnect dbh) (db_pools w))
    (with_dbhs (<[dbh := DbHandle p info fl false c]> (dbhs w)) (with_lib e w))).
Proof.
  intros [H1 H2 H3 H4 H5 H6 H7 H8] Hd Hp [Er Eo] Hf Hc Hn.
  destruct (register_spec p (Disconnect dbh) (db_pools w) Hp) as (Rw & Rc & Ro).
  assert (forall d h, dbhs w !! d = Some h -> conn h <> c) as Hne.
  { intros d h Hdh E1. apply Hf. rewrite <- E1. by apply (H4 d). }
  split; simpl.
  - intros l. by rewrite Er.
  - done.
  - intros s h Hs. destruct (H3 s h Hs) as (Hl & d & Hdd & Hin). split; [by apply Rw|].
    exists d. rewrite lookup_insert_ne by congruence. split; [done|]. by apply Rw.
  - intros d h. rewrite lookup_insert_Some. intros [[_ <-]|[_ Hdh]]; simpl.
    + split_and!; [done|done|]. by apply Rw.
    + destruct (H4 d h Hdh) as (A1 & A2 & A3). destruct (Eo _ A1) as (? & _ & ->).
      split_and!; [done|done|]. by apply Rw.
  - intros d1 d2 h1 h2. rewrite !lookup_insert_Some.
    intros [[<- <-]|[_ D1]] [[<- <-]|[_ D2]] E1; simpl in *; try done; try naive_solver.
  - intros x. rewrite Rw. intros Hx. destruct (H6 x Hx) as [Hnd Hcx].
    assert (forall c', registered (with_db_pools (pool_register_cleanup_fn p (Disconnect dbh) (db_pools w))
      (with_dbhs (<[dbh := DbHandle p info fl false c]> (dbhs w)) (with_lib e w))) x c' <->
      registered w x c' \/ x = p /\ c' = Disconnect dbh) as Hreg.
    { intros [d|s]; simpl; [|split; [by left|intros [?|[_ ?]]; done]]. split.
      - intros (h & Hdh & Hpx). apply lookup_insert_Some in Hdh as [[<- <-]|[_ Hdh]]; [by right|eauto].
      - intros [(h & Hdh & Hpx)|[-> [= ->]]].
        + exists h. rewrite lookup_insert_ne by congruence. done.
        + eexists. by rewrite lookup_insert_eq. }
    assert (Disconnect dbh ∉ cleanups (db_pools w) x) as Hfresh.
    { rewrite Hcx. intros (h & Hdh & _). congruence. }
    destruct (decide (x = p)) as [->|Hxp].
    + split; [rewrite Rc; by constructor|]. intros c'. rewrite Rc, elem_of_cons, Hreg, Hcx. naive_solver.
    + rewrite Ro by done. split; [done|]. intros c'. rewrite Hreg, Hcx. naive_solver.
  - intros x y. rewrite !Rw. apply H7.
  - intros x y z. rewrite !Rw. apply H8.
Qed.

(** [PQsetnonblocking] does not fail on a new connection. *)
Definition nonblocking_ok (info : bytes) (e : E) : Prop :=
  match PQconnectStart info e with
  | (Some c, e') => PQstatus c e' <> CONNECTION_BAD -> (PQsetnonblocking c e').1 <> -1
  | (None, _) => True
  end.

(** Closing the connection that was opened leaves the others. *)
Lemma finish_ends c w w1 :
  inv w -> (c ∉ conns (lib w)) -> (exists e, w1 = with_lib e w /\ others_quiet (lib w) e /\ c ∈ conns e) ->
  ends (finish_conn c ≫= fun _ => mret None) w1
    (fun r w' => r = None /\ kept w w') (fun _ => False) (A := option loc).
Proof.
  intros Hi Hf (e & -> & Ho & Hc). apply ends_bind. unfold ends at 1, finish_conn. simpl.
  rewrite decide_True by done. split; [done|].
  destruct (finish_law c e) as (Fr & Fc & Fs & Fn). destruct Ho as [Or Oc].
  apply (kept_lib w); [done|]. split; [congruence|]. intros c' Hc'.
  assert (c' <> c) as Hne by congruence. destruct (Oc c' Hc') as (A1 & A2 & A3).
  rewrite Fs, Fn, Fc by done. split; [set_solver|done].
Qed.

(** The state after a successful connection. *)
Definition connected (dbh : loc) (p : pool) (info : bytes) (fl : Z) w w' : Prop :=
  exists c, dbhs w' = <[dbh := DbHandle p info fl false c]> (dbhs w) /\ sent (lib w') c = [].

Lemma connected_kept dbh p info fl c e w :
  inv w -> dbhs w !! dbh = None -> live (db_pools w) p -> others_quiet (lib w) e ->
  (c ∉ conns (lib w)) -> c ∈ conns e -> PQisnonblocking c e = true -> sent e c = [] ->
  let w' := with_db_pools (pool_register_cleanup_fn p (Disconnect dbh) (db_pools w))
    (with_dbhs (<[dbh := DbHandle p info fl false c]> (dbhs w)) (with_lib e w)) in
  kept w w' /\ connected dbh p info fl w w'.
Proof.
  intros [Hc [T1 T2 T3]] Hd Hp Ho Hf Hin Hn Hs w'.
  split; [split; [split; [by apply core_new_dbh|by split]|]|by exists c].
  intros all Ht d h. simpl. rewrite lookup_insert_Some. intros [[_ <-]|[_ Hdh]] Hth; simpl.
  - rewrite Hs. split; [apply inside_nil|]. split; [done|]. by left.
  - destruct (proj2 Ho (conn h)) as (_ & -> & _); [by apply (c_conn _ Hc d)|]. by apply (Ht d).
Qed.

Lemma new_db_handle_ends dbh p info fl w :
  inv w -> dbhs w !! dbh = None -> live (db_pools w) p -> nonblocking_ok info (lib w) ->
  ends (new_db_handle dbh p info fl) w
    (fun r w' => kept w w' /\ (r = Some dbh /\ connected dbh p info fl w w' \/ r = None)) (kept w).
Proof.
  intros Hi Hd Hp Hnb. unfold new_db_handle, nonblocking_ok in *. apply ends_pq.
  pose proof (connectStart_law info (lib w)) as L.
  destruct (PQconnectStart info (lib w)) as [[c|] e]; cbn [fst snd].
  2: { apply ends_ret. split; [by apply kept_lib, others_pq|by right]. }
  destruct L as (Hf & Ec & Er & Es & Eo).
  assert (forall c', c' ∈ conns (lib w) -> c' <> c) as Hne by congruence.
  assert (others_quiet (lib w) e) as O1.
  { split; [done|]. intros c' Hc'. destruct (Eo c' (Hne c' Hc')) as [-> ->]. split; [set_solver|done]. }
  apply ends_get_state. destruct (decide _) as [Hbad|Hbad].
  { eapply ends_mono; [apply (finish_ends c w); [done|done|]; exists e; set_solver| |done].
    intros r w' [-> K]. auto. }
  apply ends_pq. cbn [lib with_lib] in *. specialize (Hnb Hbad). pose proof (setnonblocking_law c e) as L.
  destruct (PQsetnonblocking c e) as [r1 e1]. cbn [fst snd] in *. destruct L as (Lr & Lc & Ls & Ln & Lo).
  rewrite decide_False by done. apply ends_get_state, ends_bind.
  assert (others_quiet (lib w) e1) as O2.
  { split; [by rewrite Lr|]. intros c' Hc'. rewrite Lc, Ls, Lo by auto. by apply O1. }
  assert (forall w', lib_only (with_lib e1 (with_lib e w)) w' -> exists e', w' = with_lib e' w /\
    others_quiet (lib w) e' /\ (c ∈ conns e') /\ sent e' c = [] /\ PQisnonblocking c e' = true) as Hlo.
  { intros w' (e' & -> & He'). exists e'. split; [done|].
    split; [eapply others_trans; [exact O2|by apply others_pq]|].
    destruct He' as (_ & -> & Q). destruct (Q c) as [-> ->]. simpl.
    rewrite Lc, Ec, Ls, Es, (Ln Hnb). set_solver. }
  eapply ends_mono; [apply connect_loop_ends; [lia|right; simpl; lia]| |].
  2: { intros w' (e' & -> & O' & _)%Hlo. by apply kept_lib. }
  intros status w2 (e2 & -> & O3 & C3 & S3 & N3)%Hlo. destruct (decide _) as [_|_].
  - eapply ends_mono; [apply (finish_ends c w); [done|done|by exists e2]| |done].
    intros r w' [-> K]. auto.
  - apply ends_put_dbh, ends_get_state, ends_bind, ends_ret.
    destruct (connected_kept dbh p info fl c e2 w) as [K C]; auto.
Qed.

(** ** Deleting a pool *)

(** [w] is [w0] after the clean-up functions [ds], with the pools [ps]. *)
Record cleaned w0 (ps : pools) (ds : list db_cleanup) w : Prop := {
  cl_pools : db_pools w = ps;
  cl_dbhs : dbhs w = dbhs w0;
  cl_vars : vars w = vars w0;
  cl_sths : forall s, (FinishHandle s ∉ ds) -> sths w !! s = sths w0 !! s;
  cl_results : forall l, is_Some (results (lib w) !! l) <-> is_Some (results (lib w0) !! l) /\
    ~ exists s h, (FinishHandle s ∈ ds) /\ sths w0 !! s = Some h /\ st_result h = Some l;
  cl_conns : forall c, c ∈ conns (lib w) <-> (c ∈ conns (lib w0)) /\
    ~ exists d h, (Disconnect d ∈ ds) /\ dbhs w0 !! d = Some h /\ conn h = c;
  cl_sent : same_sent w0 w;
  cl_block : forall c, c ∈ conns (lib w) ->
    PQisnonblocking c (lib w) = PQisnonblocking c (lib w0)
}.

Lemma cleaned_disconnect w0 ps ds w d h :
  core w0 -> cleaned w0 ps ds w -> (Disconnect d ∉ ds) -> dbhs w0 !! d = Some h ->
  (conn h ∈ conns (lib w)) /\ cleaned w0 ps (Disconnect d :: ds) (with_lib (PQfinish (conn h) (lib w)) w).
Proof.
  intros Hc [C1 C2 C3 C4 C5 C6 C7 C8] Hn Hd.
  destruct (finish_law (conn h) (lib w)) as (Fr & Fc & Fs & Fn). split.
  - apply C6. split; [by apply (c_conn _ Hc d)|]. intros (d' & h' & Hin & Hd' & E').
    by rewrite <- (c_conns _ Hc d d' h h') in Hin.
  - assert (forall c, c ∈ conns (lib w) ∖ {[conn h]} -> c <> conn h) as Hne by set_solver.
    split; simpl; try done.
    + intros s Hs. apply C4. rewrite not_elem_of_cons in Hs. tauto.
    + intros l. rewrite Fr, C5. apply and_iff_compat_l. setoid_rewrite elem_of_cons. naive_solver.
    + intros c. rewrite Fc, elem_of_difference, elem_of_singleton, C6. setoid_rewrite elem_of_cons. naive_solver.
    + intros c. simpl. by rewrite Fs.
    + intros c. rewrite Fc. intros Hcc. rewrite Fn by auto. apply C8. set_solver.
Qed.

Lemma cleaned_finish w0 ps ds w s h :
  core w0 -> cleaned w0 ps ds w -> (FinishHandle s ∉ ds) -> sths w0 !! s = Some h ->
  sths w !! s = Some h /\ (forall l, st_result h = Some l -> is_Some (results (lib w) !! l)) /\
  cleaned w0 ps (FinishHandle s :: ds) (finished s h w).
Proof.
  intros Hc [C1 C2 C3 C4 C5 C6 C7 C8] Hn Hs. split; [by rewrite C4|]. split.
  { intros l Hl. apply C5. split; [apply (c_owned _ Hc); eauto|]. intros (s' & h' & Hin & Hs' & Hl').
    by rewrite <- (c_once _ Hc s s' h h' l) in Hin. }
  unfold finished. set (e := match st_result h with Some l => PQclear l (lib w) | None => lib w end).
  assert ((forall l, is_Some (results e !! l) <-> is_Some (results (lib w) !! l) /\ st_result h <> Some l) /\
    conns e = conns (lib w) /\ forall c, sent e c = sent (lib w) c /\
    PQisnonblocking c e = PQisnonblocking c (lib w)) as (Er & Ec & Es).
  { unfold e. destruct (st_result h) as [l|]; [|naive_solver].
    destruct (clear_law l (lib w)) as (Kr & Kc & Ks). split; [|split; [done|]].
    - intros l'. rewrite Kr, lookup_delete_is_Some. naive_solver.
    - intros c. destruct (Ks c) as (? & _ & ?). done. }
  clearbody e. split; simpl; try done.
  - intros s' [Hne Hs']%not_elem_of_cons. rewrite lookup_insert_ne by congruence. auto.
  - intros l. rewrite Er, C5. setoid_rewrite elem_of_cons. naive_solver.
  - intros c. rewrite Ec, C6. apply and_iff_compat_l. setoid_rewrite elem_of_cons. naive_solver.
  - intros c. simpl. by rewrite (proj1 (Es c)).
  - intros c. rewrite Ec, (proj2 (Es c)). apply C8.
Qed.

Lemma cleanups_end w0 ps cs ds w :
  core w0 -> cleaned w0 ps ds w -> NoDup (cs ++ ds) -> (forall c, c ∈ cs -> exists x, registered w0 x c) ->
  ends (for_each run_cleanup cs) w (fun _ => cleaned w0 ps (reverse cs ++ ds)) (fun _ => False).
Proof.
  intros Hc. revert ds w. induction cs as [|c cs IH]; intros ds w Hcl Hnd Hreg; [by apply ends_ret|].
  cbn [for_each]. apply ends_bind.
  assert (NoDup (cs ++ c :: ds) /\ c ∉ ds) as [Hnd' Hcd].
  { apply NoDup_cons in Hnd as [Hcn Hnd]. rewrite elem_of_app in Hcn. split; [|tauto].
    rewrite <- Permutation_middle. constructor; [|done]. rewrite elem_of_app. tauto. }
  assert (forall w1, cleaned w0 ps (c :: ds) w1 ->
    ends (for_each run_cleanup cs) w1 (fun _ => cleaned w0 ps (reverse (c :: cs) ++ ds)) (fun _ => False)) as Hk.
  { intros w1 H1. rewrite reverse_cons, <- app_assoc. apply IH; [done|done|].
    intros c' Hc'. apply Hreg. by right. }
  destruct (Hreg c ltac:(by left)) as [x Hx]. destruct c as [d|s]; destruct Hx as (h & Hh & _).
  - destruct (cleaned_disconnect w0 ps ds w d h Hc Hcl Hcd Hh) as [Hin Hcl1].
    apply (ends_get_dbh _ h); [by rewrite (cl_dbhs _ _ _ _ Hcl)|]. unfold ends at 1, finish_conn.
    rewrite decide_True by done. by apply Hk.
  - destruct (cleaned_finish w0 ps ds w s h Hc Hcl Hcd Hh) as (Hs & Hr & Hcl1).
    apply (finish_known s h); [done|done|]. by apply Hk.
Qed.

Lemma free_handles cs w :
  (forall d, dbhs (foldr free_handle w cs) !! d =
     if decide (Disconnect d ∈ cs) then None else dbhs w !! d) /\
  (forall s, sths (foldr free_handle w cs) !! s =
     if decide (FinishHandle s ∈ cs) then None else sths w !! s) /\
  db_pools (foldr free_handle w cs) = db_pools w /\ vars (foldr free_handle w cs) = vars w /\
  lib (foldr free_handle w cs) = lib w.
Proof.
  induction cs as [|c cs (I1 & I2 & I3 & I4 & I5)]; [done|]. cbn [foldr].
  destruct c as [d0|s0]; simpl; (split; [|split; [|done]]).
  - intros d. destruct (decide (d = d0)) as [->|Hne].
    + rewrite lookup_delete_eq, decide_True by (by left). done.
    + rewrite lookup_delete_ne, I1 by done. apply decide_ext. rewrite elem_of_cons. naive_solver.
  - intros s. rewrite I2. apply decide_ext. rewrite elem_of_cons. naive_solver.
  - intros d. rewrite I1. apply decide_ext. rewrite elem_of_cons. naive_solver.
  - intros s. destruct (decide (s = s0)) as [->|Hne].
    + rewrite lookup_delete_eq, decide_True by (by left). done.
    + rewrite lookup_delete_ne, I2 by done. apply decide_ext. rewrite elem_of_cons. naive_solver.
Qed.

(** The clean-up functions of a pool and the pools below it. *)
Lemma deleted_cleanups w p cs ps :
  core w -> live (db_pools w) p -> delete_pool p (db_pools w) = (cs, ps) ->
  NoDup cs /\ (forall c, c ∈ cs <-> exists x, within (db_pools w) x p /\ registered w x c) /\
  (forall x y, within ps x y <-> within (db_pools w) x y /\ ~ within (db_pools w) x p) /\
  (forall x, ~ within (db_pools w) x p -> cleanups ps x = cleanups (db_pools w) x).
Proof.
  intros [_ _ _ _ _ H6 H7 _] Hl Hd. destruct (delete_spec _ _ _ _ Hl Hd) as ((qs & Hq & Hqs & Hcs) & Hw & Hc).
  rewrite concat_bind in Hcs.
  assert (forall x c, x ∈ qs -> c ∈ cleanups (db_pools w) x <-> registered w x c) as Hreg.
  { intros x c Hx. apply H6, (H7 x p). by apply Hqs. }
  split; [|split; [|done]].
  - rewrite Hcs. apply NoDup_bind; [| |done].
    + intros x1 x2 c Hx1 Hx2. rewrite !Hreg by done.
      destruct c; intros (h1 & E1 & <-) (h2 & E2 & <-); congruence.
    + intros x Hx. apply H6, (H7 x p). by apply Hqs.
  - intros c. rewrite Hcs, list_elem_of_bind. setoid_rewrite <- Hqs. split.
    + intros (x & Hc1 & Hx). exists x. by rewrite <- Hreg.
    + intros (x & Hx & Hr). exists x. by rewrite Hreg.
Qed.

(** What is left after the deletion of [p]: the handles of other pools, as they
    were, and the connections that no deleted handle had. *)
Record deleted (p : pool) w w' : Prop := {
  del_dbhs : forall d h, dbhs w' !! d = Some h <->
    dbhs w !! d = Some h /\ ~ within (db_pools w) (db_pool h) p;
  del_sths : forall s h, sths w' !! s = Some h <->
    sths w !! s = Some h /\ ~ within (db_pools w) (st_pool h) p;
  del_conns : forall c, c ∈ conns (lib w') <-> (c ∈ conns (lib w)) /\
    ~ exists d h, dbhs w !! d = Some h /\ within (db_pools w) (db_pool h) p /\ conn h = c;
  del_vars : vars w' = vars w;
  del_sent : same_sent w w'
}.

Lemma core_deleted p w w' :
  core w -> deleted p w w' ->
  (forall x y, within (db_pools w') x y <-> within (db_pools w) x y /\ ~ within (db_pools w) x p) ->
  (forall x, ~ within (db_pools w) x p -> cleanups (db_pools w') x = cleanups (db_pools w) x) ->
  (forall l, is_Some (results (lib w') !! l) <-> is_Some (results (lib w) !! l) /\
     ~ exists s h, sths w !! s = Some h /\ within (db_pools w) (st_pool h) p /\ st_result h = Some l) ->
  (forall c, c ∈ conns (lib w') -> PQisnonblocking c (lib w') = PQisnonblocking c (lib w)) ->
  core w'.
Proof.
  intros [H1 H2 H3 H4 H5 H6 H7 H8] [D1 D2 D3 _ _] Hw Hc Hr Hn. split.
  - intros l. rewrite Hr, H1. setoid_rewrite D2. split; [naive_solver|].
    intros (s & h & [Hs Hp] & Hl). split; [eauto|]. intros (s' & h' & Hs' & Hp' & Hl').
    assert (s = s') as <- by eauto. naive_solver.
  - intros s1 s2 h1 h2 l [Hs1 _]%D2 [Hs2 _]%D2. by apply H2.
  - intros s h [Hs Hp]%D2. destruct (H3 s h Hs) as (Hl & d & Hd & Hin). split; [by apply Hw|].
    exists d. rewrite D1, Hw. split; [|done]. split; [done|]. intros Hdp. apply Hp.
    by apply (H8 _ (db_pool d)).
  - intros d h [Hd Hp]%D1. destruct (H4 d h Hd) as (A1 & A2 & A3).
    assert (conn h ∈ conns (lib w')) as Hin.
    { apply D3. split; [done|]. intros (d' & h' & Hd' & Hp' & E'). apply Hp.
      assert (d' = d) as -> by eauto. congruence. }
    rewrite Hn by done. split_and!; [done|done|]. by apply Hw.
  - intros d1 d2 h1 h2 [Hd1 _]%D1 [Hd2 _]%D1. by apply H5.
  - intros x [Hx Hp]%Hw. destruct (H6 x Hx) as [Hnd Hreg]. rewrite Hc by done. split; [done|].
    intros c. rewrite Hreg. destruct c as [d|s]; simpl; [setoid_rewrite D1|setoid_rewrite D2]; naive_solver.
  - intros x y [Hx Hp]%Hw. apply Hw. split; [by eapply H7|done].
  - intros x y z [Hx Hp]%Hw [Hy _]%Hw. apply Hw. split; [by eapply H8|done].
Qed.

Lemma cleaned_deleted p cs ps w w' :
  (forall c, c ∈ cs <-> exists x, within (db_pools w) x p /\ registered w x c) ->
  cleaned w ps (reverse cs ++ []) w' -> deleted p w (foldr free_handle w' cs).
Proof.
  intros Hcs [C1 C2 C3 C4 C5 C6 C7 C8]. rewrite app_nil_r in *.
  destruct (free_handles cs w') as (F1 & F2 & F3 & F4 & F5).
  setoid_rewrite elem_of_reverse in C4. setoid_rewrite elem_of_reverse in C6.
  split; rewrite ?F4, ?F5.
  - intros d h. rewrite F1, C2. destruct (decide _) as [Hin|Hin].
    + apply Hcs in Hin as (x & Hx & h' & Hd & <-). naive_solver.
    + split; [|by intros []]. intros Hd. split; [done|].
      intros Hp. apply Hin, Hcs. exists (db_pool h). split; [done|]. by exists h.
  - intros s h. rewrite F2. destruct (decide _) as [Hin|Hin].
    + apply Hcs in Hin as (x & Hx & h' & Hd & <-). naive_solver.
    + rewrite C4 by done. split; [|by intros []]. intros Hd. split; [done|].
      intros Hp. apply Hin, Hcs. exists (st_pool h). split; [done|]. exists h. done.
  - intros c. rewrite C6. apply and_iff_compat_l. setoid_rewrite Hcs. simpl. naive_solver.
  - done.
  - intros c. rewrite F5. apply C7.
Qed.

Lemma delete_ends p w :
  inv w -> live (db_pools w) p ->
  ends (delete_db_pool p) w (fun _ w' => kept w w' /\ deleted p w w') (fun _ => False).
Proof.
  intros [Hc Ht] Hl. apply ends_get_state.
  destruct (delete_pool p (db_pools w)) as [cs ps] eqn:Hd.
  destruct (deleted_cleanups w p cs ps Hc Hl Hd) as (Hnd & Hcs & Hw & Hcl).
  apply ends_bind. unfold ends at 1, put_state. apply ends_bind.
  eapply ends_mono; [apply (cleanups_end w ps cs [] (with_db_pools ps w)); try done| |done].
  { split; simpl; try done; intros ?; setoid_rewrite elem_of_nil; naive_solver. }
  { by rewrite app_nil_r. }
  { intros c (x & _ & Hx)%Hcs. by exists x. }
  intros ? w' C. apply ends_get_state. unfold ends, put_state.
  pose proof (cleaned_deleted p cs ps w w' Hcs C) as D. split; [|done].
  destruct C as [C1 _ _ _ C5 _ _ C8]. rewrite app_nil_r in *.
  destruct (free_handles cs w') as (_ & _ & F3 & _ & F5). split; [split|].
  - apply (core_deleted p w); rewrite ?F3, ?F5, ?C1; try done.
    intros l. rewrite C5. apply and_iff_compat_l. setoid_rewrite elem_of_reverse. setoid_rewrite Hcs.
    simpl. naive_solver.
  - destruct D as [_ D2 _ D4 _], Ht as [T1 T2 T3]. split.
    + intros s h v [Hs _]%D2. rewrite D4. by eapply T1.
    + rewrite D4. done.
    + intros s h [Hs _]%D2. by eapply T3.
  - intros all Htx d h [Hdh _]%(del_dbhs _ _ _ D). rewrite (del_sent _ _ _ D). by apply (Htx d).
Qed.
End ops.
