(* ===== verification/DbiReach.v ===== *)
(** * Programs that use the database interface

    Every sequence of operations on database and statement handles: no operation
    uses memory that was freed, each result is cleared once, variables keep their
    types and queries are sent within transactions. *)

From stdpp Require Import base list gmap.
From Stdlib Require Import Strings.Byte.
From S2P Require Import Prelude C2lib ReactorTimers Prog Cstring Regex DbiTime DbiQuery Dbi.
From S2P Require Import DbiSpec DbiOps.

Section reach.
Context {vec : Type -> Type} `{VL : Vector vec} `{PR : !Pre vec} `{PV : !PstringVec vec}.
Context {E : Type} `{PQ : Libpq E} `{LL : !LibpqLaws E} `{PL : Pools db_cleanup}.
Context (junk : nat -> byte) (uninit : Z).
Abbreviation dbw := (dbw (vec := vec) (E := E)).
Abbreviation st_handle := (st_handle (vec := vec)).
Implicit Types w : dbw.

(** The calls a program makes; [OAssign]: it assigns to one of its variables. *)
Inductive db_op :=
  | ONew (dbh : loc) (p : pool) (info : bytes) (fl : Z)
  | ODebug (dbh : loc) (d : Z)
  | OPrepare (dbh : loc) (q : bytes) (types : list Z)
  | OExecute (sth : loc) (args : list (dbi_arg (vec := vec)))
  | OCommit (dbh : loc)
  | ORollback (dbh : loc)
  | OBind (sth : loc) (col : Z) (var : option loc) (type : Z)
  | OFetch (sth : loc)
  | OFetchAll (sth : loc)
  | OSerial (var sth : loc) (seq : bytes)
  | OFinish (sth : loc)
  | OAssign (var : loc) (x : dbi_value)
  | ODelete (p : pool).

Definition discard {A} (m : prog dbw A) : prog dbw unit := m ≫= fun _ => mret tt.

Definition run_op (op : db_op) : prog dbw unit :=
  match op with
  | ONew dbh p info fl => discard (new_db_handle dbh p info fl)
  | ODebug dbh d => db_set_debug dbh d
  | OPrepare dbh q types => discard (new_st_handle uninit dbh q types)
  | OExecute sth args => discard (st_execute junk uninit 2 sth args)
  | OCommit dbh => db_commit junk uninit dbh
  | ORollback dbh => db_rollback junk uninit dbh
  | OBind sth col var type => st_bind sth col var type
  | OFetch sth => discard (st_fetch sth)
  | OFetchAll sth => discard (st_fetch_all_rows sth)
  | OSerial var sth seq => discard (st_serial junk uninit var sth seq)
  | OFinish sth => st_finish sth
  | OAssign var x => set_var var x
  | ODelete p => delete_db_pool p
  end.

Definition exists_dbh w (d : loc) : Prop := is_Some (dbhs w !! d).
Definition exists_sth w (s : loc) : Prop := is_Some (sths w !! s).

(** The query that [st_execute] sends for these arguments. *)
Definition query_text (h : st_handle) (args : list (dbi_arg (vec := vec))) : option bytes :=
  substitute junk (vector_size (query h)) 0 0 (query h) (intypes h) args [].

(** The types of placeholders that [st_execute] implements. *)
Definition supported (q : bytes) (t : Z) : bool :=
  if decide (q = ["?"%byte]) then bool_decide (t ∈ [DBI_INT; DBI_INT_OR_NULL; DBI_STRING; DBI_BOOL; DBI_CHAR])
  else bool_decide (t ∈ [DBI_INT; DBI_STRING]).

(** An argument of the C type that a placeholder of a supported type takes. *)
Definition arg_fits (q : bytes) (t : Z) (a : dbi_arg (vec := vec)) : Prop :=
  supported q t = true ->
  match a with
  | AInt _ => q = ["?"%byte] /\ t <> DBI_STRING
  | AString _ => q = ["?"%byte] /\ t = DBI_STRING /\ arg_ok a
  | AInts _ => q = ["@"%byte] /\ t = DBI_INT
  | AStrings _ => q = ["@"%byte] /\ t = DBI_STRING /\ arg_ok a
  end.

(** The arguments correspond to the placeholders and their types. *)
Fixpoint args_fit (pieces : list bytes) (types : list Z) (args : list (dbi_arg (vec := vec))) : Prop :=
  match pieces with
  | [] => True
  | q :: pieces =>
    if placeholder q then
      match types, args with
      | t :: types, a :: args => arg_fits q t a /\ args_fit pieces types args
      | _ :: _, [] => False
      | [], _ => True
      end
    else args_fit pieces types args
  end.

(** [st_execute] refuses types that it does not implement, and empty lists. *)
Definition refused_arg (q : bytes) (t : Z) (a : dbi_arg (vec := vec)) : bool :=
  negb (supported q t) ||
  match a with
  | AInts v => bool_decide (elems v = [])
  | AStrings v => bool_decide (elems v = [])
  | _ => false
  end.

Fixpoint refused_args (pieces : list bytes) (types : list Z) (args : list (dbi_arg (vec := vec))) : bool :=
  match pieces with
  | [] => false
  | q :: pieces =>
    if placeholder q then
      match types, args with
      | t :: types, a :: args => refused_arg q t a || refused_args pieces types args
      | _, _ => false
      end
    else refused_args pieces types args
  end.

Lemma supported_text q t a :
  placeholder q = true -> arg_fits q t a ->
  if refused_arg q t a
  then (if decide (q = ["?"%byte]) then scalar_text junk t a else list_text junk t a) = None
  else is_Some (if decide (q = ["?"%byte]) then scalar_text junk t a else list_text junk t a).
Proof.
  intros Hq Hf. apply bool_decide_eq_true in Hq. unfold refused_arg, arg_fits, supported in *.
  destruct (decide (q = ["?"%byte])) as [->|Hne].
  - destruct (bool_decide (t ∈ _)) eqn:Ht; simpl.
    + apply bool_decide_eq_true in Ht. specialize (Hf eq_refl).
      rewrite !elem_of_cons, elem_of_nil in Ht. unfold scalar_text.
      destruct a as [n|[s|]|v|v]; [|destruct Hf as (_ & -> & Hs & Hl)|by destruct Hf as (_ & -> & _)
        |by destruct Hf|by destruct Hf].
      * destruct Hf as [_ Hst]. destruct (decide (t = DBI_INT)); [done|].
        destruct (decide (t = DBI_INT_OR_NULL)); [done|]. destruct (decide (t = DBI_STRING)); [done|].
        destruct (decide (t = DBI_BOOL)); [done|]. rewrite decide_True by tauto. unfold quoted.
        rewrite escape_string_spec; [done| |]; cbn; destruct (decide _) as [E1|E1]; simpl; try lia.
        -- apply not_elem_of_nil.
        -- rewrite list_elem_of_singleton. congruence.
      * unfold quoted. by rewrite escape_string_spec.
    + apply bool_decide_eq_false in Ht. rewrite !elem_of_cons, elem_of_nil in Ht. unfold scalar_text.
      by rewrite !decide_False by tauto.
  - destruct Hq as [?| ->]; [done|]. destruct (bool_decide (t ∈ _)) eqn:Ht; simpl.
    + specialize (Hf eq_refl). unfold list_text.
      destruct a as [n|s|v|v]; [by destruct Hf|by destruct Hf|destruct Hf as [_ ->]|destruct Hf as (_ & -> & Hs)].
      * rewrite decide_True by done. rewrite size_elems. destruct (elems v) as [|n l];
          [by rewrite bool_decide_true|by rewrite bool_decide_false].
      * rewrite decide_False, decide_True by done. rewrite size_elems.
        assert (mapM (escape_string junk) (elems v) = Some (sql_escaped <$> elems v)) as Hm.
        { simpl in Hs. induction Hs as [|s l [Hn Hl] _ IH]; [done|]. cbn.
          by rewrite escape_string_spec, IH by done. }
        rewrite <- pmap_law in Hm. destruct (elems v) as [|x l];
          [by rewrite bool_decide_true|rewrite bool_decide_false by done].
        by destruct (pmap v (escape_string junk)).
    + apply bool_decide_eq_false in Ht. rewrite !elem_of_cons, elem_of_nil in Ht. unfold list_text.
      by rewrite !decide_False by tauto.
Qed.

Lemma refused_text pieces types args q0 :
  enough pieces types -> args_fit pieces types args ->
  if refused_args pieces types args then substituted junk pieces types args q0 = None
  else is_Some (substituted junk pieces types args q0).
Proof.
  revert types args q0. induction pieces as [|q pieces IH]; intros types args q0 He Hf; [by eexists|].
  unfold enough in *. cbn [args_fit refused_args substituted] in *. rewrite filter_cons in He.
  destruct (placeholder q) eqn:Hq; [|rewrite decide_False in He by done; by apply IH].
  rewrite decide_True in He by done. destruct types as [|t types]; [simpl in He; lia|].
  destruct args as [|a args]; [done|]. destruct Hf as [Ha Hf].
  pose proof (supported_text q t a Hq Ha) as Ht. destruct (refused_arg q t a); [by rewrite Ht|].
  destruct Ht as [x ->]. cbn [mbind option_bind orb]. apply IH; [simpl in He; lia|done].
Qed.

(** What the caller has to see to: handles exist, there is a type for each
    placeholder and an argument of that type, and variables have the types they
    are bound with. *)
Definition op_ok w (op : db_op) : Prop :=
  match op with
  | ONew dbh p info fl => dbhs w !! dbh = None /\ live (db_pools w) p
  | ODebug dbh _ | OCommit dbh | ORollback dbh => exists_dbh w dbh
  | OPrepare dbh q types =>
    exists_dbh w dbh /\ Forall (fun t => DBI_MIN_TYPE <= t <= DBI_MAX_TYPE) types /\
    length (filter (fun c => is_mark c = true) q) = length types
  | OExecute sth args =>
    exists h, sths w !! sth = Some h /\ args_fit (elems (query h)) (elems (intypes h)) args
  | OBind sth col var type => exists_sth w sth /\ 0 <= col /\ bound_ok (vars w) (OType type var)
  | OFetch sth | OFetchAll sth | OFinish sth => exists_sth w sth
  | OSerial var sth seq =>
    exists_sth w sth /\ string_ok seq /\ forall y, vars w !! var = Some y -> kind_of y = KInt
  | OAssign var x => value_ok x /\ forall y, vars w !! var = Some y -> kind_of x = kind_of y
  | ODelete p => live (db_pools w) p
  end.

(** The calls that abort although they keep to these rules: [st_execute] on a
    placeholder whose type is not implemented or with an empty list, and
    [new_db_handle] when libpq cannot make the connection non-blocking. *)
Definition refused w (op : db_op) : bool :=
  match op with
  | ONew _ _ info _ =>
    match PQconnectStart info (lib w) with
    | (Some c, e) => bool_decide (PQstatus c e <> CONNECTION_BAD /\ (PQsetnonblocking c e).1 = -1)
    | (None, _) => false
    end
  | OExecute sth args =>
    match sths w !! sth with
    | Some h => refused_args (elems (query h)) (elems (intypes h)) args
    | None => false
    end
  | _ => false
  end.

Lemma execute_text w s h args :
  inv w -> sths w !! s = Some h -> args_fit (elems (query h)) (elems (intypes h)) args ->
  if refused w (OExecute s args) then query_text h args = None else is_Some (query_text h args).
Proof.
  intros Hi Hs Hf. cbn [refused]. rewrite Hs. unfold query_text.
  destruct (t_fetch _ (proj2 Hi) s h Hs) as [_ He].
  rewrite substitute_elems, !drop_0; [by apply refused_text|by rewrite size_elems, Nat.add_0_r|].
  right. by rewrite !drop_0.
Qed.

Lemma refused_aborts w op : inv w -> op_ok w op -> refused w op = true -> run_op op w = Abort.
Proof.
  intros Hi Hok Hr. destruct op; try done; cbn [run_op op_ok] in *.
  - cbn [refused] in Hr. unfold discard, new_db_handle, pq, mbind, prog_bind, get_state.
    destruct (PQconnectStart info (lib w)) as [[c|] e]; [|done]. apply bool_decide_eq_true in Hr as [Hs Hn].
    simpl. rewrite decide_False by done. simpl. destruct (PQsetnonblocking c e) as [r e']. simpl in *.
    by rewrite decide_True.
  - destruct Hok as (h & Hs & Hf). pose proof (execute_text w sth h args Hi Hs Hf) as Ht. rewrite Hr in Ht.
    remember 1%nat as one eqn:E1. cbn [st_execute]. unfold discard, get_sth, mbind, prog_bind, get_state.
    rewrite Hs. unfold expect, mret, prog_ret. unfold query_text in Ht. by rewrite Ht.
Qed.

Definition ends_tx (op : db_op) : bool :=
  match op with OCommit _ | ORollback _ => true | _ => false end.

Lemma ends_discard {A} (m : prog dbw A) w (Q X : dbw -> Prop) :
  ends m w (fun _ => Q) X -> ends (discard m) w (fun _ => Q) X.
Proof. intros H. apply ends_bind. eapply ends_mono; [exact H|by intros|done]. Qed.

(** ** Transactions *)

Section tx.
Context `{TX : TxCommands}.

(** The program leaves the commands about transactions to the library. *)
Definition plain_op w (op : db_op) : Prop :=
  match op with
  | OExecute sth args => forall h q, sths w !! sth = Some h -> query_text h args = Some q -> plain_query q
  | _ => True
  end.

(** The command to end a transaction was sent. *)
Definition end_sent w op w' : Prop :=
  match op with
  | OCommit d => forall h, dbhs w !! d = Some h -> last (sent (lib w') (conn h)) = Some COMMIT
  | ORollback d => forall h, dbhs w !! d = Some h -> last (sent (lib w') (conn h)) = Some ROLLBACK
  | _ => True
  end.

(** The invariant, and transactions. *)
Definition op_post w op (returned : bool) w' : Prop :=
  inv w' /\ forall all, plain_op w op -> (ends_tx op = true -> returned = true) ->
    (all = true -> end_sent w op w') -> tx_ok all w -> tx_ok all w'.

Lemma kept_post w op b w' : kept w w' -> op_post w op b w'.
Proof. intros [Hi Ht]. split; [done|auto]. Qed.

Lemma op_ends w op :
  is_int uninit -> inv w -> op_ok w op -> refused w op = false ->
  ends (run_op op) w (fun _ => op_post w op true) (op_post w op false).
Proof.
  intros Hu Hi Hok Hnr.
  assert (forall m : prog dbw unit, ends m w (fun _ => kept w) (kept w) ->
    ends m w (fun _ => op_post w op true) (op_post w op false)) as Hkept.
  { intros m Hm. eapply ends_mono; [exact Hm|intros ?; apply kept_post|apply kept_post]. }
  assert (forall command d, ends_tx op = true -> exists_dbh w d ->
    Forall (fun c => is_mark c = false) command -> tx_begins command = false /\ tx_ends command = true ->
    (forall h w', dbhs w !! d = Some h -> end_sent w op w' -> last (sent (lib w') (conn h)) = Some command) ->
    ends (end_transaction junk uninit command d) w (fun _ => op_post w op true) (op_post w op false)) as Hend.
  { intros command d Het [hd Hd] Hm [Hb He] Hsent. eapply ends_mono; [by eapply end_transaction_ends| |].
    - intros ? w' (Hi' & Ht & _). split; [done|]. intros all _ _ Hs. apply Ht. auto.
    - intros w' Hi'. split; [done|]. intros all _ Hr. by specialize (Hr Het). }
  destruct op as [dbh p info fl|dbh v|dbh q types|s args|dbh|dbh|s col var t|s|s|var s seq|s|var x|p];
    cbn [run_op op_ok] in *.
  - destruct Hok as (Hd & Hp). apply Hkept, ends_discard.
    eapply ends_mono; [apply new_db_handle_ends; try done|by intros ? ? []|done].
    unfold nonblocking_ok. cbn [refused] in Hnr. destruct (PQconnectStart info (lib w)) as [[c|] e]; [|done].
    apply bool_decide_eq_false in Hnr. naive_solver.
  - destruct Hok as [h Hh]. apply Hkept. eapply ends_mono; [by eapply set_debug_ends|done|done].
  - destruct Hok as ([h Hh] & Ht & Hl). apply Hkept, ends_discard.
    eapply ends_mono; [by eapply prepare_ends|by intros ? ? []|done].
  - destruct Hok as (h & Hs & Hf). pose proof (execute_text w s h args Hi Hs Hf) as Hq.
    rewrite Hnr in Hq. destruct Hq as [q Hq]. apply ends_discard.
    destruct (c_dbh _ (proj1 Hi) s h Hs) as (_ & d & Hd & _).
    eapply ends_mono; [by eapply (execute_ends junk uninit s h d q)| |].
    + intros ? w' (Hi' & t' & He). split; [done|]. intros all Hpl _ _ Htx.
      eapply executed_tx; [apply Hi|exact Htx|exact Hd|exact He|by apply (Hpl h q Hs Hq)].
    + intros w' [Hi' Ht']. split; [done|]. intros all Hpl _ _ Htx. by apply Ht'; [apply (Hpl h q Hs Hq)|].
  - apply Hend; [done|done|by apply (bool_decide_unpack _)|apply commit_law|]. intros h w' Hd He. by apply He.
  - apply Hend; [done|done|by apply (bool_decide_unpack _)|apply rollback_law|]. intros h w' Hd He. by apply He.
  - destruct Hok as ([h Hs] & Hc & Hb). apply Hkept.
    eapply ends_mono; [by eapply st_bind_ends|by intros ? ? [[]]|done].
  - destruct Hok as [h Hs]. apply Hkept, ends_discard.
    eapply ends_mono; [by eapply st_fetch_ends|by intros ? ? []|by intros ? []].
  - destruct Hok as [h Hs]. apply Hkept, ends_discard.
    eapply ends_mono; [by eapply fetch_all_ends|by intros ? ? <-|by intros ? <-].
  - destruct Hok as ([h Hs] & Hstr & Hv). apply Hkept, ends_discard. by eapply serial_ends.
  - destruct Hok as [h Hs]. apply Hkept. eapply st_finish_ends; [apply Hi|done|].
    by apply finished_kept.
  - destruct Hok as [Hx Hk]. apply Hkept. unfold ends, set_var. by apply inv_set_var.
  - apply Hkept. eapply ends_mono; [by apply delete_ends|by intros ? ? []|done].
Qed.
End tx.

(** ** Reachable states *)

(** The state in which a call ends: it returns, or the thread dies or exits, and
    other threads go on. *)
Definition after {A} (r : result dbw A) : option dbw :=
  match r with Ret _ w | Die _ w | PthExit w => Some w | Abort | NoFuel => None end.

(** No handles and no results yet. *)
Record initial w : Prop := {
  i_dbhs : dbhs w = ∅;
  i_sths : sths w = ∅;
  i_results : results (lib w) = ∅;
  i_vars : forall var x, vars w !! var = Some x -> value_ok x;
  i_cleanups : forall x, cleanups (db_pools w) x = [];
  i_live : forall x y, within (db_pools w) x y -> live (db_pools w) x;
  i_trans : forall x y z, within (db_pools w) x y -> within (db_pools w) y z -> within (db_pools w) x z
}.

(** The states that operations lead to; [P] restricts them. *)
Inductive reach (P : dbw -> db_op -> Prop) : dbw -> Prop :=
  | reach_initial w : initial w -> reach P w
  | reach_op w op w' :
      reach P w -> op_ok w op -> P w op -> after (run_op op w) = Some w' -> reach P w'.

Lemma db_initial_inv w : initial w -> inv w /\ forall (TX : TxCommands) all, tx_ok all w.
Proof.
  intros [Hd Hs Hr Hv Hc Hl Ht]. split; [split|].
  - split; rewrite ?Hd, ?Hs, ?Hr; try done; try (intros *; by rewrite lookup_empty).
    + intros l. rewrite lookup_empty. split; [by intros []|]. intros (s & h & H & _). by rewrite lookup_empty in H.
    + intros x _. rewrite Hc. split; [constructor|]. intros c. rewrite elem_of_nil. split; [done|].
      destruct c; simpl; rewrite ?Hd, ?Hs; intros (h & H & _); by rewrite lookup_empty in H.
  - split; rewrite ?Hs; [|done|]; intros s h; by rewrite lookup_empty.
  - intros TX all d h. by rewrite Hd, lookup_empty.
Qed.

Lemma reach_inv P w : is_int uninit -> reach P w -> inv w.
Proof.
  intros Hu. induction 1 as [w Hw|w op w' _ IH Hok _ Ha]; [by apply db_initial_inv|].
  destruct (refused w op) eqn:Hr; [by rewrite refused_aborts in Ha|].
  pose proof (op_ends (TX := library_commands) w op Hu IH Hok Hr) as He. unfold ends in He.
  destruct (run_op op w); simplify_eq/=; apply He.
Qed.

(** Each result is held by one statement handle, and each handle's result is there. *)
Definition owned_once w : Prop :=
  forall l, is_Some (results (lib w) !! l) <->
    exists s, (exists h, sths w !! s = Some h /\ st_result h = Some l) /\
      forall s' h', sths w !! s' = Some h' -> st_result h' = Some l -> s' = s.

Lemma core_owned w : core w -> owned_once w.
Proof.
  intros Hc l. rewrite (c_owned _ Hc). split.
  - intros (s & h & Hs & Hl). exists s. split; [eauto|]. intros s' h' Hs' Hl'. by eapply (c_once _ Hc).
  - intros (s & (h & Hs & Hl) & _). eauto.
Qed.

(** C13: a program that keeps to the rules of the interface, whatever calls it
    makes and whatever the server answers, never uses a result or a handle after it
    was freed: every call returns, or the thread dies or exits. The only calls that
    abort are those of [st_execute] with a placeholder whose type the code does not
    implement, timestamps and intervals among them, or with an empty list, and
    [new_db_handle] when libpq cannot make the connection non-blocking, and these
    always do. In between, every result of libpq belongs to exactly one statement
    handle, so that none is lost and none is cleared twice, also after calls that
    ended in an exception. *)
Theorem dbi_memory_safe w op :
  is_int uninit -> reach (fun _ _ => True) w -> op_ok w op ->
  (if refused w op then run_op op w = Abort else exists w', after (run_op op w) = Some w') /\ owned_once w.
Proof.
  intros Hu Hr Hok. pose proof (reach_inv _ w Hu Hr) as Hi. split; [|apply core_owned, Hi].
  destruct (refused w op) eqn:Href; [by apply refused_aborts|].
  pose proof (op_ends (TX := library_commands) w op Hu Hi Hok Href) as He. unfold ends in He.
  destruct (run_op op w); by eauto.
Qed.

(** C17: in every reachable state, a variable that a column is bound to is a variable
    of the type the column was bound with, and holds a value of that type; integers
    are in the range of [int]. *)
Theorem dbi_types w s h v ot var :
  is_int uninit -> reach (fun _ _ => True) w ->
  sths w !! s = Some h -> outtypes h = Some v -> ot ∈ elems v ->
  varptr ot = Some var -> ot_type ot <> 0 ->
  exists x, vars w !! var = Some x /\ type_kind (ot_type ot) = Some (kind_of x) /\ value_ok x.
Proof.
  intros Hu Hr Hs Hv Hot Hp Ht. destruct (reach_inv _ w Hu Hr) as [_ [T1 T2 _]].
  pose proof (T1 s h v Hs Hv) as HF. rewrite Forall_forall in HF.
  destruct (HF ot Hot var Hp Ht) as (x & Hx & Hk). eauto.
Qed.

(** Calls after which the flags are known: those that end a transaction return, and
    with [all] their command was sent. *)
Definition tx_op `{TX : TxCommands} (all : bool) w op : Prop :=
  plain_op w op /\ (ends_tx op = true -> exists u w', run_op op w = Ret u w' /\ (all = true -> end_sent w op w')).

Lemma reach_tx `{TX : TxCommands} all w : is_int uninit -> reach (tx_op all) w -> tx_ok all w.
Proof.
  intros Hu Hr. induction Hr as [w Hw|w op w' Hr IH Hok [Hpl Hret] Ha]; [by apply db_initial_inv|].
  destruct (refused w op) eqn:Href; [rewrite refused_aborts in Ha; [done|by eapply reach_inv|done|done]|].
  pose proof (op_ends w op Hu (reach_inv _ w Hu Hr) Hok Href) as He. unfold ends in He.
  assert (all = true -> ends_tx op = false -> end_sent w op w') as Hno by (by destruct op).
  destruct (ends_tx op) eqn:Het.
  - destruct (Hret eq_refl) as (u & w1 & Er & Hs). rewrite Er in *. injection Ha as <-. by apply He.
  - destruct (run_op op w); simplify_eq/=; apply He; auto; by rewrite Het.
Qed.

(** C15: on a handle that does not throw errors, every query except those that begin
    a transaction is sent within a transaction, and the flag of the handle is right
    in both directions, whichever of the queries before it failed or were cut off:
    when it is set, a transaction is open; when it is clear, and no commit or
    rollback before failed to be sent, none is open, or the last query sent was a
    command to begin one that failed. The program's own queries do not begin or end
    transactions, and its calls of [db_commit] and [db_rollback] return. *)
Theorem dbi_transactions `{TX : TxCommands} w d h :
  is_int uninit -> reach (tx_op false) w -> dbhs w !! d = Some h -> throws h = false ->
  inside (sent (lib w) (conn h)) /\
  (in_transaction h = true -> open_tx (sent (lib w) (conn h)) = true) /\
  (reach (tx_op true) w -> in_transaction h = false -> closed_tx (sent (lib w) (conn h))).
Proof.
  intros Hu Hr Hd Hth. destruct (reach_tx false w Hu Hr d h Hd Hth) as (Hi & Ho & _).
  split; [done|]. split; [done|]. intros Hall. by apply (reach_tx true w Hu Hall d h Hd Hth).
Qed.

(** C31: deleting a pool finishes the statements and closes the connections of that
    pool and the pools below, each once, in whatever order their clean-up functions
    run; the others stay as they are. *)
Theorem delete_db_pool_spec w p :
  is_int uninit -> reach (fun _ _ => True) w -> live (db_pools w) p ->
  exists w', delete_db_pool p w = Ret tt w' /\ deleted p w w' /\ owned_once w'.
Proof.
  intros Hu Hr Hp. pose proof (delete_ends (TX := library_commands) p w (reach_inv _ w Hu Hr) Hp) as He. unfold ends in He.
  destruct (delete_db_pool p w) as [[] w'| | | |]; try done. destruct He as [[[Hc _] _] Hd].
  exists w'. split; [done|]. split; [done|]. by apply core_owned.
Qed.
End reach.
