(* ===== verification/DbiFetch.v ===== *)
(** * Fetching rows

    What [st_fetch] and [st_fetch_all_rows] give for a result whose fields are
    values as PostgreSQL prints them. *)

From stdpp Require Import base list gmap.
From Stdlib Require Import Strings.Byte.
From S2P Require Import Prelude C2lib ReactorTimers Prog Cstring Regex DbiTime DbiQuery Dbi.
From S2P Require Import DbiSpec DbiOps.

(** Values of the database and the texts of them. *)
Inductive sql_value :=
  | SNull
  | SText (s : bytes)
  | SInt (n : Z)
  | SBool (b : bool)
  | STimestamp (y m d : Z) (space : bytes) (x : option clock)
  | SInterval (y m d : option (bytes * bool)) (x : option (Z * Z * option Z)).

Definition sql_text (v : sql_value) : option bytes :=
  match v with
  | SNull => None
  | SText s => Some s
  | SInt n => Some (print_int n)
  | SBool b => Some (if b then lit "t" else lit "f")
  | STimestamp y m d space x => Some (timestamp_text y m d space x)
  | SInterval y m d x => Some (interval_text y m d x)
  end.

(** The number that digits stand for, and the microseconds that the digits of a
    fraction of a second stand for. *)
Definition number (f : bytes) : Z := foldl (fun n b => 10 * n + (byte_val b - 48)) 0 f.

Definition microseconds (f : bytes) : Z := number f * 10 ^ (6 - Z.of_nat (length f)).

Definition clock_value (x : option clock) (t : dbi_timestamp) : dbi_timestamp :=
  match x with
  | None => t
  | Some x =>
    Timestamp (ts_is_null t) (year t) (month t) (day t) (c_hour x) (c_min x)
      (default 0 (c_sec x)) (from_option microseconds 0 (c_frac x))
      (from_option (fun '(west, o) => if west : bool then - o else o) 0 (c_offset x))
  end.

Definition units (a : option (bytes * bool)) : Z := from_option (fun x => number x.1) 0 a.

Definition interval_value (y m d : option (bytes * bool)) (x : option (Z * Z * option Z)) : dbi_interval :=
  Interval 0 (from_option (fun x => default 0 x.2) 0 x) (from_option (fun x => x.1.2) 0 x)
    (from_option (fun x => x.1.1) 0 x) (units d) (units m) (units y).

(** What the code reads right: a fraction is printed with all six digits (PostgreSQL
    leaves out zeros at the end), and numbers of units fit an [int]. *)
Definition six_digits (x : option clock) : Prop :=
  forall x' f, x = Some x' -> c_frac x' = Some f -> length f = 6%nat.

Definition int_units (a : option (bytes * bool)) : Prop := units a <= INT_MAX.

(** A value that can be fetched as the type [t]. *)
Definition fits (t : Z) (v : sql_value) : Prop :=
  match v with
  | SNull => is_Some (type_kind t)
  | SText _ => t = DBI_STRING \/ t = DBI_CHAR
  | SInt n => (t = DBI_INT \/ t = DBI_INT_OR_NULL) /\ is_int n
  | SBool _ => t = DBI_BOOL
  | STimestamp y m d space x =>
    t = DBI_TIMESTAMP /\ 0 <= y < 10000 /\ 0 <= m < 100 /\ 0 <= d < 100 /\
    Forall (fun b => re_space b = true) space /\ (forall x', x = Some x' -> clock_ok x') /\ six_digits x
  | SInterval y m d x => t = DBI_INTERVAL /\ amount_ok y /\ amount_ok m /\ amount_ok d /\ hms_ok x /\
    int_units y /\ int_units m /\ int_units d
  end.

(** What the variable holds; for a string, a pointer to the field. *)
Definition fetched (l : loc) (i j : nat) (t : Z) (v : sql_value) : dbi_value :=
  match v with
  | SNull =>
    match type_kind t with
    | Some KString => VString None
    | Some KChar => VChar NUL
    | Some KTimestamp => VTimestamp (Timestamp 1 0 0 0 0 0 0 0 0)
    | Some KInterval => VInterval (Interval 1 0 0 0 0 0 0)
    | _ => VInt 0
    end
  | SText s => if decide (t = DBI_CHAR) then VChar (default NUL (head s)) else VString (Some (l, i, j))
  | SInt n => VInt n
  | SBool b => VInt (if b then 1 else 0)
  | STimestamp y m d _ x => VTimestamp (clock_value x (Timestamp 0 y m d 0 0 0 0 0))
  | SInterval y m d x => VInterval (interval_value y m d x)
  end.

Lemma scan_print_int n : is_int n -> scan_int (print_int n) = Some (n, []).
Proof.
  unfold is_int, INT_MIN, INT_MAX. intros Hn. rewrite <- (app_nil_r (print_int n)).
  destruct (decide (0 <= n)) as [Hp|Hp].
  - apply scan_int_print; [unfold INT_MAX; lia|done].
  - unfold print_int. rewrite decide_True by lia. unfold scan_int. cbn [app skip_spaces].
    change (isspace "-") with false. cbn iota. rewrite decide_True by done.
    destruct (print_uint_spec 10 (- n)) as (_ & _ & Hs); [lia|lia|]. rewrite Hs by done.
    cbn [mbind option_bind]. unfold INT_MIN, INT_MAX. do 2 f_equal. lia.
Qed.

Lemma digit_range b : isdigit b = true -> 0 <= byte_val b - 48 < 10.
Proof.
  revert b. apply (byte_prop (fun b => isdigit b = true -> 0 <= byte_val b - 48 < 10)). vm_compute. reflexivity.
Qed.

Lemma digit_start b : isdigit b = true -> isspace b = false /\ b <> "-"%byte /\ b <> "+"%byte.
Proof.
  revert b. apply (byte_prop (fun b => isdigit b = true -> isspace b = false /\ b <> "-"%byte /\ b <> "+"%byte)).
  vm_compute. reflexivity.
Qed.

Lemma number_from l n :
  Forall (fun b => isdigit b = true) l -> 0 <= n ->
  scan_digits 10 l n = (foldl (fun n b => 10 * n + (byte_val b - 48)) n l, []) /\
  0 <= foldl (fun n b => 10 * n + (byte_val b - 48)) n l < (n + 1) * 10 ^ Z.of_nat (length l).
Proof.
  intros Hl. revert n. induction Hl as [|b l Hb _ IH]; intros n Hn; [simpl; split; [done|lia]|].
  pose proof (digit_range b Hb) as Hr. cbn [scan_digits foldl length].
  unfold digit_val at 1. rewrite Hb, decide_True by lia.
  destruct (IH (10 * n + (byte_val b - 48)) ltac:(lia)) as [-> Hlt]. split; [done|].
  rewrite Nat2Z.inj_succ, Z.pow_succ_r by lia. nia.
Qed.

(** [sscanf] reads the number, when it fits. *)
Lemma spelled_number l : is_digits l -> number l <= INT_MAX -> spelled l = number l.
Proof.
  intros [Hne Hl] Hn. destruct (number_from l 0 Hl ltac:(lia)) as [Hs [H0 _]].
  unfold spelled, scan_int. destruct l as [|b l]; [done|]. apply Forall_cons in Hl as [Hb _].
  destruct (digit_start b Hb) as (Hsp & Hm & Hp).
  cbn [skip_spaces]. rewrite Hsp, !decide_False by done. unfold scan_uint.
  pose proof (digit_range b Hb). unfold digit_val at 1. rewrite Hb, decide_True by lia.
  rewrite Hs. cbn [mbind option_bind]. fold (number (b :: l)) in *. unfold INT_MIN, INT_MAX in *. lia.
Qed.

Lemma clock_read_value x t :
  (forall x', x = Some x' -> clock_ok x') -> six_digits x -> clock_read x t = clock_value x t.
Proof.
  intros Hok Hsix. destruct x as [[h mi s [f|] o]|]; [|done..].
  specialize (Hsix _ f eq_refl eq_refl). destruct (Hok _ eq_refl) as (_ & _ & _ & Hf & _).
  specialize (Hf f eq_refl). unfold clock_read, clock_value, microseconds. cbn [c_frac from_option].
  destruct (number_from f 0 (proj2 Hf) ltac:(lia)) as [_ [_ Hlt]]. rewrite Hsix in *.
  rewrite spelled_number; [|done|unfold number, INT_MAX in *; simpl in Hlt; lia].
  simpl. by rewrite Z.mul_1_r.
Qed.

Lemma spelled_units_value a : amount_ok a -> int_units a -> spelled_units a = units a.
Proof.
  intros Ha Hi. destruct a as [[l p]|]; [|done]. cbn. apply spelled_number; [by apply (Ha l p)|exact Hi].
Qed.

Lemma interval_read_value y m d x :
  amount_ok y -> amount_ok m -> amount_ok d -> int_units y -> int_units m -> int_units d ->
  interval_read y m d x = interval_value y m d x.
Proof. intros. unfold interval_read, interval_value. by rewrite !spelled_units_value. Qed.

Section fetch.
Context {vec : Type -> Type} `{VL : Vector vec} `{PR : !Pre vec} `{PV : !PstringVec vec}.
Context {E : Type} `{PQ : Libpq E} `{LL : !LibpqLaws E} `{PL : Pools db_cleanup}.
Abbreviation dbw := (dbw (vec := vec) (E := E)).
Abbreviation st_handle := (st_handle (vec := vec)).
Implicit Types w : dbw.

(** ** One row *)

Lemma store_value l i j t var v w :
  fits t v ->
  store l i j t var (sql_text v) w = Ret tt (with_vars (<[var := fetched l i j t v]> (vars w)) w).
Proof.
  intros Hf. unfold store. destruct v as [|s|n|b|y m d space x|y m d x]; cbn [sql_text fetched fits] in *.
  - unfold type_kind in *.
    destruct (decide (t = DBI_STRING)); [done|].
    destruct (decide (t = DBI_INT \/ t = DBI_INT_OR_NULL)).
    { by rewrite decide_True by tauto. }
    destruct (decide (t = DBI_BOOL)); [by rewrite decide_True by tauto|].
    rewrite (decide_False (P := t = DBI_INT \/ t = DBI_INT_OR_NULL \/ t = DBI_BOOL)) in * by tauto.
    repeat (destruct (decide _); [done|]). by destruct Hf.
  - by destruct Hf as [-> | ->].
  - destruct Hf as [Ht Hn]. rewrite (decide_False (P := t = DBI_STRING)) by (destruct Ht as [-> | ->]; done).
    rewrite decide_True by done. by rewrite scan_print_int.
  - subst t. by destruct b.
  - destruct Hf as (-> & Hy & Hm & Hd & Hs & Hx & H6). rewrite <- clock_read_value by done.
    rewrite (decide_False (P := DBI_TIMESTAMP = DBI_STRING)) by done.
    rewrite (decide_False (P := DBI_TIMESTAMP = DBI_INT \/ _)) by (by intros [?|?]).
    rewrite (decide_False (P := DBI_TIMESTAMP = DBI_BOOL)) by done.
    rewrite (decide_False (P := DBI_TIMESTAMP = DBI_CHAR)) by done.
    rewrite decide_True by done. unfold mbind, prog_bind, set_var. rewrite parse_timestamp_text by done. simpl.
    by rewrite insert_insert_eq.
  - destruct Hf as (-> & Hy & Hm & Hd & Hx & Iy & Im & Id). rewrite <- interval_read_value by done.
    rewrite (decide_False (P := DBI_INTERVAL = DBI_STRING)) by done.
    rewrite (decide_False (P := DBI_INTERVAL = DBI_INT \/ _)) by (by intros [?|?]).
    rewrite (decide_False (P := DBI_INTERVAL = DBI_BOOL)) by done.
    rewrite (decide_False (P := DBI_INTERVAL = DBI_CHAR)) by done.
    rewrite (decide_False (P := DBI_INTERVAL = DBI_TIMESTAMP)) by done.
    rewrite decide_True by done. unfold mbind, prog_bind, set_var. rewrite parse_interval_text by done. simpl.
    by rewrite insert_insert_eq.
Qed.

(** The variable of a column, if the column is bound. *)
Definition bound_var (ot : otype) : option loc := if decide (ot_type ot <> 0) then varptr ot else None.

(** The variables after the columns of [bs] have been fetched; [j] is the first. *)
Fixpoint fill_row (l : loc) (i j : nat) (bs : list otype) (vs : list sql_value)
    (m : gmap loc dbi_value) : gmap loc dbi_value :=
  match bs, vs with
  | ot :: bs, v :: vs =>
    fill_row l i (S j) bs vs
      (match bound_var ot with Some var => <[var := fetched l i j (ot_type ot) v]> m | None => m end)
  | _, _ => m
  end.

Definition row_fits (bs : list otype) (vs : list sql_value) : Prop :=
  Forall2 (fun ot v => is_Some (bound_var ot) -> fits (ot_type ot) v) bs vs.

Lemma fetch_columns_row n j l x i v bs vs row w :
  elems v = bs -> (j + n = length bs)%nat -> pg_rows x !! i = Some row ->
  (exists more, row = (sql_text <$> vs) ++ more) -> row_fits bs vs ->
  fetch_columns n j l x i v w = Ret tt (with_vars (fill_row l i j (drop j bs) (drop j vs) (vars w)) w).
Proof.
  intros Hv Hn Hrow [more ->] Hfit. revert j w Hn.
  induction n as [|n IH]; intros j w Hn; cbn [fetch_columns].
  { rewrite drop_ge by lia. by destruct w. }
  destruct (lookup_lt_is_Some_2 bs j) as [ot Hot]; [lia|].
  destruct (Forall2_lookup_l _ _ _ _ _ Hfit Hot) as (y & Hy & Hfy).
  rewrite get_elems by (rewrite Hv; lia). rewrite Hv, Hot.
  rewrite (drop_S bs ot), (drop_S vs y) by done. cbn [fill_row].
  assert (field_of x i j = sql_text y) as Hfield.
  { assert (((sql_text <$> vs) ++ more) !! j = Some (sql_text y)) as Hc.
    { apply lookup_app_l_Some. by rewrite list_lookup_fmap, Hy. }
    destruct (cells_law x i j _ _ Hrow Hc) as [Hnull Hval]. unfold field_of. rewrite Hnull.
    destruct (sql_text y) as [s|]; [by rewrite (Hval s eq_refl)|done]. }
  unfold mbind, prog_bind, expect, mret, prog_ret. unfold bound_var in *.
  destruct (varptr ot) as [var|]; [destruct (decide (ot_type ot <> 0)) as [Ht|Ht]|].
  - rewrite Hfield, store_value by (by apply Hfy). by rewrite IH by lia.
  - by apply IH; lia.
  - destruct (decide _); by apply IH; lia.
Qed.

Lemma fill_row_other l i j bs vs m var :
  (var ∉ omap bound_var bs) -> fill_row l i j bs vs m !! var = m !! var.
Proof.
  revert j vs m. induction bs as [|ot bs IH]; intros j vs m Hv; [done|].
  destruct vs as [|v vs]; [done|]. cbn [fill_row omap list_omap] in *. destruct (bound_var ot) as [var1|].
  - apply not_elem_of_cons in Hv as [Hne Hv]. rewrite IH by done. by rewrite lookup_insert_ne.
  - by apply IH.
Qed.

Lemma fill_row_lookup l i j bs vs m k ot v var :
  NoDup (omap bound_var bs) -> bs !! k = Some ot -> vs !! k = Some v -> bound_var ot = Some var ->
  fill_row l i j bs vs m !! var = Some (fetched l i (j + k) (ot_type ot) v).
Proof.
  revert j vs m k. induction bs as [|ot1 bs IH]; intros j vs m k Hnd Hb Hv Hvar; [done|].
  destruct vs as [|v1 vs]; [done|]. cbn [fill_row omap list_omap] in *.
  destruct k as [|k]; simpl in Hb, Hv.
  - injection Hb as ->. injection Hv as ->. rewrite Hvar in *. apply NoDup_cons in Hnd as [Hn _].
    rewrite fill_row_other by done. rewrite lookup_insert_eq. by rewrite Nat.add_0_r.
  - rewrite <- Nat.add_succ_comm. apply IH; try done.
    destruct (bound_var ot1); [by apply NoDup_cons in Hnd as [_ ?]|done].
Qed.

(** The variables hold the row [i], whose values are [row]. *)
Definition holds_row (l : loc) (i : nat) (bs : list otype) (row : list sql_value)
    (m : gmap loc dbi_value) : Prop :=
  forall k ot var v, bs !! k = Some ot -> bound_var ot = Some var -> row !! k = Some v ->
  m !! var = Some (fetched l i k (ot_type ot) v).

(** The state of a statement whose result [x] has been received. *)
Definition selected (s l : loc) (k : Z) (rows : list (list sql_value)) (v : vec otype) w : Prop :=
  exists h x, sths w !! s = Some h /\ st_result h = Some l /\ fetch_allowed h = true /\
    next_tuple h = k /\ outtypes h = Some v /\
    results (lib w) !! l = Some x /\ pg_rows x = fmap (M := list) sql_text <$> rows.

(** Each bound column of a row has a value of its type. *)
Definition rows_fit (bs : list otype) (rows : list (list sql_value)) : Prop :=
  Forall (fun row => row_fits bs (take (length bs) row)) rows.

Lemma st_fetch_row s l k rows v w row :
  selected s l (Z.of_nat k) rows v w -> Z.of_nat (length rows) <= INT_MAX -> rows !! k = Some row ->
  rows_fit (elems v) rows -> NoDup (omap bound_var (elems v)) ->
  exists w', st_fetch s w = Ret 1 w' /\ selected s l (Z.of_nat (S k)) rows v w' /\
    holds_row l k (elems v) row (vars w').
Proof.
  intros (h & x & Hs & Hl & Ha & Hk & Hv & Hx & Hrows) Hlen Hrow Hfit Hnd.
  unfold INT_MAX in Hlen. pose proof (lookup_lt_Some _ _ _ Hrow) as Hlt.
  assert (pg_rows x !! k = Some (sql_text <$> row)) as Hcell by (by rewrite Hrows, list_lookup_fmap, Hrow).
  assert (row_fits (elems v) (take (length (elems v)) row)) as Hf
    by exact (Forall_lookup_1 _ _ _ _ Hfit Hrow).
  set (m := fill_row l k 0 (elems v) (take (length (elems v)) row) (vars w)).
  set (h' := set_fetch (fetch_allowed h) (to_int (next_tuple h + 1)) h).
  exists (with_sths (<[s := h']> (sths w)) (with_vars m w)). split; [|split].
  - unfold st_fetch, get_sth, get_result, mbind, prog_bind, get_state. rewrite Hs. unfold expect, mret, prog_ret.
    unfold fetch_check. rewrite Hl, Ha. unfold mret, prog_ret. rewrite Hx.
    rewrite decide_False.
    2: { unfold PQntuples. rewrite Hrows, length_fmap, wraps_small by lia. lia. }
    rewrite Hv, Hk, Nat2Z.id.
    erewrite (fetch_columns_row _ 0); [|done|by rewrite size_elems|done| |exact Hf].
    2: { exists (sql_text <$> drop (length (elems v)) row). by rewrite <- fmap_app, take_drop. }
    rewrite !drop_0. simpl. rewrite Hs. unfold put_sth, h', m. by rewrite Hk.
  - exists h', x. simpl. rewrite lookup_insert_eq. split_and!; try done.
    rewrite Hk, wraps_small by lia. lia.
  - intros j ot var y Hot Hvar Hy. apply (fill_row_lookup l k 0); try done.
    rewrite lookup_take_lt; [done|]. by eapply lookup_lt_Some.
Qed.

Lemma st_fetch_end s l rows v w :
  selected s l (Z.of_nat (length rows)) rows v w -> Z.of_nat (length rows) <= INT_MAX ->
  st_fetch s w = Ret 0 w.
Proof.
  intros (h & x & Hs & Hl & Ha & Hk & Hv & Hx & Hrows) Hlen. unfold INT_MAX in Hlen.
  unfold st_fetch, get_sth, get_result, mbind, prog_bind, get_state. rewrite Hs. unfold expect, mret, prog_ret.
  unfold fetch_check. rewrite Hl, Ha. unfold mret, prog_ret. rewrite Hx.
  rewrite decide_True; [done|]. unfold PQntuples. rewrite Hrows, length_fmap, wraps_small by lia. lia.
Qed.

(** [n] calls of [st_fetch]: what each returns, and the variables after it. *)
Fixpoint fetches (n : nat) (s : loc) : prog dbw (list (Z * gmap loc dbi_value)) :=
  match n with
  | O => mret []
  | S n => r ← st_fetch s; w ← get_state; rs ← fetches n s; mret ((r, vars w) :: rs)
  end.

Lemma fetches_from k s l rows v w n :
  selected s l (Z.of_nat k) rows v w -> Z.of_nat (length rows) <= INT_MAX ->
  rows_fit (elems v) rows -> NoDup (omap bound_var (elems v)) -> (k + n = length rows)%nat ->
  exists ms w', length ms = n /\
    fetches (S n) s w = Ret (((fun m => (1, m)) <$> ms) ++ [(0, vars w')]) w' /\
    forall i m row, ms !! i = Some m -> rows !! (k + i)%nat = Some row ->
      holds_row l (k + i) (elems v) row m.
Proof.
  intros Hsel Hlen Hfit Hnd. revert k w Hsel. induction n as [|n IH]; intros k w Hsel Hn.
  - exists [], w. split; [done|]. split; [|done]. cbn [fetches].
    rewrite Nat.add_0_r in Hn. subst k. unfold mbind, prog_bind.
    by rewrite (st_fetch_end s l rows v w).
  - destruct (lookup_lt_is_Some_2 rows k) as [row Hrow]; [lia|].
    destruct (st_fetch_row s l k rows v w row) as (w1 & H1 & S1 & R1); try done.
    destruct (IH (S k) w1 S1 ltac:(lia)) as (ms & w' & Hms & Hrun & Hrest).
    exists (vars w1 :: ms), w'. split; [simpl; lia|]. split.
    + change (fetches (S (S n)) s) with
        (r ← st_fetch s; w ← get_state; rs ← fetches (S n) s; mret ((r, vars w) :: rs)).
      rewrite (bind_ret _ _ _ _ _ H1). unfold mbind, prog_bind at 1, get_state.
      unfold prog_bind. by rewrite Hrun.
    + intros [|i] m row'; simpl.
      * intros [= <-]. rewrite Nat.add_0_r, Hrow. by intros [= <-].
      * rewrite <- Nat.add_succ_comm. apply Hrest.
Qed.


(** ** All rows *)

Lemma all_columns_spec n col x i acc row :
  pg_rows x !! i = Some row -> (col + n = length row)%nat ->
  elems (all_columns (vec := vec) n col x i acc) = elems acc ++ drop col row.
Proof.
  intros Hrow. revert col acc. induction n as [|n IH]; intros col acc Hn; cbn [all_columns].
  - rewrite drop_ge by lia. by rewrite app_nil_r.
  - destruct (lookup_lt_is_Some_2 row col) as [y Hy]; [lia|].
    rewrite IH, elems_push_back, <- app_assoc by lia. rewrite (drop_S row y col) by done. simpl.
    do 2 f_equal. destruct (cells_law x i col row y Hrow Hy) as [Hn1 Hv1]. unfold field_of. rewrite Hn1.
    destruct y as [t|]; [by rewrite (Hv1 t eq_refl)|done].
Qed.

Lemma all_rows_spec n i x acc :
  (i + n = length (pg_rows x))%nat -> Forall (fun row => length row = pg_nfields x) (pg_rows x) ->
  elems <$> elems (all_rows n i x acc) = (elems <$> elems acc) ++ drop i (pg_rows x).
Proof.
  intros Hn Hcols. revert i acc Hn. induction n as [|n IH]; intros i acc Hn; cbn [all_rows].
  - rewrite drop_ge by lia. by rewrite app_nil_r.
  - destruct (lookup_lt_is_Some_2 (pg_rows x) i) as [row Hrow]; [lia|].
    rewrite IH, elems_push_back, fmap_app, <- app_assoc by lia. rewrite (drop_S _ row i) by done.
    simpl. do 2 f_equal. rewrite (all_columns_spec _ 0 x i _ row); [by rewrite elems_new|done|].
    symmetry. by apply (Forall_lookup_1 _ _ _ _ Hcols Hrow).
Qed.

(** [st_fetch_all_rows] gives all the rows of a result, null values included,
    and leaves the state as it was. *)
Theorem st_fetch_all_rows_spec s h l x w :
  sths w !! s = Some h -> st_result h = Some l -> fetch_allowed h = true ->
  results (lib w) !! l = Some x -> Forall (fun row => length row = pg_nfields x) (pg_rows x) ->
  Z.of_nat (length (pg_rows x)) <= INT_MAX ->
  exists v, st_fetch_all_rows s w = Ret (Some v) w /\ fmap (M := list) elems (elems v) = pg_rows x.
Proof.
  intros Hs Hl Ha Hx Hcols Hlen. unfold INT_MAX in Hlen.
  exists (all_rows (Z.to_nat (PQntuples x)) 0 x new_vector). split.
  - unfold st_fetch_all_rows, get_sth, get_result, mbind, prog_bind, get_state. rewrite Hs.
    unfold expect, mret, prog_ret, fetch_check. rewrite Hl, Ha. unfold mret, prog_ret. by rewrite Hx.
  - unfold PQntuples. rewrite wraps_small, Nat2Z.id by lia.
    rewrite all_rows_spec by done. by rewrite elems_new.
Qed.
End fetch.

(** A shorter fraction, as PostgreSQL prints it, is read wrong: half a second becomes
    five microseconds. *)
Lemma short_fraction_misread :
  parse_timestamp (vec := list) (lit "2002-11-05 12:34:56.5") zero_timestamp tt =
    Ret (Timestamp 0 2002 11 5 12 34 56 5 0) tt /\ microseconds (lit "5") = 500000.
Proof. split; vm_compute; reflexivity. Qed.
