(* ===== verification/DbiExamples.v ===== *)
(** * Examples of the database interface

    A server that follows a script, with runs of programs on it: instances of the
    theorems and behaviours of the error paths. *)

From stdpp Require Import base list gmap.
From Stdlib Require Import Strings.Byte.
From S2P Require Import Prelude C2lib ReactorTimers Prog Cstring Regex DbiTime DbiQuery Dbi.
From S2P Require Import DbiSpec DbiOps DbiReach DbiFetch.

(** The script has an entry for each query: the results of it, or [None] if it
    cannot be sent. *)
Record server := Server {
  sv_results : gmap loc pgresult;
  sv_conns : gset loc;
  sv_sent : list (loc * bytes);
  sv_script : list (option (list pgresult));
  sv_out : list pgresult;
  sv_ticks : nat
}.

Definition sv_log (e : server) (c : loc) : list bytes :=
  snd <$> filter (fun x => x.1 = c) (sv_sent e).

Definition sv_send (c : loc) (q : bytes) (e : server) : Z * server :=
  match sv_script e with
  | None :: script => (0, Server (sv_results e) (sv_conns e) (sv_sent e) script (sv_out e) (sv_ticks e))
  | Some rs :: script =>
    (1, Server (sv_results e) (sv_conns e) (sv_sent e ++ [(c, q)]) script rs (S (length rs)))
  | [] => (1, Server (sv_results e) (sv_conns e) (sv_sent e ++ [(c, q)]) [] [] 1)
  end.

Definition sv_get (c : loc) (e : server) : option loc * server :=
  match sv_ticks e, sv_out e with
  | S n, x :: out =>
    let l := fresh (dom (sv_results e)) in
    (Some l, Server (<[l := x]> (sv_results e)) (sv_conns e) (sv_sent e) (sv_script e) out n)
  | _, _ => (None, e)
  end.

Definition sv_connect (info : bytes) (e : server) : option loc * server :=
  let c := fresh (sv_conns e ∪ list_to_set (fst <$> sv_sent e)) in
  (Some c, Server (sv_results e) ({[c]} ∪ sv_conns e) (sv_sent e) (sv_script e) (sv_out e) (sv_ticks e)).

Definition sv_cell (x : pgresult) (i j : nat) : option bytes :=
  pg_rows x !! i ≫= fun row => default None (row !! j).

#[export] Instance server_pq : Libpq server := {|
  results := sv_results;
  conns := sv_conns;
  sent := sv_log;
  pending e _ := sv_ticks e;
  PQconnectStart := sv_connect;
  PQstatus _ _ := 0;
  PQsetnonblocking _ e := (0, e);
  PQisnonblocking _ _ := true;
  PQsocket _ _ := 3;
  PQconnectPoll _ e := (PGRES_POLLING_OK, e);
  PQfinish c e := Server (sv_results e) (sv_conns e ∖ {[c]}) (sv_sent e) (sv_script e) (sv_out e) (sv_ticks e);
  PQsendQuery := sv_send;
  PQisBusy _ _ := false;
  PQflush _ e := (0, e);
  PQconsumeInput _ e :=
    (1, Server (sv_results e) (sv_conns e) (sv_sent e) (sv_script e) (sv_out e) (pred (sv_ticks e)));
  PQgetResult := sv_get;
  PQclear l e := Server (delete l (sv_results e)) (sv_conns e) (sv_sent e) (sv_script e) (sv_out e) (sv_ticks e);
  PQgetisnull x i j := bool_decide (sv_cell x i j = None);
  PQgetvalue x i j := default [] (sv_cell x i j);
  pth_wait_readable _ e := Ret 1 e;
  pth_wait_writable _ e := Ret 1 e |}.

Lemma sv_log_snoc r cs l q sc o n c c' :
  sv_log (Server r cs (l ++ [(c, q)]) sc o n) c' =
  (snd <$> filter (fun x => x.1 = c') l) ++ (if decide (c = c') then [q] else []).
Proof.
  unfold sv_log. simpl. rewrite filter_app, fmap_app. f_equal. rewrite filter_cons. simpl.
  by destruct (decide (c = c')).
Qed.

#[export] Instance server_laws : LibpqLaws server.
Proof.
  split; simpl.
  - intros s e. pose proof (is_fresh (sv_conns e ∪ list_to_set (fst <$> sv_sent e))) as Hf.
    rewrite not_elem_of_union in Hf. destruct Hf as [Hf1 Hf2].
    split_and!; try done. unfold sv_log. simpl. rewrite elem_of_list_to_set in Hf2.
    assert (filter (fun x : loc * bytes => x.1 = fresh (sv_conns e ∪ list_to_set (fst <$> sv_sent e)))
      (sv_sent e) = []) as ->; [|done].
    generalize dependent (fresh (C := gset loc) (sv_conns e ∪ list_to_set (fst <$> sv_sent e))).
    intros c _ Hc. induction (sv_sent e) as [|x l IH]; [done|].
    rewrite fmap_cons, not_elem_of_cons in Hc. rewrite filter_cons_False; [apply IH, Hc|]. naive_solver.
  - done.
  - intros c e. split; [done|]. by intros [].
  - done.
  - intros c q e. unfold sv_send. destruct (sv_script e) as [|[rs|] sc]; simpl.
    + split_and!; try done; [by rewrite sv_log_snoc, decide_True|].
      intros c' Hc. rewrite sv_log_snoc, decide_False by done. by rewrite app_nil_r.
    + split_and!; try done; [by rewrite sv_log_snoc, decide_True|].
      intros c' Hc. rewrite sv_log_snoc, decide_False by done. by rewrite app_nil_r.
    + done.
  - done.
  - intros c e. split; [done|]. intros c'. done.
  - intros c e. split; [done|]. done.
  - intros c e. unfold sv_get. destruct (sv_ticks e) as [|n] eqn:Et; [done|].
    destruct (sv_out e) as [|x out]; [done|]. simpl.
    split_and!; try done; [by apply not_elem_of_dom, is_fresh|by eexists|lia].
  - done.
  - intros x i j row v Hr Hv. unfold sv_cell. rewrite Hr. simpl. rewrite Hv. simpl.
    split; [done|]. by intros s ->.
  - done.
  - done.
Qed.

(** ** A program *)

Abbreviation sdbw := (dbw (vec := list) (E := server)).
Abbreviation sop := (db_op (vec := list)).

Definition junk0 : nat -> byte := fun _ => x00.
Definition garbage : Z := 12345.

Definition tuples (rows : list (list sql_value)) : pgresult :=
  PgResult PGRES_TUPLES_OK [] 2 (fmap (M := list) (fmap (M := list) sql_text) rows) [].
Definition command_ok (n : bytes) : pgresult := PgResult PGRES_COMMAND_OK n 0 [] [].

Definition start (script : list (option (list pgresult))) : sdbw :=
  DbW init_pools ∅ ∅ {[1%positive := VInt 0; 2%positive := VString None]}
    (Server ∅ ∅ [] script [] 0).

(** Some of the commands about transactions that PostgreSQL has. *)
#[export] Program Instance sample_commands : TxCommands := {|
  tx_begins q := bool_decide (q ∈ [BEGIN; lit "begin"; lit "begin transaction"; lit "start transaction"]);
  tx_ends q := bool_decide (q ∈ [COMMIT; ROLLBACK; lit "commit"; lit "rollback"; lit "end"; lit "abort"]) |}.
Next Obligation. reflexivity. Qed.
Next Obligation. split; reflexivity. Qed.
Next Obligation. split; reflexivity. Qed.
Next Obligation.
  intros s. split; apply bool_decide_eq_false; rewrite !elem_of_cons, elem_of_nil; naive_solver.
Qed.

(** The state after calls that end. *)
Definition do_op (w : sdbw) (op : sop) : sdbw := default w (after (run_op junk0 garbage op w)).

Lemma garbage_int : is_int garbage.
Proof. unfold is_int, garbage, INT_MIN, INT_MAX. lia. Qed.

Lemma reach_do P w op :
  reach junk0 garbage P w -> op_ok w op -> refused w op = false -> P w op ->
  reach junk0 garbage P (do_op w op).
Proof.
  intros Hr Hok Href HP. eapply reach_op; [exact Hr|exact Hok|exact HP|].
  pose proof (op_ends junk0 garbage w op garbage_int
    (reach_inv junk0 garbage P w garbage_int Hr) Hok Href) as He.
  unfold do_op. unfold ends in He. by destruct (run_op junk0 garbage op w).
Qed.

Lemma init_within x y : within (init_pools (cl := db_cleanup)) x y <-> x = 1%positive /\ y = 1%positive.
Proof.
  split.
  - intros (e & He & Hy). simpl in He. unfold mp_init in He.
    apply lookup_singleton_Some in He as [<- <-]. simpl in Hy. by apply list_elem_of_singleton in Hy.
  - intros [-> ->]. exact (mp_init_live db_cleanup).
Qed.

Lemma start_initial script : initial (start script).
Proof.
  split; simpl; try done.
  - intros var x. rewrite lookup_insert_Some, lookup_singleton_Some.
    intros [[_ <-]|[_ [_ <-]]]; simpl; [|done]. unfold is_int, INT_MIN, INT_MAX. lia.
  - intros x. unfold mp_cleanups, mp_init. destruct (decide (x = 1%positive)) as [->|Hne].
    + by rewrite lookup_singleton_eq.
    + by rewrite lookup_singleton_ne.
  - intros x y [-> _]%init_within. by apply init_within.
  - intros x y z [-> _]%init_within [_ ->]%init_within. by apply init_within.
Qed.

(** Two rows, with a null value and a quote. *)
Definition demo_rows : list (list sql_value) :=
  [[SInt (-7); SText (lit "it's")]; [SInt 42; SNull]].

Definition w0 : sdbw := start [Some [command_ok []]; Some [tuples demo_rows]; Some [command_ok []]].
Definition op_new : sop := ONew 1%positive 1%positive [] 0.
Definition w1 : sdbw := do_op w0 op_new.
Definition op_prepare : sop := OPrepare 1%positive (lit "select a, b from t where c = ?") [DBI_STRING].
Definition w2 : sdbw := do_op w1 op_prepare.
Definition op_bind_a : sop := OBind 1%positive 0 (Some 1%positive) DBI_INT.
Definition w3 : sdbw := do_op w2 op_bind_a.
Definition op_bind_b : sop := OBind 1%positive 1 (Some 2%positive) DBI_STRING.
Definition w4 : sdbw := do_op w3 op_bind_b.
Definition op_execute : sop := OExecute 1%positive [AString (Some (lit "x'; drop table t"))].
Definition w5 : sdbw := do_op w4 op_execute.
Definition w6 : sdbw := do_op w5 (OCommit 1%positive).

(** The handles in those states. *)
Definition some_sth : st_handle (vec := list) := StHandle (1%positive : pool) 1 [] [] [] None false 0 None.
Definition h4 : st_handle (vec := list) := Eval vm_compute in default some_sth (sths w4 !! 1%positive).
Definition h5 : st_handle (vec := list) := Eval vm_compute in default some_sth (sths w5 !! 1%positive).
Definition d5 : db_handle :=
  Eval vm_compute in default (DbHandle (1%positive : pool) [] 0 false 1) (dbhs w5 !! 1%positive).

Lemma demo_db_handles :
  sths w4 !! 1%positive = Some h4 /\ sths w5 !! 1%positive = Some h5 /\ dbhs w5 !! 1%positive = Some d5.
Proof. split; [|split]; vm_compute; reflexivity. Qed.

Ltac is_there := apply (bool_decide_unpack _); vm_compute; exact I.

Lemma demo_ok :
  op_ok w0 op_new /\ op_ok w1 op_prepare /\ op_ok w2 op_bind_a /\ op_ok w3 op_bind_b /\ op_ok w4 op_execute.
Proof.
  split_and!.
  - split; [done|]. by apply init_within.
  - split; [is_there|]. split; [by repeat constructor|done].
  - split; [is_there|]. split; [lia|]. intros var [= <-] _. exists (VInt 0). split; [|done]. vm_compute. done.
  - split; [is_there|]. split; [lia|]. intros var [= <-] _. exists (VString None). split; [|done]. vm_compute. done.
  - exists h4. split; [apply demo_db_handles|]. simpl. split; [|done]. intros _. split_and!; try done.
    by apply (bool_decide_unpack _).
Qed.

Lemma demo_accepted :
  refused w0 op_new = false /\ refused w1 op_prepare = false /\ refused w2 op_bind_a = false /\
  refused w3 op_bind_b = false /\ refused w4 op_execute = false.
Proof. split_and!; vm_compute; reflexivity. Qed.

Lemma demo_reach (P : sdbw -> sop -> Prop) :
  P w0 op_new -> P w1 op_prepare -> P w2 op_bind_a -> P w3 op_bind_b -> P w4 op_execute ->
  reach junk0 garbage P w5.
Proof.
  intros P0 P1 P2 P3 P4. destruct demo_ok as (O0 & O1 & O2 & O3 & O4).
  destruct demo_accepted as (R0 & R1 & R2 & R3 & R4).
  apply reach_do; [|done|done|done]. apply reach_do; [|done|done|done]. apply reach_do; [|done|done|done].
  apply reach_do; [|done|done|done]. apply reach_do; [|done|done|done]. apply reach_initial, start_initial.
Qed.

(** A statement with a timestamp as its argument. *)
Definition op_timestamp : sop := OPrepare 1%positive (lit "select ?") [DBI_TIMESTAMP].
Definition wt : sdbw := do_op w1 op_timestamp.
Definition ht : st_handle (vec := list) := Eval vm_compute in default some_sth (sths wt !! 1%positive).

Lemma timestamp_reach : reach junk0 garbage (fun _ _ => True) wt /\ op_ok wt (OExecute 1%positive [AInt 0]).
Proof.
  destruct demo_ok as (O0 & _). destruct demo_accepted as (R0 & _). split.
  - apply reach_do; [apply reach_do; [apply reach_initial, start_initial|done..]| |done|done].
    split; [is_there|]. split; [by repeat constructor|done].
  - exists ht. split; [vm_compute; reflexivity|]. simpl. by split.
Qed.

Lemma dbi_memory_safe_witness :
  ((exists w', after (run_op junk0 garbage (OFetch 1%positive) w5) = Some w') /\ owned_once w5) /\
  run_op junk0 garbage (OExecute 1%positive [AInt 0]) wt = Abort.
Proof.
  split.
  - apply (dbi_memory_safe junk0 garbage w5 (OFetch 1%positive)).
    + exact garbage_int.
    + by apply demo_reach.
    + is_there.
  - destruct timestamp_reach as [Hr Hok].
    apply (dbi_memory_safe junk0 garbage wt (OExecute 1%positive [AInt 0]) garbage_int Hr Hok).
Defined.

Lemma dbi_types_witness :
  exists x, vars w5 !! 1%positive = Some x /\ type_kind DBI_INT = Some (kind_of x) /\ value_ok x.
Proof.
  apply (dbi_types junk0 garbage w5 1%positive h5
    [OType DBI_INT (Some 1%positive); OType DBI_STRING (Some 2%positive)] (OType DBI_INT (Some 1%positive))).
  - exact garbage_int.
  - by apply demo_reach.
  - apply demo_db_handles.
  - reflexivity.
  - by left.
  - done.
  - done.
Defined.

(** Every call of the program is one after which the flags are known. *)
Lemma demo_tx all : reach junk0 garbage (tx_op junk0 garbage all) w5.
Proof.
  apply demo_reach; (split; [|discriminate]); [exact I..|]. intros h q Hh Hq.
  rewrite (proj1 demo_db_handles) in Hh. injection Hh as <-. vm_compute in Hq. injection Hq as <-.
  split; reflexivity.
Qed.

Lemma commit_tx all : reach junk0 garbage (tx_op junk0 garbage all) w6.
Proof.
  apply reach_do; [apply demo_tx|is_there|done|]. split; [exact I|]. intros _.
  exists tt, w6. split; [vm_compute; reflexivity|]. intros _ h Hh.
  rewrite (proj2 (proj2 demo_db_handles)) in Hh. injection Hh as <-. vm_compute. reflexivity.
Qed.

Definition d6 : db_handle := set_in_transaction false d5.

(** A query, and then a commit. *)
Lemma dbi_transactions_witness :
  inside (sent (lib w5) 1%positive) /\ open_tx (sent (lib w5) 1%positive) = true /\
  inside (sent (lib w6) 1%positive) /\ closed_tx (sent (lib w6) 1%positive) /\
  length (sent (lib w6) 1%positive) = 3%nat.
Proof.
  destruct (dbi_transactions junk0 garbage w5 1%positive d5) as (H1 & H2 & _);
    [exact garbage_int|apply demo_tx|apply demo_db_handles|reflexivity|].
  destruct (dbi_transactions junk0 garbage w6 1%positive d6) as (H3 & _ & H4);
    [exact garbage_int|apply commit_tx|vm_compute; reflexivity|reflexivity|].
  split_and!; [exact H1|exact (H2 eq_refl)|exact H3|exact (H4 (commit_tx true) eq_refl)|vm_compute; reflexivity].
Defined.

Lemma delete_db_pool_spec_witness :
  exists w', delete_db_pool (1%positive : pool) w5 = Ret tt w' /\ deleted (1%positive : pool) w5 w' /\ owned_once w'.
Proof.
  apply (delete_db_pool_spec junk0 garbage w5).
  - exact garbage_int.
  - by apply demo_reach.
  - assert (is_Some (db_pools w5 !! 1%positive)) as [e He] by is_there. exists e. split; [exact He|].
    vm_compute in He. injection He as <-. by left.
Defined.

(** ** Fetching *)

Definition l5 : loc := Eval vm_compute in default 1%positive (st_result h5).
Definition demo_out : list otype := [OType DBI_INT (Some 1%positive); OType DBI_STRING (Some 2%positive)].

Lemma demo_result : results (lib w5) !! l5 = Some (tuples demo_rows).
Proof. vm_compute. reflexivity. Qed.

Lemma demo_selected : selected 1%positive l5 0 demo_rows demo_out w5.
Proof.
  exists h5, (tuples demo_rows). split; [apply demo_db_handles|].
  split; [reflexivity|]. split; [reflexivity|]. split; [reflexivity|]. split; [reflexivity|].
  split; [apply demo_result|reflexivity].
Qed.


Lemma st_fetch_all_rows_spec_witness :
  exists v, st_fetch_all_rows 1%positive w5 = Ret (Some v) w5 /\
    fmap (M := list) elems (elems v) =
      [[Some (lit "-7"); Some (lit "it's")]; [Some (lit "42"); None]].
Proof.
  apply (st_fetch_all_rows_spec 1%positive h5 l5 (tuples demo_rows) w5).
  - apply demo_db_handles.
  - reflexivity.
  - reflexivity.
  - apply demo_result.
  - by repeat constructor.
  - unfold INT_MAX. simpl. lia.
Defined.

(** ** Error paths *)

(** A statement on a new handle. *)
Definition prepared_on (flags : Z) (q : bytes) (script : list (option (list pgresult))) : sdbw :=
  do_op (do_op (start script) (ONew 1%positive 1%positive [] flags)) (OPrepare 1%positive q []).

Definition insert_row : bytes := lit "insert into t values (1)".

(** The first execution fails when the transaction is begun, the second is fine. *)
Definition after_begin_error : sdbw :=
  do_op (prepared_on DBI_THROW_ERRORS insert_row [None; Some [command_ok (lit "1")]])
    (OExecute 1%positive []).

(** With [DBI_THROW_ERRORS], an error of the query that begins a transaction leaves
    the handle with its flag set: the next query is sent without a transaction. *)
Lemma begin_error_loses_transaction :
  fmap in_transaction (dbhs after_begin_error !! 1%positive) = Some true /\
  sv_log (lib after_begin_error) 1%positive = [] /\
  let w := do_op after_begin_error (OExecute 1%positive []) in
  sv_log (lib w) 1%positive = [insert_row] /\ ~ inside (sv_log (lib w) 1%positive).
Proof.
  split; [vm_compute; reflexivity|]. split; [vm_compute; reflexivity|]. intros w.
  assert (sv_log (lib w) 1%positive = [insert_row]) as E by (vm_compute; reflexivity).
  split; [exact E|]. rewrite E. clear E w. intros H.
  destruct (H [] insert_row [] eq_refl) as [HB|HO]; [discriminate HB|discriminate HO].
Qed.

(** A select that is executed twice; the second time it cannot be sent. *)
Definition stale : sdbw :=
  do_op (prepared_on 0 (lit "select a, b from t")
    [Some [command_ok []]; Some [tuples demo_rows]; None]) (OExecute 1%positive []).

(** What a program returns, if it does. *)
Definition returned {A} (m : prog sdbw A) (w : sdbw) : option A :=
  match m w with Ret a _ => Some a | _ => None end.

(** After an execution that failed, [st_fetch] goes on with the rows of the
    execution before it. *)
Lemma failed_execute_keeps_rows :
  returned (r ← st_execute junk0 garbage 2 1%positive []; f ← st_fetch 1%positive; mret (r, f)) stale =
    Some (-1, 1).
Proof. vm_compute. reflexivity. Qed.

(** When the query of [st_serial] fails, [st_fetch] returns -1 and not 0, and the
    result is the variable, which was never set. *)
Lemma serial_uninitialised :
  returned (st_serial junk0 garbage 9%positive 1%positive (lit "seq"))
    (prepared_on 0 insert_row [Some [command_ok []]; None]) = Some garbage.
Proof. vm_compute. reflexivity. Qed.
